(** * Production-mix optimiser and CVRP route extraction: a shallow embedding

    The development follows the Python sources of the repository:

    - [core/validation.py]             (module [Validation])
    - [core/optimizers/*.py]           (module [Optimizers])
    - [core/factory.py]                (module [Factory])
    - [api/endpoints/production.py]    (module [Endpoint])
    - [core/analysis.py]               (module [Analysis])
    - [vehicle-routing/core/solver.py] (module [VRP])

    Numbers are held as their rational value ([Q]). What is modelled of the
    floats is the conversion of an int that meets a float, which raises
    [OverflowError] when the int is out of range; the rounding of float
    arithmetic is not modelled, so a sum or a product here is the exact one
    and the properties below say how a number is computed, or restate the
    comparisons of the code, rather than bound a rounded result. Python
    dictionaries are association lists in insertion order;
    exceptions are an explicit result type; the messages built by format
    strings are constructors carrying the interpolated values. The LP/MILP
    engine is a black box: everything is parameterised by what the engine
    answers for the model it is given. The [while True] loop of the route
    extraction takes fuel.

    The modules [Spec], [Invariants] and [Scenarios] hold the statements of
    the design document, the predicates of the proofs and the concrete
    inputs; the properties follow in the modules named [...Facts]. *)

From Stdlib Require Import List Ascii String Bool Arith ZArith QArith Qabs Qminmax
  Lia Lqa.
Import ListNotations.
Open Scope string_scope.
Open Scope list_scope.
Open Scope nat_scope.

(** ** Python primitives *)

Module Py.

(** The exceptions the modelled code can raise. *)
Inductive exn : Type :=
| KeyError (key : string)
| TypeError
| ValueError (msg : string)
| OverflowError
| GurobiError (msg : string).

(** Outcome of a Python call: a value, or a raised exception. *)
Inductive res (A : Type) : Type :=
| Ret (a : A)
| Raise (e : exn).
Arguments Ret {A} a.
Arguments Raise {A} e.

Definition bind {A B : Type} (m : res A) (k : A -> res B) : res B :=
  match m with
  | Ret a => k a
  | Raise e => Raise e
  end.

(** A key of a JSON object holding a number: the key may be missing, or
    present with the value [null] (Python [None]), or present with a number. *)
Inductive field : Type :=
| Absent
| Null
| Num (q : Q).

(** ['k' in d] *)
Definition has (f : field) : bool :=
  match f with Absent => false | _ => true end.

(** [d['k']]: [None] of [option Q] is Python's [None]. *)
Definition subscript (key : string) (f : field) : res (option Q) :=
  match f with
  | Absent => Raise (KeyError key)
  | Null => Ret None
  | Num q => Ret (Some q)
  end.

(** [d['k'] is not None], for a key known to be present. *)
Definition is_not_None (f : field) : bool :=
  match f with Num _ => true | _ => false end.

Definition Qltb (a b : Q) : bool := negb (Qle_bool b a).

(** [v < c] and [v > c]: comparing [None] with a number is a [TypeError]. *)
Definition lt (v w : option Q) : res bool :=
  match v, w with
  | Some a, Some b => Ret (Qltb a b)
  | _, _ => Raise TypeError
  end.

Definition gt (v w : option Q) : res bool := lt w v.

(** The ints and the floats of a JSON document are both held as their
    rational value. Comparisons are exact. Arithmetic that mixes an int with
    a float converts the int first, and converting an int of magnitude
    [2^1024 - 2^970] or more raises [OverflowError]; a float is never that
    large, so the conversion is decided on the value alone. The rounding of
    float results, and their overflow to infinity, are not modelled. *)
Definition float_limit : Q := inject_Z (2 ^ 1024 - 2 ^ 970).

(** [float(n)], also the conversion an int undergoes next to a float. *)
Definition float (q : Q) : res Q :=
  if Qltb (Qabs q) float_limit then Ret q else Raise OverflowError.
Arguments float : simpl never.

(** [max(a, b)] of two numbers: Python returns the first maximal argument. *)
Definition max (a b : Q) : Q := if Qltb a b then b else a.

(** Dictionaries with string keys, in insertion order. *)
Definition dict (V : Type) : Type := list (string * V).

Fixpoint dict_get {V : Type} (k : string) (d : dict V) : option V :=
  match d with
  | [] => None
  | (k', v) :: rest => if String.eqb k' k then Some v else dict_get k rest
  end.

Definition dict_mem {V : Type} (k : string) (d : dict V) : bool :=
  match dict_get k d with Some _ => true | None => false end.

(** [d[k] = v]: an existing key keeps its position, a new key is appended. *)
Fixpoint dict_set {V : Type} (k : string) (v : V) (d : dict V) : dict V :=
  match d with
  | [] => [(k, v)]
  | (k', v') :: rest =>
      if String.eqb k' k then (k, v) :: rest else (k', v') :: dict_set k v rest
  end.

Definition keys {V : Type} (d : dict V) : list string := map fst d.
Definition values {V : Type} (d : dict V) : list V := map snd d.

(** A set of strings, listed in insertion order. *)
Definition mem (s : string) (l : list string) : bool := existsb (String.eqb s) l.
Definition set_add (s : string) (l : list string) : list string :=
  if mem s l then l else l ++ [s].

(** [len(l) == 0] *)
Definition is_empty {A : Type} (l : list A) : bool :=
  match l with [] => true | _ => false end.

(** [sum(xs)] *)
Definition sum (xs : list Q) : Q := fold_left Qplus xs 0%Q.

End Py.

Import Py.

Declare Scope py_scope.
Notation "x <- m ;; k" := (bind m (fun x => k))
  (at level 61, m at next level, right associativity) : py_scope.
Notation "' pat <- m ;; k" := (bind m (fun x => match x with pat => k end))
  (at level 61, pat pattern, m at next level, right associativity) : py_scope.
Open Scope py_scope.

(** ** The request payload (section 6.2 of the design, [api/serializers]) *)

Record product : Type := {
  p_name : option string;
  profit_per_unit : field;
  cost_per_unit : field }.

Record resource : Type := {
  r_name : option string;
  available_capacity : field }.

Record usage_row : Type := {
  ru_product_name : option string;
  ru_resource_name : option string;
  usage_per_unit : field }.

Record demand_constraint : Type := {
  dc_product_name : option string;
  min_demand : field;
  max_demand : field }.

Record total_constraints_t : Type := {
  min_total : field;
  max_total : field }.

(** A top-level key that is missing is [None]. An empty [total_constraints]
    object is the record with both keys [Absent]. *)
Record data : Type := {
  objective : option string;
  products : option (list product);
  resources : option (list resource);
  resource_usage : option (list usage_row);
  demand_constraints : option (list demand_constraint);
  total_constraints : option total_constraints_t }.

(** [d['k']] for a key holding a string or a list. *)
Definition get {A : Type} (key : string) (o : option A) : res A :=
  match o with
  | Some a => Ret a
  | None => Raise (KeyError key)
  end.

(** ['k' in data] *)
Definition present {A : Type} (o : option A) : bool :=
  match o with Some _ => true | None => false end.

(** Truth value of [data['total_constraints']]: a non-empty object. *)
Definition truthy (tc : total_constraints_t) : bool :=
  has (min_total tc) || has (max_total tc).

(** The payload [d] with the key ['demand_constraints'] removed ([None]) or
    set to the given rows. *)
Definition with_demand_constraints (d : data)
    (dcs : option (list demand_constraint)) : data :=
  {| objective := objective d; products := products d;
     resources := resources d; resource_usage := resource_usage d;
     demand_constraints := dcs; total_constraints := total_constraints d |}.

(** ** The LP engine as seen by the optimisers (gurobipy) *)

Module Engine.

(** [float('inf')], the default upper bound of [Model.addVar]. *)
Inductive bound : Type :=
| Finite (q : Q)
| Infinity.

Record var : Type := {
  VarName : string;
  LB : Q;
  UB : bound }.

(** [gp.LinExpr()], grown by [+=]. *)
Definition LinExpr : Type := list (Q * var).

Inductive sense : Type := LESS_EQUAL | GREATER_EQUAL.

Record constr : Type := {
  ConstrName : string;
  lhs : LinExpr;
  csense : sense;
  rhs : Q }.

Inductive direction : Type := MAXIMIZE | MINIMIZE.

Record model : Type := {
  ModelName : string;
  Params : list (string * Q);
  getVars : list var;
  getObjective : option (direction * LinExpr);
  getConstrs : list constr }.

Definition Model (name : string) : model :=
  {| ModelName := name; Params := []; getVars := [];
     getObjective := None; getConstrs := [] |}.

Definition setParam (m : model) (k : string) (v : Q) : model :=
  {| ModelName := ModelName m; Params := Params m ++ [(k, v)];
     getVars := getVars m; getObjective := getObjective m;
     getConstrs := getConstrs m |}.

Definition addVar (m : model) (name : string) (lb : Q) (ub : bound)
  : model * var :=
  let v := {| VarName := name; LB := lb; UB := ub |} in
  ({| ModelName := ModelName m; Params := Params m;
      getVars := getVars m ++ [v]; getObjective := getObjective m;
      getConstrs := getConstrs m |}, v).

Definition setObjective (m : model) (e : LinExpr) (d : direction) : model :=
  {| ModelName := ModelName m; Params := Params m; getVars := getVars m;
     getObjective := Some (d, e); getConstrs := getConstrs m |}.

Definition addConstr (m : model) (e : LinExpr) (s : sense) (b : Q)
    (name : string) : model :=
  {| ModelName := ModelName m; Params := Params m; getVars := getVars m;
     getObjective := getObjective m;
     getConstrs := getConstrs m ++
       [{| ConstrName := name; lhs := e; csense := s; rhs := b |}] |}.

(** Status codes of [gurobipy.GRB]. *)
Definition OPTIMAL : Z := 2%Z.
Definition INFEASIBLE : Z := 3%Z.
Definition UNBOUNDED : Z := 5%Z.

(** What the code reads back after [model.optimize()]: the status, the value
    [var.x] of a variable (by name), [model.objVal], and the flags
    [c.IISConstr] (by position in [model.getConstrs()]) that
    [model.computeIIS()] sets, unless that call raises. *)
Record solved : Type := {
  status : Z;
  x : string -> Q;
  objVal : Q;
  computeIIS : res (nat -> bool) }.

(** [model.optimize()] for every model the code may build. *)
Definition engine : Type := model -> res solved.

End Engine.

(** ** The response envelope (section 6.3 of the design) *)

(** The messages appended to [errors]; one constructor per format string of
    [validate_optimization_input], carrying the interpolated values. *)
Inductive error : Type :=
| Missing_required_field (f : string)
| Bad_objective
| Product_without_name
| Product_missing_profit (product_name : string)
| Product_negative_profit (product_name : string) (v : Q)
| Product_missing_cost (product_name : string)
| Product_negative_cost (product_name : string) (v : Q)
| Resource_without_name
| Resource_missing_capacity (resource_name : string)
| Resource_negative_capacity (resource_name : string) (v : Q)
| Usage_without_product_name
| Usage_unknown_product (product_name : string)
| Usage_without_resource_name
| Usage_unknown_resource (resource_name : string)
| Usage_missing_usage (product_name resource_name : string)
| Usage_negative_usage (product_name resource_name : string) (v : Q)
| Product_without_usage (product_name : string)
| Demand_without_product_name
| Demand_unknown_product (product_name : string)
| Demand_negative_min (product_name : string) (v : Q)
| Demand_negative_max (product_name : string) (v : Q)
| Demand_min_gt_max (product_name : string) (lo hi : Q)
| Total_negative_min (v : Q)
| Total_negative_max (v : Q)
| Total_min_gt_max (lo hi : Q).

(** [solver_message]: a literal, [f'Optimization status: {model.status}'],
    or [str(e)] of a caught exception. *)
Inductive message : Type :=
| Text (s : string)
| Optimization_status (code : Z)
| str (e : exn).

(** The messages appended to [warnings]; one constructor per format string
    of [validate_solution_feasibility]. *)
Inductive warning : Type :=
| Not_optimal (solver_message : message)
| Small_quantity (product_name : string) (quantity : Q)
| Usage_differs (resource_name : string) (usage reported_usage : Q)
| Capacity_exceeded (resource_name : string) (usage capacity : Q)
| Min_demand_violated (product_name : string) (quantity lo : Q)
| Max_demand_violated (product_name : string) (quantity hi : Q)
| Min_total_violated (total lo : Q)
| Max_total_violated (total hi : Q).

Record utilization : Type := {
  used : Q;
  available : Q;
  utilization_pct : Q }.

(** [infeasible_constraints]: a list of constraint names or the string
    ["Unknown"]. *)
Inductive iis_report : Type :=
| Names (l : list string)
| Unknown.

(** The result dictionary; a key that is not set is [None]. *)
Record result : Type := {
  r_status : string;
  solver_message : message;
  objective_value : option Q;
  production_plan : option (dict Q);
  resource_utilization : option (dict utilization);
  total_production : option Q;
  feasibility_warnings : option (list warning);
  infeasible_constraints : option iis_report;
  validation_errors : option (list error) }.

(** A result with only [status] and [solver_message]. *)
Definition plain_result (st : string) (msg : message) : result :=
  {| r_status := st; solver_message := msg; objective_value := None;
     production_plan := None; resource_utilization := None;
     total_production := None; feasibility_warnings := None;
     infeasible_constraints := None; validation_errors := None |}.

(** [result['status'] = st; result['feasibility_warnings'] = ws] *)
Definition set_status_and_warnings (r : result) (st : string)
    (ws : list warning) : result :=
  {| r_status := st; solver_message := solver_message r;
     objective_value := objective_value r;
     production_plan := production_plan r;
     resource_utilization := resource_utilization r;
     total_production := total_production r;
     feasibility_warnings := Some ws;
     infeasible_constraints := infeasible_constraints r;
     validation_errors := validation_errors r |}.

(** ** [core/validation.py] *)

Module Validation.

(** [if key not in d: errors.append(missing) elif d[key] < 0:
    errors.append(negative)] *)
Definition check_nonneg (key : string) (f : field) (missing : error)
    (negative : Q -> error) (errors : list error) : res (list error) :=
  if negb (has f) then Ret (errors ++ [missing])
  else
    v <- subscript key f ;;
    b <- lt v (Some 0%Q) ;;
    match v with
    | Some q => Ret (if b then errors ++ [negative q] else errors)
    | None => Ret errors
    end.

(** Lines 22-25: the required top-level fields. *)
Definition missing_fields (d : data) : list error :=
  (if present (objective d) then [] else [Missing_required_field "objective"]) ++
  (if present (products d) then [] else [Missing_required_field "products"]) ++
  (if present (resources d) then [] else [Missing_required_field "resources"]) ++
  (if present (resource_usage d) then [] else [Missing_required_field "resource_usage"]).

(** Lines 36-54: one iteration of the loop over [data['products']]. *)
Definition check_product (p : product) (st : list error * list string)
  : res (list error * list string) :=
  let '(errors, product_names) := st in
  match p_name p with
  | None => Ret (errors ++ [Product_without_name], product_names)
  | Some product_name =>
      let product_names := set_add product_name product_names in
      errors <- check_nonneg "profit_per_unit" (profit_per_unit p)
                  (Product_missing_profit product_name)
                  (Product_negative_profit product_name) errors ;;
      errors <- check_nonneg "cost_per_unit" (cost_per_unit p)
                  (Product_missing_cost product_name)
                  (Product_negative_cost product_name) errors ;;
      Ret (errors, product_names)
  end.

(** Lines 58-71: one iteration of the loop over [data['resources']]. *)
Definition check_resource (r : resource) (st : list error * list string)
  : res (list error * list string) :=
  let '(errors, resource_names) := st in
  match r_name r with
  | None => Ret (errors ++ [Resource_without_name], resource_names)
  | Some resource_name =>
      let resource_names := set_add resource_name resource_names in
      errors <- check_nonneg "available_capacity" (available_capacity r)
                  (Resource_missing_capacity resource_name)
                  (Resource_negative_capacity resource_name) errors ;;
      Ret (errors, resource_names)
  end.

(** [for x in xs: body], where the body may raise. *)
Fixpoint for_each {A S : Type} (body : A -> S -> res S) (xs : list A) (st : S)
  : res S :=
  match xs with
  | [] => Ret st
  | x :: rest => st' <- body x st ;; for_each body rest st'
  end.

(** [ru.get(key, 'unknown')] *)
Definition get_or_unknown (o : option string) : string :=
  match o with Some s => s | None => "unknown" end.

(** Lines 74-89: one iteration of the loop over [data['resource_usage']]. *)
Definition check_usage (product_names resource_names : list string)
    (ru : usage_row) (errors : list error) : res (list error) :=
  let errors :=
    match ru_product_name ru with
    | None => errors ++ [Usage_without_product_name]
    | Some n => if negb (mem n product_names)
                then errors ++ [Usage_unknown_product n] else errors
    end in
  let errors :=
    match ru_resource_name ru with
    | None => errors ++ [Usage_without_resource_name]
    | Some n => if negb (mem n resource_names)
                then errors ++ [Usage_unknown_resource n] else errors
    end in
  if negb (has (usage_per_unit ru)) then
    Ret (errors ++ [Usage_missing_usage (get_or_unknown (ru_product_name ru))
                                        (get_or_unknown (ru_resource_name ru))])
  else
    v <- subscript "usage_per_unit" (usage_per_unit ru) ;;
    b <- lt v (Some 0%Q) ;;
    if b then
      (* the message interpolates ru['product_name'] and ru['resource_name'] *)
      p <- get "product_name" (ru_product_name ru) ;;
      r <- get "resource_name" (ru_resource_name ru) ;;
      match v with
      | Some q => Ret (errors ++ [Usage_negative_usage p r q])
      | None => Ret errors
      end
    else Ret errors.

(** Line 93: [any(ru['product_name'] == product_name for ru in ...)]; the
    generator stops at the first row that matches. *)
Fixpoint has_resource_usage (product_name : string) (rows : list usage_row)
  : res bool :=
  match rows with
  | [] => Ret false
  | ru :: rest =>
      n <- get "product_name" (ru_product_name ru) ;;
      if String.eqb n product_name then Ret true
      else has_resource_usage product_name rest
  end.

(** Lines 92-95: one iteration of the loop over [product_names]. Python does
    not fix the order in which it iterates over the set; the order of
    insertion is taken here, and only the order of the messages depends on
    it. *)
Definition check_has_usage (rows : list usage_row) (product_name : string)
    (errors : list error) : res (list error) :=
  b <- has_resource_usage product_name rows ;;
  Ret (if negb b then errors ++ [Product_without_usage product_name] else errors).

(** [if 'k' in dc and dc['k'] < 0: errors.append(f"... {dc['product_name']} ...")] *)
Definition check_demand_bound (key : string) (f : field) (name : option string)
    (negative : string -> Q -> error) (errors : list error) : res (list error) :=
  if has f then
    v <- subscript key f ;;
    b <- lt v (Some 0%Q) ;;
    if b then
      n <- get "product_name" name ;;
      match v with
      | Some q => Ret (errors ++ [negative n q])
      | None => Ret errors
      end
    else Ret errors
  else Ret errors.

(** Lines 99-113: one iteration of the loop over [data['demand_constraints']]. *)
Definition check_demand (product_names : list string) (dc : demand_constraint)
    (errors : list error) : res (list error) :=
  let errors :=
    match dc_product_name dc with
    | None => errors ++ [Demand_without_product_name]
    | Some n => if negb (mem n product_names)
                then errors ++ [Demand_unknown_product n] else errors
    end in
  errors <- check_demand_bound "min_demand" (min_demand dc) (dc_product_name dc)
              Demand_negative_min errors ;;
  errors <- check_demand_bound "max_demand" (max_demand dc) (dc_product_name dc)
              Demand_negative_max errors ;;
  if has (min_demand dc) && has (max_demand dc) then
    lo <- subscript "min_demand" (min_demand dc) ;;
    hi <- subscript "max_demand" (max_demand dc) ;;
    b <- gt lo hi ;;
    if b then
      n <- get "product_name" (dc_product_name dc) ;;
      match lo, hi with
      | Some l, Some h => Ret (errors ++ [Demand_min_gt_max n l h])
      | _, _ => Ret errors
      end
    else Ret errors
  else Ret errors.

(** Lines 116-131: the total constraints, guarded by [is not None]. *)
Definition check_total (tc : total_constraints_t) (errors : list error)
  : list error :=
  let errors :=
    match min_total tc with
    | Num lo => if Qltb lo 0 then errors ++ [Total_negative_min lo] else errors
    | _ => errors
    end in
  let errors :=
    match max_total tc with
    | Num hi => if Qltb hi 0 then errors ++ [Total_negative_max hi] else errors
    | _ => errors
    end in
  match min_total tc, max_total tc with
  | Num lo, Num hi => if Qltb hi lo then errors ++ [Total_min_gt_max lo hi] else errors
  | _, _ => errors
  end.

Definition validate_optimization_input (d : data) : res (bool * list error) :=
  let errors := missing_fields d in
  if negb (is_empty errors) then Ret (false, errors)
  else
    obj <- get "objective" (objective d) ;;
    let errors :=
      if negb (mem obj ["maximize_profit"; "minimize_cost"])
      then errors ++ [Bad_objective] else errors in
    ps <- get "products" (products d) ;;
    '(errors, product_names) <- for_each check_product ps (errors, []) ;;
    rs <- get "resources" (resources d) ;;
    '(errors, resource_names) <- for_each check_resource rs (errors, []) ;;
    rus <- get "resource_usage" (resource_usage d) ;;
    errors <- for_each (check_usage product_names resource_names) rus errors ;;
    errors <- for_each (check_has_usage rus) product_names errors ;;
    errors <- match demand_constraints d with
              | Some dcs => for_each (check_demand product_names) dcs errors
              | None => Ret errors
              end ;;
    let errors :=
      match total_constraints d with
      | Some tc => if truthy tc then check_total tc errors else errors
      | None => errors
      end in
    Ret (is_empty errors, errors).

(** [validate_solution_feasibility] *)

Definition epsilon : Q := 1 # 1000000.

(** [{row['name']: row for row in rows}] *)
Definition index_by {A : Type} (key : string) (name : A -> option string)
    (rows : list A) : res (dict A) :=
  for_each (fun row d => n <- get key (name row) ;; Ret (dict_set n row d))
           rows [].

(** Lines 161-169 (and lines 101-107 of [optimizers/base.py]): resource usage
    by product and resource. *)
Definition usage_table (rows : list usage_row) : res (dict (dict (option Q))) :=
  for_each
    (fun ru tbl =>
       product_name <- get "product_name" (ru_product_name ru) ;;
       resource_name <- get "resource_name" (ru_resource_name ru) ;;
       let tbl := if negb (dict_mem product_name tbl)
                  then dict_set product_name [] tbl else tbl in
       u <- subscript "usage_per_unit" (usage_per_unit ru) ;;
       inner <- get product_name (dict_get product_name tbl) ;;
       Ret (dict_set product_name (dict_set resource_name u inner) tbl))
    rows [].

(** [u * q] for a number [u] of the payload and a float [q]: multiplying
    [None] by a number is a [TypeError], and an int beyond the range of the
    floats an [OverflowError]. *)
Definition mul (u : option Q) (q : Q) : res Q :=
  match u with
  | Some a => a <- float a ;; Ret (a * q)%Q
  | None => Raise TypeError
  end.

(** [u + q] and [u - q], same. *)
Definition add (u : option Q) (q : Q) : res Q :=
  match u with
  | Some a => a <- float a ;; Ret (a + q)%Q
  | None => Raise TypeError
  end.

Definition sub (u : option Q) (q : Q) : res Q :=
  match u with
  | Some a => a <- float a ;; Ret (a - q)%Q
  | None => Raise TypeError
  end.

(** Lines 155-157. *)
Definition check_small (plan : dict Q) (warnings : list warning)
  : list warning :=
  fold_left
    (fun warnings '(product, quantity) =>
       if Qltb 0 quantity && Qltb quantity epsilon
       then warnings ++ [Small_quantity product quantity] else warnings)
    plan warnings.

(** Lines 173-176: [calculated_usage[resource] += usage * quantity]. *)
Definition accumulate_usage (tbl : dict (dict (option Q))) (plan : dict Q)
    (calculated_usage : dict Q) : res (dict Q) :=
  for_each
    (fun '(product, quantity) calculated_usage =>
       match dict_get product tbl with
       | Some row =>
           for_each
             (fun '(resource, usage) calculated_usage =>
                old <- get resource (dict_get resource calculated_usage) ;;
                inc <- mul usage quantity ;;
                Ret (dict_set resource (old + inc)%Q calculated_usage))
             row calculated_usage
       | None => Ret calculated_usage
       end)
    plan calculated_usage.

(** Lines 179-187: reconciliation with the reported usage, then capacity. *)
Definition check_resources (rs : dict resource)
    (reported : option (dict utilization)) (calculated_usage : dict Q)
    (warnings : list warning) : res (list warning) :=
  for_each
    (fun '(resource, usage) warnings =>
       reported <- get "resource_utilization" reported ;;
       let warnings :=
         match dict_get resource reported with
         | Some u =>
             let reported_usage := used u in
             if Qltb epsilon (Qabs (usage - reported_usage))
             then warnings ++ [Usage_differs resource usage reported_usage]
             else warnings
         | None => warnings
         end in
       r <- get resource (dict_get resource rs) ;;
       capacity <- subscript "available_capacity" (available_capacity r) ;;
       limit <- add capacity epsilon ;;
       if Qltb limit usage
       then match capacity with
            | Some c => Ret (warnings ++ [Capacity_exceeded resource usage c])
            | None => Ret warnings
            end
       else Ret warnings)
    calculated_usage warnings.

(** Lines 193-201: one product of the plan against its demand constraint. *)
Definition check_plan_demand (dcs : dict demand_constraint)
    (entry : string * Q) (warnings : list warning) : res (list warning) :=
  let '(product, quantity) := entry in
  match dict_get product dcs with
  | Some dc =>
      warnings <-
        (if has (min_demand dc) then
           lo <- subscript "min_demand" (min_demand dc) ;;
           limit <- sub lo epsilon ;;
           match lo with
           | Some l => Ret (if Qltb quantity limit
                            then warnings ++ [Min_demand_violated product quantity l]
                            else warnings)
           | None => Ret warnings
           end
         else Ret warnings) ;;
      (if has (max_demand dc) then
         hi <- subscript "max_demand" (max_demand dc) ;;
         limit <- add hi epsilon ;;
         match hi with
         | Some h => Ret (if Qltb limit quantity
                          then warnings ++ [Max_demand_violated product quantity h]
                          else warnings)
         | None => Ret warnings
         end
       else Ret warnings)
  | None => Ret warnings
  end.

(** Lines 204-214. *)
Definition check_plan_total (tc : total_constraints_t) (plan : dict Q)
    (warnings : list warning) : res (list warning) :=
  let total_production := sum (values plan) in
  warnings <-
    match min_total tc with
    | Num lo =>
        limit <- sub (Some lo) epsilon ;;
        Ret (if Qltb total_production limit
             then warnings ++ [Min_total_violated total_production lo]
             else warnings)
    | _ => Ret warnings
    end ;;
  match max_total tc with
  | Num hi =>
      limit <- add (Some hi) epsilon ;;
      Ret (if Qltb limit total_production
           then warnings ++ [Max_total_violated total_production hi]
           else warnings)
  | _ => Ret warnings
  end.

Definition validate_solution_feasibility (r : result) (input_data : data)
  : res (bool * list warning) :=
  if negb (String.eqb (r_status r) "optimal")
  then Ret (false, [Not_optimal (solver_message r)])
  else
    plan <- get "production_plan" (production_plan r) ;;
    let warnings := check_small plan [] in
    rows <- get "resources" (resources input_data) ;;
    rs <- index_by "name" r_name rows ;;
    rus <- get "resource_usage" (resource_usage input_data) ;;
    tbl <- usage_table rus ;;
    let calculated_usage := map (fun '(r_name, _) => (r_name, 0%Q)) rs in
    calculated_usage <- accumulate_usage tbl plan calculated_usage ;;
    warnings <- check_resources rs (resource_utilization r) calculated_usage
                  warnings ;;
    warnings <-
      match demand_constraints input_data with
      | Some rows =>
          dcs <- index_by "product_name" dc_product_name rows ;;
          for_each (check_plan_demand dcs) plan warnings
      | None => Ret warnings
      end ;;
    warnings <-
      match total_constraints input_data with
      | Some tc => if truthy tc then check_plan_total tc plan warnings
                   else Ret warnings
      | None => Ret warnings
      end ;;
    Ret (is_empty warnings, warnings).

End Validation.

(** ** [core/optimizers]: base, basic and demand-constrained optimisers *)

Module Optimizers.

Import Engine Validation.

(** What a call observably does besides returning: used to tell a request that
    was rejected early from one that reached an optimiser. *)
Inductive event : Type :=
| Instantiated (class_name : string)
| Model_created (model_name : string)
| Optimized (m : model).

(** [ProductionOptimizerBase._extract_common_data] *)
Definition _extract_common_data (d : data)
  : res (string * dict product * dict resource * dict (dict (option Q))) :=
  objective_type <- get "objective" (objective d) ;;
  rows <- get "products" (products d) ;;
  products <- index_by "name" p_name rows ;;
  rows <- get "resources" (resources d) ;;
  resources <- index_by "name" r_name rows ;;
  rows <- get "resource_usage" (resource_usage d) ;;
  resource_usage <- usage_table rows ;;
  Ret (objective_type, products, resources, resource_usage).

(** [ProductionOptimizerBase._create_model] *)
Definition _create_model (model_name : string) : model :=
  let m := Model model_name in
  let m := setParam m "NumericFocus" 3 in
  setParam m "FeasibilityTol" (1 # 1000000).

(** [coef * var] inside a linear expression. *)
Definition term (coef : option Q) (v : var) : res (Q * var) :=
  match coef with
  | Some c => Ret (c, v)
  | None => Raise TypeError
  end.

(** [ProductionOptimizerBase._set_objective] *)
Definition _set_objective (m : model) (objective_type : string)
    (products : dict product) (production_vars : dict var) : res model :=
  if String.eqb objective_type "maximize_profit" then
    objective <-
      for_each
        (fun '(product_name, p) objective =>
           coef <- subscript "profit_per_unit" (profit_per_unit p) ;;
           v <- get product_name (dict_get product_name production_vars) ;;
           t <- term coef v ;;
           Ret (objective ++ [t]))
        products [] ;;
    Ret (setObjective m objective MAXIMIZE)
  else
    objective <-
      for_each
        (fun '(product_name, p) objective =>
           coef <- subscript "cost_per_unit" (cost_per_unit p) ;;
           v <- get product_name (dict_get product_name production_vars) ;;
           t <- term coef v ;;
           Ret (objective ++ [t]))
        products [] ;;
    Ret (setObjective m objective MINIMIZE).

(** [ProductionOptimizerBase._add_resource_constraints] *)
Definition _add_resource_constraints (m : model) (resources : dict resource)
    (products : dict product) (production_vars : dict var)
    (resource_usage : dict (dict (option Q))) : res model :=
  for_each
    (fun '(resource_name, r) m =>
       constraint <-
         for_each
           (fun product_name constraint =>
              match dict_get product_name resource_usage with
              | Some row =>
                  match dict_get resource_name row with
                  | Some u =>
                      v <- get product_name
                             (dict_get product_name production_vars) ;;
                      t <- term u v ;;
                      Ret (constraint ++ [t])
                  | None => Ret constraint
                  end
              | None => Ret constraint
              end)
           (keys products) [] ;;
       capacity <- subscript "available_capacity" (available_capacity r) ;;
       match capacity with
       | Some c => Ret (addConstr m constraint LESS_EQUAL c
                                  ("resource_" ++ resource_name)%string)
       | None => Raise TypeError
       end)
    resources m.

(** [ProductionOptimizerBase._add_total_product_constraints] *)
Definition _add_total_product_constraints (m : model) (products : dict product)
    (production_vars : dict var) (tc : total_constraints_t) : res model :=
  if negb (truthy tc) then Ret m
  else
    total_production <-
      for_each
        (fun product_name total =>
           v <- get product_name (dict_get product_name production_vars) ;;
           Ret (total ++ [(1%Q, v)]))
        (keys products) [] ;;
    m <-
      match min_total tc with
      | Num lo =>
          min_total <- float lo ;;
          Ret (if Qltb 0 min_total
               then addConstr m total_production GREATER_EQUAL min_total
                              "min_total_production"
               else m)
      | _ => Ret m
      end ;;
    match max_total tc with
    | Num hi =>
        max_total <- float hi ;;
        Ret (if Qltb 0 max_total
             then addConstr m total_production LESS_EQUAL max_total
                            "max_total_production"
             else m)
    | _ => Ret m
    end.

(** [ProductionOptimizerBase._get_resource_utilization] *)
Definition _get_resource_utilization (s : solved) (resources : dict resource)
    (production_vars : dict var) (resource_usage : dict (dict (option Q)))
  : res (dict utilization) :=
  for_each
    (fun '(resource_name, r) utilization =>
       available <- subscript "available_capacity" (available_capacity r) ;;
       used_r <-
         for_each
           (fun '(product_name, product_usage) used_r =>
              match dict_get resource_name product_usage,
                    dict_get product_name production_vars with
              | Some u, Some v =>
                  inc <- mul u (x s (VarName v)) ;;
                  Ret (used_r + inc)%Q
              | _, _ => Ret used_r
              end)
           resource_usage 0%Q ;;
       positive <- gt available (Some 0%Q) ;;
       match available with
       | Some a =>
           pct <- (if positive
                   then a <- float a ;; Ret ((used_r / a) * 100)%Q
                   else Ret 0%Q) ;;
           Ret (dict_set resource_name
                  {| used := used_r; available := a;
                     utilization_pct := pct |} utilization)
       | None => Raise TypeError
       end)
    resources [].

(** [ProductionOptimizerBase._calculate_total_production]: the running sum
    [total += var.x] in the order of the variables; each addition is the
    exact one, where the code rounds to a float. *)
Definition _calculate_total_production (s : solved)
    (production_vars : dict var) : Q :=
  fold_left (fun total '(_, v) => (total + x s (VarName v))%Q)
            production_vars 0%Q.

(** The loop of lines 269-273 of [_prepare_result]: values below [1e-8] in
    magnitude are reported as zero. *)
Definition clamp (value : Q) : Q :=
  if Qltb (Qabs value) (1 # 100000000) then 0%Q else value.

Definition build_plan (s : solved) (production_vars : dict var) : dict Q :=
  fold_left (fun production_plan '(name, v) =>
               dict_set name (clamp (x s (VarName v))) production_plan)
            production_vars [].

(** Lines 288-292: names of the constraints whose [IISConstr] flag is set. *)
Fixpoint flagged_from (i : nat) (flags : nat -> bool) (cs : list constr)
    (infeasible_constraints : list string) : list string :=
  match cs with
  | [] => infeasible_constraints
  | c :: rest =>
      flagged_from (S i) flags rest
        (if flags i then infeasible_constraints ++ [ConstrName c]
         else infeasible_constraints)
  end.

(** [ProductionOptimizerBase._prepare_result] *)
Definition _prepare_result (m : model) (s : solved) (production_vars : dict var)
    (resources : dict resource) (resource_usage : dict (dict (option Q)))
  : res result :=
  if Z.eqb (status s) OPTIMAL then
    let production_plan := build_plan s production_vars in
    let total_production := _calculate_total_production s production_vars in
    utilization <- _get_resource_utilization s resources production_vars
                     resource_usage ;;
    Ret {| r_status := "optimal";
           solver_message := Text "Optimal solution found";
           objective_value := Some (objVal s);
           production_plan := Some production_plan;
           resource_utilization := Some utilization;
           total_production := Some total_production;
           feasibility_warnings := None;
           infeasible_constraints := None;
           validation_errors := None |}
  else if Z.eqb (status s) INFEASIBLE then
    flags <- computeIIS s ;;
    let infeasible_constraints := flagged_from 0 flags (getConstrs m) [] in
    Ret {| r_status := "infeasible";
           solver_message := Text "The model is infeasible";
           objective_value := None;
           production_plan := None;
           resource_utilization := None;
           total_production := None;
           feasibility_warnings := None;
           infeasible_constraints :=
             Some (if negb (is_empty infeasible_constraints)
                   then Names infeasible_constraints else Unknown);
           validation_errors := None |}
  else if Z.eqb (status s) UNBOUNDED then
    Ret (plain_result "unbounded"
           (Text "The model is unbounded (no finite optimal solution exists)"))
  else
    Ret (plain_result "error" (Optimization_status (status s))).

(** The tail shared by both [solve] methods: [model.optimize()], then
    [_prepare_result]; [except Exception as e] turns whatever was raised in
    the [try] block into an ["error"] result. *)
Definition built : Type :=
  model * dict var * dict resource * dict (dict (option Q)).

Definition finish (e : engine) (b : res built) : list event * result :=
  let body :=
    '(m, production_vars, resources, resource_usage) <- b ;;
    s <- e m ;;
    _prepare_result m s production_vars resources resource_usage in
  (match b with
   | Ret (m, _, _, _) => [Optimized m]
   | Raise _ => []
   end,
   match body with
   | Ret r => r
   | Raise ex => plain_result "error" (str ex)
   end).

(** [if 'total_constraints' in data and data['total_constraints']:
    self._add_total_product_constraints(...)] *)
Definition add_total_if_given (m : model) (d : data) (products : dict product)
    (production_vars : dict var) : res model :=
  match total_constraints d with
  | Some tc => if truthy tc
               then _add_total_product_constraints m products production_vars tc
               else Ret m
  | None => Ret m
  end.

Module BasicProductionOptimizer.

Definition model_name : string := "basic_production_optimization".

(** [_create_production_variables]: [addVar(name, vtype=CONTINUOUS, lb=0.0)];
    the upper bound is gurobipy's default, infinity. *)
Definition add_variable (st : model * dict var) (product_name : string)
  : model * dict var :=
  let '(m, production_vars) := st in
  let '(m, v) := addVar m ("produce_" ++ product_name)%string 0 Infinity in
  (m, dict_set product_name v production_vars).

Definition _create_production_variables (m : model) (products : dict product)
  : model * dict var :=
  fold_left add_variable (keys products) (m, []).

(** The [try] block of [solve] up to [model.optimize()]. *)
Definition build (d : data) : res built :=
  let m := _create_model model_name in
  '(objective_type, products, resources, resource_usage) <-
    _extract_common_data d ;;
  let '(m, production_vars) := _create_production_variables m products in
  m <- _set_objective m objective_type products production_vars ;;
  m <- _add_resource_constraints m resources products production_vars
         resource_usage ;;
  m <- add_total_if_given m d products production_vars ;;
  Ret (m, production_vars, resources, resource_usage).

Definition solve (e : engine) (d : data) : list event * result :=
  let '(evs, r) := finish e (build d) in
  (Model_created model_name :: evs, r).

End BasicProductionOptimizer.

Module DemandConstrainedOptimizer.

Definition model_name : string := "demand_constrained_optimization".

(** Lines 82-96: the bounds of the variable of one product. *)
Definition bounds (product_name : string)
    (demand_constraints : dict demand_constraint) : Q * bound :=
  let lb := 0%Q in
  let ub := Infinity in
  match dict_get product_name demand_constraints with
  | Some constraint =>
      let lb :=
        match min_demand constraint with
        | Num lo => Py.max 0 lo
        | _ => lb
        end in
      let ub :=
        match max_demand constraint with
        | Num hi => if Qltb hi lb then Finite lb else Finite hi
        | _ => ub
        end in
      (lb, ub)
  | None => (lb, ub)
  end.

(** Lines 97-102: the body of the loop, [production_vars[product_name] =
    model.addVar(name=f"produce_{product_name}", lb=lb, ub=ub)]. *)
Definition add_variable (demand_constraints : dict demand_constraint)
    (st : model * dict var) (product_name : string) : model * dict var :=
  let '(m, production_vars) := st in
  let '(lb, ub) := bounds product_name demand_constraints in
  let '(m, v) := addVar m ("produce_" ++ product_name)%string lb ub in
  (m, dict_set product_name v production_vars).

(** [_create_production_variables_with_demand] *)
Definition _create_production_variables_with_demand (m : model)
    (products : dict product) (demand_constraints : dict demand_constraint)
  : model * dict var :=
  fold_left (add_variable demand_constraints) (keys products) (m, []).

Definition build (d : data) : res built :=
  let m := _create_model model_name in
  '(objective_type, products, resources, resource_usage) <-
    _extract_common_data d ;;
  demand_constraints <-
    match demand_constraints d with
    | Some rows => index_by "product_name" dc_product_name rows
    | None => Ret []
    end ;;
  let '(m, production_vars) :=
    _create_production_variables_with_demand m products demand_constraints in
  m <- _set_objective m objective_type products production_vars ;;
  m <- _add_resource_constraints m resources products production_vars
         resource_usage ;;
  m <- add_total_if_given m d products production_vars ;;
  Ret (m, production_vars, resources, resource_usage).

Definition solve (e : engine) (d : data) : list event * result :=
  let '(evs, r) := finish e (build d) in
  (Model_created model_name :: evs, r).

End DemandConstrainedOptimizer.

End Optimizers.

(** ** [core/factory.py] *)

Module Factory.

Import Engine Validation Optimizers.

(** The optimiser classes of the package [core.optimizers]. *)
Inductive optimizer_class : Type :=
| BasicProductionOptimizer
| DemandConstrainedOptimizer.

Definition __name__ (c : optimizer_class) : string :=
  match c with
  | BasicProductionOptimizer => "BasicProductionOptimizer"
  | DemandConstrainedOptimizer => "DemandConstrainedOptimizer"
  end.

(** [optimizer.solve(data)], dispatched on the class of the instance. *)
Definition solve (c : optimizer_class) (e : engine) (d : data)
  : list event * result :=
  match c with
  | BasicProductionOptimizer => Optimizers.BasicProductionOptimizer.solve e d
  | DemandConstrainedOptimizer => Optimizers.DemandConstrainedOptimizer.solve e d
  end.

(** The class attribute [_optimizers]. *)
Definition registry : Type := dict optimizer_class.

Definition register_optimizer (reg : registry) (optimizer_type : string)
    (c : optimizer_class) : registry :=
  dict_set optimizer_type c reg.

Definition get_optimizer (reg : registry) (optimizer_type : string)
  : res optimizer_class :=
  match dict_get optimizer_type reg with
  | None => Raise (ValueError ("Unknown optimizer type: " ++ optimizer_type)%string)
  | Some optimizer_class => Ret optimizer_class
  end.

Definition list_available_optimizers (reg : registry) : list string :=
  keys reg.

(** Lines 108-115: the identifier derived from a class name. *)
Definition isupper (c : Ascii.ascii) : bool :=
  let n := Ascii.nat_of_ascii c in (65 <=? n) && (n <=? 90).

Definition lower (c : Ascii.ascii) : Ascii.ascii :=
  if isupper c then Ascii.ascii_of_nat (Ascii.nat_of_ascii c + 32) else c.

Fixpoint endswith (s suffix : string) : bool :=
  String.eqb s suffix ||
  match s with
  | EmptyString => false
  | String _ rest => endswith rest suffix
  end.

Fixpoint kebab (s : string) : string :=
  match s with
  | EmptyString => EmptyString
  | String c rest =>
      if isupper c then String "-"%char (String (lower c) (kebab rest))
      else String c (kebab rest)
  end.

Fixpoint lstrip_hyphen (s : string) : string :=
  match s with
  | String "-"%char rest => lstrip_hyphen rest
  | _ => s
  end.

Definition optimizer_type_of (class_name : string) : string :=
  let class_name :=
    if endswith class_name "Optimizer"
    then String.substring 0 (String.length class_name - 9) class_name
    else class_name in
  lstrip_hyphen (kebab class_name).

(** [discover_optimizers], given the optimiser classes that scanning the
    package finds. *)
Definition discover_optimizers (found : list optimizer_class) (reg : registry)
  : registry :=
  fold_left (fun reg c => register_optimizer reg (optimizer_type_of (__name__ c)) c)
            found reg.

(** Lines 134-138: the registry once the module is imported. *)
Definition _optimizers : registry :=
  let reg := register_optimizer [] "basic" BasicProductionOptimizer in
  let reg := register_optimizer reg "demand-constrained" DemandConstrainedOptimizer in
  discover_optimizers
    [BasicProductionOptimizer; BasicProductionOptimizer; DemandConstrainedOptimizer]
    reg.

Definition validation_error_result (validation_errors : list error) : result :=
  {| r_status := "validation_error";
     solver_message := Text "Input validation failed";
     objective_value := None; production_plan := None;
     resource_utilization := None; total_production := None;
     feasibility_warnings := None; infeasible_constraints := None;
     validation_errors := Some validation_errors |}.

(** Lines 82-89: the feasibility check of an optimal result. *)
Definition check_feasibility (r : result) (d : data) : res result :=
  if String.eqb (r_status r) "optimal" then
    '(is_feasible, feasibility_warnings) <- validate_solution_feasibility r d ;;
    if negb is_feasible then
      Ret (set_status_and_warnings r "solution_warning" feasibility_warnings)
    else if negb (is_empty feasibility_warnings) then
      Ret (set_status_and_warnings r (r_status r) feasibility_warnings)
    else Ret r
  else Ret r.

(** The body of the [try] block of [optimize]. *)
Definition optimize_body (reg : registry) (e : engine) (optimizer_type : string)
    (d : data) : list event * res result :=
  match validate_optimization_input d with
  | Raise ex => ([], Raise ex)
  | Ret (is_valid, validation_errors) =>
      if negb is_valid then ([], Ret (validation_error_result validation_errors))
      else
        match get_optimizer reg optimizer_type with
        | Raise ex => ([], Raise ex)
        | Ret c =>
            let '(evs, r) := solve c e d in
            (Instantiated (__name__ c) :: evs, check_feasibility r d)
        end
  end.

(** [optimize]: a [ValueError] raised in the body becomes an ["error"] result;
    any other exception propagates to the caller. *)
Definition optimize (reg : registry) (e : engine) (optimizer_type : string)
    (d : data) : list event * res result :=
  let '(evs, out) := optimize_body reg e optimizer_type d in
  (evs,
   match out with
   | Raise (ValueError msg) => Ret (plain_result "error" (str (ValueError msg)))
   | _ => out
   end).

End Factory.

(** ** [ProductionOptimizerBase.validate_and_solve] *)

Module ProductionOptimizerBase.

Import Engine Validation Optimizers.

(** [validate_and_solve] of an instance of class [c]: nothing is caught, so
    an exception of the validator or of the verifier reaches the caller. *)
Definition validate_and_solve (c : Factory.optimizer_class) (e : engine)
    (d : data) : list event * res result :=
  match validate_optimization_input d with
  | Raise ex => ([], Raise ex)
  | Ret (is_valid, validation_errors) =>
      if negb is_valid then
        ([], Ret {| r_status := "validation_error";
                    solver_message := Text "Input validation failed";
                    objective_value := None; production_plan := None;
                    resource_utilization := None; total_production := None;
                    feasibility_warnings := None;
                    infeasible_constraints := None;
                    validation_errors := Some validation_errors |})
      else
        let '(evs, r) := Factory.solve c e d in
        (evs,
         if String.eqb (r_status r) "optimal" then
           '(is_feasible, feasibility_warnings) <-
             validate_solution_feasibility r d ;;
           if negb is_feasible then
             Ret (set_status_and_warnings r "solution_warning"
                    feasibility_warnings)
           else if 0 <? List.length feasibility_warnings then
             Ret (set_status_and_warnings r (r_status r) feasibility_warnings)
           else Ret r
         else Ret r)
  end.

End ProductionOptimizerBase.

(** ** [api/endpoints/production.py] *)

Module Endpoint.

Import Engine Factory.

(** [ProductionOptimization.post]: the body returned and the HTTP status code
    (a handler that returns only a body answers 200). *)
Definition post (reg : registry) (e : engine) (optimizer_type : string)
    (d : data) : result * nat :=
  match snd (optimize reg e optimizer_type d) with
  | Ret r =>
      if String.eqb (r_status r) "validation_error" then (r, 400) else (r, 200)
  | Raise ex => (plain_result "error" (str ex), 500)
  end.

(** [OptimizerList.get]: the value under the key ['optimizers']. *)
Definition optimizers (reg : registry) : list string :=
  list_available_optimizers reg.

(** The routes kept for backward compatibility have no [try]: what
    [optimize] lets out leaves the handler. *)
Definition legacy_post (optimizer_type : string) (reg : registry) (e : engine)
    (d : data) : res (result * nat) :=
  r <- snd (optimize reg e optimizer_type d) ;;
  if String.eqb (r_status r) "validation_error" then Ret (r, 400)
  else Ret (r, 200).

Module BasicOptimization.

Definition post : registry -> engine -> data -> res (result * nat) :=
  legacy_post "basic".

End BasicOptimization.

Module DemandConstrained.

Definition post : registry -> engine -> data -> res (result * nat) :=
  legacy_post "demand-constrained".

End DemandConstrained.

End Endpoint.

(** ** [core/analysis.py] *)

Module Analysis.

Import Validation.

(** The dictionaries under the key ['analysis']. *)
Record financials_t : Type := {
  total_profit : Q;
  total_cost : Q;
  revenue : Q;
  profit_margin_pct : Q }.

Record bottleneck : Type := {
  b_resource : string;
  b_utilization : Q;
  margin : Q }.

Record underused : Type := {
  u_resource : string;
  u_utilization : Q;
  unused_capacity : Q }.

Record resources_t : Type := {
  bottlenecks : list bottleneck;
  underutilized : list underused }.

Record products_t : Type := {
  unused_products : list string;
  unused_count : nat;
  total_products : nat }.

(** [analysis['analysis']]; a key that is not set is [None]. *)
Record analysis_t : Type := {
  a_financials : option financials_t;
  a_resources : option resources_t;
  a_products : option products_t }.

(** Lines 114-120: one entry of the plan. A price is converted when it is
    multiplied by the quantity; the products and the running sums are the
    exact ones, where the code rounds to a float. *)
Definition add_financials (products : dict product) (entry : string * Q)
    (acc : Q * Q * Q) : res (Q * Q * Q) :=
  let '(product, quantity) := entry in
  let '(total_profit, total_cost, revenue) := acc in
  if dict_mem product products && Qltb 0 quantity then
    p <- get product (dict_get product products) ;;
    profit_per_unit <- subscript "profit_per_unit" (profit_per_unit p) ;;
    profit <- mul profit_per_unit quantity ;;
    cost_per_unit <- subscript "cost_per_unit" (cost_per_unit p) ;;
    cost <- mul cost_per_unit quantity ;;
    Ret ((total_profit + profit)%Q, (total_cost + cost)%Q,
         (revenue + (profit + cost))%Q)
  else Ret acc.

(** Lines 110-127. *)
Definition financials_of (products : dict product) (plan : dict Q)
  : res financials_t :=
  '(total_profit, total_cost, revenue) <-
    for_each (add_financials products) plan (0%Q, 0%Q, 0%Q) ;;
  Ret {| total_profit := total_profit;
         total_cost := total_cost;
         revenue := revenue;
         profit_margin_pct :=
           if Qltb 0 revenue then (total_profit / revenue * 100)%Q else 0%Q |}.

Definition bottleneck_threshold : Q := 95 # 100.

(** Lines 135-149: one resource. [details['available']] is the capacity as
    the payload gave it, converted when it is multiplied by a float. *)
Definition classify (entry : string * utilization)
    (acc : list bottleneck * list underused)
  : res (list bottleneck * list underused) :=
  let '(bottlenecks, underutilized) := acc in
  let '(resource, details) := entry in
  let utilization := (utilization_pct details / 100)%Q in
  if Qle_bool bottleneck_threshold utilization then
    available <- float (available details) ;;
    Ret (bottlenecks ++ [{| b_resource := resource;
                            b_utilization := (utilization * 100)%Q;
                            margin := ((1 - utilization) * available)%Q |}],
         underutilized)
  else if Qltb utilization (1 # 2) then
    available <- float (available details) ;;
    Ret (bottlenecks,
         underutilized ++ [{| u_resource := resource;
                              u_utilization := (utilization * 100)%Q;
                              unused_capacity :=
                                ((1 - utilization) * available)%Q |}])
  else Ret (bottlenecks, underutilized).

(** Lines 131-154. *)
Definition resources_of (u : dict utilization) : res resources_t :=
  '(bottlenecks, underutilized) <- for_each classify u ([], []) ;;
  Ret {| bottlenecks := bottlenecks; underutilized := underutilized |}.

(** Lines 158-167. *)
Definition products_of (products : dict product) (plan : dict Q)
  : products_t :=
  let unused_products :=
    filter (fun product =>
              match dict_get product plan with
              | None => true
              | Some quantity => Qle_bool quantity (1 # 1000000)
              end)
           (keys products) in
  {| unused_products := unused_products;
     unused_count := List.length unused_products;
     total_products := List.length products |}.

(** [analyze_results]: the result as it is, or a copy of it with the key
    ['analysis']. *)
Definition analyze_results (r : result) (d : data)
  : res (result * option analysis_t) :=
  if negb (String.eqb (r_status r) "optimal" ||
           String.eqb (r_status r) "solution_warning")
  then Ret (r, None)
  else
    objective_type <- get "objective" (objective d) ;;
    rows <- get "products" (products d) ;;
    products <- index_by "name" p_name rows ;;
    financials <-
      match production_plan r with
      | Some plan => f <- financials_of products plan ;; Ret (Some f)
      | None => Ret None
      end ;;
    resources <-
      match resource_utilization r with
      | Some u => ra <- resources_of u ;; Ret (Some ra)
      | None => Ret None
      end ;;
    Ret (r,
         Some {| a_financials := financials;
                 a_resources := resources;
                 a_products :=
                   option_map (products_of products) (production_plan r) |}).

End Analysis.

(** ** [vehicle-routing/core/solver.py] *)

Module VRP.

(** What [VRPSolver.solve] gets from the engine: the final status and the
    values [x[i, j, k].x], or a [GurobiError] with its message. *)
Inductive outcome : Type :=
| Solved (status : Z) (x : nat -> nat -> nat -> Q)
| Failed (message : string).

(** [self.solution] *)
Record solution : Type := {
  routes : list (list nat);
  total_distance : Q;
  status : string }.

Section Solver.

(** The attributes of a [VRPSolver]. *)
Variable num_vehicles : nat.
Variable depot_idx : nat.
Variable num_locations : nat.
Variable dist_matrix : nat -> nat -> Q.

(** [x[i, j, k].x > 0.5] *)
Definition selected (x : nat -> nat -> nat -> Q) (i j k : nat) : bool :=
  Qltb (1 # 2) (x i j k).

(** Lines 127-131: the first [j] of [range(num_locations)] with
    [j != current] and a selected arc, if any. *)
Definition next_stop (x : nat -> nat -> nat -> Q) (current k : nat)
  : option nat :=
  find (fun j => negb (j =? current) && selected x current j k)
       (seq 0 num_locations).

(** Lines 125-138: the [while True] loop; [fuel] bounds the iterations and
    [None] means the bound was too small. *)
Fixpoint follow (fuel : nat) (x : nat -> nat -> nat -> Q) (k current : nat)
    (route : list nat) : option (list nat) :=
  match fuel with
  | O => None
  | S fuel =>
      match next_stop x current k with
      | None => Some route
      | Some j =>
          if j =? depot_idx then Some (route ++ [depot_idx])
          else follow fuel x k j (route ++ [j])
      end
  end.

(** Lines 121-141: one entry per vehicle, [[]] unless the route has more than
    two stops. *)
Fixpoint extract (fuel : nat) (x : nat -> nat -> nat -> Q) (ks : list nat)
  : option (list (list nat)) :=
  match ks with
  | [] => Some []
  | k :: rest =>
      match follow fuel x k depot_idx [depot_idx] with
      | None => None
      | Some route =>
          match extract fuel x rest with
          | None => None
          | Some routes =>
              Some ((if 2 <? List.length route then route else []) :: routes)
          end
      end
  end.

(** Line 144: [[r for r in routes if r]] *)
Definition non_empty (routes : list (list nat)) : list (list nat) :=
  filter (fun r => negb (is_empty r)) routes.

(** Lines 149-152: the length of one route. *)
Definition route_distance (route : list nat) : Q :=
  fold_left
    (fun route_distance i =>
       (route_distance + dist_matrix (nth i route O) (nth (S i) route O))%Q)
    (seq 0 (List.length route - 1)) 0%Q.

(** Lines 147-152. *)
Definition distance_of (routes : list (list nat)) : Q :=
  fold_left (fun total_distance route =>
               (total_distance + route_distance route)%Q)
            routes 0%Q.

Definition OPTIMAL : Z := 2%Z.

(** [solve], from the answer of the engine on. *)
Definition solve (fuel : nat) (o : outcome) : option solution :=
  match o with
  | Solved st x =>
      if Z.eqb st OPTIMAL then
        match extract fuel x (seq 0 num_vehicles) with
        | Some routes =>
            let routes := non_empty routes in
            Some {| routes := routes;
                    total_distance := distance_of routes;
                    status := "Optimal" |}
        | None => None
        end
      else
        Some {| routes := []; total_distance := 0; status := "No solution found" |}
  | Failed msg =>
      Some {| routes := []; total_distance := 0;
              status := ("Error: " ++ msg)%string |}
  end.

End Solver.

(** [gp.quicksum], on the values of the terms. *)
Definition quicksum (terms : list Q) : Q := fold_right Qplus 0%Q terms.

(** Lines 70-74, read at a solution: the constraint "each customer must be
    visited exactly once",
    [quicksum(x[i, j, k] for i in range(n) if i != j for k in range(K)) == 1]
    for every [j != depot_idx]. *)
Definition visited_once (num_vehicles depot_idx num_locations : nat)
    (x : nat -> nat -> nat -> Q) : Prop :=
  forall j, j < num_locations -> j <> depot_idx ->
    (quicksum
       (flat_map (fun i => if i =? j then []
                           else map (fun k => x i j k) (seq 0 num_vehicles))
                 (seq 0 num_locations)) == 1)%Q.

(** The variables [x] are binary, so their values are not negative. *)
Definition nonnegative (num_vehicles num_locations : nat)
    (x : nat -> nat -> nat -> Q) : Prop :=
  forall i j k, i < num_locations -> j < num_locations -> k < num_vehicles ->
    (0 <= x i j k)%Q.

(** [vtype=GRB.BINARY]: at a solution every [x[i, j, k]] is 0 or 1. *)
Definition binary (num_vehicles num_locations : nat)
    (x : nat -> nat -> nat -> Q) : Prop :=
  forall i j k, i < num_locations -> j < num_locations -> k < num_vehicles ->
    (x i j k == 0 \/ x i j k == 1)%Q.

(** [quicksum(x[i, h, k] for i in range(n) if i != h)] and
    [quicksum(x[h, j, k] for j in range(n) if j != h)] *)
Definition inflow (num_locations : nat) (x : nat -> nat -> nat -> Q)
    (h k : nat) : Q :=
  quicksum (flat_map (fun i => if i =? h then [] else [x i h k])
                     (seq 0 num_locations)).

Definition outflow (num_locations : nat) (x : nat -> nat -> nat -> Q)
    (h k : nat) : Q :=
  quicksum (flat_map (fun j => if j =? h then [] else [x h j k])
                     (seq 0 num_locations)).

(** Lines 77-82, read at a solution: a vehicle that enters a node leaves
    it. *)
Definition flow_conservation (num_vehicles num_locations : nat)
    (x : nat -> nat -> nat -> Q) : Prop :=
  forall k h, k < num_vehicles -> h < num_locations ->
    (inflow num_locations x h k == outflow num_locations x h k)%Q.

(** Lines 85-89: a vehicle leaves the depot at most once and comes back at
    most once. *)
Definition depot_degree (num_vehicles depot_idx num_locations : nat)
    (x : nat -> nat -> nat -> Q) : Prop :=
  forall k, k < num_vehicles ->
    (outflow num_locations x depot_idx k <= 1)%Q /\
    (inflow num_locations x depot_idx k <= 1)%Q.

(** Lines 92-110: the cumulative demands [u[i, k]] (Miller, Tucker and
    Zemlin). *)
Definition mtz (num_vehicles depot_idx num_locations : nat)
    (demands : nat -> Q) (capacity : Q) (x : nat -> nat -> nat -> Q)
    (u : nat -> nat -> Q) : Prop :=
  forall k, k < num_vehicles ->
    (u depot_idx k == 0)%Q /\
    (forall i, i < num_locations -> i <> depot_idx ->
               (u i k <= capacity)%Q /\ (demands i <= u i k)%Q) /\
    (forall i j, i < num_locations -> j < num_locations ->
                 i <> depot_idx -> j <> depot_idx -> i <> j ->
                 (u i k + demands j - capacity * (1 - x i j k) <= u j k)%Q).

End VRP.

(** ** The design document, in its own words *)

Module Spec.

Import Engine.

(** Section 4.2: [lb(x_p) = max(0, min_demand)] if present, else 0. *)
Definition lb (c : option demand_constraint) : Q :=
  match c with
  | Some c => match min_demand c with
              | Num lo => Qmax 0 lo
              | _ => 0%Q
              end
  | None => 0%Q
  end.

(** Section 4.2: [ub(x_p) = max_demand] if present, else +infinity. *)
Definition ub (c : option demand_constraint) : bound :=
  match c with
  | Some c => match max_demand c with
              | Num hi => Finite hi
              | _ => Infinity
              end
  | None => Infinity
  end.

(** Section 4.2: if the computed [lb > ub], clamp [ub := lb]. *)
Definition clamp_ub (lb : Q) (ub : bound) : bound :=
  match ub with
  | Finite hi => if Qlt_le_dec hi lb then Finite lb else Finite hi
  | Infinity => Infinity
  end.

(** [lb <= ub] for a possibly infinite upper bound. *)
Definition bound_le (lb : Q) (ub : bound) : Prop :=
  match ub with
  | Finite hi => (lb <= hi)%Q
  | Infinity => True
  end.

(** Section 4.2: the demand constraint of product [p] is the last row of
    [demand_constraints] that names it, if any. *)
Definition constraint_for (rows : option (list demand_constraint))
    (p : string) : option demand_constraint :=
  match rows with
  | Some rows =>
      find (fun dc => match dc_product_name dc with
                      | Some n => String.eqb n p
                      | None => false
                      end)
           (rev rows)
  | None => None
  end.

(** Section 4.2: the decision variable [x_p] of the demand-constrained
    model, from the rows of the payload. *)
Definition demand_variable (rows : option (list demand_constraint))
    (p : string) : var :=
  let c := constraint_for rows p in
  {| VarName := ("produce_" ++ p)%string;
     LB := lb c;
     UB := clamp_ub (lb c) (ub c) |}.

(** Section 6.3: the names of the constraints that the irreducible
    infeasible subset flags, in the order of the model, one for each flagged
    constraint. *)
Definition flagged_names (flags : nat -> bool) (cs : list constr)
  : list string :=
  map (fun ic => ConstrName (snd ic))
      (filter (fun ic => flags (fst ic))
              (combine (seq 0 (List.length cs)) cs)).

(** Section 4.5, route reconstruction for vehicle [k]. *)
Section Routes.

Variable num_locations : nat.
Variable depot : nat.
Variable x : nat -> nat -> nat -> Q.
Variable k : nat.

(** An outgoing arc with value > 0.5. *)
Definition arc (i j : nat) : Prop := (1 # 2 < x i j k)%Q.

(** The arc followed from [i]: among the destinations that qualify, the one
    with the smallest index. *)
Definition followed (i j : nat) : Prop :=
  j < num_locations /\ j <> i /\ arc i j /\
  forall j', j' < j -> j' <> i -> ~ arc i j'.

(** No outgoing arc exists. *)
Definition no_outgoing (i : nat) : Prop :=
  forall j, j < num_locations -> j <> i -> ~ arc i j.

(** The stops after [i]: repeat until the depot is returned to or no outgoing
    arc exists. *)
Inductive continues : nat -> list nat -> Prop :=
| ends_without_arc (i : nat) :
    no_outgoing i -> continues i []
| ends_at_depot (i : nat) :
    followed i depot -> continues i [depot]
| moves_on (i j : nat) (rest : list nat) :
    followed i j -> j <> depot -> continues j rest -> continues i (j :: rest).

(** A reconstructed route starts at the depot. *)
Definition route (r : list nat) : Prop :=
  exists rest, r = depot :: rest /\ continues depot rest.

End Routes.

(** The arcs along a route, and the sum of the distance-matrix entries along
    the arcs of a list of routes. *)
Definition arcs (r : list nat) : list (nat * nat) := combine r (tl r).

Definition length_along (dist_matrix : nat -> nat -> Q)
    (routes : list (list nat)) : Q :=
  fold_right Qplus 0%Q
    (map (fun '(a, b) => dist_matrix a b) (flat_map arcs routes)).

End Spec.

(** ** Predicates used in the proofs *)

Module Invariants.

Import Engine Optimizers Optimizers.DemandConstrainedOptimizer VRP.

(** The bounds the basic optimiser gives to every variable. *)
Definition free_above_zero (v : var) : Prop := LB v = 0%Q /\ UB v = Infinity.

(** The variable that [_create_production_variables_with_demand] adds for a
    product. *)
Definition variable_of (demand_constraints : dict demand_constraint)
    (product_name : string) : var :=
  {| VarName := ("produce_" ++ product_name)%string;
     LB := fst (bounds product_name demand_constraints);
     UB := snd (bounds product_name demand_constraints) |}.



(** The stops so far, newest first: they start at the depot and each one was
    reached from the previous one over a selected arc. *)
Inductive chain (depot_idx : nat) (x : nat -> nat -> nat -> Q) (k : nat)
  : list nat -> Prop :=
| chain_depot : chain depot_idx x k [depot_idx]
| chain_next (b a : nat) (l : list nat) :
    chain depot_idx x k (a :: l) ->
    selected x a b k = true -> a <> b -> b <> depot_idx ->
    chain depot_idx x k (b :: a :: l).

(** The customers on a route: its stops other than the depot. *)
Definition customers (depot_idx : nat) (r : list nat) : list nat :=
  filter (fun j => negb (j =? depot_idx)) r.

(** A route that leaves the depot, visits customers, each of them once, and
    comes back. *)
Definition closed_tour (depot_idx num_locations : nat) (r : list nat) : Prop :=
  exists cs,
    r = depot_idx :: cs ++ [depot_idx] /\ cs <> [] /\ NoDup cs /\
    Forall (fun c => c < num_locations /\ c <> depot_idx) cs.

(** What a route delivers. *)
Definition load (demands : nat -> Q) (depot_idx : nat) (r : list nat) : Q :=
  quicksum (map demands (customers depot_idx r)).

End Invariants.

(** ** What an accepted payload looks like *)

Module Contracts.

(** A key that is present with a number that is not negative. *)
Definition nonneg (f : field) : Prop :=
  exists q, f = Num q /\ (0 <= q)%Q.

(** A key that is missing, or present with a number that is not negative. *)
Definition absent_or_nonneg (f : field) : Prop :=
  f = Absent \/ nonneg f.

(** Some row of [rows] carries the name [n]. *)
Definition declares {A : Type} (name : A -> option string) (rows : list A)
    (n : string) : Prop :=
  exists row, In row rows /\ name row = Some n.

Definition product_ok (p : product) : Prop :=
  (exists n, p_name p = Some n) /\
  nonneg (profit_per_unit p) /\ nonneg (cost_per_unit p).

Definition resource_ok (r : resource) : Prop :=
  (exists n, r_name r = Some n) /\ nonneg (available_capacity r).

Definition usage_ok (ps : list product) (rs : list resource) (ru : usage_row)
  : Prop :=
  (exists n, ru_product_name ru = Some n /\ declares p_name ps n) /\
  (exists n, ru_resource_name ru = Some n /\ declares r_name rs n) /\
  nonneg (usage_per_unit ru).

Definition demand_ok (ps : list product) (dc : demand_constraint) : Prop :=
  (exists n, dc_product_name dc = Some n /\ declares p_name ps n) /\
  absent_or_nonneg (min_demand dc) /\
  absent_or_nonneg (max_demand dc) /\
  (forall lo hi, min_demand dc = Num lo -> max_demand dc = Num hi ->
                 (lo <= hi)%Q).

Definition total_ok (tc : total_constraints_t) : Prop :=
  (forall lo, min_total tc = Num lo -> (0 <= lo)%Q) /\
  (forall hi, max_total tc = Num hi -> (0 <= hi)%Q) /\
  (forall lo hi, min_total tc = Num lo -> max_total tc = Num hi ->
                 (lo <= hi)%Q).

(** The payloads [validate_optimization_input] lets through. *)
Definition accepted (d : data) : Prop :=
  exists obj ps rs rus,
    objective d = Some obj /\ products d = Some ps /\
    resources d = Some rs /\ resource_usage d = Some rus /\
    (obj = "maximize_profit" \/ obj = "minimize_cost") /\
    Forall product_ok ps /\
    Forall resource_ok rs /\
    Forall (usage_ok ps rs) rus /\
    (forall n, declares p_name ps n ->
               exists ru, In ru rus /\ ru_product_name ru = Some n) /\
    (forall dcs, demand_constraints d = Some dcs -> Forall (demand_ok ps) dcs) /\
    (forall tc, total_constraints d = Some tc -> total_ok tc).

(** Every stored usage is a number, and is stored under a resource name that
    satisfies [R]. *)
Definition table_ok (R : string -> Prop) (tbl : dict (dict (option Q)))
  : Prop :=
  forall p row r u, In (p, row) tbl -> In (r, u) row ->
                    (exists q, u = Some q) /\ R r.

(** The keys of a result that carry a solution. *)
Definition with_solution (r : result) : Prop :=
  (exists v, objective_value r = Some v) /\
  (exists plan, production_plan r = Some plan) /\
  (exists u, resource_utilization r = Some u) /\
  (exists t, total_production r = Some t).

Definition without_solution (r : result) : Prop :=
  objective_value r = None /\ production_plan r = None /\
  resource_utilization r = None /\ total_production r = None.

(** The results [_prepare_result] and the [except] clause of [solve] can
    produce. *)
Definition solved_shape (r : result) : Prop :=
  feasibility_warnings r = None /\ validation_errors r = None /\
  ((r_status r = "optimal" /\ with_solution r /\
    infeasible_constraints r = None) \/
   (r_status r = "infeasible" /\ without_solution r /\
    exists names, infeasible_constraints r = Some names) \/
   ((r_status r = "unbounded" \/ r_status r = "error") /\
    without_solution r /\ infeasible_constraints r = None)).

(** The results [optimize] can return: which keys go with which status. *)
Definition envelope (r : result) : Prop :=
  (r_status r = "validation_error" /\ without_solution r /\
   feasibility_warnings r = None /\ infeasible_constraints r = None /\
   exists errors, validation_errors r = Some errors /\ errors <> []) \/
  (validation_errors r = None /\
   ((r_status r = "optimal" /\ with_solution r /\
     feasibility_warnings r = None /\ infeasible_constraints r = None) \/
    (r_status r = "solution_warning" /\ with_solution r /\
     infeasible_constraints r = None /\
     exists warnings, feasibility_warnings r = Some warnings /\ warnings <> []) \/
    (r_status r = "infeasible" /\ without_solution r /\
     feasibility_warnings r = None /\
     exists names, infeasible_constraints r = Some names) \/
    ((r_status r = "unbounded" \/ r_status r = "error") /\
     without_solution r /\ feasibility_warnings r = None /\
     infeasible_constraints r = None))).

(** The exceptions that [optimize] does not catch. *)
Definition uncaught (ex : exn) : Prop :=
  match ex with
  | ValueError _ => False
  | _ => True
  end.

(** The exceptions the validator can let out. *)
Definition lookup_or_type_error (ex : exn) : Prop :=
  match ex with
  | KeyError _ | TypeError => True
  | _ => False
  end.

(** A total bound that reaches the model: present, a number, and strictly
    positive. *)
Definition enforced (f : field) : option Q :=
  match f with
  | Num q => if Qltb 0 q then Some q else None
  | _ => None
  end.

(** Name, sense and right-hand side of the total-production constraints of a
    payload. *)
Definition total_rows (o : option total_constraints_t)
  : list (string * Engine.sense * Q) :=
  match o with
  | Some tc =>
      (match enforced (min_total tc) with
       | Some lo => [("min_total_production", Engine.GREATER_EQUAL, lo)]
       | None => []
       end) ++
      (match enforced (max_total tc) with
       | Some hi => [("max_total_production", Engine.LESS_EQUAL, hi)]
       | None => []
       end)
  | None => []
  end.

(** The variable of product [p] in the model of an optimiser of class [c]. *)
Definition expected_variable (c : Factory.optimizer_class) (d : data)
    (p : string) : Engine.var :=
  match c with
  | Factory.BasicProductionOptimizer =>
      {| Engine.VarName := ("produce_" ++ p)%string;
         Engine.LB := 0; Engine.UB := Engine.Infinity |}
  | Factory.DemandConstrainedOptimizer =>
      Spec.demand_variable (demand_constraints d) p
  end.

(** The sum of the variables of the products [names]. *)
Definition total_terms (names : list string) (pv : dict Engine.var)
  : Engine.LinExpr :=
  flat_map (fun p => match dict_get p pv with
                     | Some v => [(1%Q, v)]
                     | None => []
                     end)
           names.

(** The sum of the variables [vars], each with coefficient 1. *)
Definition sum_of (vars : list Engine.var) : Engine.LinExpr :=
  map (fun v => (1%Q, v)) vars.

(** The total-production constraints of a payload over the expression
    [everything]: the floor first, then the ceiling, each only when
    enforced. *)
Definition total_constraints_of (everything : Engine.LinExpr)
    (o : option total_constraints_t) : list Engine.constr :=
  match o with
  | Some tc =>
      (match enforced (min_total tc) with
       | Some lo => [{| Engine.ConstrName := "min_total_production";
                        Engine.lhs := everything;
                        Engine.csense := Engine.GREATER_EQUAL;
                        Engine.rhs := lo |}]
       | None => []
       end) ++
      (match enforced (max_total tc) with
       | Some hi => [{| Engine.ConstrName := "max_total_production";
                        Engine.lhs := everything;
                        Engine.csense := Engine.LESS_EQUAL;
                        Engine.rhs := hi |}]
       | None => []
       end)
  | None => []
  end.

(** The left-hand side of the constraint of resource [rn]: one term per
    product that has a usage for it, in the order of the products. *)
Definition usage_terms (names : list string) (pv : dict Engine.var)
    (tbl : dict (dict (option Q))) (rn : string) : list (Q * Engine.var) :=
  flat_map
    (fun p =>
       match dict_get p tbl with
       | Some row =>
           match dict_get rn row, dict_get p pv with
           | Some (Some u), Some v => [(u, v)]
           | _, _ => []
           end
       | None => []
       end)
    names.

(** The constraint of one resource. *)
Definition capacity_constraint (names : list string) (pv : dict Engine.var)
    (tbl : dict (dict (option Q))) (entry : string * resource)
    (c : Engine.constr) : Prop :=
  Engine.ConstrName c = ("resource_" ++ fst entry)%string /\
  Engine.csense c = Engine.LESS_EQUAL /\
  available_capacity (snd entry) = Num (Engine.rhs c) /\
  Engine.lhs c = usage_terms names pv tbl (fst entry).

(** One term of the objective. *)
Definition objective_term (maximize : bool) (pv : dict Engine.var)
    (entry : string * product) (t : Q * Engine.var) : Prop :=
  dict_get (fst entry) pv = Some (snd t) /\
  (if maximize then profit_per_unit (snd entry)
   else cost_per_unit (snd entry)) = Num (fst t).

(** The usage recorded for a product and a resource, zero when there is
    none. *)
Definition recorded_usage (tbl : dict (dict (option Q))) (p rn : string) : Q :=
  match dict_get p tbl with
  | Some row => match dict_get rn row with
                | Some (Some u) => u
                | _ => 0%Q
                end
  | None => 0%Q
  end.

(** What a production plan uses of a resource. *)
Definition usage_of (tbl : dict (dict (option Q))) (plan : dict Q)
    (rn : string) : Q :=
  fold_right Qplus 0%Q
    (map (fun '(p, q) => (recorded_usage tbl p rn * q)%Q) plan).

(** A plan that respects the payload up to the tolerance of the verifier: no
    quantity strictly between zero and the tolerance, every capacity, every
    demand bound and both total bounds respected up to the tolerance. *)
Definition within_tolerance (d : data) (plan : dict Q) : Prop :=
  (forall p q, In (p, q) plan ->
               ~ (0 < q /\ q < Validation.epsilon)%Q) /\
  (forall obj pd rd tbl,
      Optimizers._extract_common_data d = Ret (obj, pd, rd, tbl) ->
      forall rn r c,
        In (rn, r) rd -> available_capacity r = Num c ->
        (usage_of tbl plan rn <= c + Validation.epsilon)%Q) /\
  (forall rows dcs,
      demand_constraints d = Some rows ->
      Validation.index_by "product_name" dc_product_name rows = Ret dcs ->
      forall p q dc,
        In (p, q) plan -> dict_get p dcs = Some dc ->
        (forall lo, min_demand dc = Num lo ->
                    (lo - Validation.epsilon <= q)%Q) /\
        (forall hi, max_demand dc = Num hi ->
                    (q <= hi + Validation.epsilon)%Q)) /\
  (forall tc,
      total_constraints d = Some tc ->
      (forall lo, min_total tc = Num lo ->
                  (lo - Validation.epsilon <= sum (values plan))%Q) /\
      (forall hi, max_total tc = Num hi ->
                  (sum (values plan) <= hi + Validation.epsilon)%Q)).

(** The number stored under a key, zero for a key that is not there. *)
Definition value_at (rn : string) (calc : dict Q) : Q :=
  match dict_get rn calc with
  | Some v => v
  | None => 0%Q
  end.

(** What the entries of one row of the usage table add for a resource. *)
Fixpoint row_usage (rn : string) (quantity : Q) (row : dict (option Q)) : Q :=
  match row with
  | [] => 0%Q
  | (r, u) :: rest =>
      ((if String.eqb r rn
        then match u with Some a => a * quantity | None => 0 end
        else 0) + row_usage rn quantity rest)%Q
  end.

(** What the values of the engine use of a resource: usage per unit times
    the value of the variable, over the rows of the usage table whose product
    has a variable. *)
Definition engine_usage (s : Engine.solved) (names : list string)
    (tbl : dict (dict (option Q))) (rn : string) : Q :=
  fold_right Qplus 0%Q
    (map (fun '(p, row) =>
            match dict_get rn row with
            | Some (Some a) =>
                if mem p names
                then (a * Engine.x s ("produce_" ++ p)%string)%Q else 0%Q
            | _ => 0%Q
            end) tbl).

(** One entry of [resource_utilization]. *)
Definition utilization_entry (s : Engine.solved) (names : list string)
    (tbl : dict (dict (option Q))) (entry : string * resource)
    (out : string * utilization) : Prop :=
  fst out = fst entry /\
  available_capacity (snd entry) = Num (available (snd out)) /\
  (used (snd out) == engine_usage s names tbl (fst entry))%Q /\
  ((0 < available (snd out))%Q ->
   utilization_pct (snd out) =
     (used (snd out) / available (snd out) * 100)%Q) /\
  ((available (snd out) <= 0)%Q -> utilization_pct (snd out) = 0%Q).

(** The entries of a plan that enter the financial summary: a declared
    product made in a positive quantity. *)
Definition priced (pd : dict product) (plan : dict Q) : dict Q :=
  filter (fun entry => dict_mem (fst entry) pd && Qltb 0 (snd entry)) plan.

(** The profit and the cost of one entry of the plan. *)
Definition profit_of (pd : dict product) (entry : string * Q) : Q :=
  match dict_get (fst entry) pd with
  | Some p => match profit_per_unit p with
              | Num u => (u * snd entry)%Q
              | _ => 0%Q
              end
  | None => 0%Q
  end.

Definition cost_of (pd : dict product) (entry : string * Q) : Q :=
  match dict_get (fst entry) pd with
  | Some p => match cost_per_unit p with
              | Num u => (u * snd entry)%Q
              | _ => 0%Q
              end
  | None => 0%Q
  end.

(** A number of the payload that converts to a float. *)
Definition in_float_range (f : field) : Prop :=
  forall q, f = Num q -> (Qabs q < float_limit)%Q.

(** The total bounds of a payload convert to floats. *)
Definition totals_in_range (d : data) : Prop :=
  forall tc, total_constraints d = Some tc ->
             in_float_range (min_total tc) /\ in_float_range (max_total tc).

(** The prices of a payload convert to floats. *)
Definition prices_in_range (d : data) : Prop :=
  forall ps p, products d = Some ps -> In p ps ->
               in_float_range (profit_per_unit p) /\
               in_float_range (cost_per_unit p).

(** A moderate payload: every number in it converts to a float. A number
    that JSON writes with a fraction or an exponent is a float already; an
    integer of more than 308 digits is not moderate. *)
Definition moderate (d : data) : Prop :=
  (forall rs r, resources d = Some rs -> In r rs ->
                in_float_range (available_capacity r)) /\
  (forall rus ru, resource_usage d = Some rus -> In ru rus ->
                  in_float_range (usage_per_unit ru)) /\
  (forall dcs dc, demand_constraints d = Some dcs -> In dc dcs ->
                  in_float_range (min_demand dc) /\
                  in_float_range (max_demand dc)) /\
  totals_in_range d /\
  prices_in_range d.

(** Every usage stored in the table converts to a float. *)
Definition table_in_range (tbl : dict (dict (option Q))) : Prop :=
  forall p row r q, In (p, row) tbl -> In (r, Some q) row ->
                    (Qabs q < float_limit)%Q.

(** A model under another name. *)
Definition renamed (name : string) (m : Engine.model) : Engine.model :=
  {| Engine.ModelName := name;
     Engine.Params := Engine.Params m;
     Engine.getVars := Engine.getVars m;
     Engine.getObjective := Engine.getObjective m;
     Engine.getConstrs := Engine.getConstrs m |}.

End Contracts.

(** ** Concrete requests and engine answers *)

Module Scenarios.

Import Engine Validation Optimizers Factory.

Definition product_A : product :=
  {| p_name := Some "A"; profit_per_unit := Num 1; cost_per_unit := Num 1 |}.

Definition resource_R (capacity : Q) : resource :=
  {| r_name := Some "R"; available_capacity := Num capacity |}.

Definition usage_A_R : usage_row :=
  {| ru_product_name := Some "A"; ru_resource_name := Some "R";
     usage_per_unit := Num 1 |}.

(** Maximise the profit of one product [A] that uses one unit of the single
    resource [R]; the optimum produces exactly the capacity of [R]. *)
Definition one_product (capacity : Q) (dcs : option (list demand_constraint))
  : data :=
  {| objective := Some "maximize_profit";
     products := Some [product_A];
     resources := Some [resource_R capacity];
     resource_usage := Some [usage_A_R];
     demand_constraints := dcs;
     total_constraints := None |}.

(** A demand floor on [A]. *)
Definition at_least (lo : Q) : demand_constraint :=
  {| dc_product_name := Some "A"; min_demand := Num lo; max_demand := Absent |}.

(** The integer ten to the 400, which no float holds. *)
Definition huge : Q := inject_Z (10 ^ 400).

(** A demand ceiling on [A]. *)
Definition at_most (hi : Q) : demand_constraint :=
  {| dc_product_name := Some "A"; min_demand := Absent; max_demand := Num hi |}.

(** Scenario 1 of the design with a floor on the total production. *)
Definition with_total_floor (lo : Q) : data :=
  {| objective := Some "maximize_profit";
     products := Some [product_A];
     resources := Some [resource_R 10];
     resource_usage := Some [usage_A_R];
     demand_constraints := None;
     total_constraints := Some {| min_total := Num lo; max_total := Absent |} |}.

(** An engine that answers [status] with every variable at [value]. *)
Definition answer (st : Z) (value : Q) (flags : nat -> bool) : engine :=
  fun _ => Ret {| Engine.status := st; x := fun _ => value; objVal := value;
                  computeIIS := Ret flags |}.

(** A usage row without [product_name], next to a named product. *)
Definition anonymous_usage : data :=
  {| objective := Some "maximize_profit";
     products := Some [product_A];
     resources := Some [resource_R 10];
     resource_usage :=
       Some [{| ru_product_name := None; ru_resource_name := Some "R";
                usage_per_unit := Num 1 |}];
     demand_constraints := None;
     total_constraints := None |}.

(** A payload without any of the required fields. *)
Definition empty_payload : data :=
  {| objective := None; products := None; resources := None;
     resource_usage := None; demand_constraints := None;
     total_constraints := None |}.

(** Scenario 6 of the design: depot 0 and three customers, one vehicle
    driving the tour 0, 1, 3, 2, 0. *)
Definition square_tour (i j k : nat) : Q :=
  if existsb (fun '(a, b) => (a =? i) && (b =? j)) [(0, 1); (1, 3); (3, 2); (2, 0)]
     && (k =? 0)
  then 1%Q else 0%Q.

(** A distance matrix with zero diagonal. *)
Definition ten_apart (i j : nat) : Q := if i =? j then 0%Q else 10%Q.

(** The optimal answer for [one_product 10 _] that produces [q] units. *)
Definition produced (q : Q) : result :=
  {| r_status := "optimal";
     solver_message := Text "Optimal solution found";
     objective_value := Some q;
     production_plan := Some [("A", q)];
     resource_utilization :=
       Some [("R", {| used := q; available := 10;
                      utilization_pct := q / 10 * 100 |})];
     total_production := Some q;
     feasibility_warnings := None;
     infeasible_constraints := None;
     validation_errors := None |}.

(** One unit for each customer of scenario 6, and the cumulative demands
    along the tour 0, 1, 3, 2, 0. *)
Definition unit_demands (i : nat) : Q := if i =? 0 then 0%Q else 1%Q.

Definition square_loads (i k : nat) : Q :=
  match i with
  | 1 => 1%Q
  | 3 => 2%Q
  | 2 => 3%Q
  | _ => 0%Q
  end.

End Scenarios.

(** * Properties *)

(** ** Comparisons on rationals *)

Lemma Qltb_lt (a b : Q) : Qltb a b = true <-> (a < b)%Q.
Proof.
  unfold Qltb. rewrite negb_true_iff.
  split; intro H.
  - apply Qnot_le_lt. intro Hle. apply Qle_bool_iff in Hle. congruence.
  - destruct (Qle_bool b a) eqn:E; [|reflexivity].
    apply Qle_bool_iff in E. exfalso. exact (Qlt_not_le _ _ H E).
Qed.

Lemma Qltb_ge (a b : Q) : Qltb a b = false <-> (b <= a)%Q.
Proof.
  unfold Qltb. rewrite negb_false_iff. apply Qle_bool_iff.
Qed.

(** *** Conversions to float *)

Lemma float_Ret (q q' : Q) :
  float q = Ret q' -> q' = q /\ (Qabs q < float_limit)%Q.
Proof.
  unfold float. destruct (Qltb (Qabs q) float_limit) eqn:E; [|discriminate].
  intro H; inversion H; subst. split; [reflexivity|apply Qltb_lt; exact E].
Qed.

Lemma float_in_range (q : Q) :
  (Qabs q < float_limit)%Q -> float q = Ret q.
Proof. intro H. unfold float. apply Qltb_lt in H. rewrite H. reflexivity. Qed.

Lemma float_Raise (q : Q) (ex : exn) :
  float q = Raise ex -> ex = OverflowError /\ (float_limit <= Qabs q)%Q.
Proof.
  unfold float. destruct (Qltb (Qabs q) float_limit) eqn:E; [discriminate|].
  intro H; inversion H; subst. split; [reflexivity|apply Qltb_ge; exact E].
Qed.

(** A conversion that went through gives the number itself. *)
Ltac floated :=
  repeat match goal with
         | |- context [float ?a] =>
             let F := fresh "F" in
             let a' := fresh "a" in
             destruct (float a) as [a'|] eqn:F; cbn [bind];
             [apply float_Ret in F; destruct F as [-> _]|discriminate]
         end.


(** ** The input validator *)

Module ValidationFacts.

Import Validation Scenarios.

(** When the validator returns, the flag says whether the list is empty. *)
Lemma validate_optimization_input_flag (d : data) (ok : bool)
    (errors : list error) :
  validate_optimization_input d = Ret (ok, errors) ->
  ok = is_empty errors.
Proof.
  unfold validate_optimization_input.
  destruct (missing_fields d) as [|e l] eqn:Hm; simpl.
  - repeat match goal with
           | |- context [bind ?m _] =>
               let E := fresh "E" in
               destruct m as [[? ?]|?] eqn:E || destruct m eqn:E;
               simpl; try discriminate
           end;
    intro H; inversion H; reflexivity.
  - intro H; inversion H; reflexivity.
Qed.

(** C4. [validate_optimization_input] raises on a well-typed payload: with a
    named product and a resource-usage row that has no [product_name], the
    row is first reported in [errors] (line 77), and then line 93 subscripts
    the same row with ['product_name'] and a [KeyError] leaves the function. *)
Theorem validate_optimization_input_raises :
  validate_optimization_input anonymous_usage = Raise (KeyError "product_name").
Proof. reflexivity. Qed.

End ValidationFacts.

(** ** The factory and the HTTP endpoint *)

Module FactoryFacts.

Import Engine Validation Optimizers Factory Endpoint Scenarios.

(** An identifier that is not a key of the registry makes the lookup raise. *)
Lemma get_optimizer_unknown (reg : registry) (optimizer_type : string) :
  dict_get optimizer_type reg = None ->
  get_optimizer reg optimizer_type =
  Raise (ValueError ("Unknown optimizer type: " ++ optimizer_type)%string).
Proof. unfold get_optimizer. intros ->. reflexivity. Qed.

(** For a payload that passes validation and an identifier that is not
    registered, [optimize] swallows the [ValueError] and the endpoint answers
    200 with an ["error"] body. *)
Lemma unknown_optimizer_is_swallowed (reg : registry) (e : engine)
    (optimizer_type : string) (d : data) :
  validate_optimization_input d = Ret (true, []) ->
  dict_get optimizer_type reg = None ->
  post reg e optimizer_type d =
  (plain_result "error"
     (str (ValueError ("Unknown optimizer type: " ++ optimizer_type)%string)),
   200).
Proof.
  intros Hv Hreg. unfold post, optimize, optimize_body.
  rewrite Hv. simpl. rewrite (get_optimizer_unknown _ _ Hreg). reflexivity.
Qed.

(** C2. A valid payload posted to [/optimize/nope], an identifier that is not
    registered: the lookup raises the unknown-optimizer [ValueError], yet the
    response carries status code 200 (not 400) and an ["error"] body. *)
Theorem post_unknown_optimizer_answers_200 :
  validate_optimization_input (one_product 10 None) = Ret (true, []) /\
  dict_get "nope" _optimizers = None /\
  get_optimizer _optimizers "nope" =
    Raise (ValueError "Unknown optimizer type: nope") /\
  post _optimizers (answer OPTIMAL 10 (fun _ => false)) "nope"
       (one_product 10 None) =
    (plain_result "error" (str (ValueError "Unknown optimizer type: nope")), 200).
Proof. repeat split. Qed.

(** On an optimal result the flag of the verifier is [len(warnings) == 0]. *)
Lemma validate_solution_feasibility_flag (r : result) (d : data) (ok : bool)
    (warnings : list warning) :
  r_status r = "optimal" ->
  validate_solution_feasibility r d = Ret (ok, warnings) ->
  ok = is_empty warnings.
Proof.
  intro Hst. unfold validate_solution_feasibility. rewrite Hst. simpl.
  repeat match goal with
         | |- context [bind ?m _] =>
             let E := fresh "E" in
             destruct m eqn:E; simpl; try discriminate
         end;
    intro H; inversion H; reflexivity.
Qed.

(** Hence every warning downgrades: the branch "feasible but with warnings"
    of [optimize] is never taken. *)
Lemma check_feasibility_downgrades (r : result) (d : data) (ok : bool)
    (warnings : list warning) :
  r_status r = "optimal" ->
  validate_solution_feasibility r d = Ret (ok, warnings) ->
  check_feasibility r d =
  Ret (if is_empty warnings then r
       else set_status_and_warnings r "solution_warning" warnings).
Proof.
  intros Hst Hv. unfold check_feasibility.
  rewrite (validate_solution_feasibility_flag r d ok warnings Hst Hv) in Hv.
  rewrite Hst, Hv. simpl. destruct warnings; reflexivity.
Qed.

(** C1. A valid request whose optimum is the tiny quantity [5e-7]: the only
    warning of the verifier is the numerical-precision one, and [optimize]
    still downgrades the status from ["optimal"] to ["solution_warning"]. *)
Theorem optimize_downgrades_on_precision_warning :
  let d := one_product (5 # 10000000) None in
  let e := answer OPTIMAL (5 # 10000000) (fun _ => false) in
  validate_optimization_input d = Ret (true, []) /\
  r_status (snd (Optimizers.BasicProductionOptimizer.solve e d)) = "optimal" /\
  exists r,
    snd (optimize _optimizers e "basic" d) = Ret r /\
    r_status r = "solution_warning" /\
    feasibility_warnings r = Some [Small_quantity "A" (5 # 10000000)].
Proof.
  repeat split. eexists. repeat split.
Qed.

(** C9. Validation comes first in [optimize]: when the validator rejects the
    payload, then for every registry, engine and optimizer identifier the
    result is the ["validation_error"] envelope carrying the validator's
    messages, and nothing else happened: no optimizer was instantiated, no
    model was created or optimized. *)
Theorem optimize_rejects_before_lookup (reg : registry) (e : engine)
    (optimizer_type : string) (d : data) (messages : list error) :
  validate_optimization_input d = Ret (false, messages) ->
  exists r,
    optimize reg e optimizer_type d = ([], Ret r) /\
    r_status r = "validation_error" /\
    solver_message r = Text "Input validation failed" /\
    validation_errors r = Some messages.
Proof.
  intro Hv. exists (validation_error_result messages).
  unfold optimize, optimize_body. rewrite Hv. simpl. repeat split.
Qed.

Lemma optimize_rejects_before_lookup_witness :
  validate_optimization_input empty_payload =
    Ret (false, [Missing_required_field "objective";
                 Missing_required_field "products";
                 Missing_required_field "resources";
                 Missing_required_field "resource_usage"]) /\
  exists r,
    optimize _optimizers (answer OPTIMAL 1 (fun _ => false)) "no-such-optimizer"
             empty_payload = ([], Ret r) /\
    r_status r = "validation_error" /\
    solver_message r = Text "Input validation failed" /\
    validation_errors r =
      Some [Missing_required_field "objective";
            Missing_required_field "products";
            Missing_required_field "resources";
            Missing_required_field "resource_usage"].
Proof.
  split; [reflexivity|].
  apply (optimize_rejects_before_lookup _optimizers
           (answer OPTIMAL 1 (fun _ => false)) "no-such-optimizer" empty_payload).
  reflexivity.
Defined.

End FactoryFacts.

(** ** The result assembler *)

Module AssemblerFacts.

Import Engine Validation Optimizers Scenarios.

(** The loop collects the names of the flagged constraints in the order of
    the model. *)
Lemma flagged_from_names (flags : nat -> bool) (cs : list constr) :
  forall (i : nat) (acc : list string),
    flagged_from i flags cs acc =
    acc ++ map (fun ic => ConstrName (snd ic))
               (filter (fun ic => flags (fst ic))
                       (combine (seq i (List.length cs)) cs)).
Proof.
  induction cs as [|c cs IH]; intros i acc; simpl.
  - rewrite app_nil_r. reflexivity.
  - rewrite IH. destruct (flags i); simpl; [|reflexivity].
    rewrite <- app_assoc. reflexivity.
Qed.

(** C5 (as amended). When the engine reports [INFEASIBLE], what
    [_prepare_result] does depends on the IIS computation. When it sets the
    flags, the result is ["infeasible"] and its [infeasible_constraints]
    field is present: the names of the flagged constraints, in the order of
    the model and one for each flagged constraint, or the sentinel
    ["Unknown"] when none is flagged. When the IIS computation raises,
    [_prepare_result] raises too, and [solve] answers ["error"] with the
    message of the exception and without the field. *)
Theorem prepare_result_infeasible (m : model) (s : solved)
    (production_vars : dict var) (resources : dict resource)
    (resource_usage : dict (dict (option Q))) :
  Engine.status s = INFEASIBLE ->
  match computeIIS s with
  | Ret flags =>
      _prepare_result m s production_vars resources resource_usage =
      Ret {| r_status := "infeasible";
             solver_message := Text "The model is infeasible";
             objective_value := None; production_plan := None;
             resource_utilization := None; total_production := None;
             feasibility_warnings := None;
             infeasible_constraints :=
               Some (match Spec.flagged_names flags (getConstrs m) with
                     | [] => Unknown
                     | _ :: _ => Names (Spec.flagged_names flags (getConstrs m))
                     end);
             validation_errors := None |}
  | Raise ex =>
      _prepare_result m s production_vars resources resource_usage = Raise ex /\
      forall e : engine,
        e m = Ret s ->
        snd (finish e (Ret (m, production_vars, resources, resource_usage))) =
          plain_result "error" (str ex) /\
        infeasible_constraints
          (snd (finish e (Ret (m, production_vars, resources, resource_usage))))
        = None
  end.
Proof.
  intros Hs. unfold _prepare_result. rewrite Hs. cbn [Z.eqb Pos.eqb OPTIMAL
                                                      INFEASIBLE].
  destruct (computeIIS s) as [flags|ex] eqn:Hiis; cbn [bind].
  - rewrite (flagged_from_names flags (getConstrs m) 0 []). cbn [app].
    unfold Spec.flagged_names.
    match goal with |- context [is_empty ?l] => destruct l end; reflexivity.
  - split; [reflexivity|]. intros e He. unfold finish. cbn [snd bind].
    rewrite He. cbn [bind]. unfold _prepare_result. rewrite Hs.
    cbn [Z.eqb Pos.eqb OPTIMAL INFEASIBLE]. rewrite Hiis. cbn [bind].
    split; reflexivity.
Qed.

(** The total-minimum constraint of scenario 3 is the one flagged. *)
Lemma prepare_result_infeasible_witness :
  let m := addConstr (addConstr (Model "m") [] LESS_EQUAL 10 "resource_R")
                     [] GREATER_EQUAL 20 "min_total_production" in
  let s := {| Engine.status := INFEASIBLE; x := fun _ => 0%Q; objVal := 0%Q;
              computeIIS := Ret (Nat.eqb 1) |} in
  exists r,
    _prepare_result m s [] [] [] = Ret r /\
    r_status r = "infeasible" /\
    infeasible_constraints r = Some (Names ["min_total_production"]).
Proof.
  intros m s.
  pose proof (prepare_result_infeasible m s [] [] [] eq_refl) as H.
  cbn [computeIIS s] in H.
  eexists. split; [exact H|]. split; reflexivity.
Defined.

(** C5 (as stated) fails: on scenario 3 of the design, an engine that
    reports the model infeasible and whose IIS computation raises makes
    [solve] answer ["error"], and the field [infeasible_constraints] is
    omitted instead of holding ["Unknown"]. *)
Lemma infeasible_without_iis_omits_the_field :
  let d := one_product 10 (Some [at_least 20]) in
  let e : engine :=
    fun _ => Ret {| Engine.status := INFEASIBLE; x := fun _ => 0%Q;
                    objVal := 0%Q;
                    computeIIS := Raise (GurobiError "Cannot compute IIS") |} in
  let r := snd (DemandConstrainedOptimizer.solve e d) in
  validate_optimization_input d = Ret (true, []) /\
  (exists m pv rd tbl s,
      DemandConstrainedOptimizer.build d = Ret (m, pv, rd, tbl) /\
      e m = Ret s /\ Engine.status s = INFEASIBLE) /\
  r_status r = "error" /\
  infeasible_constraints r = None /\
  infeasible_constraints r <> Some Unknown.
Proof.
  intros d e r. split; [reflexivity|]. split.
  - do 5 eexists. split; [reflexivity|]. split; reflexivity.
  - split; [reflexivity|]. split; [reflexivity|]. discriminate.
Qed.

End AssemblerFacts.

(** ** Route extraction *)

Module VRPFacts.

Import VRP.

(** C10. Whatever the instance and the arc values, a final status other than
    [OPTIMAL] (infeasible and unbounded included) makes [solve] return no
    route, distance 0 and the status ["No solution found"]; and a solver
    error makes it return no route, distance 0 and the status ["Error: "]
    followed by the message of the exception. Neither branch loops. *)
Theorem solve_without_solution (num_vehicles depot_idx num_locations : nat)
    (dist_matrix : nat -> nat -> Q) (fuel : nat) (st : Z)
    (x : nat -> nat -> nat -> Q) (msg : string) :
  st <> OPTIMAL ->
  solve num_vehicles depot_idx num_locations dist_matrix fuel (Solved st x) =
    Some {| routes := []; total_distance := 0; status := "No solution found" |} /\
  solve num_vehicles depot_idx num_locations dist_matrix fuel (Failed msg) =
    Some {| routes := []; total_distance := 0;
            status := ("Error: " ++ msg)%string |}.
Proof.
  intro Hst. split; [|reflexivity].
  unfold solve. destruct (Z.eqb_spec st OPTIMAL) as [E|E]; [contradiction|].
  reflexivity.
Qed.

Lemma solve_without_solution_witness :
  (3 <> OPTIMAL)%Z /\
  solve 2 0 4 (fun _ _ => 1%Q) 0 (Solved 3 (fun _ _ _ => 0%Q)) =
    Some {| routes := []; total_distance := 0; status := "No solution found" |} /\
  solve 2 0 4 (fun _ _ => 1%Q) 0 (Failed "Out of memory") =
    Some {| routes := []; total_distance := 0;
            status := "Error: Out of memory" |}.
Proof.
  split; [discriminate|].
  apply (solve_without_solution 2 0 4 (fun _ _ => 1%Q) 0 3
           (fun _ _ _ => 0%Q) "Out of memory").
  discriminate.
Defined.

End VRPFacts.

(** ** The model builders *)

Module BuilderFacts.

Import Engine Validation Optimizers Factory Scenarios Invariants.

(** A property that every iteration preserves holds after the loop. *)
Lemma for_each_invariant {A S : Type} (P : S -> Prop) (body : A -> S -> res S)
    (xs : list A) :
  (forall a s s', In a xs -> P s -> body a s = Ret s' -> P s') ->
  forall st st', P st -> for_each body xs st = Ret st' -> P st'.
Proof.
  induction xs as [|a xs IH]; intros Hbody st st' Hst; simpl.
  - intro H; inversion H; subst; exact Hst.
  - destruct (body a st) as [s1|] eqn:E; simpl; [|discriminate].
    apply IH.
    + intros b s s' Hb. apply Hbody. right; exact Hb.
    + apply (Hbody a st s1); auto. left; reflexivity.
Qed.

Lemma dict_get_In {V : Type} (k : string) (v : V) (d : dict V) :
  dict_get k d = Some v -> In v (values d).
Proof.
  induction d as [|[k' v'] d IH]; simpl; [discriminate|].
  destruct (String.eqb k' k).
  - intro H; inversion H; auto.
  - auto.
Qed.

Lemma dict_set_values {V : Type} (P : V -> Prop) (k : string) (v : V)
    (d : dict V) :
  P v -> Forall P (values d) -> Forall P (values (dict_set k v d)).
Proof.
  intros Hv. induction d as [|[k' v'] d IH]; simpl; intro H.
  - constructor; auto.
  - inversion H; subst. destruct (String.eqb k' k); simpl; constructor; auto.
Qed.

Lemma dict_get_set_same {V : Type} (k : string) (v : V) (d : dict V) :
  dict_get k (dict_set k v d) = Some v.
Proof.
  induction d as [|[k' v'] d IH]; simpl.
  - rewrite String.eqb_refl. reflexivity.
  - destruct (String.eqb k' k) eqn:E; simpl.
    + rewrite String.eqb_refl. reflexivity.
    + rewrite E. exact IH.
Qed.

Lemma dict_get_set_other {V : Type} (k k0 : string) (v : V) (d : dict V) :
  k <> k0 -> dict_get k0 (dict_set k v d) = dict_get k0 d.
Proof.
  intro Hk. induction d as [|[k' v'] d IH]; simpl.
  - destruct (String.eqb_spec k k0); [contradiction|reflexivity].
  - destruct (String.eqb_spec k' k) as [->|Hne]; simpl.
    + destruct (String.eqb_spec k k0); [contradiction|reflexivity].
    + destruct (String.eqb k' k0); [reflexivity|exact IH].
Qed.

(** The steps after the creation of the variables leave them alone. *)
Lemma _set_objective_getVars (m m' : model) (objective_type : string)
    (products : dict product) (production_vars : dict var) :
  _set_objective m objective_type products production_vars = Ret m' ->
  getVars m' = getVars m.
Proof.
  unfold _set_objective.
  destruct (String.eqb objective_type "maximize_profit");
    match goal with |- context [bind ?f _] => destruct f; simpl end;
    try discriminate; intro H; inversion H; reflexivity.
Qed.

Lemma _add_resource_constraints_getVars (m m' : model)
    (resources : dict resource) (products : dict product)
    (production_vars : dict var) (resource_usage : dict (dict (option Q))) :
  _add_resource_constraints m resources products production_vars
    resource_usage = Ret m' ->
  getVars m' = getVars m.
Proof.
  unfold _add_resource_constraints.
  apply (for_each_invariant (fun m0 => getVars m0 = getVars m)); [|reflexivity].
  intros [resource_name r] s s' _ Hs.
  match goal with |- context [bind ?f _] => destruct f; simpl end;
    [|discriminate].
  destruct (subscript "available_capacity" (available_capacity r)) as [[c|]|];
    simpl; try discriminate.
  intro H; inversion H; subst; exact Hs.
Qed.

Lemma add_total_if_given_getVars (m m' : model) (d : data)
    (products : dict product) (production_vars : dict var) :
  add_total_if_given m d products production_vars = Ret m' ->
  getVars m' = getVars m.
Proof.
  unfold add_total_if_given, _add_total_product_constraints.
  destruct (total_constraints d) as [tc|]; [|intro H; inversion H; reflexivity].
  destruct (truthy tc); simpl; [|intro H; inversion H; reflexivity].
  match goal with |- context [bind ?f _] => destruct f; simpl end;
    [|discriminate].
  destruct (min_total tc) as [| |lo]; destruct (max_total tc) as [| |hi];
    try destruct (float lo) as [lo'|]; try destruct (float hi) as [hi'|];
    cbn [bind]; try discriminate;
    intro H; inversion H; subst;
    repeat match goal with |- context [Qltb ?a ?b] => destruct (Qltb a b) end;
    reflexivity.
Qed.

Lemma _create_production_variables_bounds (names : list string) :
  forall (m : model) (production_vars : dict var),
    Forall free_above_zero (getVars m) ->
    Forall free_above_zero (values production_vars) ->
    let out :=
      fold_left BasicProductionOptimizer.add_variable names
                (m, production_vars) in
    Forall free_above_zero (getVars (fst out)) /\
    Forall free_above_zero (values (snd out)).
Proof.
  induction names as [|p names IH]; intros m pv Hm Hpv; simpl.
  - auto.
  - apply IH.
    + simpl. apply Forall_app. split; [exact Hm|].
      constructor; [split; reflexivity|constructor].
    + apply dict_set_values; [split; reflexivity|exact Hpv].
Qed.

(** C8. The basic optimiser never looks at [demand_constraints]: whatever
    rows the payload carries under that key, the model it builds (and hence
    its answer) is the one built without them, and every variable of that
    model has lower bound 0 and no upper bound. ['basic'] is registered to
    this optimiser, and a demand floor in the payload shows up only
    afterwards, as a warning of the feasibility verifier. *)
Theorem basic_ignores_demand_constraints (d : data)
    (dcs : option (list demand_constraint)) (e : engine) (m : model)
    (production_vars : dict var) (resources : dict resource)
    (resource_usage : dict (dict (option Q))) :
  BasicProductionOptimizer.build (with_demand_constraints d dcs) =
    Ret (m, production_vars, resources, resource_usage) ->
  dict_get "basic" _optimizers = Some Factory.BasicProductionOptimizer /\
  BasicProductionOptimizer.build d =
    Ret (m, production_vars, resources, resource_usage) /\
  Factory.solve Factory.BasicProductionOptimizer e (with_demand_constraints d dcs) =
    Factory.solve Factory.BasicProductionOptimizer e d /\
  Forall (fun v => LB v = 0%Q /\ UB v = Infinity) (getVars m) /\
  (forall p v, dict_get p production_vars = Some v ->
               LB v = 0%Q /\ UB v = Infinity) /\
  (exists r,
     snd (optimize _optimizers (answer OPTIMAL 10 (fun _ => false)) "basic"
            (one_product 10 (Some [at_least 20]))) = Ret r /\
     production_plan r = Some [("A", 10%Q)] /\
     feasibility_warnings r = Some [Min_demand_violated "A" 10 20]).
Proof.
  intro Hb.
  assert (Hsame : BasicProductionOptimizer.build (with_demand_constraints d dcs)
                  = BasicProductionOptimizer.build d) by reflexivity.
  split; [reflexivity|].
  split; [rewrite <- Hsame; exact Hb|].
  split; [reflexivity|].
  assert (Hvars : Forall free_above_zero (getVars m) /\
                  Forall free_above_zero (values production_vars)).
  { rewrite Hsame in Hb. unfold BasicProductionOptimizer.build in Hb.
    destruct (_extract_common_data d) as [[[[ot ps] rs] ru]|]; simpl in Hb;
      [|discriminate].
    pose proof (_create_production_variables_bounds (keys ps)
                  (_create_model BasicProductionOptimizer.model_name) []
                  (Forall_nil _) (Forall_nil _)) as Hc.
    unfold BasicProductionOptimizer._create_production_variables in Hb.
    simpl in Hc.
    destruct (fold_left _ (keys ps) _) as [m0 pv0] in Hb, Hc.
    simpl in Hc.
    destruct (_set_objective m0 ot ps pv0) as [m1|] eqn:E1; simpl in Hb;
      [|discriminate].
    destruct (_add_resource_constraints m1 rs ps pv0 ru) as [m2|] eqn:E2;
      simpl in Hb; [|discriminate].
    destruct (add_total_if_given m2 d ps pv0) as [m3|] eqn:E3; simpl in Hb;
      [|discriminate].
    inversion Hb; subst.
    rewrite (add_total_if_given_getVars _ _ _ _ _ E3),
            (_add_resource_constraints_getVars _ _ _ _ _ _ E2),
            (_set_objective_getVars _ _ _ _ _ E1).
    exact Hc. }
  destruct Hvars as [Hm Hpv].
  split; [exact Hm|].
  split.
  - intros p v Hg. apply dict_get_In in Hg.
    rewrite Forall_forall in Hpv. exact (Hpv v Hg).
  - eexists. repeat split.
Qed.

Lemma basic_ignores_demand_constraints_witness :
  let d := one_product 10 None in
  let dcs := Some [at_least 20] in
  let v := {| VarName := "produce_A"; LB := 0; UB := Infinity |} in
  let m :=
    {| ModelName := "basic_production_optimization";
       Params := [("NumericFocus", 3%Q); ("FeasibilityTol", 1 # 1000000)];
       getVars := [v];
       getObjective := Some (MAXIMIZE, [(1%Q, v)]);
       getConstrs := [{| ConstrName := "resource_R"; lhs := [(1%Q, v)];
                         csense := LESS_EQUAL; rhs := 10 |}] |} in
  Forall (fun v => LB v = 0%Q /\ UB v = Infinity) (getVars m) /\
  BasicProductionOptimizer.build d =
    Ret (m, [("A", v)], [("R", resource_R 10)], [("A", [("R", Some 1%Q)])]).
Proof.
  intros d dcs v m.
  pose proof (basic_ignores_demand_constraints d dcs
                (answer OPTIMAL 10 (fun _ => false)) m [("A", v)]
                [("R", resource_R 10)] [("A", [("R", Some 1%Q)])]
                eq_refl) as H.
  split; [apply H|apply H].
Defined.

Import DemandConstrainedOptimizer.

Lemma add_variable_eq (dcs : dict demand_constraint) (m : model)
    (production_vars : dict var) (p : string) :
  add_variable dcs (m, production_vars) p =
  (fst (addVar m ("produce_" ++ p)%string (fst (bounds p dcs))
               (snd (bounds p dcs))),
   dict_set p (variable_of dcs p) production_vars).
Proof.
  unfold add_variable, variable_of. destruct (bounds p dcs) as [lb ub].
  reflexivity.
Qed.

Lemma _create_production_variables_with_demand_fold
    (dcs : dict demand_constraint) (names : list string) :
  forall (m : model) (production_vars : dict var),
    let out := fold_left (add_variable dcs) names (m, production_vars) in
    (forall p, In p names \/ dict_get p production_vars = Some (variable_of dcs p) ->
               dict_get p (snd out) = Some (variable_of dcs p)) /\
    (forall v, In v (getVars m) \/ (exists p, In p names /\ v = variable_of dcs p) ->
               In v (getVars (fst out))).
Proof.
  induction names as [|p0 names IH]; intros m pv; cbn [fold_left].
  - split.
    + intros p [[]|H]; exact H.
    + intros v [H|(p & [] & _)]; exact H.
  - rewrite add_variable_eq.
    specialize (IH (fst (addVar m ("produce_" ++ p0)%string
                           (fst (bounds p0 dcs)) (snd (bounds p0 dcs))))
                   (dict_set p0 (variable_of dcs p0) pv)).
    cbv zeta in IH. destruct IH as [IHd IHv]. split.
    + intros p Hp. apply IHd.
      destruct (string_dec p0 p) as [->|Hne].
      * right. apply dict_get_set_same.
      * destruct Hp as [[Heq|Hin]|Hget]; [contradiction|left; exact Hin|].
        right. rewrite dict_get_set_other; assumption.
    + intros v Hv. apply IHv. simpl.
      destruct Hv as [Hin|(p & [Heq|Hin] & ->)].
      * left. apply in_or_app. left; exact Hin.
      * left. apply in_or_app. right. subst p. left. reflexivity.
      * right. exists p. auto.
Qed.

Lemma max_is_Qmax (a b : Q) : Py.max a b = Qmax a b.
Proof.
  unfold Py.max, Qmax, GenericMinMax.gmax.
  destruct (Qltb a b) eqn:E.
  - apply Qltb_lt in E. rewrite (proj1 (Qlt_alt a b) E). reflexivity.
  - destruct (a ?= b)%Q eqn:C; try reflexivity.
    apply Qlt_alt in C. apply Qltb_lt in C. congruence.
Qed.

(** [bounds] computes what section 4.2 prescribes. *)
Lemma bounds_spec (p : string) (dcs : dict demand_constraint) :
  fst (bounds p dcs) = Spec.lb (dict_get p dcs) /\
  snd (bounds p dcs) =
    Spec.clamp_ub (Spec.lb (dict_get p dcs)) (Spec.ub (dict_get p dcs)) /\
  Spec.bound_le (fst (bounds p dcs)) (snd (bounds p dcs)).
Proof.
  unfold bounds, Spec.lb, Spec.ub.
  destruct (dict_get p dcs) as [c|]; simpl; [|repeat split].
  assert (Hclamp : forall lb hi,
             (if Qltb hi lb then Finite lb else Finite hi) =
             (if Qlt_le_dec hi lb then Finite lb else Finite hi) /\
             Spec.bound_le lb (if Qltb hi lb then Finite lb else Finite hi)).
  { intros lb hi. destruct (Qltb hi lb) eqn:E.
    - apply Qltb_lt in E. destruct (Qlt_le_dec hi lb) as [_|Hle].
      + split; [reflexivity|apply Qle_refl].
      + exfalso. exact (Qlt_not_le _ _ E Hle).
    - apply Qltb_ge in E. destruct (Qlt_le_dec hi lb) as [Hlt|_].
      + exfalso. exact (Qlt_not_le _ _ Hlt E).
      + split; [reflexivity|exact E]. }
  destruct (min_demand c) as [| |lo]; destruct (max_demand c) as [| |hi];
    simpl; rewrite ?max_is_Qmax; repeat split;
    try apply Hclamp.
Qed.

Lemma clamp_ub_le (lb : Q) (ub : bound) :
  Spec.bound_le lb (Spec.clamp_ub lb ub).
Proof.
  destruct ub as [hi|]; simpl; [|exact I].
  destruct (Qlt_le_dec hi lb) as [_|Hle]; simpl; [apply Qle_refl|exact Hle].
Qed.

End BuilderFacts.

(** ** Reported totals *)

Module TotalFacts.

Import Engine Validation Optimizers Factory Scenarios Invariants BuilderFacts.

Lemma dict_get_None_keys {V : Type} (k : string) (d : dict V) :
  ~ In k (keys d) -> dict_get k d = None.
Proof.
  induction d as [|[k' v'] d IH]; simpl; [reflexivity|].
  intro H. destruct (String.eqb_spec k' k) as [->|Hne].
  - exfalso. apply H. left; reflexivity.
  - apply IH. intro Hin. apply H. right; exact Hin.
Qed.

Lemma dict_set_fresh {V : Type} (k : string) (v : V) (d : dict V) :
  ~ In k (keys d) -> dict_set k v d = d ++ [(k, v)].
Proof.
  induction d as [|[k' v'] d IH]; simpl; [reflexivity|].
  intro H. destruct (String.eqb_spec k' k) as [->|Hne].
  - exfalso. apply H. left; reflexivity.
  - rewrite IH; [reflexivity|]. intro Hin. apply H. right; exact Hin.
Qed.

Lemma dict_set_keys {V : Type} (k : string) (v : V) (d : dict V) :
  keys (dict_set k v d) = if mem k (keys d) then keys d else keys d ++ [k].
Proof.
  unfold mem. induction d as [|[k' v'] d IH]; simpl; [reflexivity|].
  rewrite (String.eqb_sym k k').
  destruct (String.eqb_spec k' k) as [->|Hne]; simpl; [reflexivity|].
  rewrite IH. destruct (existsb (String.eqb k) (keys d)); reflexivity.
Qed.

Lemma mem_In (k : string) (l : list string) : mem k l = true <-> In k l.
Proof.
  unfold mem. rewrite existsb_exists. split.
  - intros (y & Hy & Heq). apply String.eqb_eq in Heq. subst. exact Hy.
  - intro H. exists k. split; [exact H|apply String.eqb_refl].
Qed.

(** A dictionary never holds a key twice. *)
Lemma dict_set_NoDup {V : Type} (k : string) (v : V) (d : dict V) :
  NoDup (keys d) -> NoDup (keys (dict_set k v d)).
Proof.
  intro H. rewrite dict_set_keys. destruct (mem k (keys d)) eqn:E; [exact H|].
  apply NoDup_app; [exact H|constructor; [intros []|constructor]|].
  intros a Ha [<-|[]]. apply mem_In in Ha. congruence.
Qed.

(** With distinct keys the plan has one entry per variable, in order. *)
Lemma build_plan_map (s : solved) (production_vars : dict var) :
  forall acc : dict Q,
    NoDup (keys acc ++ keys production_vars) ->
    fold_left (fun production_plan '(name, v) =>
                 dict_set name (clamp (x s (VarName v))) production_plan)
              production_vars acc =
    acc ++ map (fun '(name, v) => (name, clamp (x s (VarName v)))) production_vars.
Proof.
  induction production_vars as [|[name v] pv IH]; intros acc Hnd; simpl.
  - rewrite app_nil_r. reflexivity.
  - simpl in Hnd.
    assert (Hfresh : ~ In name (keys acc)).
    { intro Hin. apply NoDup_remove_2 in Hnd. apply Hnd.
      apply in_or_app. left; exact Hin. }
    rewrite (dict_set_fresh _ _ _ Hfresh), IH.
    + rewrite <- app_assoc. reflexivity.
    + unfold keys in *. rewrite map_app. simpl. rewrite <- app_assoc. exact Hnd.
Qed.









Lemma snd_solve (c : optimizer_class) (e : engine) (d : data) :
  snd (Factory.solve c e d) =
  snd (finish e match c with
                | Factory.BasicProductionOptimizer =>
                    BasicProductionOptimizer.build d
                | Factory.DemandConstrainedOptimizer =>
                    DemandConstrainedOptimizer.build d
                end).
Proof.
  destruct c; unfold Factory.solve, BasicProductionOptimizer.solve,
                     DemandConstrainedOptimizer.solve;
    match goal with |- context [finish e ?b] => destruct (finish e b) end;
    reflexivity.
Qed.






End TotalFacts.

(** ** Route reconstruction *)

Module RouteFacts.

Import VRP Invariants.

(** *** Sums of non-negative terms *)

Lemma quicksum_app (l1 l2 : list Q) :
  (quicksum (l1 ++ l2) == quicksum l1 + quicksum l2)%Q.
Proof.
  induction l1 as [|q l1 IH]; simpl.
  - ring.
  - rewrite IH. ring.
Qed.

Lemma quicksum_nonneg (l : list Q) :
  Forall (fun q => 0 <= q)%Q l -> (0 <= quicksum l)%Q.
Proof.
  induction 1 as [|q l Hq Hl IH]; simpl.
  - apply Qle_refl.
  - lra.
Qed.

Lemma quicksum_member (l : list Q) (q : Q) :
  Forall (fun q => 0 <= q)%Q l -> In q l -> (q <= quicksum l)%Q.
Proof.
  induction 1 as [|q0 l Hq Hl IH]; simpl; [intros []|].
  pose proof (quicksum_nonneg l Hl).
  intros [->|Hin].
  - lra.
  - specialize (IH Hin). lra.
Qed.

Section Blocks.

Variable g : nat -> list Q.

Lemma flat_map_nonneg (l : list nat) :
  (forall i, In i l -> Forall (fun q => 0 <= q)%Q (g i)) ->
  (0 <= quicksum (flat_map g l))%Q.
Proof.
  induction l as [|c l IH]; simpl; intro H.
  - apply Qle_refl.
  - rewrite quicksum_app.
    assert (0 <= quicksum (g c))%Q
      by (apply quicksum_nonneg, H; left; reflexivity).
    assert (0 <= quicksum (flat_map g l))%Q
      by (apply IH; intros i Hi; apply H; right; exact Hi).
    lra.
Qed.

Lemma quicksum_block (l : list nat) (a : nat) :
  (forall i, In i l -> Forall (fun q => 0 <= q)%Q (g i)) ->
  In a l ->
  (quicksum (g a) <= quicksum (flat_map g l))%Q.
Proof.
  induction l as [|c l IH]; simpl; intros H Ha; [destruct Ha|].
  rewrite quicksum_app.
  assert (Hc : (0 <= quicksum (g c))%Q)
    by (apply quicksum_nonneg, H; left; reflexivity).
  assert (Hl : forall i, In i l -> Forall (fun q => 0 <= q)%Q (g i))
    by (intros i Hi; apply H; right; exact Hi).
  destruct Ha as [->|Ha].
  - pose proof (flat_map_nonneg l Hl). lra.
  - specialize (IH Hl Ha). lra.
Qed.

Lemma quicksum_two_blocks (l : list nat) (a b : nat) :
  (forall i, In i l -> Forall (fun q => 0 <= q)%Q (g i)) ->
  In a l -> In b l -> a <> b ->
  (quicksum (g a) + quicksum (g b) <= quicksum (flat_map g l))%Q.
Proof.
  induction l as [|c l IH]; simpl; intros H Ha Hb Hab; [destruct Ha|].
  rewrite quicksum_app.
  assert (Hc : (0 <= quicksum (g c))%Q)
    by (apply quicksum_nonneg, H; left; reflexivity).
  assert (Hl : forall i, In i l -> Forall (fun q => 0 <= q)%Q (g i))
    by (intros i Hi; apply H; right; exact Hi).
  destruct Ha as [Ha|Ha]; destruct Hb as [Hb|Hb].
  - congruence.
  - subst c. pose proof (quicksum_block l b Hl Hb). lra.
  - subst c. pose proof (quicksum_block l a Hl Ha). lra.
  - specialize (IH Hl Ha Hb Hab). lra.
Qed.

End Blocks.

(** *** The first index that satisfies a test *)

Lemma find_seq_first (f : nat -> bool) (len : nat) :
  forall s j,
    find f (seq s len) = Some j ->
    s <= j < s + len /\ f j = true /\
    forall j', s <= j' < j -> f j' = false.
Proof.
  induction len as [|len IH]; intros s j; simpl; [discriminate|].
  destruct (f s) eqn:E.
  - intro H; inversion H; subst. repeat split; try lia. exact E.
  - intro H. destruct (IH _ _ H) as (Hr & Hf & Hmin).
    repeat split; try lia; [exact Hf|].
    intros j' Hj'. destruct (Nat.eq_dec j' s) as [->|Hne]; [exact E|].
    apply Hmin. lia.
Qed.

Lemma find_seq_none (f : nat -> bool) (len s j : nat) :
  find f (seq s len) = None -> s <= j < s + len -> f j = false.
Proof.
  intros H Hj. apply (find_none f _ H). apply in_seq. exact Hj.
Qed.

(** *** Following the arcs of one vehicle *)

Section Reconstruction.

Variables num_vehicles depot_idx num_locations : nat.
Variable x : nat -> nat -> nat -> Q.

Hypothesis depot_in_range : depot_idx < num_locations.
Hypothesis values_nonneg : nonnegative num_vehicles num_locations x.
Hypothesis customers_once : visited_once num_vehicles depot_idx num_locations x.

Lemma selected_arc (k i j : nat) :
  selected x i j k = true <-> Spec.arc x k i j.
Proof. unfold selected, Spec.arc. apply Qltb_lt. Qed.

(** A customer is entered over at most one selected arc. *)
Lemma unique_entry (i i' j k : nat) :
  i < num_locations -> i' < num_locations -> j < num_locations ->
  k < num_vehicles -> j <> depot_idx -> i <> j -> i' <> j ->
  selected x i j k = true -> selected x i' j k = true -> i = i'.
Proof.
  intros Hi Hi' Hj Hk Hjd Hij Hi'j Hs Hs'.
  destruct (Nat.eq_dec i i') as [|Hne]; [assumption|exfalso].
  set (g := fun i0 => if i0 =? j then []
                      else map (fun k0 => x i0 j k0) (seq 0 num_vehicles)).
  assert (Hg : forall i0, In i0 (seq 0 num_locations) ->
                          Forall (fun q => 0 <= q)%Q (g i0)).
  { intros i0 Hi0. unfold g. destruct (i0 =? j); [constructor|].
    apply Forall_forall. intros q Hq. apply in_map_iff in Hq.
    destruct Hq as (k0 & <- & Hk0). apply in_seq in Hk0. apply in_seq in Hi0.
    apply values_nonneg; lia. }
  assert (Hterm : forall i0, i0 < num_locations -> i0 <> j ->
                             (x i0 j k <= quicksum (g i0))%Q).
  { intros i0 Hi0 Hne0. apply quicksum_member.
    - apply Hg. apply in_seq. lia.
    - unfold g. destruct (Nat.eqb_spec i0 j); [contradiction|].
      apply in_map_iff. exists k. split; [reflexivity|]. apply in_seq. lia. }
  assert (Hin : forall i0, i0 < num_locations -> In i0 (seq 0 num_locations))
    by (intros; apply in_seq; lia).
  pose proof (quicksum_two_blocks g (seq 0 num_locations) i i' Hg
                (Hin i Hi) (Hin i' Hi') Hne) as Htwo.
  pose proof (customers_once j Hj Hjd) as Hsum.
  change (quicksum (flat_map g (seq 0 num_locations)) == 1)%Q in Hsum.
  pose proof (Hterm i Hi Hij). pose proof (Hterm i' Hi' Hi'j).
  unfold selected in Hs, Hs'. apply Qltb_lt in Hs. apply Qltb_lt in Hs'.
  lra.
Qed.

Lemma next_stop_followed (k current j : nat) :
  next_stop num_locations x current k = Some j ->
  Spec.followed num_locations x k current j.
Proof.
  unfold next_stop. intro H. apply find_seq_first in H.
  destruct H as (Hr & Hf & Hmin).
  apply andb_true_iff in Hf. destruct Hf as [Hne Hsel].
  apply negb_true_iff, Nat.eqb_neq in Hne.
  repeat split; [lia|exact Hne|apply selected_arc; exact Hsel|].
  intros j' Hlt Hne' Harc. apply selected_arc in Harc.
  assert (Hf' := Hmin j' (conj (Nat.le_0_l j') Hlt)).
  apply andb_false_iff in Hf'. destruct Hf' as [Hf'|Hf'].
  - apply negb_false_iff, Nat.eqb_eq in Hf'. contradiction.
  - congruence.
Qed.

Lemma next_stop_none (k current : nat) :
  next_stop num_locations x current k = None ->
  Spec.no_outgoing num_locations x k current.
Proof.
  unfold next_stop. intros H j Hj Hne Harc. apply selected_arc in Harc.
  assert (Hf := find_seq_none _ _ 0 j H (conj (Nat.le_0_l j) Hj)).
  apply andb_false_iff in Hf. destruct Hf as [Hf|Hf].
  - apply negb_false_iff, Nat.eqb_eq in Hf. contradiction.
  - congruence.
Qed.

(** Every stop but the depot was entered from an earlier stop. *)
Lemma chain_entered (k : nat) (rp : list nat) :
  chain depot_idx x k rp ->
  forall j, In j rp -> j <> depot_idx ->
            exists a, In a rp /\ selected x a j k = true /\ a <> j.
Proof.
  induction 1 as [|b a l Hc IH Hsel Hab Hb]; intros j Hj Hjd.
  - destruct Hj as [<-|[]]. contradiction.
  - destruct Hj as [<-|Hj].
    + exists a. split; [right; left; reflexivity|auto].
    + destruct (IH j Hj Hjd) as (a' & Ha' & Hs & Hne).
      exists a'. split; [right; exact Ha'|auto].
Qed.

(** The next customer is a new one. *)
Lemma next_stop_fresh (k current j : nat) (rp : list nat) :
  k < num_vehicles ->
  chain depot_idx x k (current :: rp) ->
  NoDup (current :: rp) ->
  (forall a, In a (current :: rp) -> a < num_locations) ->
  next_stop num_locations x current k = Some j ->
  j <> depot_idx ->
  ~ In j (current :: rp).
Proof.
  intros Hk Hc Hnd Hb Hn Hjd Hin.
  destruct (next_stop_followed _ _ _ Hn) as (Hj & Hjc & Harc & _).
  apply selected_arc in Harc.
  destruct Hin as [Heq|Hin]; [congruence|].
  inversion Hc as [|b a l Hc' Hsel Hab Hbd]; subst; [destruct Hin|].
  destruct (chain_entered k _ Hc' j Hin Hjd) as (a' & Ha' & Hs & Hne).
  assert (Heq : current = a').
  { apply (unique_entry current a' j k); auto.
    - apply Hb. left; reflexivity.
    - apply Hb. right; exact Ha'. }
  subst a'. inversion Hnd; subst. contradiction.
Qed.

Lemma stops_bounded (l : list nat) :
  NoDup l -> (forall a, In a l -> a < num_locations) ->
  List.length l <= num_locations.
Proof.
  intros Hnd Hb.
  assert (Hincl : incl l (seq 0 num_locations)).
  { intros a Ha. apply in_seq. specialize (Hb a Ha). lia. }
  pose proof (NoDup_incl_length Hnd Hincl) as H.
  rewrite length_seq in H. exact H.
Qed.

(** With more fuel than locations the loop ends, and what it appends to the
    route is what the design prescribes. *)
Lemma follow_continues (k : nat) :
  k < num_vehicles ->
  forall fuel current rp,
    chain depot_idx x k (current :: rp) ->
    NoDup (current :: rp) ->
    (forall a, In a (current :: rp) -> a < num_locations) ->
    num_locations < fuel + List.length (current :: rp) ->
    exists rest,
      follow depot_idx num_locations fuel x k current (rev (current :: rp)) =
        Some (rev (current :: rp) ++ rest) /\
      Spec.continues num_locations depot_idx x k current rest.
Proof.
  intro Hk. induction fuel as [|fuel IH]; intros current rp Hc Hnd Hb Hfuel.
  - pose proof (stops_bounded _ Hnd Hb). lia.
  - cbn [follow].
    destruct (next_stop num_locations x current k) as [j|] eqn:En.
    + destruct (Nat.eqb_spec j depot_idx) as [->|Hjd].
      * exists [depot_idx]. split; [reflexivity|].
        apply Spec.ends_at_depot. apply next_stop_followed. exact En.
      * pose proof (next_stop_fresh k current j rp Hk Hc Hnd Hb En Hjd) as Hfresh.
        pose proof (next_stop_followed _ _ _ En) as Hfol.
        destruct Hfol as (Hj & Hjc & Harc & Hmin).
        destruct (IH j (current :: rp)) as (rest & Hrun & Hrest).
        -- apply chain_next; auto. apply selected_arc. exact Harc.
        -- constructor; assumption.
        -- intros a [<-|Ha]; [exact Hj|apply Hb; exact Ha].
        -- cbn [List.length] in *. lia.
        -- exists (j :: rest). split.
           ++ change (rev (j :: current :: rp))
                with (rev (current :: rp) ++ [j]) in Hrun.
              rewrite Hrun, <- app_assoc. reflexivity.
           ++ apply Spec.moves_on; [repeat split; assumption|exact Hjd|exact Hrest].
    + exists []. split; [rewrite app_nil_r; reflexivity|].
      apply Spec.ends_without_arc. apply next_stop_none. exact En.
Qed.

Lemma follow_route (k fuel : nat) :
  k < num_vehicles -> num_locations < fuel ->
  exists r,
    follow depot_idx num_locations fuel x k depot_idx [depot_idx] = Some r /\
    Spec.route num_locations depot_idx x k r.
Proof.
  intros Hk Hfuel.
  destruct (follow_continues k Hk fuel depot_idx []) as (rest & Hrun & Hrest).
  - constructor.
  - constructor; [intros []|constructor].
  - intros a [<-|[]]. exact depot_in_range.
  - simpl. lia.
  - exists (depot_idx :: rest). split; [exact Hrun|].
    exists rest. split; [reflexivity|exact Hrest].
Qed.

Lemma extract_routes (fuel : nat) :
  num_locations < fuel ->
  forall ks,
    (forall k, In k ks -> k < num_vehicles) ->
    exists per_vehicle,
      extract depot_idx num_locations fuel x ks =
        Some (map (fun r => if 2 <? List.length r then r else []) per_vehicle) /\
      Forall2 (fun k r => Spec.route num_locations depot_idx x k r)
              ks per_vehicle.
Proof.
  intros Hfuel. induction ks as [|k ks IH]; intro Hks.
  - exists []. split; [reflexivity|constructor].
  - destruct (follow_route k fuel) as (r & Hr & Hroute);
      [apply Hks; left; reflexivity|exact Hfuel|].
    destruct IH as (rs & Hrs & Hall);
      [intros k' Hk'; apply Hks; right; exact Hk'|].
    exists (r :: rs). split.
    + cbn [extract]. rewrite Hr, Hrs. reflexivity.
    + constructor; assumption.
Qed.

End Reconstruction.

(** Dropping the empty entries keeps the routes with more than two stops. *)
Lemma non_empty_kept (per_vehicle : list (list nat)) :
  non_empty (map (fun r => if 2 <? List.length r then r else []) per_vehicle) =
  filter (fun r => 2 <? List.length r) per_vehicle.
Proof.
  unfold non_empty. induction per_vehicle as [|r rs IH]; [reflexivity|].
  cbn [map filter]. destruct (2 <? List.length r) eqn:E.
  - destruct r as [|a r]; [discriminate|]. cbn [is_empty negb]. rewrite IH.
    reflexivity.
  - cbn [is_empty negb]. exact IH.
Qed.

(** *** The total distance *)

Lemma fold_left_quicksum {A : Type} (f : A -> Q) (l : list A) :
  forall a : Q,
    (fold_left (fun acc i => acc + f i) l a == a + quicksum (map f l))%Q.
Proof.
  induction l as [|i l IH]; intro a; simpl.
  - ring.
  - rewrite IH. ring.
Qed.

Lemma arcs_by_index (route : list nat) :
  map (fun i => (nth i route O, nth (S i) route O))
      (seq 0 (List.length route - 1)) = Spec.arcs route.
Proof.
  unfold Spec.arcs. induction route as [|a route IH]; [reflexivity|].
  destruct route as [|b route]; [reflexivity|].
  cbn [List.length Nat.sub tl] in *. rewrite Nat.sub_0_r in IH.
  cbn [seq map combine]. f_equal.
  rewrite <- seq_shift, map_map. exact IH.
Qed.

Lemma route_distance_arcs (dist_matrix : nat -> nat -> Q) (route : list nat) :
  (route_distance dist_matrix route ==
   quicksum (map (fun '(a, b) => dist_matrix a b) (Spec.arcs route)))%Q.
Proof.
  unfold route_distance.
  rewrite (fold_left_quicksum
             (fun i => dist_matrix (nth i route O) (nth (S i) route O))).
  rewrite <- arcs_by_index, map_map. ring.
Qed.

Lemma distance_of_arcs (dist_matrix : nat -> nat -> Q)
    (routes : list (list nat)) :
  (distance_of dist_matrix routes == Spec.length_along dist_matrix routes)%Q.
Proof.
  unfold distance_of, Spec.length_along.
  rewrite (fold_left_quicksum (route_distance dist_matrix)), Qplus_0_l.
  induction routes as [|r routes IH]; [reflexivity|].
  cbn [map flat_map]. rewrite map_app.
  change (fold_right Qplus 0%Q) with quicksum in *.
  rewrite quicksum_app. cbn [quicksum fold_right].
  change (fold_right Qplus 0%Q) with quicksum.
  rewrite IH, route_distance_arcs. reflexivity.
Qed.

(** C7. Given the arc values of an optimal solve (non-negative, every
    customer entered exactly once), [solve] reconstructs for each vehicle the
    route that starts at the depot and repeatedly follows the outgoing arc
    with value > 0.5 of smallest destination index, until the depot is
    reached again or no outgoing arc exists; it keeps exactly the routes with
    more than two stops; and [total_distance] is the sum of the
    distance-matrix entries along the arcs of the kept routes. The loop ends
    within [num_locations + 1] iterations. *)
Theorem solve_reconstructs_routes (num_vehicles depot_idx num_locations : nat)
    (dist_matrix : nat -> nat -> Q) (x : nat -> nat -> nat -> Q) (fuel : nat) :
  depot_idx < num_locations ->
  nonnegative num_vehicles num_locations x ->
  visited_once num_vehicles depot_idx num_locations x ->
  num_locations < fuel ->
  exists per_vehicle sol,
    Forall2 (fun k r => Spec.route num_locations depot_idx x k r)
            (seq 0 num_vehicles) per_vehicle /\
    solve num_vehicles depot_idx num_locations dist_matrix fuel
          (Solved OPTIMAL x) = Some sol /\
    routes sol = filter (fun r => 2 <? List.length r) per_vehicle /\
    status sol = "Optimal" /\
    (total_distance sol == Spec.length_along dist_matrix (routes sol))%Q.
Proof.
  intros Hd Hn Hv Hfuel.
  destruct (extract_routes num_vehicles depot_idx num_locations x Hd Hn Hv
              fuel Hfuel (seq 0 num_vehicles)) as (rs & Hex & Hall).
  { intros k Hk. apply in_seq in Hk. lia. }
  exists rs. eexists. split; [exact Hall|].
  unfold solve. rewrite Z.eqb_refl, Hex, non_empty_kept.
  split; [reflexivity|]. cbn [routes status total_distance].
  split; [reflexivity|]. split; [reflexivity|].
  apply distance_of_arcs.
Qed.

Lemma solve_reconstructs_routes_witness :
  exists per_vehicle sol,
    Forall2 (fun k r => Spec.route 4 0 Scenarios.square_tour k r)
            (seq 0 1) per_vehicle /\
    solve 1 0 4 Scenarios.ten_apart 5 (Solved OPTIMAL Scenarios.square_tour)
      = Some sol /\
    routes sol = filter (fun r => 2 <? List.length r) per_vehicle /\
    status sol = "Optimal" /\
    (total_distance sol == Spec.length_along Scenarios.ten_apart (routes sol))%Q.
Proof.
  apply (solve_reconstructs_routes 1 0 4 Scenarios.ten_apart
           Scenarios.square_tour 5).
  - lia.
  - intros i j k _ _ _. unfold Scenarios.square_tour.
    match goal with |- context [if ?b then _ else _] => destruct b end;
      discriminate.
  - intros j Hj Hjd.
    destruct j as [|[|[|[|j]]]]; try lia; reflexivity.
  - lia.
Defined.

(** The tour of scenario 6, as [solve] returns it. *)
Example solve_square_tour :
  solve 1 0 4 Scenarios.ten_apart 5 (Solved OPTIMAL Scenarios.square_tour) =
  Some {| routes := [[0; 1; 3; 2; 0]];
          total_distance := 0 + (0 + 10 + 10 + 10 + 10);
          status := "Optimal" |}.
Proof. reflexivity. Qed.

End RouteFacts.

(** ** The code on small inputs *)

Module Examples.

Import Engine Validation Optimizers Factory Endpoint Scenarios VRP.

(** The identifiers registered once [core.factory] is imported. *)
Example registered_identifiers :
  list_available_optimizers _optimizers =
  ["basic"; "demand-constrained"; "basic-production"].
Proof. reflexivity. Qed.

(** The validator lists its findings in the order of its checks. *)
Example validator_messages :
  validate_optimization_input
    {| objective := Some "maximize";
       products := Some [{| p_name := Some "A"; profit_per_unit := Num (-1);
                            cost_per_unit := Absent |}];
       resources := Some [resource_R 10];
       resource_usage :=
         Some [{| ru_product_name := Some "B"; ru_resource_name := Some "R";
                  usage_per_unit := Num 1 |}];
       demand_constraints := Some [{| dc_product_name := Some "A";
                                      min_demand := Num 5; max_demand := Num 2 |}];
       total_constraints := Some {| min_total := Null; max_total := Num (-3) |} |}
  = Ret (false,
         [Bad_objective;
          Product_negative_profit "A" (-1);
          Product_missing_cost "A";
          Usage_unknown_product "B";
          Product_without_usage "A";
          Demand_min_gt_max "A" 5 2;
          Total_negative_max (-3)]).
Proof. reflexivity. Qed.

(** A [null] bound in a demand constraint is compared with 0: [TypeError]. *)
Example validator_null_bound :
  validate_optimization_input
    (one_product 10 (Some [{| dc_product_name := Some "A"; min_demand := Null;
                              max_demand := Absent |}]))
  = Raise TypeError.
Proof. reflexivity. Qed.

(** Scenario 2 of the design: the demand-constrained builder puts the floor
    of 10 on [A]; the basic builder does not. *)
Example demand_floor_in_model :
  exists m m' pv pv' rs ru,
    DemandConstrainedOptimizer.build (one_product 100 (Some [at_least 10]))
      = Ret (m, pv, rs, ru) /\
    BasicProductionOptimizer.build (one_product 100 (Some [at_least 10]))
      = Ret (m', pv', rs, ru) /\
    getVars m = [{| VarName := "produce_A"; LB := 10; UB := Infinity |}] /\
    getVars m' = [{| VarName := "produce_A"; LB := 0; UB := Infinity |}].
Proof. repeat eexists. Qed.

(** Scenario 3 of the design through [optimize]: an infeasible model with
    the second constraint in the IIS. *)
Example infeasible_envelope :
  let d :=
    {| objective := Some "maximize_profit"; products := Some [product_A];
       resources := Some [resource_R 10]; resource_usage := Some [usage_A_R];
       demand_constraints := None;
       total_constraints := Some {| min_total := Num 20; max_total := Absent |} |} in
  post _optimizers (answer INFEASIBLE 0 (Nat.eqb 1)) "basic" d =
  ({| r_status := "infeasible";
      solver_message := Text "The model is infeasible";
      objective_value := None; production_plan := None;
      resource_utilization := None; total_production := None;
      feasibility_warnings := None;
      infeasible_constraints := Some (Names ["min_total_production"]);
      validation_errors := None |}, 200).
Proof. reflexivity. Qed.

(** An empty IIS is reported as ["Unknown"]. *)
Example infeasible_unknown :
  infeasible_constraints
    (fst (post _optimizers (answer INFEASIBLE 0 (fun _ => false)) "basic"
               (one_product 10 None))) = Some Unknown.
Proof. reflexivity. Qed.

(** A payload on which the validator raises is answered with 500. *)
Example validator_exception_is_500 :
  snd (post _optimizers (answer OPTIMAL 1 (fun _ => false)) "basic"
            anonymous_usage) = 500.
Proof. reflexivity. Qed.

(** Two arcs leave the depot for vehicle 0: the smaller destination wins. *)
Example smallest_destination_first :
  next_stop 4 (fun i j _ => if (i =? 0) && ((j =? 1) || (j =? 2)) then 1 else 0)%Q
            0 0 = Some 1.
Proof. reflexivity. Qed.

(** A vehicle that only drives depot, customer is dropped: two stops. *)
Example short_route_dropped :
  solve 1 0 3 ten_apart 4
        (Solved VRP.OPTIMAL (fun i j _ => if (i =? 0) && (j =? 1) then 1 else 0)%Q)
  = Some {| routes := []; total_distance := 0; status := "Optimal" |}.
Proof. reflexivity. Qed.

(** Arcs that cycle among customers exhaust any fuel: the loop of the source
    does not end on such values. *)
Example subtour_runs_out_of_fuel :
  solve 1 0 3 ten_apart 1000
        (Solved VRP.OPTIMAL
           (fun i j _ => if ((i =? 0) && (j =? 1)) || ((i =? 1) && (j =? 2))
                            || ((i =? 2) && (j =? 1)) then 1 else 0)%Q)
  = None.
Proof. vm_compute. reflexivity. Qed.

End Examples.

(** ** What the validator accepts *)

Module AcceptanceFacts.

Import Validation Contracts Scenarios.

Lemma mem_iff (n : string) (l : list string) : mem n l = true <-> In n l.
Proof.
  unfold mem. rewrite existsb_exists. split.
  - intros (y & Hy & Heq). apply String.eqb_eq in Heq. subst. exact Hy.
  - intro H. exists n. split; [exact H|apply String.eqb_refl].
Qed.

Lemma set_add_In (n m : string) (l : list string) :
  In n (set_add m l) <-> n = m \/ In n l.
Proof.
  unfold set_add. destruct (mem m l) eqn:E.
  - apply mem_iff in E. split; [auto|]. intros [->|H]; assumption.
  - rewrite in_app_iff. simpl. split; intros [H|H]; auto.
    destruct H as [H|[]]; auto.
Qed.

(** *** Each check either raises, or appends, or finds the row in order *)

Lemma check_nonneg_step (key : string) (f : field) (missing : error)
    (negative : Q -> error) (e e' : list error) :
  check_nonneg key f missing negative e = Ret e' ->
  exists extra, e' = e ++ extra /\ (extra = [] -> nonneg f).
Proof.
  unfold check_nonneg. destruct f as [| |q]; simpl.
  - intro H; inversion H. exists [missing]. split; [reflexivity|discriminate].
  - discriminate.
  - intro H; inversion H; subst. destruct (Qltb q 0) eqn:E.
    + exists [negative q]. split; [reflexivity|discriminate].
    + exists []. split; [rewrite app_nil_r; reflexivity|].
      intros _. exists q. split; [reflexivity|apply Qltb_ge; exact E].
Qed.

Lemma check_nonneg_pass (key : string) (f : field) (missing : error)
    (negative : Q -> error) (e : list error) :
  nonneg f -> check_nonneg key f missing negative e = Ret e.
Proof.
  intros (q & -> & Hq). unfold check_nonneg. simpl.
  apply Qltb_ge in Hq. rewrite Hq. reflexivity.
Qed.

Lemma check_product_step (p : product) (e e' : list error)
    (ns ns' : list string) :
  check_product p (e, ns) = Ret (e', ns') ->
  exists extra,
    e' = e ++ extra /\
    (extra = [] ->
     product_ok p /\ exists n, p_name p = Some n /\ ns' = set_add n ns).
Proof.
  unfold check_product. destruct (p_name p) as [n|] eqn:En.
  - destruct (check_nonneg "profit_per_unit" _ _ _ e) as [e1|] eqn:E1; simpl;
      [|discriminate].
    destruct (check_nonneg "cost_per_unit" _ _ _ e1) as [e2|] eqn:E2; simpl;
      [|discriminate].
    intro H; inversion H; subst.
    destruct (check_nonneg_step _ _ _ _ _ _ E1) as (x1 & -> & H1).
    destruct (check_nonneg_step _ _ _ _ _ _ E2) as (x2 & -> & H2).
    exists (x1 ++ x2). split; [rewrite app_assoc; reflexivity|].
    intro Hx. apply app_eq_nil in Hx. destruct Hx as [-> ->].
    split; [|exists n; auto].
    split; [exists n; exact En|]. split; auto.
  - intro H; inversion H; subst. exists [Product_without_name].
    split; [reflexivity|discriminate].
Qed.

Lemma check_resource_step (r : resource) (e e' : list error)
    (ns ns' : list string) :
  check_resource r (e, ns) = Ret (e', ns') ->
  exists extra,
    e' = e ++ extra /\
    (extra = [] ->
     resource_ok r /\ exists n, r_name r = Some n /\ ns' = set_add n ns).
Proof.
  unfold check_resource. destruct (r_name r) as [n|] eqn:En.
  - destruct (check_nonneg "available_capacity" _ _ _ e) as [e1|] eqn:E1;
      simpl; [|discriminate].
    intro H; inversion H; subst.
    destruct (check_nonneg_step _ _ _ _ _ _ E1) as (x1 & -> & H1).
    exists x1. split; [reflexivity|]. intros ->.
    split; [|exists n; auto]. split; [exists n; exact En|auto].
  - intro H; inversion H; subst. exists [Resource_without_name].
    split; [reflexivity|discriminate].
Qed.

(** A loop over named rows that collects the names. *)
Lemma for_each_named {A : Type} (name : A -> option string) (ok : A -> Prop)
    (body : A -> list error * list string -> res (list error * list string)) :
  (forall a e ns e' ns',
      body a (e, ns) = Ret (e', ns') ->
      exists extra,
        e' = e ++ extra /\
        (extra = [] -> ok a /\ exists n, name a = Some n /\ ns' = set_add n ns)) ->
  forall rows e ns e' ns',
    for_each body rows (e, ns) = Ret (e', ns') ->
    exists extra,
      e' = e ++ extra /\
      (extra = [] ->
       Forall ok rows /\
       forall n, In n ns' <-> In n ns \/ declares name rows n).
Proof.
  intro Hbody. induction rows as [|a rows IH]; intros e ns e' ns'; simpl.
  - intro H; inversion H; subst. exists []. split; [rewrite app_nil_r; reflexivity|].
    intros _. split; [constructor|]. intro n. split; [auto|].
    intros [H0|(row & [] & _)]; exact H0.
  - destruct (body a (e, ns)) as [[e1 ns1]|] eqn:E; simpl; [|discriminate].
    intro Hrest.
    destruct (Hbody _ _ _ _ _ E) as (x1 & -> & H1).
    destruct (IH _ _ _ _ Hrest) as (x2 & -> & H2).
    exists (x1 ++ x2). split; [rewrite app_assoc; reflexivity|].
    intro Hx. apply app_eq_nil in Hx. destruct Hx as [-> ->].
    destruct (H1 eq_refl) as (Hok & n0 & Hn0 & ->).
    destruct (H2 eq_refl) as (Hall & Hns).
    split; [constructor; assumption|].
    intro n. rewrite Hns, set_add_In. split.
    + intros [[->|H]|(row & Hin & Hrow)]; auto.
      * right. exists a. split; [left; reflexivity|exact Hn0].
      * right. exists row. split; [right; exact Hin|exact Hrow].
    + intros [H|(row & [<-|Hin] & Hrow)]; auto.
      * left. left. congruence.
      * right. exists row. auto.
Qed.

(** A loop whose state is the list of errors. *)
Lemma for_each_rows {A : Type} (ok : A -> Prop)
    (body : A -> list error -> res (list error)) (rows : list A) :
  (forall a e e', In a rows -> body a e = Ret e' ->
                  exists extra, e' = e ++ extra /\ (extra = [] -> ok a)) ->
  forall e e',
    for_each body rows e = Ret e' ->
    exists extra, e' = e ++ extra /\ (extra = [] -> Forall ok rows).
Proof.
  induction rows as [|a rows IH]; intros Hbody e e'; simpl.
  - intro H; inversion H; subst. exists []. split; [rewrite app_nil_r; reflexivity|].
    intros _. constructor.
  - destruct (body a e) as [e1|] eqn:E; simpl; [|discriminate].
    intro Hrest.
    destruct (Hbody _ _ _ (or_introl eq_refl) E) as (x1 & -> & H1).
    destruct (IH (fun a0 e0 e0' Hin => Hbody a0 e0 e0' (or_intror Hin)) _ _ Hrest)
      as (x2 & -> & H2).
    exists (x1 ++ x2). split; [rewrite app_assoc; reflexivity|].
    intro Hx. apply app_eq_nil in Hx. destruct Hx as [-> ->].
    constructor; auto.
Qed.

(** Closes a goal [exists extra, e' = e ++ extra /\ (extra = [] -> _)]: when
    something was appended nothing is left to show. *)
Ltac appended :=
  first
    [ exists (@nil error); split; [rewrite app_nil_r; reflexivity|intros _]
    | eexists; split; [rewrite <- ?app_assoc; reflexivity|simpl; discriminate] ].

Lemma check_usage_step (pn rn : list string) (ru : usage_row)
    (e e' : list error) :
  check_usage pn rn ru e = Ret e' ->
  exists extra,
    e' = e ++ extra /\
    (extra = [] ->
     (exists n, ru_product_name ru = Some n /\ In n pn) /\
     (exists n, ru_resource_name ru = Some n /\ In n rn) /\
     nonneg (usage_per_unit ru)).
Proof.
  unfold check_usage.
  destruct (ru_product_name ru) as [p|] eqn:Ep;
    [destruct (mem p pn) eqn:Mp|];
    (destruct (ru_resource_name ru) as [r|] eqn:Er;
      [destruct (mem r rn) eqn:Mr|]);
    destruct (usage_per_unit ru) as [| |q] eqn:Eu; simpl; try discriminate;
    try destruct (Qltb q 0) eqn:Eq; simpl;
    intro H; inversion H; subst; appended.
  apply mem_iff in Mp. apply mem_iff in Mr. apply Qltb_ge in Eq.
  repeat split; eauto. exists q. auto.
Qed.

Lemma has_resource_usage_true (n : string) (rows : list usage_row) :
  has_resource_usage n rows = Ret true ->
  exists ru, In ru rows /\ ru_product_name ru = Some n.
Proof.
  induction rows as [|ru rows IH]; simpl; [discriminate|].
  destruct (ru_product_name ru) as [m|] eqn:E; simpl; [|discriminate].
  destruct (String.eqb_spec m n) as [->|Hne].
  - intros _. exists ru. auto.
  - intro H. destruct (IH H) as (ru' & Hin & Hn). exists ru'. auto.
Qed.

Lemma check_has_usage_step (rows : list usage_row) (n : string)
    (e e' : list error) :
  check_has_usage rows n e = Ret e' ->
  exists extra,
    e' = e ++ extra /\
    (extra = [] -> exists ru, In ru rows /\ ru_product_name ru = Some n).
Proof.
  unfold check_has_usage.
  destruct (has_resource_usage n rows) as [[|]|] eqn:E; simpl;
    try discriminate; intro H; inversion H; subst; appended.
  apply has_resource_usage_true. exact E.
Qed.

Lemma check_demand_bound_step (key : string) (f : field)
    (name : option string) (negative : string -> Q -> error)
    (e e' : list error) :
  check_demand_bound key f name negative e = Ret e' ->
  exists extra, e' = e ++ extra /\ (extra = [] -> absent_or_nonneg f).
Proof.
  unfold check_demand_bound.
  destruct f as [| |q]; simpl; try discriminate.
  - intro H; inversion H; subst; appended. left; reflexivity.
  - destruct (Qltb q 0) eqn:Eq; simpl.
    + destruct name as [n|]; simpl; [|discriminate].
      intro H; inversion H; subst; appended.
    + intro H; inversion H; subst; appended.
      right. exists q. split; [reflexivity|apply Qltb_ge; exact Eq].
Qed.

Lemma check_demand_step (pn : list string) (dc : demand_constraint)
    (e e' : list error) :
  check_demand pn dc e = Ret e' ->
  exists extra,
    e' = e ++ extra /\
    (extra = [] ->
     (exists n, dc_product_name dc = Some n /\ In n pn) /\
     absent_or_nonneg (min_demand dc) /\
     absent_or_nonneg (max_demand dc) /\
     (forall lo hi, min_demand dc = Num lo -> max_demand dc = Num hi ->
                    (lo <= hi)%Q)).
Proof.
  unfold check_demand.
  set (e0 := match dc_product_name dc with
             | Some n => if negb (mem n pn)
                         then e ++ [Demand_unknown_product n] else e
             | None => e ++ [Demand_without_product_name]
             end).
  assert (H0 : exists x0, e0 = e ++ x0 /\
                          (x0 = [] -> exists n, dc_product_name dc = Some n /\
                                                In n pn)).
  { unfold e0. destruct (dc_product_name dc) as [n|];
      [destruct (mem n pn) eqn:M|]; simpl; appended.
    exists n. split; [reflexivity|apply mem_iff; exact M]. }
  destruct H0 as (x0 & -> & H0).
  destruct (check_demand_bound "min_demand" _ _ _ (e ++ x0)) as [e1|] eqn:E1;
    simpl; [|discriminate].
  destruct (check_demand_bound "max_demand" _ _ _ e1) as [e2|] eqn:E2;
    simpl; [|discriminate].
  destruct (check_demand_bound_step _ _ _ _ _ _ E1) as (x1 & -> & H1).
  destruct (check_demand_bound_step _ _ _ _ _ _ E2) as (x2 & -> & H2).
  assert (Hlast :
    forall e3,
      (if has (min_demand dc) && has (max_demand dc)
       then lo <- subscript "min_demand" (min_demand dc) ;;
            hi <- subscript "max_demand" (max_demand dc) ;;
            b <- gt lo hi ;;
            (if b
             then n <- get "product_name" (dc_product_name dc) ;;
                  match lo, hi with
                  | Some l, Some h => Ret (e3 ++ [Demand_min_gt_max n l h])
                  | _, _ => Ret e3
                  end
             else Ret e3)
       else Ret e3) = Ret e' ->
      exists x3, e' = e3 ++ x3 /\
                 (x3 = [] -> forall lo hi, min_demand dc = Num lo ->
                                           max_demand dc = Num hi -> (lo <= hi)%Q)).
  { intro e3.
    destruct (min_demand dc) as [| |lo]; destruct (max_demand dc) as [| |hi];
      simpl; try discriminate;
      try (intro H; inversion H; subst; appended; intros; discriminate).
    destruct (Qltb hi lo) eqn:Eq; simpl.
    - destruct (dc_product_name dc); simpl; [|discriminate].
      intro H; inversion H; subst; appended.
    - intro H; inversion H; subst; appended.
      intros lo0 hi0 Hl Hh. inversion Hl; inversion Hh; subst.
      apply Qltb_ge. exact Eq. }
  intro H. destruct (Hlast _ H) as (x3 & -> & H3).
  exists (x0 ++ x1 ++ x2 ++ x3). split; [rewrite !app_assoc; reflexivity|].
  intro Hx. apply app_eq_nil in Hx. destruct Hx as [-> Hx].
  apply app_eq_nil in Hx. destruct Hx as [-> Hx].
  apply app_eq_nil in Hx. destruct Hx as [-> ->].
  auto.
Qed.

Lemma check_total_step (tc : total_constraints_t) (e : list error) :
  exists extra,
    check_total tc e = e ++ extra /\ (extra = [] -> total_ok tc).
Proof.
  unfold check_total, total_ok.
  destruct (min_total tc) as [| |lo]; destruct (max_total tc) as [| |hi];
    try destruct (Qltb lo 0) eqn:E1; try destruct (Qltb hi 0) eqn:E2;
    try destruct (Qltb hi lo) eqn:E3;
    appended;
    repeat split; intros; try discriminate;
    repeat match goal with
           | H : Num _ = Num _ |- _ => inversion H; subst; clear H
           end;
    apply Qltb_ge; assumption.
Qed.

(** The validator lets a payload through only when every check holds: the
    four required fields are there, the objective is one of the two tags,
    every product and resource is named with amounts that are not negative,
    every usage row refers to a declared product and resource, every named
    product has a usage row, and the demand and total bounds are in order. *)
Lemma validator_sound (d : data) (errors : list error) :
  validate_optimization_input d = Ret (true, errors) ->
  errors = [] /\ accepted d.
Proof.
  intro H.
  pose proof (ValidationFacts.validate_optimization_input_flag _ _ _ H) as Hflag.
  assert (Herr : errors = []) by (destruct errors; [reflexivity|discriminate]).
  subst errors. split; [reflexivity|].
  unfold validate_optimization_input, missing_fields in H.
  destruct (objective d) as [obj|] eqn:Eo; [|discriminate].
  destruct (products d) as [ps|] eqn:Ep; [|discriminate].
  destruct (resources d) as [rs|] eqn:Er; [|discriminate].
  destruct (resource_usage d) as [rus|] eqn:Eu; [|discriminate].
  cbn [present app is_empty negb get bind] in H.
  set (e0 := if negb (mem obj ["maximize_profit"; "minimize_cost"])
             then [Bad_objective] else []) in H.
  destruct (for_each check_product ps (e0, [])) as [[e1 pn]|] eqn:E1;
    cbn [bind] in H; [|discriminate].
  destruct (for_each check_resource rs (e1, [])) as [[e2 rn]|] eqn:E2;
    cbn [bind] in H; [|discriminate].
  destruct (for_each (check_usage pn rn) rus e2) as [e3|] eqn:E3;
    cbn [bind] in H; [|discriminate].
  destruct (for_each (check_has_usage rus) pn e3) as [e4|] eqn:E4;
    cbn [bind] in H; [|discriminate].
  destruct (match demand_constraints d with
            | Some dcs => for_each (check_demand pn) dcs e4
            | None => Ret e4
            end) as [e5|] eqn:E5; cbn [bind] in H; [|discriminate].
  inversion H as [[Hempty Hfinal]]. clear H Hempty.
  destruct (for_each_named p_name product_ok check_product
              (fun a e ns e' ns' => check_product_step a e e' ns ns')
              _ _ _ _ _ E1) as (x1 & -> & H1).
  destruct (for_each_named r_name resource_ok check_resource
              (fun a e ns e' ns' => check_resource_step a e e' ns ns')
              _ _ _ _ _ E2) as (x2 & -> & H2).
  destruct (for_each_rows _ _ rus
              (fun a e e' _ => check_usage_step pn rn a e e') _ _ E3)
    as (x3 & -> & H3).
  destruct (for_each_rows _ _ pn
              (fun a e e' _ => check_has_usage_step rus a e e') _ _ E4)
    as (x4 & -> & H4).
  assert (H5 : exists x5, e5 = (((e0 ++ x1) ++ x2) ++ x3) ++ x4 ++ x5 /\
                 (x5 = [] -> forall dcs, demand_constraints d = Some dcs ->
                    Forall (fun dc =>
                      (exists n, dc_product_name dc = Some n /\ In n pn) /\
                      absent_or_nonneg (min_demand dc) /\
                      absent_or_nonneg (max_demand dc) /\
                      (forall lo hi, min_demand dc = Num lo ->
                                     max_demand dc = Num hi -> (lo <= hi)%Q))
                      dcs)).
  { destruct (demand_constraints d) as [dcs|].
    - destruct (for_each_rows _ _ dcs
                  (fun a e e' _ => check_demand_step pn a e e') _ _ E5)
        as (x5 & -> & H5).
      exists x5. split; [rewrite <- app_assoc; reflexivity|].
      intros Hx dcs0 Hd. inversion Hd; subst. auto.
    - inversion E5; subst. exists []. split; [rewrite !app_nil_r; reflexivity|].
      intros _ dcs Hd. discriminate. }
  destruct H5 as (x5 & -> & H5).
  assert (H6 : exists x6,
             [] = ((((e0 ++ x1) ++ x2) ++ x3) ++ x4 ++ x5) ++ x6 /\
             (x6 = [] -> forall tc, total_constraints d = Some tc -> total_ok tc)).
  { destruct (total_constraints d) as [tc|].
    - destruct (truthy tc) eqn:Et.
      + destruct (check_total_step tc
                    ((((e0 ++ x1) ++ x2) ++ x3) ++ x4 ++ x5)) as (x6 & Hx6 & H6).
        exists x6. split; [rewrite <- Hx6; symmetry; exact Hfinal|].
        intros Hx tc0 Htc. inversion Htc; subst. auto.
      + exists []. split; [rewrite app_nil_r; symmetry; exact Hfinal|].
        intros _ tc0 Htc. inversion Htc; subst.
        unfold truthy in Et. apply orb_false_iff in Et. destruct Et as [Ea Eb].
        unfold total_ok.
        destruct (min_total tc0); try discriminate.
        destruct (max_total tc0); try discriminate.
        repeat split; intros; discriminate.
    - exists []. split; [rewrite app_nil_r; symmetry; exact Hfinal|].
      intros _ tc Htc. discriminate. }
  destruct H6 as (x6 & Hnil & H6).
  symmetry in Hnil.
  apply app_eq_nil in Hnil. destruct Hnil as [Hnil ->].
  apply app_eq_nil in Hnil. destruct Hnil as [Hnil Hx45].
  apply app_eq_nil in Hx45. destruct Hx45 as [-> ->].
  apply app_eq_nil in Hnil. destruct Hnil as [Hnil ->].
  apply app_eq_nil in Hnil. destruct Hnil as [Hnil ->].
  apply app_eq_nil in Hnil. destruct Hnil as [He0 ->].
  destruct (H1 eq_refl) as (Hps & Hpn).
  destruct (H2 eq_refl) as (Hrs & Hrn).
  specialize (H3 eq_refl). specialize (H4 eq_refl).
  specialize (H5 eq_refl). specialize (H6 eq_refl).
  assert (Hknown_p : forall n, In n pn <-> declares p_name ps n).
  { intro n. rewrite Hpn. split; [intros [[]|Hd]; exact Hd|auto]. }
  assert (Hknown_r : forall n, In n rn <-> declares r_name rs n).
  { intro n. rewrite Hrn. split; [intros [[]|Hd]; exact Hd|auto]. }
  exists obj, ps, rs, rus.
  split; [exact Eo|]. split; [exact Ep|].
  split; [exact Er|]. split; [exact Eu|].
  split; [|split; [exact Hps|split; [exact Hrs|split; [|split; [|split;
    [|exact H6]]]]]].
  - unfold e0 in He0.
    destruct (mem obj ["maximize_profit"; "minimize_cost"]) eqn:M;
      [|discriminate].
    apply mem_iff in M. destruct M as [M|[M|[]]]; auto.
  - rewrite Forall_forall in *. intros ru Hru.
    destruct (H3 ru Hru) as ((n & Hn & Hin) & (m & Hm & Hmin) & Hu).
    split; [exists n; split; [exact Hn|apply Hknown_p; exact Hin]|].
    split; [exists m; split; [exact Hm|apply Hknown_r; exact Hmin]|exact Hu].
  - intros n Hn. apply Hknown_p in Hn.
    rewrite Forall_forall in H4. exact (H4 n Hn).
  - intros dcs Hd. specialize (H5 dcs Hd).
    rewrite Forall_forall in *. intros dc Hdc.
    destruct (H5 dc Hdc) as ((n & Hn & Hin) & Hrest).
    split; [exists n; split; [exact Hn|apply Hknown_p; exact Hin]|exact Hrest].
Qed.

(** *** Rows in order pass the checks unnoticed *)

Lemma for_each_pass {A : Type} (body : A -> list error -> res (list error))
    (rows : list A) (e : list error) :
  (forall a, In a rows -> body a e = Ret e) ->
  for_each body rows e = Ret e.
Proof.
  induction rows as [|a rows IH]; intro H; simpl; [reflexivity|].
  rewrite (H a (or_introl eq_refl)). simpl.
  apply IH. intros b Hb. apply H. right; exact Hb.
Qed.

Lemma check_product_pass (p : product) (e : list error) (ns : list string) :
  product_ok p ->
  exists ns', check_product p (e, ns) = Ret (e, ns').
Proof.
  intros ((n & Hn) & Hp & Hc). unfold check_product. rewrite Hn.
  rewrite (check_nonneg_pass _ _ _ _ _ Hp). simpl.
  rewrite (check_nonneg_pass _ _ _ _ _ Hc). simpl.
  eexists. reflexivity.
Qed.

Lemma check_resource_pass (r : resource) (e : list error) (ns : list string) :
  resource_ok r ->
  exists ns', check_resource r (e, ns) = Ret (e, ns').
Proof.
  intros ((n & Hn) & Hc). unfold check_resource. rewrite Hn.
  rewrite (check_nonneg_pass _ _ _ _ _ Hc). simpl.
  eexists. reflexivity.
Qed.

Lemma for_each_named_pass {A : Type} (ok : A -> Prop)
    (body : A -> list error * list string -> res (list error * list string))
    (e : list error) :
  (forall a ns, ok a -> exists ns', body a (e, ns) = Ret (e, ns')) ->
  forall rows ns,
    Forall ok rows ->
    exists ns', for_each body rows (e, ns) = Ret (e, ns').
Proof.
  intro Hbody. induction rows as [|a rows IH]; intros ns Hall; simpl.
  - eexists. reflexivity.
  - inversion Hall; subst.
    destruct (Hbody a ns H1) as (ns1 & E). rewrite E. simpl.
    apply IH. assumption.
Qed.

Lemma check_usage_pass (pn rn : list string) (ru : usage_row)
    (e : list error) :
  (exists n, ru_product_name ru = Some n /\ In n pn) ->
  (exists n, ru_resource_name ru = Some n /\ In n rn) ->
  nonneg (usage_per_unit ru) ->
  check_usage pn rn ru e = Ret e.
Proof.
  intros (p & Hp & Hpin) (r & Hr & Hrin) (q & Hq & Hq0).
  unfold check_usage. rewrite Hp, Hr, Hq.
  apply mem_iff in Hpin. apply mem_iff in Hrin. rewrite Hpin, Hrin. simpl.
  apply Qltb_ge in Hq0. rewrite Hq0. reflexivity.
Qed.

Lemma has_resource_usage_found (n : string) (rows : list usage_row) :
  Forall (fun ru => exists m, ru_product_name ru = Some m) rows ->
  (exists ru, In ru rows /\ ru_product_name ru = Some n) ->
  has_resource_usage n rows = Ret true.
Proof.
  induction rows as [|ru rows IH]; intros Hall (ru0 & Hin & Hn); simpl.
  - destruct Hin.
  - inversion Hall as [|? ? (m & Hm) Hrest]; subst. rewrite Hm. simpl.
    destruct (String.eqb_spec m n) as [->|Hne]; [reflexivity|].
    apply IH; [exact Hrest|].
    destruct Hin as [<-|Hin]; [congruence|]. exists ru0. auto.
Qed.

Lemma check_demand_bound_pass (key : string) (f : field)
    (name : option string) (negative : string -> Q -> error)
    (e : list error) :
  absent_or_nonneg f -> check_demand_bound key f name negative e = Ret e.
Proof.
  intros [->|(q & -> & Hq)]; unfold check_demand_bound; simpl; [reflexivity|].
  apply Qltb_ge in Hq. rewrite Hq. reflexivity.
Qed.

Lemma check_demand_pass (pn : list string) (dc : demand_constraint)
    (e : list error) :
  (exists n, dc_product_name dc = Some n /\ In n pn) ->
  absent_or_nonneg (min_demand dc) ->
  absent_or_nonneg (max_demand dc) ->
  (forall lo hi, min_demand dc = Num lo -> max_demand dc = Num hi ->
                 (lo <= hi)%Q) ->
  check_demand pn dc e = Ret e.
Proof.
  intros (n & Hn & Hin) Hlo Hhi Hle. unfold check_demand.
  rewrite Hn. apply mem_iff in Hin. rewrite Hin. simpl.
  rewrite (check_demand_bound_pass _ _ _ _ _ Hlo). simpl.
  rewrite (check_demand_bound_pass _ _ _ _ _ Hhi). simpl.
  destruct Hlo as [Hlo|(lo & Hlo & _)]; rewrite Hlo in *; simpl;
    [reflexivity|].
  destruct Hhi as [Hhi|(hi & Hhi & _)]; rewrite Hhi in *; simpl;
    [reflexivity|].
  specialize (Hle lo hi eq_refl eq_refl). apply Qltb_ge in Hle.
  rewrite Hle. reflexivity.
Qed.

Lemma check_total_pass (tc : total_constraints_t) (e : list error) :
  total_ok tc -> check_total tc e = e.
Proof.
  intros (Hlo & Hhi & Hle). unfold check_total.
  destruct (min_total tc) as [| |lo]; destruct (max_total tc) as [| |hi];
    try reflexivity;
    try (rewrite (proj2 (Qltb_ge _ _) (Hlo _ eq_refl)));
    try (rewrite (proj2 (Qltb_ge _ _) (Hhi _ eq_refl)));
    try (rewrite (proj2 (Qltb_ge _ _) (Hle _ _ eq_refl eq_refl)));
    reflexivity.
Qed.

(** Conversely, the validator accepts every payload that is in order: the
    two directions together say exactly which payloads pass. *)
Lemma validator_complete (d : data) :
  accepted d -> validate_optimization_input d = Ret (true, []).
Proof.
  intros (obj & ps & rs & rus & Eo & Ep & Er & Eu & Hobj & Hps & Hrs & Hrus
          & Hhas & Hdcs & Htc).
  unfold validate_optimization_input, missing_fields.
  rewrite Eo, Ep, Er, Eu. cbn [present app is_empty negb get bind].
  assert (Hm : mem obj ["maximize_profit"; "minimize_cost"] = true).
  { apply mem_iff. destruct Hobj as [-> | ->]; simpl; auto. }
  rewrite Hm. cbn [negb].
  destruct (for_each_named_pass product_ok check_product []
              (fun a ns => check_product_pass a [] ns) ps [] Hps) as (pn & E1).
  rewrite E1. cbn [bind].
  destruct (for_each_named_pass resource_ok check_resource []
              (fun a ns => check_resource_pass a [] ns) rs [] Hrs) as (rn & E2).
  rewrite E2. cbn [bind].
  destruct (for_each_named p_name product_ok check_product
              (fun a e ns e' ns' => check_product_step a e e' ns ns')
              _ _ _ _ _ E1) as (x1 & Hx1 & H1).
  destruct (for_each_named r_name resource_ok check_resource
              (fun a e ns e' ns' => check_resource_step a e e' ns ns')
              _ _ _ _ _ E2) as (x2 & Hx2 & H2).
  simpl in Hx1, Hx2. subst x1 x2.
  destruct (H1 eq_refl) as (_ & Hpn). destruct (H2 eq_refl) as (_ & Hrn).
  assert (Hknown_p : forall n, declares p_name ps n -> In n pn)
    by (intros n Hn; apply Hpn; right; exact Hn).
  assert (Hknown_r : forall n, declares r_name rs n -> In n rn)
    by (intros n Hn; apply Hrn; right; exact Hn).
  rewrite Forall_forall in Hrus.
  rewrite (for_each_pass (check_usage pn rn) rus []).
  2:{ intros ru Hru. destruct (Hrus ru Hru) as ((n & Hn & Hd) & (m & Hm' & Hd') & Hu).
      apply check_usage_pass; eauto. }
  cbn [bind].
  rewrite (for_each_pass (check_has_usage rus) pn []).
  2:{ intros n Hn. unfold check_has_usage.
      rewrite (has_resource_usage_found n rus); [reflexivity| |].
      - apply Forall_forall. intros ru Hru.
        destruct (Hrus ru Hru) as ((m & Hm' & _) & _). exists m. exact Hm'.
      - apply Hhas. apply Hpn in Hn. destruct Hn as [[]|Hn]. exact Hn. }
  cbn [bind].
  assert (E5 : match demand_constraints d with
               | Some dcs => for_each (check_demand pn) dcs []
               | None => Ret []
               end = Ret []).
  { destruct (demand_constraints d) as [dcs|]; [|reflexivity].
    specialize (Hdcs dcs eq_refl). rewrite Forall_forall in Hdcs.
    apply for_each_pass. intros dc Hdc.
    destruct (Hdcs dc Hdc) as ((n & Hn & Hd) & Hlo & Hhi & Hle).
    apply check_demand_pass; eauto. }
  rewrite E5. cbn [bind].
  destruct (total_constraints d) as [tc|]; [|reflexivity].
  rewrite (check_total_pass tc [] (Htc tc eq_refl)).
  destruct (truthy tc); reflexivity.
Qed.



Example floor_payload_accepted :
  validate_optimization_input (one_product 10 (Some [at_least 3]))
  = Ret (true, []).
Proof.
  apply (validator_complete (one_product 10 (Some [at_least 3]))).
  exists "maximize_profit", [product_A], [resource_R 10], [usage_A_R].
  assert (HA : declares p_name [product_A] "A")
    by (exists product_A; split; [left; reflexivity|reflexivity]).
  assert (HR : declares r_name [resource_R 10] "R")
    by (exists (resource_R 10); split; [left; reflexivity|reflexivity]).
  assert (H1 : nonneg (Num 1))
    by (exists 1%Q; split; [reflexivity|discriminate]).
  split; [reflexivity|]. split; [reflexivity|].
  split; [reflexivity|]. split; [reflexivity|].
  split; [left; reflexivity|].
  split; [|split; [|split; [|split; [|split]]]].
  - constructor; [|constructor].
    split; [exists "A"; reflexivity|split; exact H1].
  - constructor; [|constructor].
    split; [exists "R"; reflexivity|].
    exists 10%Q. split; [reflexivity|discriminate].
  - constructor; [|constructor].
    split; [exists "A"; auto|split; [exists "R"; auto|exact H1]].
  - intros n (row & [<-|[]] & Hn). inversion Hn; subst.
    exists usage_A_R. split; [left; reflexivity|reflexivity].
  - intros dcs Hd. inversion Hd; subst. constructor; [|constructor].
    split; [exists "A"; auto|]. split; [|split].
    + right. exists 3%Q. split; [reflexivity|discriminate].
    + left. reflexivity.
    + intros lo hi _ Hhi. discriminate.
  - intros tc Htc. discriminate.
Qed.

(** The validator lets through exactly the payloads in order: the four
    required fields are there, the objective is one of the two tags, every
    product and resource is named with amounts that are not negative, every
    usage row refers to a declared product and resource with a usage that is
    not negative, every named product has a usage row, every demand
    constraint names a declared product with bounds that are missing or not
    negative and [min <= max], and the total bounds, where given as numbers,
    are not negative with [min <= max]. The list that comes with [True] is
    empty. *)
Theorem validator_accepts_exactly (d : data) :
  (forall errors, validate_optimization_input d = Ret (true, errors) ->
                  errors = []) /\
  (validate_optimization_input d = Ret (true, []) <-> accepted d).
Proof.
  split; [intros errors H; apply (validator_sound d errors H)|].
  split.
  - intro H. apply (validator_sound d [] H).
  - apply validator_complete.
Qed.

(** Scenario 1 of the design is a payload in order. *)
Lemma validator_accepts_exactly_witness :
  accepted (Scenarios.one_product 10 None).
Proof.
  apply (proj1 (proj2 (validator_accepts_exactly (Scenarios.one_product 10 None)))).
  reflexivity.
Defined.

End AcceptanceFacts.

(** ** From an accepted payload to the response *)

Module PipelineFacts.

Import Engine Validation Optimizers Factory Endpoint Contracts Invariants
       Scenarios.

(** *** Dictionaries *)

Lemma dict_set_keys_In {V : Type} (n k : string) (v : V) (d : dict V) :
  In n (keys (dict_set k v d)) <-> n = k \/ In n (keys d).
Proof.
  induction d as [|[k' v'] d IH]; simpl.
  - split; [intros [H|[]]; auto|intros [H|[]]; auto].
  - destruct (String.eqb_spec k' k) as [->|Hne]; simpl.
    + split; [intros [H|H]; auto|intros [H|[H|H]]; auto].
    + rewrite IH. split; [intros [H|[H|H]]; auto|intros [H|[H|H]]; auto].
Qed.

Lemma dict_set_entries {V : Type} (k k' : string) (v v' : V) (d : dict V) :
  In (k', v') (dict_set k v d) -> (k', v') = (k, v) \/ In (k', v') d.
Proof.
  induction d as [|[k0 v0] d IH]; simpl.
  - intros [H|[]]; auto.
  - destruct (String.eqb_spec k0 k) as [->|Hne]; simpl.
    + intros [H|H]; auto.
    + intros [H|H]; auto. destruct (IH H); auto.
Qed.

Lemma dict_get_keys {V : Type} (n : string) (d : dict V) :
  In n (keys d) <-> exists v, dict_get n d = Some v.
Proof.
  induction d as [|[k v] d IH]; simpl.
  - split; [intros []|intros (v & H); discriminate].
  - destruct (String.eqb_spec k n) as [->|Hne].
    + split; [intros _; exists v; reflexivity|auto].
    + rewrite <- IH. split; [intros [H|H]; [contradiction|exact H]|auto].
Qed.

Lemma dict_get_entry {V : Type} (n : string) (v : V) (d : dict V) :
  dict_get n d = Some v -> In (n, v) d.
Proof.
  induction d as [|[k w] d IH]; simpl; [discriminate|].
  destruct (String.eqb_spec k n) as [->|Hne].
  - intro H; inversion H; auto.
  - auto.
Qed.

Lemma dict_mem_keys {V : Type} (n : string) (d : dict V) :
  dict_mem n d = true <-> In n (keys d).
Proof.
  unfold dict_mem. rewrite dict_get_keys.
  destruct (dict_get n d) as [v|]; split; try discriminate; eauto.
  intros (v & H); discriminate.
Qed.

(** A concrete payload is moderate: each of its numbers is compared with
    the limit. *)
Ltac moderate_payload :=
  unfold moderate, totals_in_range, prices_in_range, in_float_range;
  simpl; repeat split; intros;
  repeat match goal with
         | H : Some _ = Some _ |- _ => inversion H; clear H; subst
         | H : None = Some _ |- _ => discriminate H
         | H : In _ _ |- _ => simpl in H
         | H : _ \/ _ |- _ => destruct H as [H|H]; subst
         | H : False |- _ => destruct H
         | H : Absent = Num _ |- _ => discriminate H
         | H : Null = Num _ |- _ => discriminate H
         | H : Num _ = Num _ |- _ => inversion H; clear H; subst
         | H : _ = Num _ |- _ => progress simpl in H
         end;
  vm_compute; reflexivity.

(** *** Loops that cannot raise *)

Lemma for_each_returns {A S : Type} (I : S -> Prop) (body : A -> S -> res S)
    (xs : list A) :
  (forall a s, In a xs -> I s -> exists s', body a s = Ret s' /\ I s') ->
  forall st, I st -> exists st', for_each body xs st = Ret st' /\ I st'.
Proof.
  induction xs as [|a xs IH]; intros Hbody st Hst; simpl.
  - exists st. auto.
  - destruct (Hbody a st (or_introl eq_refl) Hst) as (s1 & E & H1).
    rewrite E. simpl. apply IH; [|exact H1].
    intros b s Hb. apply Hbody. right; exact Hb.
Qed.

(** [{row['name']: row for row in rows}]: a key per name, each value one of
    the rows carrying that name. *)
Lemma index_by_fold {A : Type} (key : string) (name : A -> option string)
    (xs : list A) :
  forall d0 d,
    for_each (fun row d => n <- get key (name row) ;; Ret (dict_set n row d))
             xs d0 = Ret d ->
    (forall n, In n (keys d) <-> In n (keys d0) \/ declares name xs n) /\
    (forall n row, In (n, row) d ->
                   In (n, row) d0 \/ (In row xs /\ name row = Some n)).
Proof.
  induction xs as [|a xs IH]; intros d0 d; simpl.
  - intro H; inversion H; subst. split.
    + intro n. split; [auto|]. intros [H0|(row & [] & _)]; exact H0.
    + auto.
  - destruct (name a) as [m|] eqn:Em; simpl; [|discriminate].
    intro H. destruct (IH _ _ H) as (Hk & Hv). split.
    + intro n. rewrite Hk, dict_set_keys_In. split.
      * intros [[->|H0]|(row & Hin & Hrow)]; auto.
        -- right. exists a. split; [left; reflexivity|exact Em].
        -- right. exists row. split; [right; exact Hin|exact Hrow].
      * intros [H0|(row & [<-|Hin] & Hrow)]; auto.
        -- left. left. congruence.
        -- right. exists row. auto.
    + intros n row Hin. destruct (Hv n row Hin) as [H0|[H0 H1]].
      * apply dict_set_entries in H0. destruct H0 as [H0|H0]; auto.
        inversion H0; subst. right. split; [left; reflexivity|exact Em].
      * right. split; [right; exact H0|exact H1].
Qed.

Lemma index_by_returns {A : Type} (key : string) (name : A -> option string)
    (rows : list A) :
  Forall (fun row => exists n, name row = Some n) rows ->
  exists d,
    index_by key name rows = Ret d /\
    (forall n, In n (keys d) <-> declares name rows n) /\
    (forall n row, In (n, row) d -> In row rows /\ name row = Some n).
Proof.
  intro Hall. unfold index_by.
  destruct (for_each_returns (fun _ => True)
              (fun row d => n <- get key (name row) ;; Ret (dict_set n row d))
              rows) with (st := @nil (string * A)) as (d & E & _).
  - intros a s Ha _. rewrite Forall_forall in Hall.
    destruct (Hall a Ha) as (n & Hn). rewrite Hn. simpl. eauto.
  - exact I.
  - exists d. split; [exact E|].
    destruct (index_by_fold key name rows [] d E) as (Hk & Hv). split.
    + intro n. rewrite Hk. split; [intros [[]|H]; exact H|auto].
    + intros n row Hin. destruct (Hv n row Hin) as [[]|H]. exact H.
Qed.

(** *** The usage table *)

Lemma usage_table_returns (R : string -> Prop) (rows : list usage_row) :
  Forall (fun ru =>
            (exists n, ru_product_name ru = Some n) /\
            (exists n, ru_resource_name ru = Some n /\ R n) /\
            nonneg (usage_per_unit ru)) rows ->
  exists tbl, usage_table rows = Ret tbl /\ table_ok R tbl.
Proof.
  intro Hall. unfold usage_table.
  apply for_each_returns; [|intros p row r u []].
  intros ru tbl Hru Htbl. rewrite Forall_forall in Hall.
  destruct (Hall ru Hru) as ((p & Hp) & (r & Hr & HR) & (q & Hq & _)).
  rewrite Hp, Hr, Hq. cbn [get bind subscript]. cbv zeta.
  cbn [get bind subscript].
  match goal with |- context [dict_get p ?t] => set (tbl1 := t) end.
  assert (H1 : table_ok R tbl1).
  { unfold tbl1.
    match goal with |- context [negb ?b] => destruct b end;
      simpl; [exact Htbl|].
    intros p' row' r' u' Hin Hin'.
    apply dict_set_entries in Hin. destruct Hin as [Hin|Hin].
    - inversion Hin; subst. destruct Hin'.
    - exact (Htbl _ _ _ _ Hin Hin'). }
  assert (H2 : exists inner, dict_get p tbl1 = Some inner).
  { unfold tbl1.
    match goal with |- context [negb ?b] => destruct b eqn:M end; simpl.
    - apply dict_get_keys, dict_mem_keys. exact M.
    - exists []. apply BuilderFacts.dict_get_set_same. }
  destruct H2 as (inner & Hinner). rewrite Hinner. cbn [get bind].
  eexists. split; [reflexivity|].
  intros p' row' r' u' Hin Hin'.
  apply dict_set_entries in Hin. destruct Hin as [Hin|Hin].
  - inversion Hin; subst.
    apply dict_set_entries in Hin'. destruct Hin' as [Hin'|Hin'].
    + inversion Hin'; subst. split; [exists q; reflexivity|exact HR].
    + exact (H1 _ _ _ _ (dict_get_entry _ _ _ Hinner) Hin').
  - exact (H1 _ _ _ _ Hin Hin').
Qed.

Lemma usage_table_in_range (rows : list usage_row)
    (tbl : dict (dict (option Q))) :
  (forall ru, In ru rows -> in_float_range (usage_per_unit ru)) ->
  usage_table rows = Ret tbl -> table_in_range tbl.
Proof.
  intro Hall. unfold usage_table.
  apply BuilderFacts.for_each_invariant; [|intros p row r u []].
  intros ru t t' Hru Ht.
  destruct (ru_product_name ru) as [p|]; [|discriminate].
  destruct (ru_resource_name ru) as [r|]; [|discriminate].
  cbn [get bind]. cbv zeta.
  destruct (usage_per_unit ru) as [| |q] eqn:Eq; cbn [subscript bind];
    try discriminate.
  - match goal with |- context [dict_get p ?t] => set (tbl1 := t) end.
    assert (H1 : table_in_range tbl1).
    { unfold tbl1.
      match goal with |- context [negb ?b] => destruct b end;
        simpl; [exact Ht|].
      intros p' row' r' u' Hin Hin'.
      apply dict_set_entries in Hin. destruct Hin as [Hin|Hin].
      - inversion Hin; subst. destruct Hin'.
      - exact (Ht _ _ _ _ Hin Hin'). }
    destruct (dict_get p tbl1) as [inner|] eqn:Hinner; cbn [get bind];
      [|discriminate].
    intro H; inversion H; subst. clear H.
    intros p' row' r' u' Hin Hin'.
    apply dict_set_entries in Hin. destruct Hin as [Hin|Hin].
    + inversion Hin; subst.
      apply dict_set_entries in Hin'. destruct Hin' as [Hin'|Hin'].
      * inversion Hin'.
      * exact (H1 _ _ _ _ (dict_get_entry _ _ _ Hinner) Hin').
    + exact (H1 _ _ _ _ Hin Hin').
  - match goal with |- context [dict_get p ?t] => set (tbl1 := t) end.
    assert (H1 : table_in_range tbl1).
    { unfold tbl1.
      match goal with |- context [negb ?b] => destruct b end;
        simpl; [exact Ht|].
      intros p' row' r' u' Hin Hin'.
      apply dict_set_entries in Hin. destruct Hin as [Hin|Hin].
      - inversion Hin; subst. destruct Hin'.
      - exact (Ht _ _ _ _ Hin Hin'). }
    destruct (dict_get p tbl1) as [inner|] eqn:Hinner; cbn [get bind];
      [|discriminate].
    intro H; inversion H; subst. clear H.
    intros p' row' r' u' Hin Hin'.
    apply dict_set_entries in Hin. destruct Hin as [Hin|Hin].
    + inversion Hin; subst.
      apply dict_set_entries in Hin'. destruct Hin' as [Hin'|Hin'].
      * inversion Hin'; subst. apply (Hall ru Hru); assumption.
      * exact (H1 _ _ _ _ (dict_get_entry _ _ _ Hinner) Hin').
    + exact (H1 _ _ _ _ Hin Hin').
Qed.

(** *** The variables *)

Lemma basic_variables_keys (names : list string) :
  forall (m : model) (pv : dict var) (p : string),
    In p (keys (snd (fold_left BasicProductionOptimizer.add_variable names
                               (m, pv)))) <->
    In p (keys pv) \/ In p names.
Proof.
  induction names as [|n names IH]; intros m pv p; simpl.
  - split; [auto|intros [H|[]]; exact H].
  - rewrite IH, dict_set_keys_In. split.
    + intros [[->|H]|H]; auto.
    + intros [H|[->|H]]; auto.
Qed.

Lemma demand_variables_keys (dcs : dict demand_constraint)
    (names : list string) :
  forall (m : model) (pv : dict var) (p : string),
    In p (keys (snd (fold_left (DemandConstrainedOptimizer.add_variable dcs)
                               names (m, pv)))) <->
    In p (keys pv) \/ In p names.
Proof.
  induction names as [|n names IH]; intros m pv p; cbn [fold_left].
  - split; [auto|intros [H|[]]; exact H].
  - rewrite BuilderFacts.add_variable_eq, IH, dict_set_keys_In. split.
    + intros [[->|H]|H]; simpl; auto.
    + intros [H|[->|H]]; auto.
Qed.

(** *** The steps of [solve] on an accepted payload *)

(** For a loop in the goal: first show that its body returns on every
    element, then go on with the value of the loop. *)
Ltac loop_returns :=
  match goal with
  | |- context [for_each ?body ?xs ?st] =>
      let Hb := fresh "Hbody" in
      assert (Hb : forall a s, In a xs -> True ->
                               exists s', body a s = Ret s' /\ True);
      [ | let o := fresh "o" in
          let E := fresh "E" in
          destruct (for_each_returns (fun _ => True) body xs Hb st I)
            as (o & E & _);
          rewrite E; cbn [bind] ]
  end.

Lemma _set_objective_returns (m : model) (objective_type : string)
    (products : dict product) (production_vars : dict var) :
  (forall n p, In (n, p) products ->
               product_ok p /\ In n (keys production_vars)) ->
  exists m', _set_objective m objective_type products production_vars = Ret m'.
Proof.
  intro H. unfold _set_objective.
  destruct (String.eqb objective_type "maximize_profit"); loop_returns;
    eauto; intros [n p] s Hin _.
  - destruct (H n p Hin) as ((_ & (c & Hc & _) & _) & Hk).
    apply dict_get_keys in Hk. destruct Hk as (v & Hv).
    rewrite Hc, Hv. simpl. eauto.
  - destruct (H n p Hin) as ((_ & _ & (c & Hc & _)) & Hk).
    apply dict_get_keys in Hk. destruct Hk as (v & Hv).
    rewrite Hc, Hv. simpl. eauto.
Qed.

Lemma _add_resource_constraints_returns (R : string -> Prop) (m : model)
    (resources : dict resource) (products : dict product)
    (production_vars : dict var) (resource_usage : dict (dict (option Q))) :
  (forall n r, In (n, r) resources -> resource_ok r) ->
  (forall n, In n (keys products) -> In n (keys production_vars)) ->
  table_ok R resource_usage ->
  exists m',
    _add_resource_constraints m resources products production_vars
      resource_usage = Ret m'.
Proof.
  intros Hrs Hpv Htbl. unfold _add_resource_constraints.
  loop_returns; [|eauto].
  intros [rn r] s Hin _. loop_returns.
  - intros p c Hp _.
    destruct (dict_get p resource_usage) as [row|] eqn:Erow; [|eauto].
    destruct (dict_get rn row) as [u|] eqn:Eu; [|eauto].
    destruct (Htbl _ _ _ _ (dict_get_entry _ _ _ Erow) (dict_get_entry _ _ _ Eu))
      as ((q & ->) & _).
    specialize (Hpv p Hp). apply dict_get_keys in Hpv. destruct Hpv as (v & Hv).
    rewrite Hv. simpl. eauto.
  - destruct (Hrs rn r Hin) as (_ & (q & Hq & _)). rewrite Hq. simpl. eauto.
Qed.

Lemma add_total_if_given_returns (m : model) (d : data)
    (products : dict product) (production_vars : dict var) :
  (forall n, In n (keys products) -> In n (keys production_vars)) ->
  totals_in_range d ->
  exists m', add_total_if_given m d products production_vars = Ret m'.
Proof.
  intros Hpv Hrange. unfold add_total_if_given, _add_total_product_constraints.
  unfold totals_in_range in Hrange.
  destruct (total_constraints d) as [tc|]; [|eauto].
  destruct (Hrange tc eq_refl) as (Hlo & Hhi).
  destruct (truthy tc); simpl; [|eauto].
  loop_returns.
  - intros p t Hp _. specialize (Hpv p Hp).
    apply dict_get_keys in Hpv. destruct Hpv as (v & Hv).
    rewrite Hv. simpl. eauto.
  - destruct (min_total tc) as [| |lo]; destruct (max_total tc) as [| |hi];
      rewrite ?(float_in_range lo (Hlo lo eq_refl));
      rewrite ?(float_in_range hi (Hhi hi eq_refl));
      cbn [bind]; eauto.
Qed.

Lemma declared_named {A : Type} (name : A -> option string)
    (ok : A -> Prop) (rows : list A) :
  (forall row, ok row -> exists n, name row = Some n) ->
  Forall ok rows ->
  Forall (fun row => exists n, name row = Some n) rows.
Proof.
  intros H Hall. rewrite Forall_forall in *. auto.
Qed.

(** What [_extract_common_data] hands to the builders for an accepted
    payload. *)
Lemma _extract_common_data_returns (d : data) :
  accepted d ->
  exists obj ps rs rus pd rd tbl,
    objective d = Some obj /\ products d = Some ps /\
    resources d = Some rs /\ resource_usage d = Some rus /\
    index_by "name" p_name ps = Ret pd /\
    index_by "name" r_name rs = Ret rd /\
    usage_table rus = Ret tbl /\
    _extract_common_data d = Ret (obj, pd, rd, tbl) /\
    (forall n p, In (n, p) pd -> product_ok p) /\
    (forall n r, In (n, r) rd -> resource_ok r) /\
    table_ok (fun r => In r (keys rd)) tbl.
Proof.
  intros (obj & ps & rs & rus & Eo & Ep & Er & Eu & _ & Hps & Hrs & Hrus & _).
  destruct (index_by_returns "name" p_name ps) as (pd & Epd & Hpk & Hpv).
  { apply (declared_named _ product_ok); [intros row (H & _); exact H|exact Hps]. }
  destruct (index_by_returns "name" r_name rs) as (rd & Erd & Hrk & Hrv).
  { apply (declared_named _ resource_ok); [intros row (H & _); exact H|exact Hrs]. }
  destruct (usage_table_returns (fun r => In r (keys rd)) rus) as (tbl & Et & Htbl).
  { rewrite Forall_forall in *. intros ru Hru.
    destruct (Hrus ru Hru) as ((n & Hn & _) & (m & Hm & Hd) & Hu).
    split; [exists n; exact Hn|]. split; [|exact Hu].
    exists m. split; [exact Hm|apply Hrk; exact Hd]. }
  exists obj, ps, rs, rus, pd, rd, tbl.
  repeat (split; [assumption|]).
  split.
  { unfold _extract_common_data. rewrite Eo, Ep, Er, Eu. cbn [get bind].
    rewrite Epd. cbn [bind]. rewrite Erd. cbn [bind]. rewrite Et. reflexivity. }
  rewrite Forall_forall in Hps, Hrs.
  split; [intros n p Hin; apply Hps; apply (Hpv n p Hin)|].
  split; [intros n r Hin; apply Hrs; apply (Hrv n r Hin)|exact Htbl].
Qed.

(** The resources and the usage table of a moderate payload hold numbers
    that convert to floats. *)
Lemma _extract_common_data_moderate (d : data) (rs : list resource)
    (rus : list usage_row) (rd : dict resource)
    (tbl : dict (dict (option Q))) :
  moderate d ->
  resources d = Some rs -> resource_usage d = Some rus ->
  index_by "name" r_name rs = Ret rd ->
  usage_table rus = Ret tbl ->
  (forall n r, In (n, r) rd -> in_float_range (available_capacity r)) /\
  table_in_range tbl.
Proof.
  intros (Hcap & Huse & _) Er Eu Erd Et. split.
  - intros n r Hin. apply (Hcap rs r Er).
    destruct (index_by_fold "name" r_name rs [] rd Erd) as (_ & Hv).
    destruct (Hv n r Hin) as [[]|[H _]]. exact H.
  - apply (usage_table_in_range rus tbl); [|exact Et].
    intros ru Hru. exact (Huse rus ru Eu Hru).
Qed.

(** An accepted payload whose total bounds convert to floats never makes a
    builder raise: both optimisers get as far as [model.optimize()], with
    the resources and the usage table of [_extract_common_data]. *)
Lemma builds_on_accepted (d : data) :
  accepted d ->
  totals_in_range d ->
  exists obj pd rd tbl,
    _extract_common_data d = Ret (obj, pd, rd, tbl) /\
    (exists m pv, BasicProductionOptimizer.build d = Ret (m, pv, rd, tbl)) /\
    (exists m pv, DemandConstrainedOptimizer.build d = Ret (m, pv, rd, tbl)).
Proof.
  intros Hacc Hrange.
  destruct (_extract_common_data_returns d Hacc)
    as (obj & ps & rs & rus & pd & rd & tbl & Eo & Ep & Er & Eu & Epd & Erd
        & Et & Eex & Hpd & Hrd & Htbl).
  exists obj, pd, rd, tbl. split; [exact Eex|]. split.
  - unfold BasicProductionOptimizer.build. rewrite Eex. cbn [bind].
    unfold BasicProductionOptimizer._create_production_variables.
    pose proof (basic_variables_keys (keys pd)
                  (_create_model BasicProductionOptimizer.model_name) [])
      as Hk.
    destruct (fold_left _ (keys pd) _) as [m0 pv0]. simpl in Hk.
    assert (Hpv : forall n, In n (keys pd) -> In n (keys pv0))
      by (intros n Hn; apply Hk; right; exact Hn).
    destruct (_set_objective_returns m0 obj pd pv0) as (m1 & E1).
    { intros n p Hin. split; [exact (Hpd n p Hin)|].
      apply Hpv. apply (in_map fst) in Hin. exact Hin. }
    rewrite E1. cbn [bind].
    destruct (_add_resource_constraints_returns _ m1 rd pd pv0 tbl Hrd Hpv Htbl)
      as (m2 & E2).
    rewrite E2. cbn [bind].
    destruct (add_total_if_given_returns m2 d pd pv0 Hpv Hrange) as (m3 & E3).
    rewrite E3. cbn [bind]. eauto.
  - unfold DemandConstrainedOptimizer.build. rewrite Eex. cbn [bind].
    assert (Hdc : exists dcs,
               match demand_constraints d with
               | Some rows => index_by "product_name" dc_product_name rows
               | None => Ret []
               end = Ret dcs).
    { destruct Hacc as (obj' & ps' & _ & _ & _ & Ep' & _ & _ & _ & _ & _ & _ & _
                        & Hdcs & _).
      destruct (demand_constraints d) as [rows|]; [|eauto].
      destruct (index_by_returns "product_name" dc_product_name rows)
        as (dcs & E & _); [|eauto].
      apply (declared_named _ (demand_ok ps')); [|apply Hdcs; reflexivity].
      intros row ((n & Hn & _) & _). exists n. exact Hn. }
    destruct Hdc as (dcs & Edc). rewrite Edc. cbn [bind].
    unfold DemandConstrainedOptimizer._create_production_variables_with_demand.
    pose proof (demand_variables_keys dcs (keys pd)
                  (_create_model DemandConstrainedOptimizer.model_name) [])
      as Hk.
    destruct (fold_left _ (keys pd) _) as [m0 pv0]. simpl in Hk.
    assert (Hpv : forall n, In n (keys pd) -> In n (keys pv0))
      by (intros n Hn; apply Hk; right; exact Hn).
    destruct (_set_objective_returns m0 obj pd pv0) as (m1 & E1).
    { intros n p Hin. split; [exact (Hpd n p Hin)|].
      apply Hpv. apply (in_map fst) in Hin. exact Hin. }
    rewrite E1. cbn [bind].
    destruct (_add_resource_constraints_returns _ m1 rd pd pv0 tbl Hrd Hpv Htbl)
      as (m2 & E2).
    rewrite E2. cbn [bind].
    destruct (add_total_if_given_returns m2 d pd pv0 Hpv Hrange) as (m3 & E3).
    rewrite E3. cbn [bind]. eauto.
Qed.

Lemma _get_resource_utilization_returns (R : string -> Prop) (s : solved)
    (rd : dict resource) (pv : dict var) (tbl : dict (dict (option Q))) :
  (forall n r, In (n, r) rd -> resource_ok r) ->
  (forall n r, In (n, r) rd -> in_float_range (available_capacity r)) ->
  table_ok R tbl ->
  table_in_range tbl ->
  exists u, _get_resource_utilization s rd pv tbl = Ret u.
Proof.
  intros Hrd Hcap Htbl Hin_range. unfold _get_resource_utilization.
  loop_returns; [|eauto].
  intros [rn r] acc Hin _.
  destruct (Hrd rn r Hin) as (_ & (c & Hc & _)).
  pose proof (Hcap rn r Hin c Hc) as Hc_range.
  rewrite Hc. cbn [subscript bind].
  loop_returns.
  - intros [pn row] used_r Hrow _.
    destruct (dict_get rn row) as [u|] eqn:Eu; [|eauto].
    destruct (dict_get pn pv) as [v|]; [|eauto].
    pose proof (dict_get_entry _ _ _ Eu) as Hu.
    destruct (Htbl _ _ _ _ Hrow Hu) as ((q & ->) & _).
    unfold mul. rewrite (float_in_range q (Hin_range _ _ _ _ Hrow Hu)).
    simpl. eauto.
  - simpl. rewrite (float_in_range c Hc_range).
    destruct (Qltb 0 c); simpl; eauto.
Qed.

(** *** The shape of the results *)

Lemma _prepare_result_shape (m : model) (s : solved) (pv : dict var)
    (rd : dict resource) (tbl : dict (dict (option Q))) (r : result) :
  _prepare_result m s pv rd tbl = Ret r -> solved_shape r.
Proof.
  unfold _prepare_result, solved_shape, with_solution, without_solution.
  destruct (Z.eqb (Engine.status s) OPTIMAL).
  - destruct (_get_resource_utilization s rd pv tbl) as [u|]; simpl;
      [|discriminate].
    intro H; inversion H; subst; simpl.
    split; [reflexivity|]. split; [reflexivity|]. left.
    repeat split; eauto.
  - destruct (Z.eqb (Engine.status s) INFEASIBLE).
    + destruct (computeIIS s) as [flags|]; simpl; [|discriminate].
      intro H; inversion H; subst; simpl.
      split; [reflexivity|]. split; [reflexivity|]. right. left.
      repeat split; eauto.
    + destruct (Z.eqb (Engine.status s) UNBOUNDED);
        intro H; inversion H; subst; simpl;
        (split; [reflexivity|]); (split; [reflexivity|]); right; right;
        repeat split; auto.
Qed.

Lemma finish_shape (e : engine) (b : res built) :
  solved_shape (snd (finish e b)).
Proof.
  unfold finish. cbn [snd].
  match goal with |- solved_shape match ?body with _ => _ end =>
    destruct body as [r|ex] eqn:E end.
  - destruct b as [[[[m pv] rd] tbl]|]; simpl in E; [|discriminate].
    destruct (e m) as [s|]; simpl in E; [|discriminate].
    exact (_prepare_result_shape _ _ _ _ _ _ E).
  - unfold solved_shape, without_solution. simpl.
    split; [reflexivity|]. split; [reflexivity|]. right. right.
    repeat split; auto.
Qed.

Lemma solve_shape (c : optimizer_class) (e : engine) (d : data) :
  solved_shape (snd (Factory.solve c e d)).
Proof. rewrite TotalFacts.snd_solve. apply finish_shape. Qed.

(** *** The verifier on an accepted payload *)

Lemma zeroed_keys {V : Type} (rd : dict V) :
  keys (map (fun '(r_name, _) => (r_name, 0%Q)) rd) = keys rd.
Proof.
  unfold keys. rewrite map_map. apply map_ext. intros [n v]. reflexivity.
Qed.

Lemma accumulate_usage_returns (rd : dict resource)
    (tbl : dict (dict (option Q))) (plan : dict Q) :
  table_ok (fun r => In r (keys rd)) tbl ->
  table_in_range tbl ->
  forall calc0,
    (forall r, In r (keys calc0) <-> In r (keys rd)) ->
    exists calc,
      accumulate_usage tbl plan calc0 = Ret calc /\
      (forall r, In r (keys calc) <-> In r (keys rd)).
Proof.
  intros Htbl Hin_range calc0 H0. unfold accumulate_usage.
  apply (for_each_returns
           (fun calc : dict Q => forall r, In r (keys calc) <-> In r (keys rd)));
    [|exact H0].
  intros [product quantity] calc _ Hcalc.
  destruct (dict_get product tbl) as [row|] eqn:Erow; [|eauto].
  apply (for_each_returns
           (fun calc : dict Q => forall r, In r (keys calc) <-> In r (keys rd)));
    [|exact Hcalc].
  intros [resource usage] c Hin Hc.
  destruct (Htbl _ _ _ _ (dict_get_entry _ _ _ Erow) Hin) as ((q & ->) & Hr).
  apply Hc in Hr. apply dict_get_keys in Hr. destruct Hr as (old & Hold).
  rewrite Hold. unfold mul.
  rewrite (float_in_range q (Hin_range _ _ _ _ (dict_get_entry _ _ _ Erow) Hin)).
  simpl. eexists. split; [reflexivity|].
  intro r. rewrite dict_set_keys_In, Hc. split; [|auto].
  intros [->|H]; [|exact H]. apply Hc. apply dict_get_keys. eauto.
Qed.

Lemma check_resources_returns (rd : dict resource) (u : dict utilization)
    (calc : dict Q) (warnings : list warning) :
  (forall n r, In (n, r) rd -> resource_ok r) ->
  (forall n r, In (n, r) rd -> in_float_range (available_capacity r)) ->
  (forall r, In r (keys calc) -> In r (keys rd)) ->
  exists warnings', check_resources rd (Some u) calc warnings = Ret warnings'.
Proof.
  intros Hrd Hcap Hk. unfold check_resources. loop_returns; [|eauto].
  intros [resource usage] ws Hin _. cbn [get bind].
  assert (Hr : In resource (keys rd))
    by (apply Hk; apply (in_map fst) in Hin; exact Hin).
  apply dict_get_keys in Hr. destruct Hr as (r & Hr). rewrite Hr. cbn [get bind].
  destruct (Hrd _ _ (dict_get_entry _ _ _ Hr)) as (_ & (c & Hc & _)).
  pose proof (Hcap _ _ (dict_get_entry _ _ _ Hr) c Hc) as Hc_range.
  rewrite Hc. unfold add. cbn [subscript bind].
  rewrite (float_in_range c Hc_range). cbn [bind].
  match goal with |- context [if ?b then _ else _] => destruct b end; eauto.
Qed.

Lemma check_plan_demand_returns (ps : list product)
    (dcs : dict demand_constraint) (entry : string * Q)
    (warnings : list warning) :
  (forall n dc, In (n, dc) dcs -> demand_ok ps dc) ->
  (forall n dc, In (n, dc) dcs ->
                in_float_range (min_demand dc) /\
                in_float_range (max_demand dc)) ->
  exists warnings', check_plan_demand dcs entry warnings = Ret warnings'.
Proof.
  intros Hdcs Hrange. unfold check_plan_demand.
  destruct entry as [product quantity].
  destruct (dict_get product dcs) as [dc|] eqn:E; [|eauto].
  destruct (Hdcs _ _ (dict_get_entry _ _ _ E)) as (_ & Hlo & Hhi & _).
  destruct (Hrange _ _ (dict_get_entry _ _ _ E)) as (Rlo & Rhi).
  destruct Hlo as [Hlo|(lo & Hlo & _)]; rewrite Hlo in *;
    destruct Hhi as [Hhi|(hi & Hhi & _)]; rewrite Hhi in *;
    unfold add, sub; cbn [has subscript bind];
    rewrite ?(float_in_range lo (Rlo lo eq_refl));
    rewrite ?(float_in_range hi (Rhi hi eq_refl));
    cbn [bind]; eauto.
Qed.

Lemma check_plan_total_returns (tc : total_constraints_t) (plan : dict Q)
    (warnings : list warning) :
  in_float_range (min_total tc) -> in_float_range (max_total tc) ->
  exists warnings', check_plan_total tc plan warnings = Ret warnings'.
Proof.
  intros Rlo Rhi. unfold check_plan_total, add, sub.
  destruct (min_total tc) as [| |lo]; destruct (max_total tc) as [| |hi];
    rewrite ?(float_in_range lo (Rlo lo eq_refl));
    rewrite ?(float_in_range hi (Rhi hi eq_refl));
    cbn [bind]; eauto.
Qed.

(** On an accepted moderate payload and a result that carries a plan, the
    verifier returns. *)
Lemma verifier_returns (d : data) (r : result) :
  accepted d ->
  moderate d ->
  r_status r = "optimal" ->
  with_solution r ->
  exists warnings,
    validate_solution_feasibility r d = Ret (is_empty warnings, warnings).
Proof.
  intros Hacc Hmod Hst (_ & (plan & Hplan) & (u & Hu) & _).
  destruct (_extract_common_data_returns d Hacc)
    as (obj & ps & rs & rus & pd & rd & tbl & Eo & Ep & Er & Eu & Epd & Erd
        & Et & Eex & Hpd & Hrd & Htbl).
  destruct (_extract_common_data_moderate d rs rus rd tbl Hmod Er Eu Erd Et)
    as (Hcap & Hin_range).
  unfold validate_solution_feasibility.
  rewrite Hst, Hplan, Er, Eu, Hu. cbn [String.eqb Ascii.eqb Bool.eqb negb get bind].
  rewrite Erd. cbn [bind]. rewrite Et. cbn [bind].
  destruct (accumulate_usage_returns rd tbl plan Htbl Hin_range
              (map (fun '(r_name, _) => (r_name, 0%Q)) rd))
    as (calc & Ec & Hk).
  { intro n. rewrite zeroed_keys. reflexivity. }
  rewrite Ec. cbn [bind].
  destruct (check_resources_returns rd u calc (check_small plan []) Hrd Hcap)
    as (w1 & E1); [intros n Hn; apply Hk; exact Hn|].
  rewrite E1. cbn [bind].
  assert (Hdem : exists w2,
             match demand_constraints d with
             | Some rows =>
                 dcs <- index_by "product_name" dc_product_name rows ;;
                 for_each (check_plan_demand dcs) plan w1
             | None => Ret w1
             end = Ret w2).
  { destruct Hacc as (obj' & ps' & _ & _ & _ & Ep' & _ & _ & _ & _ & _ & _ & _
                      & Hdcs & _).
    destruct Hmod as (_ & _ & Hdem & _).
    destruct (demand_constraints d) as [rows|]; [|eauto].
    specialize (Hdcs rows eq_refl). specialize (Hdem rows).
    destruct (index_by_returns "product_name" dc_product_name rows)
      as (dcs & E & _ & Hv).
    { apply (declared_named _ (demand_ok ps')); [|exact Hdcs].
      intros row ((n & Hn & _) & _). exists n. exact Hn. }
    rewrite E. cbn [bind]. loop_returns; [|eauto].
    intros entry ws _ _.
    destruct (check_plan_demand_returns ps' dcs entry ws) as (w & Ew);
      [| |rewrite Ew; eauto].
    - intros n dc Hin. rewrite Forall_forall in Hdcs. apply Hdcs.
      apply (Hv n dc Hin).
    - intros n dc Hin. apply Hdem; [reflexivity|]. apply (Hv n dc Hin). }
  destruct Hdem as (w2 & E2). rewrite E2. cbn [bind].
  assert (Htot : exists w3,
             match total_constraints d with
             | Some tc => if truthy tc then check_plan_total tc plan w2
                          else Ret w2
             | None => Ret w2
             end = Ret w3).
  { destruct Hmod as (_ & _ & _ & Htot & _). unfold totals_in_range in Htot.
    destruct (total_constraints d) as [tc|]; [|eauto].
    destruct (truthy tc); [|eauto].
    destruct (Htot tc eq_refl) as (Rlo & Rhi).
    exact (check_plan_total_returns tc plan w2 Rlo Rhi). }
  destruct Htot as (w3 & E3). rewrite E3. cbn [bind].
  eexists. reflexivity.
Qed.

(** *** What the validator can raise *)

Lemma for_each_raises {A S : Type} (P : exn -> Prop) (body : A -> S -> res S)
    (xs : list A) :
  (forall a s ex, body a s = Raise ex -> P ex) ->
  forall st ex, for_each body xs st = Raise ex -> P ex.
Proof.
  intro Hbody. induction xs as [|a xs IH]; intros st ex; simpl; [discriminate|].
  destruct (body a st) as [s1|ex1] eqn:E; simpl.
  - apply IH.
  - intro H; inversion H; subst. exact (Hbody _ _ _ E).
Qed.

Lemma check_nonneg_raises (key : string) (f : field) (missing : error)
    (negative : Q -> error) (e : list error) (ex : exn) :
  check_nonneg key f missing negative e = Raise ex -> lookup_or_type_error ex.
Proof.
  unfold check_nonneg. destruct f; simpl; intro H; inversion H; exact I.
Qed.

Lemma check_demand_bound_raises (key : string) (f : field)
    (name : option string) (negative : string -> Q -> error)
    (e : list error) (ex : exn) :
  check_demand_bound key f name negative e = Raise ex ->
  lookup_or_type_error ex.
Proof.
  unfold check_demand_bound. destruct f as [| |q]; simpl;
    try (intro H; inversion H; exact I).
  destruct (Qltb q 0); simpl; [|discriminate].
  destruct name; simpl; intro H; inversion H; exact I.
Qed.

Lemma has_resource_usage_raises (n : string) (rows : list usage_row)
    (ex : exn) :
  has_resource_usage n rows = Raise ex -> lookup_or_type_error ex.
Proof.
  induction rows as [|ru rows IH]; simpl; [discriminate|].
  destruct (ru_product_name ru) as [m|]; simpl.
  - destruct (String.eqb m n); [discriminate|exact IH].
  - intro H; inversion H; exact I.
Qed.

(** The validator raises nothing but [KeyError] and [TypeError]. *)
Lemma validator_raises (d : data) (ex : exn) :
  validate_optimization_input d = Raise ex -> lookup_or_type_error ex.
Proof.
  unfold validate_optimization_input.
  destruct (negb (is_empty (missing_fields d))); [discriminate|].
  destruct (get "objective" (objective d)) as [obj|] eqn:Eo; cbn [bind];
    [|destruct (objective d); inversion Eo; intro H; inversion H; exact I].
  destruct (get "products" (products d)) as [ps|] eqn:Ep; cbn [bind];
    [|destruct (products d); inversion Ep; intro H; inversion H; exact I].
  match goal with |- context [for_each check_product ps ?st] =>
    destruct (for_each check_product ps st) as [[e1 pn]|ex1] eqn:E1 end;
    cbn [bind].
  2:{ intro H; inversion H; subst. revert E1. apply for_each_raises.
      intros p [e ns] ex0. unfold check_product.
      destruct (p_name p); [|discriminate].
      destruct (check_nonneg "profit_per_unit" _ _ _ e) eqn:C1; simpl.
      - destruct (check_nonneg "cost_per_unit" _ _ _ _) eqn:C2; simpl;
          [discriminate|].
        intro H0; inversion H0; subst. exact (check_nonneg_raises _ _ _ _ _ _ C2).
      - intro H0; inversion H0; subst. exact (check_nonneg_raises _ _ _ _ _ _ C1). }
  destruct (get "resources" (resources d)) as [rs|] eqn:Er; cbn [bind];
    [|destruct (resources d); inversion Er; intro H; inversion H; exact I].
  destruct (for_each check_resource rs (e1, [])) as [[e2 rn]|ex2] eqn:E2;
    cbn [bind].
  2:{ intro H; inversion H; subst. revert E2. apply for_each_raises.
      intros r [e ns] ex0. unfold check_resource.
      destruct (r_name r); [|discriminate].
      destruct (check_nonneg "available_capacity" _ _ _ e) eqn:C1; simpl;
        [discriminate|].
      intro H0; inversion H0; subst. exact (check_nonneg_raises _ _ _ _ _ _ C1). }
  destruct (get "resource_usage" (resource_usage d)) as [rus|] eqn:Eu;
    cbn [bind];
    [|destruct (resource_usage d); inversion Eu; intro H; inversion H; exact I].
  destruct (for_each (check_usage pn rn) rus e2) as [e3|ex3] eqn:E3; cbn [bind].
  2:{ intro H; inversion H; subst. revert E3. apply for_each_raises.
      intros ru e ex0. unfold check_usage.
      destruct (usage_per_unit ru) as [| |q]; simpl;
        try (intro H0; inversion H0; exact I).
      destruct (Qltb q 0); simpl; [|discriminate].
      destruct (ru_product_name ru); simpl;
        [|intro H0; inversion H0; exact I].
      destruct (ru_resource_name ru); simpl;
        [destruct (mem _ pn); destruct (mem _ rn); discriminate
        |intro H0; inversion H0; exact I]. }
  destruct (for_each (check_has_usage rus) pn e3) as [e4|ex4] eqn:E4; cbn [bind].
  2:{ intro H; inversion H; subst. revert E4. apply for_each_raises.
      intros n e ex0. unfold check_has_usage.
      destruct (has_resource_usage n rus) eqn:Eh; simpl; [discriminate|].
      intro H0; inversion H0; subst. exact (has_resource_usage_raises _ _ _ Eh). }
  destruct (demand_constraints d) as [dcs|]; cbn [bind]; [|discriminate].
  destruct (for_each (check_demand pn) dcs e4) as [e5|ex5] eqn:E5; cbn [bind];
    [discriminate|].
  intro H; inversion H; subst. revert E5. apply for_each_raises.
  intros dc e ex0. unfold check_demand.
  match goal with |- context [check_demand_bound "min_demand" ?f ?n ?g ?e0] =>
    destruct (check_demand_bound "min_demand" f n g e0) as [e1'|] eqn:C1 end;
    cbn [bind];
    [|intro H0; inversion H0; subst;
      exact (check_demand_bound_raises _ _ _ _ _ _ C1)].
  destruct (check_demand_bound "max_demand" _ _ _ e1') as [e2'|] eqn:C2;
    cbn [bind];
    [|intro H0; inversion H0; subst;
      exact (check_demand_bound_raises _ _ _ _ _ _ C2)].
  destruct (min_demand dc) as [| |lo]; destruct (max_demand dc) as [| |hi];
    simpl; try discriminate; try (intro H0; inversion H0; exact I).
  destruct (Qltb hi lo); simpl; [|discriminate].
  destruct (dc_product_name dc); simpl; [discriminate|].
  intro H0; inversion H0; exact I.
Qed.

(** *** What the verifier can raise *)

Ltac raised :=
  let H := fresh "H" in
  intro H; inversion H; subst; exact I.

Lemma arith_raises (op : option Q -> Q -> res Q) (u : option Q) (q : Q)
    (ex : exn) :
  op = mul \/ op = add \/ op = sub ->
  op u q = Raise ex -> uncaught ex.
Proof.
  intros [-> | [-> | ->]]; destruct u as [a|]; simpl; try raised;
    destruct (float a) as [a'|ex'] eqn:F; cbn [bind]; try discriminate;
    apply float_Raise in F; destruct F as [-> _]; raised.
Qed.

Lemma index_by_raises {A : Type} (key : string) (name : A -> option string)
    (rows : list A) (ex : exn) :
  index_by key name rows = Raise ex -> uncaught ex.
Proof.
  unfold index_by. apply for_each_raises.
  intros a s ex0. destruct (name a); simpl; [discriminate|raised].
Qed.

Lemma usage_table_raises (rows : list usage_row) (ex : exn) :
  usage_table rows = Raise ex -> uncaught ex.
Proof.
  unfold usage_table. apply for_each_raises.
  intros ru tbl ex0.
  destruct (ru_product_name ru) as [p|]; cbn [get bind]; [|raised].
  destruct (ru_resource_name ru) as [r|]; cbn [get bind]; [|raised].
  cbv zeta.
  destruct (usage_per_unit ru); cbn [subscript bind]; try raised;
    match goal with |- context [dict_get p ?t] =>
      destruct (dict_get p t); cbn [get bind] end;
    try discriminate; raised.
Qed.

Lemma accumulate_usage_raises (tbl : dict (dict (option Q))) (plan : dict Q)
    (calc : dict Q) (ex : exn) :
  accumulate_usage tbl plan calc = Raise ex -> uncaught ex.
Proof.
  unfold accumulate_usage. apply for_each_raises.
  intros [product quantity] c ex0.
  destruct (dict_get product tbl) as [row|]; [|discriminate].
  apply for_each_raises.
  intros [resource usage] c1 ex1.
  destruct (dict_get resource c1) as [old|]; cbn [get bind]; [|raised].
  destruct (mul usage quantity) as [inc|ex2] eqn:M; cbn [bind];
    [discriminate|].
  intro H; inversion H; subst.
  apply (arith_raises mul usage quantity); auto.
Qed.

Lemma check_resources_raises (rs : dict resource)
    (reported : option (dict utilization)) (calc : dict Q)
    (warnings : list warning) (ex : exn) :
  check_resources rs reported calc warnings = Raise ex -> uncaught ex.
Proof.
  unfold check_resources. apply for_each_raises.
  intros [resource usage] ws ex0.
  destruct reported as [u|]; cbn [get bind]; [|raised].
  destruct (dict_get resource rs) as [r|]; cbn [get bind]; [|raised].
  destruct (subscript "available_capacity" (available_capacity r))
    as [capacity|] eqn:S; cbn [bind].
  2:{ destruct (available_capacity r); simpl in S; try discriminate.
      inversion S; subst. raised. }
  destruct (add capacity epsilon) as [limit|ex1] eqn:M; cbn [bind].
  - destruct (Qltb limit usage); [destruct capacity|]; discriminate.
  - intro H; inversion H; subst.
    apply (arith_raises add capacity epsilon); auto.
Qed.

Lemma check_plan_demand_raises (dcs : dict demand_constraint)
    (entry : string * Q) (warnings : list warning) (ex : exn) :
  check_plan_demand dcs entry warnings = Raise ex -> uncaught ex.
Proof.
  unfold check_plan_demand. destruct entry as [product quantity].
  destruct (dict_get product dcs) as [dc|]; [|discriminate].
  assert (Hlo : forall ex0,
             (lo <- subscript "min_demand" (min_demand dc) ;;
              limit <- sub lo epsilon ;;
              match lo with
              | Some l => Ret (if Qltb quantity limit
                               then warnings ++
                                    [Min_demand_violated product quantity l]
                               else warnings)
              | None => Ret warnings
              end) = Raise ex0 -> uncaught ex0).
  { intro ex0. destruct (min_demand dc) as [| |lo]; cbn [subscript bind];
      try raised.
    destruct (sub (Some lo) epsilon) as [limit|ex1] eqn:M; cbn [bind];
      [discriminate|].
    intro H; inversion H; subst.
    apply (arith_raises sub (Some lo) epsilon); auto. }
  assert (Hhi : forall ws ex0,
             (hi <- subscript "max_demand" (max_demand dc) ;;
              limit <- add hi epsilon ;;
              match hi with
              | Some h => Ret (if Qltb limit quantity
                               then ws ++
                                    [Max_demand_violated product quantity h]
                               else ws)
              | None => Ret ws
              end) = Raise ex0 -> uncaught ex0).
  { intros ws ex0. destruct (max_demand dc) as [| |hi]; cbn [subscript bind];
      try raised.
    destruct (add (Some hi) epsilon) as [limit|ex1] eqn:M; cbn [bind];
      [discriminate|].
    intro H; inversion H; subst.
    apply (arith_raises add (Some hi) epsilon); auto. }
  destruct (has (min_demand dc)).
  - match goal with |- bind ?f _ = _ -> _ =>
      destruct f as [ws|ex1] eqn:E1; cbn [bind] end.
    + destruct (has (max_demand dc)); [apply Hhi|discriminate].
    + intro H; inversion H; subst. exact (Hlo _ eq_refl).
  - cbn [bind]. destruct (has (max_demand dc)); [apply Hhi|discriminate].
Qed.

Lemma check_plan_total_raises (tc : total_constraints_t) (plan : dict Q)
    (warnings : list warning) (ex : exn) :
  check_plan_total tc plan warnings = Raise ex -> uncaught ex.
Proof.
  unfold check_plan_total. cbv zeta.
  destruct (min_total tc) as [| |lo]; cbn [bind].
  3:{ destruct (sub (Some lo) epsilon) as [limit|ex1] eqn:M; cbn [bind].
      2:{ intro H; inversion H; subst.
          apply (arith_raises sub (Some lo) epsilon); auto. }
      destruct (max_total tc) as [| |hi]; try discriminate.
      destruct (add (Some hi) epsilon) as [limit'|ex1] eqn:M'; cbn [bind];
        [discriminate|].
      intro H; inversion H; subst.
      apply (arith_raises add (Some hi) epsilon); auto. }
  all: destruct (max_total tc) as [| |hi]; try discriminate;
    destruct (add (Some hi) epsilon) as [limit'|ex1] eqn:M'; cbn [bind];
    [discriminate|];
    intro H; inversion H; subst;
    apply (arith_raises add (Some hi) epsilon); auto.
Qed.

(** The verifier never raises a [ValueError]: what it raises goes through
    [optimize] unchanged. *)
Lemma verifier_raises (r : result) (d : data) (ex : exn) :
  validate_solution_feasibility r d = Raise ex -> uncaught ex.
Proof.
  unfold validate_solution_feasibility.
  destruct (negb (String.eqb (r_status r) "optimal")); [discriminate|].
  destruct (production_plan r) as [plan|]; cbn [get bind]; [|raised].
  destruct (resources d) as [rows|]; cbn [get bind]; [|raised].
  destruct (index_by "name" r_name rows) as [rs|ex1] eqn:E1; cbn [bind].
  2:{ intro H; inversion H; subst. exact (index_by_raises _ _ _ _ E1). }
  destruct (resource_usage d) as [rus|]; cbn [get bind]; [|raised].
  destruct (usage_table rus) as [tbl|ex2] eqn:E2; cbn [bind].
  2:{ intro H; inversion H; subst. exact (usage_table_raises _ _ E2). }
  destruct (accumulate_usage tbl plan _) as [calc|ex3] eqn:E3; cbn [bind].
  2:{ intro H; inversion H; subst. exact (accumulate_usage_raises _ _ _ _ E3). }
  destruct (check_resources rs (resource_utilization r) calc _)
    as [w1|ex4] eqn:E4; cbn [bind].
  2:{ intro H; inversion H; subst. exact (check_resources_raises _ _ _ _ _ E4). }
  match goal with |- bind ?f _ = _ -> _ =>
    destruct f as [w2|ex5] eqn:E5; cbn [bind] end.
  2:{ intro H; inversion H; subst.
      destruct (demand_constraints d) as [dcs|]; [|discriminate].
      destruct (index_by "product_name" dc_product_name dcs) as [ix|ex6] eqn:E6;
        cbn [bind] in E5.
      - revert E5. apply for_each_raises.
        intros entry ws ex0. apply check_plan_demand_raises.
      - inversion E5; subst. exact (index_by_raises _ _ _ _ E6). }
  match goal with |- bind ?f _ = _ -> _ =>
    destruct f as [w3|ex7] eqn:E7; cbn [bind] end; [discriminate|].
  intro H; inversion H; subst.
  destruct (total_constraints d) as [tc|]; [|discriminate].
  destruct (truthy tc); [|discriminate].
  exact (check_plan_total_raises _ _ _ _ E7).
Qed.

(** *** The envelope and the HTTP status *)

Lemma plain_error_envelope (msg : message) :
  envelope (plain_result "error" msg).
Proof.
  right. split; [reflexivity|]. right. right. right.
  unfold without_solution. simpl. repeat split; auto.
Qed.

Lemma check_feasibility_envelope (r0 r : result) (d : data) :
  solved_shape r0 ->
  check_feasibility r0 d = Ret r ->
  envelope r.
Proof.
  intros (Hw & Hv & Hshape) Hc.
  assert (Hkeep : r = r0 -> envelope r).
  { intros ->. right. split; [exact Hv|].
    destruct Hshape as [(Hs & Hsol & Hi)|[(Hs & Hno & Hi)|(Hs & Hno & Hi)]];
      auto 8. }
  destruct (String.eqb_spec (r_status r0) "optimal") as [Hst|Hst].
  - destruct (validate_solution_feasibility r0 d) as [[ok ws]|ex] eqn:Ev.
    + rewrite (FactoryFacts.check_feasibility_downgrades r0 d ok ws Hst Ev) in Hc.
      inversion Hc; subst. destruct ws as [|w ws]; [auto|].
      destruct Hshape as [(_ & Hsol & Hi)|[(Hs & _)|([Hs|Hs] & _)]];
        try (rewrite Hst in Hs; discriminate).
      right. split; [exact Hv|]. right. left.
      split; [reflexivity|]. split; [exact Hsol|]. split; [exact Hi|].
      exists (w :: ws). split; [reflexivity|discriminate].
    + unfold check_feasibility in Hc. rewrite Hst, Ev in Hc. discriminate.
  - unfold check_feasibility in Hc.
    destruct (String.eqb_spec (r_status r0) "optimal"); [contradiction|].
    inversion Hc; subst. auto.
Qed.

(** Whatever [optimize] returns has one of six statuses, and each status
    comes with its own keys: the solution keys with ["optimal"] and
    ["solution_warning"] only, [feasibility_warnings] (never empty) with
    ["solution_warning"] only, [infeasible_constraints] with ["infeasible"]
    only, [validation_errors] (never empty) with ["validation_error"] only. *)
Theorem optimize_envelope (reg : registry) (e : engine)
    (optimizer_type : string) (d : data) (r : result) :
  snd (optimize reg e optimizer_type d) = Ret r -> envelope r.
Proof.
  unfold optimize, optimize_body.
  destruct (validate_optimization_input d) as [[ok errs]|ex] eqn:Ev; simpl.
  - destruct ok; simpl.
    + destruct (get_optimizer reg optimizer_type) as [c|ex]; simpl.
      * pose proof (solve_shape c e d) as Hs.
        destruct (Factory.solve c e d) as [evs r0]. simpl in *.
        destruct (check_feasibility r0 d) as [r1|ex] eqn:Ec.
        -- intro H; inversion H; subst.
           exact (check_feasibility_envelope _ _ _ Hs Ec).
        -- destruct ex; intro H; inversion H; subst.
           apply plain_error_envelope.
      * destruct ex; intro H; inversion H; subst. apply plain_error_envelope.
    + intro H; inversion H; subst. left.
      unfold without_solution. simpl. repeat split; auto.
      exists errs. split; [reflexivity|].
      pose proof (ValidationFacts.validate_optimization_input_flag _ _ _ Ev).
      destruct errs; [discriminate|discriminate].
  - destruct ex; intro H; inversion H; subst. apply plain_error_envelope.
Qed.

Lemma optimize_envelope_witness :
  envelope
    {| r_status := "solution_warning";
       solver_message := Text "Optimal solution found";
       objective_value := Some 10%Q;
       production_plan := Some [("A", 10%Q)];
       resource_utilization :=
         Some [("R", {| used := 1 * 10 + 0; available := 10;
                        utilization_pct := (1 * 10 + 0) / 10 * 100 |})];
       total_production := Some (0 + 10)%Q;
       feasibility_warnings := Some [Min_demand_violated "A" 10 20];
       infeasible_constraints := None;
       validation_errors := None |}.
Proof.
  apply (optimize_envelope _optimizers (answer OPTIMAL 10 (fun _ => false))
           "basic" (one_product 10 (Some [at_least 20]))).
  vm_compute. reflexivity.
Defined.

Lemma solved_status (r : result) :
  solved_shape r -> r_status r <> "validation_error".
Proof.
  intros (_ & _ & [(Hs & _)|[(Hs & _)|([Hs|Hs] & _)]]); rewrite Hs;
    discriminate.
Qed.

(** What [optimize] lets out on an accepted payload is never a
    ["validation_error"]. *)
Lemma optimize_after_acceptance (reg : registry) (e : engine)
    (optimizer_type : string) (d : data) (errors : list error) (r : result) :
  validate_optimization_input d = Ret (true, errors) ->
  snd (optimize reg e optimizer_type d) = Ret r ->
  r_status r <> "validation_error".
Proof.
  intro Ev. unfold optimize, optimize_body. rewrite Ev. cbn [negb].
  unfold get_optimizer.
  destruct (dict_get optimizer_type reg) as [c|]; simpl.
  2:{ intro H; inversion H; subst. discriminate. }
  pose proof (solve_shape c e d) as Hs.
  destruct (Factory.solve c e d) as [evs r0]. simpl in *.
  destruct (check_feasibility r0 d) as [r1|ex] eqn:Ec.
  - intro H; inversion H; subst r1. revert Ec. unfold check_feasibility.
    destruct (String.eqb_spec (r_status r0) "optimal") as [Hst|Hst].
    + destruct (validate_solution_feasibility r0 d) as [[ok ws]|]; cbn [bind];
        [|discriminate].
      destruct ok; cbn [negb].
      * destruct (negb (is_empty ws)); intro H0; inversion H0; subst; simpl;
          rewrite Hst; discriminate.
      * intro H0; inversion H0; subst; simpl. discriminate.
    + intro H0; inversion H0; subst. apply solved_status; exact Hs.
  - destruct ex; intro H; inversion H; subst. discriminate.
Qed.

Lemma optimize_on_accepted (reg : registry) (e : engine)
    (optimizer_type : string) (d : data) :
  accepted d ->
  moderate d ->
  exists r, snd (optimize reg e optimizer_type d) = Ret r /\
            r_status r <> "validation_error".
Proof.
  intros Hacc Hmod. unfold optimize, optimize_body.
  rewrite (AcceptanceFacts.validator_complete d Hacc). cbn [negb].
  unfold get_optimizer.
  destruct (dict_get optimizer_type reg) as [c|]; simpl.
  2:{ eexists. split; [reflexivity|discriminate]. }
  pose proof (solve_shape c e d) as Hs.
  destruct (Factory.solve c e d) as [evs r0]. simpl in *.
  destruct (String.eqb_spec (r_status r0) "optimal") as [Hst|Hst].
  - assert (Hsol : with_solution r0).
    { destruct Hs as (_ & _ & [(_ & Hsol & _)|[(Hs & _)|([Hs|Hs] & _)]]);
        [exact Hsol| | |]; rewrite Hst in Hs; discriminate. }
    destruct (verifier_returns d r0 Hacc Hmod Hst Hsol) as (ws & Ev).
    rewrite (FactoryFacts.check_feasibility_downgrades r0 d _ ws Hst Ev).
    eexists. split; [reflexivity|].
    destruct ws; simpl; [rewrite Hst|]; discriminate.
  - unfold check_feasibility.
    destruct (String.eqb_spec (r_status r0) "optimal"); [contradiction|].
    exists r0. split; [reflexivity|apply solved_status; exact Hs].
Qed.

(** The HTTP status of [POST /optimize/<optimizer_type>], whichever
    optimiser is named and whatever the engine does: 400 exactly when the
    validator rejects the payload; 500 when the validator raises; 200 only
    when the validator accepts the payload. An accepted payload is answered
    200 or 500, and 200 when it is moderate (its capacities, usages and
    bounds convert to floats): for moderate payloads the validator alone
    decides the status. *)
Theorem post_status_code (reg : registry) (e : engine)
    (optimizer_type : string) (d : data) :
  (snd (post reg e optimizer_type d) = 400 <->
   exists errors, validate_optimization_input d = Ret (false, errors)) /\
  ((exists ex, validate_optimization_input d = Raise ex) ->
   snd (post reg e optimizer_type d) = 500) /\
  (snd (post reg e optimizer_type d) = 200 ->
   exists errors, validate_optimization_input d = Ret (true, errors)) /\
  ((exists errors, validate_optimization_input d = Ret (true, errors)) ->
   snd (post reg e optimizer_type d) = 200 \/
   snd (post reg e optimizer_type d) = 500) /\
  (moderate d ->
   (snd (post reg e optimizer_type d) = 200 <->
    exists errors, validate_optimization_input d = Ret (true, errors)) /\
   (snd (post reg e optimizer_type d) = 500 <->
    exists ex, validate_optimization_input d = Raise ex)).
Proof.
  destruct (validate_optimization_input d) as [[[|] errs]|ex] eqn:Ev.
  - assert (Hpost : snd (post reg e optimizer_type d) = 200 \/
                    snd (post reg e optimizer_type d) = 500).
    { pose proof (optimize_after_acceptance reg e optimizer_type d errs) as Hr.
      unfold post.
      destruct (snd (optimize reg e optimizer_type d)) as [r|ex]; [|auto].
      specialize (Hr r Ev eq_refl).
      destruct (String.eqb_spec (r_status r) "validation_error");
        [contradiction|auto]. }
    split; [split; [|intros (x & Hx); discriminate]|].
    { intro H. rewrite H in Hpost. destruct Hpost; discriminate. }
    split; [intros (x & Hx); discriminate|].
    split; [eauto|]. split; [intros _; exact Hpost|].
    intro Hmod.
    destruct (AcceptanceFacts.validator_sound d errs Ev) as (-> & Hacc).
    destruct (optimize_on_accepted reg e optimizer_type d Hacc Hmod)
      as (r & Er & Hr).
    assert (H200 : snd (post reg e optimizer_type d) = 200).
    { unfold post. rewrite Er.
      destruct (String.eqb_spec (r_status r) "validation_error");
        [contradiction|reflexivity]. }
    rewrite H200. repeat split; try discriminate; eauto;
      intros (x & Hx); discriminate.
  - assert (Hpost : snd (post reg e optimizer_type d) = 400).
    { unfold post, optimize, optimize_body. rewrite Ev. reflexivity. }
    rewrite Hpost. repeat split; try discriminate; eauto;
      intros (x & Hx); discriminate.
  - assert (Hpost : snd (post reg e optimizer_type d) = 500).
    { pose proof (validator_raises d ex Ev) as Hk.
      unfold post, optimize, optimize_body. rewrite Ev.
      destruct ex; try contradiction; reflexivity. }
    rewrite Hpost. repeat split; try discriminate; eauto;
      intros (x & Hx); discriminate.
Qed.

(** A moderate payload that the validator accepts is answered 200, also
    under an identifier that names no optimiser. *)
Lemma post_status_code_witness :
  moderate (one_product 10 (Some [at_least 3])) /\
  snd (post _optimizers (answer OPTIMAL 10 (fun _ => false)) "no-such-optimizer"
         (one_product 10 (Some [at_least 3]))) = 200.
Proof.
  assert (Hmod : moderate (one_product 10 (Some [at_least 3])))
    by moderate_payload.
  split; [exact Hmod|].
  apply (proj2 (proj1 (proj2 (proj2 (proj2 (proj2
           (post_status_code _optimizers (answer OPTIMAL 10 (fun _ => false))
              "no-such-optimizer" (one_product 10 (Some [at_least 3]))))))
           Hmod))).
  eexists. vm_compute. reflexivity.
Defined.

(** A payload that is not moderate: the validator accepts a demand ceiling
    of ten to the 400, the engine finds the optimum, and the verifier's
    [dc['max_demand'] + epsilon] raises [OverflowError], which [optimize]
    lets through: the answer is 500. *)
Example post_after_overflow :
  let d := one_product 10 (Some [at_most huge]) in
  let e := answer OPTIMAL 10 (fun _ => false) in
  validate_optimization_input d = Ret (true, []) /\
  snd (optimize _optimizers e "demand-constrained" d) = Raise OverflowError /\
  post _optimizers e "demand-constrained" d =
    (plain_result "error" (str OverflowError), 500).
Proof. vm_compute. repeat split. Qed.

(** For a moderate payload (capacities, usages and bounds that convert to
    floats) that the validator accepts, [solve] reports what the engine says
    about the model it built: an ["error"] result can only come from the
    engine (an exception of [optimize], a status other than optimal,
    infeasible, unbounded, or a failing IIS computation), never from the
    payload. *)
Theorem validated_solve_reports_engine (c : optimizer_class) (d : data)
    (errors : list error) :
  validate_optimization_input d = Ret (true, errors) ->
  moderate d ->
  exists m,
    (exists pv rd tbl,
        match c with
        | Factory.BasicProductionOptimizer => BasicProductionOptimizer.build d
        | Factory.DemandConstrainedOptimizer =>
            DemandConstrainedOptimizer.build d
        end = Ret (m, pv, rd, tbl)) /\
    forall e : engine,
      In (Optimized m) (fst (Factory.solve c e d)) /\
      match e m with
      | Raise ex => snd (Factory.solve c e d) = plain_result "error" (str ex)
      | Ret s =>
          (Engine.status s = OPTIMAL ->
           r_status (snd (Factory.solve c e d)) = "optimal") /\
          (Engine.status s = INFEASIBLE ->
           match computeIIS s with
           | Ret _ => r_status (snd (Factory.solve c e d)) = "infeasible"
           | Raise ex =>
               snd (Factory.solve c e d) = plain_result "error" (str ex)
           end) /\
          (Engine.status s = UNBOUNDED ->
           r_status (snd (Factory.solve c e d)) = "unbounded") /\
          (Engine.status s <> OPTIMAL -> Engine.status s <> INFEASIBLE ->
           Engine.status s <> UNBOUNDED ->
           snd (Factory.solve c e d) =
             plain_result "error" (Optimization_status (Engine.status s)))
      end.
Proof.
  intros Hv Hmod.
  destruct (AcceptanceFacts.validator_sound d errors Hv) as (_ & Hacc).
  destruct (_extract_common_data_returns d Hacc)
    as (obj & ps & rs & rus & pd & rd & tbl & _ & _ & Er & Eu & _ & Erd & Et
        & Eex & _ & Hrd & Htbl).
  destruct (_extract_common_data_moderate d rs rus rd tbl Hmod Er Eu Erd Et)
    as (Hcap & Hin_range).
  destruct (builds_on_accepted d Hacc (proj1 (proj2 (proj2 (proj2 Hmod)))))
    as (obj' & pd' & rd' & tbl' & Eex' & (mb & pvb & Eb) & (md & pvd & Ed)).
  rewrite Eex in Eex'. inversion Eex'; subst obj' pd' rd' tbl'. clear Eex'.
  set (b := match c with
            | Factory.BasicProductionOptimizer => BasicProductionOptimizer.build d
            | Factory.DemandConstrainedOptimizer =>
                DemandConstrainedOptimizer.build d
            end).
  assert (Hb : exists m pv, b = Ret (m, pv, rd, tbl))
    by (unfold b; destruct c; eauto).
  destruct Hb as (m & pv & Hb).
  exists m. split; [exists pv, rd, tbl; exact Hb|].
  intro e.
  assert (Hfst : In (Optimized m) (fst (Factory.solve c e d))).
  { destruct c; unfold Factory.solve, BasicProductionOptimizer.solve,
                       DemandConstrainedOptimizer.solve;
      unfold b in Hb; rewrite Hb; simpl; auto. }
  split; [exact Hfst|].
  rewrite TotalFacts.snd_solve. fold b. rewrite Hb.
  unfold finish. cbn [snd bind].
  destruct (e m) as [s|ex]; cbn [bind]; [|reflexivity].
  unfold _prepare_result.
  destruct (_get_resource_utilization_returns _ s rd pv tbl Hrd Hcap Htbl
              Hin_range) as (u & Eu').
  rewrite Eu'. cbn [bind].
  destruct (Z.eqb_spec (Engine.status s) OPTIMAL) as [E1|E1].
  { split; [reflexivity|]. split; [|split]; intros H; try congruence.
    - rewrite E1 in H. discriminate.
    - rewrite E1 in H. discriminate. }
  destruct (Z.eqb_spec (Engine.status s) INFEASIBLE) as [E2|E2].
  { split; [congruence|]. split; [|split].
    - intros _. destruct (computeIIS s); reflexivity.
    - intro H. rewrite E2 in H. discriminate.
    - intros _ H. contradiction. }
  destruct (Z.eqb_spec (Engine.status s) UNBOUNDED) as [E3|E3].
  { split; [congruence|]. split; [congruence|]. split; [reflexivity|].
    intros _ _ H. contradiction. }
  split; [congruence|]. split; [congruence|]. split; [congruence|].
  reflexivity.
Qed.

(** A payload that is not moderate: the validator accepts a floor of ten to
    the 400 on the total, [float(total_constraints['min_total'])] raises
    inside the [try] of [solve], and the answer is an ["error"] that the
    engine never saw. *)
Example solve_after_overflow :
  let d := with_total_floor huge in
  validate_optimization_input d = Ret (true, []) /\
  forall e : engine,
    Factory.solve Factory.BasicProductionOptimizer e d =
      ([Model_created BasicProductionOptimizer.model_name],
       plain_result "error" (str OverflowError)).
Proof.
  split; [vm_compute; reflexivity|].
  intro e. unfold Factory.solve, BasicProductionOptimizer.solve, finish.
  assert (Hb : BasicProductionOptimizer.build (with_total_floor huge)
               = Raise OverflowError) by (vm_compute; reflexivity).
  rewrite Hb. reflexivity.
Qed.

Lemma validated_solve_reports_engine_witness :
  exists m,
    (exists pv rd tbl,
        DemandConstrainedOptimizer.build (one_product 10 (Some [at_least 3]))
        = Ret (m, pv, rd, tbl)) /\
    getVars m = [{| VarName := "produce_A"; LB := 3; UB := Infinity |}].
Proof.
  destruct (validated_solve_reports_engine Factory.DemandConstrainedOptimizer
              (one_product 10 (Some [at_least 3])) [] eq_refl)
    as (m & (pv & rd & tbl & Hb) & _); [moderate_payload|].
  exists m. split; [exists pv, rd, tbl; exact Hb|].
  vm_compute in Hb. inversion Hb. reflexivity.
Defined.

End PipelineFacts.

(** ** The registry *)

Module RegistryFacts.

Import Factory Scenarios.

(** Registering and looking up: the identifier just registered resolves to
    the class given, every other identifier resolves as before, and the
    listing gains the identifier exactly when it is new. *)
Theorem register_then_get (reg : registry) (optimizer_type : string)
    (c : optimizer_class) :
  get_optimizer (register_optimizer reg optimizer_type c) optimizer_type = Ret c /\
  (forall other, other <> optimizer_type ->
     get_optimizer (register_optimizer reg optimizer_type c) other =
     get_optimizer reg other) /\
  list_available_optimizers (register_optimizer reg optimizer_type c) =
    (if mem optimizer_type (list_available_optimizers reg)
     then list_available_optimizers reg
     else list_available_optimizers reg ++ [optimizer_type]).
Proof.
  unfold get_optimizer, register_optimizer, list_available_optimizers.
  split; [rewrite BuilderFacts.dict_get_set_same; reflexivity|].
  split; [|apply TotalFacts.dict_set_keys].
  intros other Hne.
  rewrite BuilderFacts.dict_get_set_other; [reflexivity|].
  intro H. apply Hne. symmetry. exact H.
Qed.

Lemma register_then_get_witness :
  get_optimizer (register_optimizer _optimizers "basic" DemandConstrainedOptimizer)
                "demand-constrained" = Ret DemandConstrainedOptimizer /\
  get_optimizer (register_optimizer _optimizers "basic" DemandConstrainedOptimizer)
                "basic" = Ret DemandConstrainedOptimizer.
Proof.
  destruct (register_then_get _optimizers "basic" DemandConstrainedOptimizer)
    as (Hsame & Hother & _).
  split; [|exact Hsame].
  rewrite (Hother "demand-constrained"); [reflexivity|discriminate].
Defined.

Lemma discover_lookup (found : list optimizer_class) :
  forall (reg : registry) (c : optimizer_class),
    In c found \/
    dict_get (optimizer_type_of (__name__ c)) reg = Some c ->
    dict_get (optimizer_type_of (__name__ c)) (discover_optimizers found reg)
    = Some c.
Proof.
  unfold discover_optimizers.
  induction found as [|a found IH]; intros reg c H; simpl.
  - destruct H as [[]|H]. exact H.
  - apply IH. unfold register_optimizer.
    destruct (string_dec (optimizer_type_of (__name__ a))
                         (optimizer_type_of (__name__ c))) as [E|E].
    + right. assert (a = c) by (destruct a, c; try reflexivity; discriminate).
      subst a. apply BuilderFacts.dict_get_set_same.
    + destruct H as [[->|H]|H]; [contradiction|left; exact H|].
      right. rewrite BuilderFacts.dict_get_set_other; assumption.
Qed.

Lemma discover_untouched (found : list optimizer_class) :
  forall (reg : registry) (t : string),
    (forall c, In c found -> optimizer_type_of (__name__ c) <> t) ->
    dict_get t (discover_optimizers found reg) = dict_get t reg.
Proof.
  unfold discover_optimizers.
  induction found as [|a found IH]; intros reg t H; simpl; [reflexivity|].
  rewrite IH; [|intros c Hc; apply H; right; exact Hc].
  unfold register_optimizer. apply BuilderFacts.dict_get_set_other.
  apply H. left; reflexivity.
Qed.

Lemma discover_keys (found : list optimizer_class) :
  forall (reg : registry) (t : string),
    In t (keys reg) -> In t (keys (discover_optimizers found reg)).
Proof.
  unfold discover_optimizers.
  induction found as [|a found IH]; intros reg t H; simpl; [exact H|].
  apply IH. unfold register_optimizer.
  apply PipelineFacts.dict_set_keys_In. right; exact H.
Qed.

(** Discovery registers every class it finds under the identifier derived
    from its name, keeps every identifier that was listed, and leaves the
    class behind any identifier that is not a derived one as it was. *)
Theorem discover_optimizers_registry (found : list optimizer_class)
    (reg : registry) :
  (forall c, In c found ->
     get_optimizer (discover_optimizers found reg)
                   (optimizer_type_of (__name__ c)) = Ret c) /\
  (forall t, In t (list_available_optimizers reg) ->
     In t (list_available_optimizers (discover_optimizers found reg))) /\
  (forall t, (forall c, In c found -> optimizer_type_of (__name__ c) <> t) ->
     get_optimizer (discover_optimizers found reg) t = get_optimizer reg t).
Proof.
  split; [|split].
  - intros c Hc. unfold get_optimizer.
    rewrite (discover_lookup found reg c (or_introl Hc)). reflexivity.
  - intros t Ht. apply discover_keys. exact Ht.
  - intros t Ht. unfold get_optimizer.
    rewrite (discover_untouched found reg t Ht). reflexivity.
Qed.

(** After import, ['basic'] still names the basic optimiser. *)
Lemma discover_optimizers_registry_witness :
  get_optimizer _optimizers "basic" = Ret BasicProductionOptimizer /\
  get_optimizer _optimizers "basic-production" = Ret BasicProductionOptimizer.
Proof.
  destruct (discover_optimizers_registry
              [BasicProductionOptimizer; BasicProductionOptimizer;
               DemandConstrainedOptimizer]
              (register_optimizer
                 (register_optimizer [] "basic" BasicProductionOptimizer)
                 "demand-constrained" DemandConstrainedOptimizer))
    as (Hfound & _ & Hother).
  split.
  - unfold _optimizers. rewrite (Hother "basic"); [reflexivity|].
    intros c [<-|[<-|[<-|[]]]]; discriminate.
  - apply (Hfound BasicProductionOptimizer). left; reflexivity.
Defined.

(** *** Identifiers derived from class names *)

Lemma lower_not_upper (c : ascii) : isupper (lower c) = false.
Proof.
  unfold lower. destruct (isupper c) eqn:E; [|exact E].
  unfold isupper in *. apply andb_true_iff in E. destruct E as [E1 E2].
  apply Nat.leb_le in E1. apply Nat.leb_le in E2.
  rewrite nat_ascii_embedding by lia.
  apply andb_false_iff. right. apply Nat.leb_gt. lia.
Qed.

Lemma kebab_lowercase (s : string) (c : ascii) :
  In c (list_ascii_of_string (kebab s)) -> isupper c = false.
Proof.
  induction s as [|a s IH]; simpl; [intros []|].
  destruct (isupper a) eqn:E; simpl.
  - intros [<-|[<-|H]]; [reflexivity|apply lower_not_upper|exact (IH H)].
  - intros [<-|H]; [exact E|exact (IH H)].
Qed.

Lemma lstrip_hyphen_suffix (s : string) (c : ascii) :
  In c (list_ascii_of_string (lstrip_hyphen s)) ->
  In c (list_ascii_of_string s).
Proof.
  induction s as [|a s IH]; simpl; [auto|].
  destruct (Ascii.eqb_spec a "-"%char) as [->|Hne].
  - intro H. right. exact (IH H).
  - assert (Hs : lstrip_hyphen (String a s) = String a s).
    { destruct a as [[] [] [] [] [] [] [] []]; try reflexivity.
      exfalso. apply Hne. reflexivity. }
    simpl in Hs. rewrite Hs. auto.
Qed.

Lemma lstrip_hyphen_head (s rest : string) :
  lstrip_hyphen s <> String "-"%char rest.
Proof.
  induction s as [|a s IH]; simpl; [discriminate|].
  destruct a as [[] [] [] [] [] [] [] []]; try (intro H; discriminate).
  exact IH.
Qed.

(** The identifier derived from a class name has no capital letter (of
    A to Z) and does not start with a hyphen. *)
Theorem optimizer_type_of_shape (class_name : string) :
  (forall c, In c (list_ascii_of_string (optimizer_type_of class_name)) ->
             isupper c = false) /\
  (forall rest, optimizer_type_of class_name <> String "-"%char rest).
Proof.
  unfold optimizer_type_of. split.
  - intros c Hc. apply lstrip_hyphen_suffix in Hc.
    exact (kebab_lowercase _ _ Hc).
  - intro rest. apply lstrip_hyphen_head.
Qed.

Lemma optimizer_type_of_shape_witness :
  optimizer_type_of "MultiPeriodOptimizer" = "multi-period" /\
  isupper "m"%char = false.
Proof.
  split; [reflexivity|].
  apply (proj1 (optimizer_type_of_shape "MultiPeriodOptimizer")).
  simpl. auto.
Defined.

End RegistryFacts.

(** ** The model that is handed to the engine *)

Module ModelFacts.

Import Engine Validation Optimizers Contracts Invariants Scenarios
       PipelineFacts.

Lemma for_each_collect {A S B : Type} (P : A -> B -> Prop)
    (body : A -> S -> res S) (out : S -> list B) (xs : list A) :
  (forall a s s', body a s = Ret s' -> exists b, out s' = out s ++ [b] /\ P a b) ->
  forall s s',
    for_each body xs s = Ret s' ->
    exists bs, out s' = out s ++ bs /\ Forall2 P xs bs.
Proof.
  intro Hbody. induction xs as [|a xs IH]; intros s s'; simpl.
  - intro H; inversion H; subst. exists []. rewrite app_nil_r. auto.
  - destruct (body a s) as [s1|] eqn:E; simpl; [|discriminate].
    intro H. destruct (Hbody _ _ _ E) as (b & Hb & HP).
    destruct (IH _ _ H) as (bs & Hbs & Hall).
    exists (b :: bs). split; [|constructor; assumption].
    rewrite Hbs, Hb, <- app_assoc. reflexivity.
Qed.

Lemma for_each_filter {A B : Type} (f : A -> list B)
    (body : A -> list B -> res (list B)) (xs : list A) :
  (forall a s s', body a s = Ret s' -> s' = s ++ f a) ->
  forall s s', for_each body xs s = Ret s' -> s' = s ++ flat_map f xs.
Proof.
  intro Hbody. induction xs as [|a xs IH]; intros s s'; simpl.
  - intro H; inversion H. rewrite app_nil_r. reflexivity.
  - destruct (body a s) as [s1|] eqn:E; simpl; [|discriminate].
    intro H. rewrite (IH _ _ H), (Hbody _ _ _ E), <- app_assoc. reflexivity.
Qed.

Lemma _set_objective_terms (m m' : model) (objective_type : string)
    (pd : dict product) (pv : dict var) :
  _set_objective m objective_type pd pv = Ret m' ->
  getVars m' = getVars m /\ getConstrs m' = getConstrs m /\
  exists terms,
    getObjective m' =
      Some (if String.eqb objective_type "maximize_profit"
            then MAXIMIZE else MINIMIZE, terms) /\
    Forall2 (objective_term (String.eqb objective_type "maximize_profit") pv)
            pd terms.
Proof.
  unfold _set_objective.
  destruct (String.eqb objective_type "maximize_profit");
    match goal with |- context [for_each ?body pd ?st] =>
      destruct (for_each body pd st) as [terms|] eqn:E end;
    simpl; try discriminate; intro H; inversion H; subst; simpl;
    (split; [reflexivity|]); (split; [reflexivity|]);
    exists terms; (split; [reflexivity|]).
  - apply (for_each_collect (objective_term true pv) _ (fun o : LinExpr => o))
      in E; [destruct E as (bs & Hbs & Hall); simpl in Hbs; subst; exact Hall|].
    intros [n p] o o'; unfold objective_term; simpl.
    destruct (profit_per_unit p) as [| |c]; destruct (dict_get n pv) as [v|];
      simpl; try discriminate.
    intro H0; inversion H0. exists (c, v). auto.
  - apply (for_each_collect (objective_term false pv) _ (fun o : LinExpr => o))
      in E; [destruct E as (bs & Hbs & Hall); simpl in Hbs; subst; exact Hall|].
    intros [n p] o o'; unfold objective_term; simpl.
    destruct (cost_per_unit p) as [| |c]; destruct (dict_get n pv) as [v|];
      simpl; try discriminate.
    intro H0; inversion H0. exists (c, v). auto.
Qed.

Lemma _add_resource_constraints_rows (m m' : model) (rd : dict resource)
    (pd : dict product) (pv : dict var) (tbl : dict (dict (option Q))) :
  _add_resource_constraints m rd pd pv tbl = Ret m' ->
  getObjective m' = getObjective m /\
  exists cs,
    getConstrs m' = getConstrs m ++ cs /\
    Forall2 (capacity_constraint (keys pd) pv tbl) rd cs.
Proof.
  unfold _add_resource_constraints. intro H. split.
  - revert H.
    apply (BuilderFacts.for_each_invariant
             (fun m0 => getObjective m0 = getObjective m)); [|reflexivity].
    intros [rn r] s s' _ Hs.
    match goal with |- context [bind ?f _] => destruct f; simpl end;
      [|discriminate].
    destruct (subscript "available_capacity" (available_capacity r))
      as [[c|]|]; simpl; try discriminate.
    intro H0; inversion H0; subst; exact Hs.
  - apply (for_each_collect (capacity_constraint (keys pd) pv tbl) _ getConstrs)
      in H; [exact H|].
    intros [rn r] s s'.
    match goal with |- context [for_each ?body (keys pd) ?st] =>
      destruct (for_each body (keys pd) st) as [lhs0|] eqn:E end;
      simpl; [|discriminate].
    destruct (available_capacity r) as [| |c] eqn:Ec; simpl; try discriminate.
    intro H0; inversion H0; subst; simpl.
    eexists. split; [reflexivity|].
    unfold capacity_constraint. simpl. repeat split; [exact Ec|].
    apply (for_each_filter
             (fun p =>
                match dict_get p tbl with
                | Some row =>
                    match dict_get rn row, dict_get p pv with
                    | Some (Some u), Some v => [(u, v)]
                    | _, _ => []
                    end
                | None => []
                end)) in E; [exact E|].
    intros p o o'.
    destruct (dict_get p tbl) as [row|];
      [|intro H1; inversion H1; rewrite app_nil_r; reflexivity].
    destruct (dict_get rn row) as [[u|]|];
      [| |intro H1; inversion H1; rewrite app_nil_r; reflexivity].
    + destruct (dict_get p pv) as [v|]; simpl; [|discriminate].
      intro H1; inversion H1. reflexivity.
    + destruct (dict_get p pv) as [v|]; simpl; discriminate.
Qed.

Lemma total_loop_terms (pv : dict var) (names : list string)
    (total : LinExpr) :
  for_each (fun product_name total =>
              v <- get product_name (dict_get product_name pv) ;;
              Ret (total ++ [(1%Q, v)]))
           names [] = Ret total ->
  total = total_terms names pv.
Proof.
  intro H. unfold total_terms.
  apply (for_each_filter
           (fun p => match dict_get p pv with
                     | Some v => [(1%Q, v)]
                     | None => []
                     end)) in H; [exact H|].
  intros p t t'. destruct (dict_get p pv); simpl; [|discriminate].
  intro H0; inversion H0; reflexivity.
Qed.

Lemma add_total_if_given_rows (m m' : model) (d : data) (pd : dict product)
    (pv : dict var) :
  add_total_if_given m d pd pv = Ret m' ->
  getObjective m' = getObjective m /\
  getConstrs m' =
    getConstrs m ++
    total_constraints_of (total_terms (keys pd) pv) (total_constraints d).
Proof.
  unfold add_total_if_given, _add_total_product_constraints,
         total_constraints_of, enforced.
  destruct (total_constraints d) as [tc|].
  2:{ intro H; inversion H. rewrite app_nil_r. auto. }
  destruct (truthy tc) eqn:Et; simpl.
  - match goal with |- context [bind ?f _] =>
      destruct f as [total|] eqn:E; cbn [bind] end; [|discriminate].
    apply total_loop_terms in E. subst total.
    destruct (min_total tc) as [| |lo]; destruct (max_total tc) as [| |hi];
      try (destruct (float lo) as [lo'|] eqn:Flo; cbn [bind];
           [apply float_Ret in Flo; destruct Flo as [-> _]|discriminate]);
      try (destruct (float hi) as [hi'|] eqn:Fhi; cbn [bind];
           [apply float_Ret in Fhi; destruct Fhi as [-> _]|discriminate]);
      repeat match goal with |- context [Qltb ?a ?b] => destruct (Qltb a b) end;
      intro H; inversion H; subst; simpl;
      rewrite ?app_nil_r, <- ?app_assoc; auto.
  - intro H; inversion H; subst.
    unfold truthy in Et. apply orb_false_iff in Et. destruct Et as [E1 E2].
    destruct (min_total tc); try discriminate.
    destruct (max_total tc); try discriminate.
    rewrite app_nil_r. auto.
Qed.

Lemma index_by_NoDup {A : Type} (key : string) (name : A -> option string)
    (rows : list A) (d : dict A) :
  index_by key name rows = Ret d -> NoDup (keys d).
Proof.
  unfold index_by.
  apply (BuilderFacts.for_each_invariant (fun d0 : dict A => NoDup (keys d0)));
    [|constructor].
  intros a s s' _ Hs. destruct (name a) as [n|]; simpl; [|discriminate].
  intro H; inversion H. apply TotalFacts.dict_set_NoDup. exact Hs.
Qed.

(** A loop that adds one variable per name. *)
Lemma _extract_common_data_NoDup (d : data) (obj : string)
    (pd : dict product) (rd : dict resource) (tbl : dict (dict (option Q))) :
  _extract_common_data d = Ret (obj, pd, rd, tbl) ->
  NoDup (keys pd) /\ NoDup (keys rd).
Proof.
  unfold _extract_common_data.
  destruct (get "objective" (objective d)); cbn [bind]; [|discriminate].
  destruct (get "products" (products d)) as [ps|]; cbn [bind]; [|discriminate].
  destruct (index_by "name" p_name ps) as [pd0|] eqn:E; cbn [bind];
    [|discriminate].
  destruct (get "resources" (resources d)) as [rs|]; cbn [bind];
    [|discriminate].
  destruct (index_by "name" r_name rs) as [rd1|] eqn:E'; cbn [bind];
    [|discriminate].
  destruct (get "resource_usage" (resource_usage d)); cbn [bind];
    [|discriminate].
  destruct (usage_table _); cbn [bind]; [|discriminate].
  intro H; inversion H; subst.
  split; [exact (index_by_NoDup _ _ _ _ E)|exact (index_by_NoDup _ _ _ _ E')].
Qed.

Lemma variables_fold (mk : string -> var)
    (step : model * dict var -> string -> model * dict var) :
  (forall m pv p,
      getVars (fst (step (m, pv) p)) = getVars m ++ [mk p] /\
      getConstrs (fst (step (m, pv) p)) = getConstrs m /\
      getObjective (fst (step (m, pv) p)) = getObjective m /\
      snd (step (m, pv) p) = dict_set p (mk p) pv) ->
  forall names m pv,
    NoDup (keys pv ++ names) ->
    getVars (fst (fold_left step names (m, pv))) = getVars m ++ map mk names /\
    getConstrs (fst (fold_left step names (m, pv))) = getConstrs m /\
    getObjective (fst (fold_left step names (m, pv))) = getObjective m /\
    snd (fold_left step names (m, pv)) = pv ++ map (fun p => (p, mk p)) names.
Proof.
  intro Hstep. induction names as [|p names IH]; intros m pv Hnd; simpl.
  - rewrite !app_nil_r. auto.
  - destruct (Hstep m pv p) as (Hv & Hc & Ho & Hs).
    rewrite (surjective_pairing (step (m, pv) p)).
    assert (Hfresh : ~ In p (keys pv)).
    { intro Hin. apply NoDup_remove_2 in Hnd. apply Hnd.
      apply in_or_app. left; exact Hin. }
    rewrite (TotalFacts.dict_set_fresh _ _ _ Hfresh) in Hs.
    destruct (IH (fst (step (m, pv) p)) (snd (step (m, pv) p)))
      as (Hv' & Hc' & Ho' & Hs').
    { rewrite Hs. unfold keys in *. rewrite map_app. simpl.
      rewrite <- app_assoc. exact Hnd. }
    rewrite Hv', Hc', Ho', Hs', Hv, Hc, Ho, Hs, <- !app_assoc. auto.
Qed.

Lemma keys_named {V : Type} (mk : string -> V) (names : list string) :
  keys (map (fun p => (p, mk p)) names) = names /\
  values (map (fun p => (p, mk p)) names) = map mk names.
Proof.
  unfold keys, values. rewrite !map_map. simpl. rewrite map_id. auto.
Qed.

Lemma total_terms_named (mk : string -> var) (names : list string) :
  NoDup names ->
  total_terms names (map (fun p => (p, mk p)) names) =
    sum_of (map mk names).
Proof.
  intro Hnd. unfold total_terms, sum_of.
  assert (H : forall l,
             (forall p, In p l -> In p names) ->
             flat_map (fun p => match dict_get p (map (fun p => (p, mk p)) names)
                                with
                                | Some v => [(1%Q, v)]
                                | None => []
                                end) l
             = map (fun v => (1%Q, v)) (map mk l)).
  { induction l as [|p l IH]; intro Hl; simpl; [reflexivity|].
    rewrite IH by (intros q Hq; apply Hl; right; exact Hq).
    assert (Hp : dict_get p (map (fun p => (p, mk p)) names) = Some (mk p)).
    { assert (Hin : In p names) by (apply Hl; left; reflexivity).
      clear - Hin. induction names as [|n names IHn]; simpl; [destruct Hin|].
      destruct (String.eqb_spec n p) as [->|Hne]; [reflexivity|].
      apply IHn. destruct Hin as [->|Hin]; [contradiction|exact Hin]. }
    rewrite Hp. reflexivity. }
  apply H. auto.
Qed.

(** [demand_constraints[product_name]] is the last row that names the
    product. *)
Lemma index_by_lookup (rows : option (list demand_constraint))
    (dcs : dict demand_constraint) (p : string) :
  match rows with
  | Some rows => index_by "product_name" dc_product_name rows
  | None => Ret []
  end = Ret dcs ->
  dict_get p dcs = Spec.constraint_for rows p.
Proof.
  destruct rows as [rows|]; simpl; [|intro H; inversion H; reflexivity].
  unfold index_by.
  set (f := fun dc => match dc_product_name dc with
                      | Some n => String.eqb n p
                      | None => false
                      end).
  assert (Hfind : forall (l : list demand_constraint) a,
             find f (l ++ [a]) =
             match find f l with
             | Some r => Some r
             | None => if f a then Some a else None
             end).
  { induction l as [|b l IH]; intro a; simpl; [reflexivity|].
    destruct (f b); [reflexivity|apply IH]. }
  assert (Hgen : forall l d0 d1,
             for_each (fun row d =>
                         n <- get "product_name" (dc_product_name row) ;;
                         Ret (dict_set n row d)) l d0 = Ret d1 ->
             dict_get p d1 =
             match find f (rev l) with
             | Some r => Some r
             | None => dict_get p d0
             end).
  { induction l as [|a l IH]; intros d0 d1; simpl.
    - intro H; inversion H; reflexivity.
    - destruct (dc_product_name a) as [n|] eqn:En; simpl; [|discriminate].
      intro H. rewrite (IH _ _ H), Hfind.
      destruct (find f (rev l)); [reflexivity|].
      unfold f. rewrite En.
      destruct (String.eqb_spec n p) as [->|Hne].
      + apply BuilderFacts.dict_get_set_same.
      + apply BuilderFacts.dict_get_set_other. exact Hne. }
  intro H. rewrite (Hgen _ _ _ H).
  destruct (find f (rev rows)); reflexivity.
Qed.

(** The variable the demand-constrained builder adds for a product is the
    one section 4.2 prescribes for the rows of the payload. *)
Lemma variable_of_payload (rows : option (list demand_constraint))
    (dcs : dict demand_constraint) (p : string) :
  match rows with
  | Some rows => index_by "product_name" dc_product_name rows
  | None => Ret []
  end = Ret dcs ->
  variable_of dcs p = Spec.demand_variable rows p.
Proof.
  intro H. unfold variable_of, Spec.demand_variable.
  destruct (BuilderFacts.bounds_spec p dcs) as (Hlb & Hub & _).
  rewrite Hlb, Hub, (index_by_lookup rows dcs p H). reflexivity.
Qed.

(** What the rest of [solve] makes of the model once the variables are in. *)
Lemma model_after_variables (d : data) (obj : string) (pd : dict product)
    (rd : dict resource) (tbl : dict (dict (option Q))) (m0 : model)
    (pv : dict var) (b : built) :
  getConstrs m0 = [] ->
  (m <- _set_objective m0 obj pd pv ;;
   m <- _add_resource_constraints m rd pd pv tbl ;;
   m <- add_total_if_given m d pd pv ;;
   Ret (m, pv, rd, tbl)) = Ret b ->
  exists m,
    b = (m, pv, rd, tbl) /\ getVars m = getVars m0 /\
    (exists terms,
        getObjective m =
          Some (if String.eqb obj "maximize_profit" then MAXIMIZE else MINIMIZE,
                terms) /\
        Forall2 (objective_term (String.eqb obj "maximize_profit") pv) pd terms) /\
    (exists cs,
        getConstrs m =
          cs ++ total_constraints_of (total_terms (keys pd) pv)
                  (total_constraints d) /\
        Forall2 (capacity_constraint (keys pd) pv tbl) rd cs).
Proof.
  intros Hc0.
  destruct (_set_objective m0 obj pd pv) as [m1|] eqn:E1; cbn [bind];
    [|discriminate].
  destruct (_add_resource_constraints m1 rd pd pv tbl) as [m2|] eqn:E2;
    cbn [bind]; [|discriminate].
  destruct (add_total_if_given m2 d pd pv) as [m3|] eqn:E3; cbn [bind];
    [|discriminate].
  intro H; inversion H; subst. exists m3. split; [reflexivity|].
  destruct (_set_objective_terms _ _ _ _ _ E1) as (Hv1 & Hc1 & terms & Ho1 & Ht).
  destruct (_add_resource_constraints_rows _ _ _ _ _ _ E2) as (Ho2 & cs & Hc2 & Hcs).
  destruct (add_total_if_given_rows _ _ _ _ _ E3) as (Ho3 & Hc3).
  split.
  { rewrite (BuilderFacts.add_total_if_given_getVars _ _ _ _ _ E3),
            (BuilderFacts._add_resource_constraints_getVars _ _ _ _ _ _ E2).
    exact Hv1. }
  split.
  { exists terms. split; [rewrite Ho3, Ho2; exact Ho1|exact Ht]. }
  exists cs. split; [|exact Hcs].
  rewrite Hc3, Hc2, Hc1, Hc0. reflexivity.
Qed.

(** The model of a loop that adds the variable [mk p] for each product. *)
Lemma model_of_variables (d : data) (mk : string -> var)
    (step : model * dict var -> string -> model * dict var) (name obj : string)
    (pd : dict product) (rd0 rd : dict resource)
    (tbl0 tbl : dict (dict (option Q))) (m : model) (pv : dict var) :
  (forall m1 pv1 p,
      getVars (fst (step (m1, pv1) p)) = getVars m1 ++ [mk p] /\
      getConstrs (fst (step (m1, pv1) p)) = getConstrs m1 /\
      getObjective (fst (step (m1, pv1) p)) = getObjective m1 /\
      snd (step (m1, pv1) p) = dict_set p (mk p) pv1) ->
  NoDup (keys pd) ->
  (let '(m1, production_vars) :=
     fold_left step (keys pd) (_create_model name, []) in
   m1 <- _set_objective m1 obj pd production_vars ;;
   m1 <- _add_resource_constraints m1 rd0 pd production_vars tbl0 ;;
   m1 <- add_total_if_given m1 d pd production_vars ;;
   Ret (m1, production_vars, rd0, tbl0)) = Ret (m, pv, rd, tbl) ->
  rd0 = rd /\ tbl0 = tbl /\
  pv = map (fun p => (p, mk p)) (keys pd) /\
  getVars m = map mk (keys pd) /\
  (exists terms,
      getObjective m =
        Some (if String.eqb obj "maximize_profit"
              then MAXIMIZE else MINIMIZE, terms) /\
      Forall2 (objective_term (String.eqb obj "maximize_profit") pv)
              pd terms) /\
  (exists cs,
      getConstrs m =
        cs ++ total_constraints_of (sum_of (getVars m)) (total_constraints d) /\
      Forall2 (capacity_constraint (keys pd) pv tbl) rd cs).
Proof.
  intros Hstep Hnd.
  pose proof (variables_fold mk step Hstep (keys pd) (_create_model name) []
                Hnd) as Hf.
  match goal with |- context [fold_left step (keys pd) ?i] =>
    set (out := fold_left step (keys pd) i) in * end.
  try change (fold_left step (keys pd) (_create_model name, [])) with out in Hf.
  destruct out as [m0 pv0]. destruct Hf as (Hv & Hc & _ & Hs).
  simpl in Hv, Hc, Hs. intro H.
  destruct (model_after_variables d obj pd rd0 tbl0 m0 pv0 _ Hc H)
    as (m' & Hb & Hvars & Hobj & cs & Hcs & Hcap).
  inversion Hb; subst m' pv rd0 tbl0.
  split; [reflexivity|]. split; [reflexivity|].
  split; [exact Hs|]. split; [rewrite Hvars; exact Hv|].
  split; [exact Hobj|].
  exists cs. split; [|exact Hcap].
  rewrite Hcs, Hvars, Hv, Hs, (total_terms_named mk (keys pd) Hnd).
  reflexivity.
Qed.

(** The parts of the model of either optimiser, in terms of the payload. *)
Lemma build_parts (c : Factory.optimizer_class) (d : data) (m : model)
    (pv : dict var) (rd : dict resource) (tbl : dict (dict (option Q))) :
  match c with
  | Factory.BasicProductionOptimizer => BasicProductionOptimizer.build d
  | Factory.DemandConstrainedOptimizer => DemandConstrainedOptimizer.build d
  end = Ret (m, pv, rd, tbl) ->
  exists obj pd,
    _extract_common_data d = Ret (obj, pd, rd, tbl) /\
    NoDup (keys pd) /\
    pv = map (fun p => (p, expected_variable c d p)) (keys pd) /\
    getVars m = map (expected_variable c d) (keys pd) /\
    (exists terms,
        getObjective m =
          Some (if String.eqb obj "maximize_profit" then MAXIMIZE else MINIMIZE,
                terms) /\
        Forall2 (objective_term (String.eqb obj "maximize_profit") pv) pd terms) /\
    (exists cs,
        getConstrs m =
          cs ++ total_constraints_of (sum_of (getVars m)) (total_constraints d) /\
        Forall2 (capacity_constraint (keys pd) pv tbl) rd cs).
Proof.
  destruct c.
  - unfold BasicProductionOptimizer.build,
           BasicProductionOptimizer._create_production_variables.
    destruct (_extract_common_data d) as [[[[obj pd] rd0] tbl0]|] eqn:Eex;
      cbn [bind]; [|discriminate].
    intro H.
    destruct (_extract_common_data_NoDup d obj pd rd0 tbl0 Eex) as (Hnd & _).
    destruct (model_of_variables d
                (expected_variable Factory.BasicProductionOptimizer d)
                BasicProductionOptimizer.add_variable
                BasicProductionOptimizer.model_name obj pd rd0 rd tbl0 tbl m pv
                (fun m1 pv1 p => conj eq_refl (conj eq_refl
                                   (conj eq_refl eq_refl)))
                Hnd H)
      as (-> & -> & Hrest).
    exists obj, pd. split; [reflexivity|]. split; [exact Hnd|exact Hrest].
  - unfold DemandConstrainedOptimizer.build,
           DemandConstrainedOptimizer._create_production_variables_with_demand.
    destruct (_extract_common_data d) as [[[[obj pd] rd0] tbl0]|] eqn:Eex;
      cbn [bind]; [|discriminate].
    match goal with |- context [bind ?f _] =>
      destruct f as [dcs|] eqn:Edc; cbn [bind]; [|discriminate] end.
    intro H.
    destruct (_extract_common_data_NoDup d obj pd rd0 tbl0 Eex) as (Hnd & _).
    assert (Hstep : forall m1 pv1 p,
               getVars (fst (DemandConstrainedOptimizer.add_variable dcs
                               (m1, pv1) p)) =
                 getVars m1 ++
                 [expected_variable Factory.DemandConstrainedOptimizer d p] /\
               getConstrs (fst (DemandConstrainedOptimizer.add_variable dcs
                                  (m1, pv1) p)) = getConstrs m1 /\
               getObjective (fst (DemandConstrainedOptimizer.add_variable dcs
                                    (m1, pv1) p)) = getObjective m1 /\
               snd (DemandConstrainedOptimizer.add_variable dcs (m1, pv1) p)
               = dict_set p
                   (expected_variable Factory.DemandConstrainedOptimizer d p)
                   pv1).
    { intros. rewrite BuilderFacts.add_variable_eq.
      unfold expected_variable.
      rewrite <- (variable_of_payload _ _ p Edc). simpl. auto. }
    destruct (model_of_variables d
                (expected_variable Factory.DemandConstrainedOptimizer d)
                (DemandConstrainedOptimizer.add_variable dcs)
                DemandConstrainedOptimizer.model_name obj pd rd0 rd tbl0 tbl m pv
                Hstep Hnd H)
      as (-> & -> & Hrest).
    exists obj, pd. split; [reflexivity|]. split; [exact Hnd|exact Hrest].
Qed.

(** The model either optimiser builds is the LP of the payload. One variable
    [produce_p] per distinct product name, in order: with bounds [0, inf) in
    the basic model, and in the demand-constrained model with the bounds of
    section 4.2 for the last demand row that names the product. The
    objective maximises the profits when the tag is ['maximize_profit'] and
    minimises the costs for any other tag. Then one [<=] constraint
    [resource_r] per distinct resource, whose terms are the usages recorded
    for it and whose bound is its capacity. Then the total-production
    constraints, the floor before the ceiling, each only when its bound is a
    strictly positive number, each over the sum of all the variables. *)
Theorem built_model (c : Factory.optimizer_class) (d : data) (m : model)
    (pv : dict var) (rd : dict resource) (tbl : dict (dict (option Q))) :
  match c with
  | Factory.BasicProductionOptimizer => BasicProductionOptimizer.build d
  | Factory.DemandConstrainedOptimizer => DemandConstrainedOptimizer.build d
  end = Ret (m, pv, rd, tbl) ->
  exists obj pd,
    _extract_common_data d = Ret (obj, pd, rd, tbl) /\
    NoDup (keys pd) /\ keys pv = keys pd /\ getVars m = values pv /\
    (forall p v, In (p, v) pv -> VarName v = ("produce_" ++ p)%string) /\
    pv = map (fun p => (p, expected_variable c d p)) (keys pd) /\
    getVars m = map (expected_variable c d) (keys pd) /\
    (exists terms,
        getObjective m =
          Some (if String.eqb obj "maximize_profit" then MAXIMIZE else MINIMIZE,
                terms) /\
        Forall2 (objective_term (String.eqb obj "maximize_profit") pv) pd terms) /\
    (exists cs ts,
        getConstrs m = cs ++ ts /\
        Forall2 (capacity_constraint (keys pd) pv tbl) rd cs /\
        ts = total_constraints_of (sum_of (getVars m)) (total_constraints d) /\
        map (fun c => (ConstrName c, csense c, rhs c)) ts =
          total_rows (total_constraints d)).
Proof.
  intro H.
  destruct (build_parts c d m pv rd tbl H)
    as (obj & pd & Eex & Hnd & Hpv & Hvars & Hobj & cs & Hcs & Hcap).
  exists obj, pd. split; [exact Eex|]. split; [exact Hnd|].
  destruct (keys_named (expected_variable c d) (keys pd)) as (Hk & Hvals).
  rewrite <- Hpv in Hk, Hvals.
  split; [exact Hk|]. split; [rewrite Hvars, Hvals; reflexivity|].
  split.
  { intros p v Hin. rewrite Hpv in Hin. apply in_map_iff in Hin.
    destruct Hin as (p0 & Heq & _). inversion Heq; subst.
    destruct c; reflexivity. }
  split; [exact Hpv|]. split; [exact Hvars|]. split; [exact Hobj|].
  exists cs, (total_constraints_of (sum_of (getVars m)) (total_constraints d)).
  split; [exact Hcs|]. split; [exact Hcap|]. split; [reflexivity|].
  unfold total_constraints_of, total_rows.
  destruct (total_constraints d) as [tc|]; [|reflexivity].
  destruct (enforced (min_total tc)); destruct (enforced (max_total tc));
    reflexivity.
Qed.

(** Scenario 3 of the design with a demand row whose floor exceeds its
    ceiling and a zero upper bound on the total: the variable is clamped to
    [30, 30], the floor of 20 on the total is in the model over the sum of
    the variables, and the zero ceiling is not. *)
Lemma built_model_witness :
  let d :=
    {| objective := Some "maximize_profit"; products := Some [product_A];
       resources := Some [resource_R 10]; resource_usage := Some [usage_A_R];
       demand_constraints :=
         Some [{| dc_product_name := Some "A"; min_demand := Num 30;
                  max_demand := Num 20 |}];
       total_constraints := Some {| min_total := Num 20; max_total := Num 0 |} |} in
  let v := {| VarName := "produce_A"; LB := 30; UB := Finite 30 |} in
  exists m pv rd tbl,
    DemandConstrainedOptimizer.build d = Ret (m, pv, rd, tbl) /\
    map ConstrName (getConstrs m) = ["resource_R"; "min_total_production"] /\
    pv = [("A", v)] /\ getVars m = [v] /\
    exists cs,
      getConstrs m =
        cs ++ [{| ConstrName := "min_total_production"; lhs := [(1%Q, v)];
                  csense := GREATER_EQUAL; rhs := 20 |}].
Proof.
  intros d v.
  assert (Hb : exists m pv rd tbl, DemandConstrainedOptimizer.build d
                                   = Ret (m, pv, rd, tbl))
    by (repeat eexists).
  destruct Hb as (m & pv & rd & tbl & Hb).
  exists m, pv, rd, tbl. split; [exact Hb|].
  destruct (built_model Factory.DemandConstrainedOptimizer d m pv rd tbl Hb)
    as (obj & pd & Eex & _ & _ & _ & _ & Hpv & Hvars & _ & cs & ts & Hcs & _
        & Hts & _).
  split; [vm_compute in Hb; inversion Hb; reflexivity|].
  vm_compute in Eex. inversion Eex; subst obj pd rd tbl.
  split; [exact Hpv|]. split; [exact Hvars|].
  exists cs. rewrite Hcs, Hts, Hvars. reflexivity.
Defined.

End ModelFacts.

(** ** The bounds of the demand-constrained model *)

Module DemandBoundsFacts.

Import Engine Validation Optimizers Contracts Invariants Scenarios.

Lemma dict_get_listed {V : Type} (mk : string -> V) (names : list string)
    (p : string) :
  In p names -> dict_get p (map (fun p => (p, mk p)) names) = Some (mk p).
Proof.
  induction names as [|n names IH]; simpl; [intros []|].
  destruct (String.eqb_spec n p) as [->|Hne]; [reflexivity|].
  intros [H|H]; [contradiction|exact (IH H)].
Qed.

Lemma _extract_common_data_products (d : data) (obj : string)
    (pd : dict product) (rd : dict resource) (tbl : dict (dict (option Q))) :
  _extract_common_data d = Ret (obj, pd, rd, tbl) ->
  exists ps, products d = Some ps /\ index_by "name" p_name ps = Ret pd.
Proof.
  unfold _extract_common_data.
  destruct (objective d); cbn [get bind]; [|discriminate].
  destruct (products d) as [ps|]; cbn [get bind]; [|discriminate].
  destruct (index_by "name" p_name ps) as [pd0|] eqn:Ep; cbn [bind];
    [|discriminate].
  destruct (resources d) as [rs|]; cbn [get bind]; [|discriminate].
  destruct (index_by "name" r_name rs); cbn [bind]; [|discriminate].
  destruct (resource_usage d) as [rus|]; cbn [get bind]; [|discriminate].
  destruct (usage_table rus); cbn [bind]; [|discriminate].
  intro H; inversion H; subst. exists ps. auto.
Qed.

(** C6. The model that the demand-constrained optimiser builds from a
    payload has one variable per distinct product name, in the order of the
    products. The variable of product [p] is [produce_p]; with [c] the last
    row of [demand_constraints] that names [p], its lower bound is
    [max(0, min_demand)] when [c] has a [min_demand] (else 0), and its upper
    bound is [max_demand] when [c] has one (else infinity), replaced by the
    lower bound when the lower bound exceeds it. The emitted bounds always
    satisfy [lb <= ub]. *)
Theorem demand_build_variable_bounds (d : data) (m : model) (pv : dict var)
    (rd : dict resource) (tbl : dict (dict (option Q))) :
  DemandConstrainedOptimizer.build d = Ret (m, pv, rd, tbl) ->
  exists ps pd,
    products d = Some ps /\ index_by "name" p_name ps = Ret pd /\
    getVars m = map (Spec.demand_variable (demand_constraints d)) (keys pd) /\
    (forall p, declares p_name ps p ->
       exists v,
         dict_get p pv = Some v /\ In v (getVars m) /\
         VarName v = ("produce_" ++ p)%string /\
         LB v = Spec.lb (Spec.constraint_for (demand_constraints d) p) /\
         UB v = Spec.clamp_ub
                  (Spec.lb (Spec.constraint_for (demand_constraints d) p))
                  (Spec.ub (Spec.constraint_for (demand_constraints d) p))) /\
    Forall (fun v => Spec.bound_le (LB v) (UB v)) (getVars m).
Proof.
  intro H.
  destruct (ModelFacts.build_parts Factory.DemandConstrainedOptimizer d m pv rd
              tbl H)
    as (obj & pd & Eex & Hnd & Hpv & Hvars & _).
  destruct (_extract_common_data_products d obj pd rd tbl Eex)
    as (ps & Eps & Epd).
  exists ps, pd. split; [exact Eps|]. split; [exact Epd|].
  cbn [expected_variable] in Hpv, Hvars.
  split; [exact Hvars|]. split.
  - intros p Hp.
    assert (Hin : In p (keys pd)).
    { unfold index_by in Epd.
      apply (proj1 (PipelineFacts.index_by_fold "name" p_name ps [] pd Epd)).
      right. exact Hp. }
    exists (Spec.demand_variable (demand_constraints d) p).
    split; [rewrite Hpv; apply dict_get_listed; exact Hin|].
    split; [rewrite Hvars; apply in_map; exact Hin|].
    repeat split.
  - rewrite Hvars. apply Forall_forall. intros v Hv.
    apply in_map_iff in Hv. destruct Hv as (p & <- & _).
    apply BuilderFacts.clamp_ub_le.
Qed.

(** Scenario 1 of the design with a demand row for [A] whose floor of 30
    exceeds its ceiling of 20: the variable of [A] gets the bounds
    [30, 30]. *)
Lemma demand_build_variable_bounds_witness :
  let d := one_product 10
             (Some [{| dc_product_name := Some "A"; min_demand := Num 30;
                       max_demand := Num 20 |}]) in
  exists m pv rd tbl v,
    DemandConstrainedOptimizer.build d = Ret (m, pv, rd, tbl) /\
    getVars m = [v] /\
    VarName v = "produce_A" /\ LB v = 30%Q /\ UB v = Finite 30.
Proof.
  intro d.
  assert (Hb : exists m pv rd tbl, DemandConstrainedOptimizer.build d
                                   = Ret (m, pv, rd, tbl))
    by (repeat eexists).
  destruct Hb as (m & pv & rd & tbl & Hb).
  destruct (demand_build_variable_bounds d m pv rd tbl Hb)
    as (ps & pd & Eps & Epd & Hvars & _).
  inversion Eps; subst ps. vm_compute in Epd. inversion Epd; subst pd.
  exists m, pv, rd, tbl, (Spec.demand_variable (demand_constraints d) "A").
  split; [exact Hb|]. split; [exact Hvars|].
  split; [reflexivity|]. split; [reflexivity|].
  reflexivity.
Defined.

End DemandBoundsFacts.

(** ** The other entry points *)

Module EntryPointFacts.

Import Engine Validation Optimizers Factory Endpoint Contracts Scenarios
       ProductionOptimizerBase.

(** The verifier returns on what [solve] produces for an accepted moderate
    payload. *)
Lemma verifier_after_solve (c : optimizer_class) (e : engine) (d : data) :
  accepted d ->
  moderate d ->
  r_status (snd (Factory.solve c e d)) = "optimal" ->
  exists warnings,
    validate_solution_feasibility (snd (Factory.solve c e d)) d =
      Ret (is_empty warnings, warnings).
Proof.
  intros Hacc Hmod Hst.
  apply PipelineFacts.verifier_returns; [exact Hacc|exact Hmod|exact Hst|].
  destruct (PipelineFacts.solve_shape c e d)
    as (_ & _ & [(_ & Hsol & _)|[(Hs & _)|([Hs|Hs] & _)]]);
    [exact Hsol| | |]; rewrite Hst in Hs; discriminate.
Qed.

(** For an identifier the registry knows, the class method [optimize] and
    the instance method [validate_and_solve] of the class it resolves to
    answer alike: the same result or the same exception, and the same calls
    after the instance is created, which [optimize] does only once the
    payload is accepted. *)
Theorem optimize_agrees_with_validate_and_solve (reg : registry) (e : engine)
    (optimizer_type : string) (c : optimizer_class) (d : data) :
  get_optimizer reg optimizer_type = Ret c ->
  snd (optimize reg e optimizer_type d) = snd (validate_and_solve c e d) /\
  fst (optimize reg e optimizer_type d) =
    match validate_optimization_input d with
    | Ret (true, _) => Instantiated (__name__ c) :: fst (validate_and_solve c e d)
    | _ => fst (validate_and_solve c e d)
    end.
Proof.
  intro Hget. unfold optimize, optimize_body, validate_and_solve.
  destruct (validate_optimization_input d) as [[[|] errs]|ex] eqn:Ev;
    cbn [negb].
  - rewrite Hget.
    destruct (Factory.solve c e d) as [evs r]. cbn [fst snd] in *.
    split; [|reflexivity].
    unfold check_feasibility.
    destruct (String.eqb_spec (r_status r) "optimal") as [Hst|Hst];
      [|reflexivity].
    destruct (validate_solution_feasibility r d) as [[ok ws]|ex] eqn:Ever;
      cbn [bind].
    + pose proof (FactoryFacts.validate_solution_feasibility_flag r d ok ws
                    Hst Ever) as Hok.
      subst ok. destruct ws; reflexivity.
    + pose proof (PipelineFacts.verifier_raises r d ex Ever) as Hex.
      destruct ex; try contradiction; reflexivity.
  - split; reflexivity.
  - pose proof (PipelineFacts.validator_raises d ex Ev) as Hex.
    destruct ex; try contradiction; split; reflexivity.
Qed.

Lemma optimize_agrees_with_validate_and_solve_witness :
  snd (optimize _optimizers (answer OPTIMAL 10 (fun _ => false)) "basic"
         (one_product 10 None)) =
  snd (validate_and_solve BasicProductionOptimizer
         (answer OPTIMAL 10 (fun _ => false)) (one_product 10 None)).
Proof.
  apply (optimize_agrees_with_validate_and_solve _optimizers
           (answer OPTIMAL 10 (fun _ => false)) "basic"
           BasicProductionOptimizer (one_product 10 None)).
  reflexivity.
Defined.

(** For a moderate payload (capacities, usages and bounds that convert to
    floats), the two routes kept for backward compatibility answer as the
    generic route does with their identifier, body and HTTP status alike,
    whenever the validator returns; when the validator raises, the generic
    route answers 500 and the old routes let the exception out of the
    handler. *)
Theorem legacy_routes_agree (reg : registry) (e : engine) (d : data) :
  moderate d ->
  match validate_optimization_input d with
  | Ret _ =>
      BasicOptimization.post reg e d = Ret (post reg e "basic" d) /\
      DemandConstrained.post reg e d = Ret (post reg e "demand-constrained" d)
  | Raise ex =>
      BasicOptimization.post reg e d = Raise ex /\
      DemandConstrained.post reg e d = Raise ex /\
      forall optimizer_type,
        post reg e optimizer_type d = (plain_result "error" (str ex), 500)
  end.
Proof.
  intro Hmod.
  assert (Hret : forall optimizer_type v,
             validate_optimization_input d = Ret v ->
             legacy_post optimizer_type reg e d =
               Ret (post reg e optimizer_type d)).
  { intros t [[|] errs] Ev.
    - destruct (AcceptanceFacts.validator_sound d errs Ev) as (_ & Hacc).
      destruct (PipelineFacts.optimize_on_accepted reg e t d Hacc Hmod)
        as (r & Er & _).
      unfold legacy_post, post. rewrite Er. cbn [bind].
      destruct (String.eqb (r_status r) "validation_error"); reflexivity.
    - unfold legacy_post, post, optimize, optimize_body. rewrite Ev.
      reflexivity. }
  assert (Hraise : forall optimizer_type ex,
             validate_optimization_input d = Raise ex ->
             snd (optimize reg e optimizer_type d) = Raise ex).
  { intros t ex Ev. pose proof (PipelineFacts.validator_raises d ex Ev) as Hex.
    unfold optimize, optimize_body. rewrite Ev.
    destruct ex; try contradiction; reflexivity. }
  destruct (validate_optimization_input d) as [v|ex] eqn:Ev.
  - split; apply (Hret _ v); reflexivity.
  - unfold BasicOptimization.post, DemandConstrained.post, legacy_post, post.
    split; [rewrite (Hraise _ ex eq_refl); reflexivity|].
    split; [rewrite (Hraise _ ex eq_refl); reflexivity|].
    intro t. rewrite (Hraise _ ex eq_refl). reflexivity.
Qed.

(** The old route of the basic optimiser on scenario 1 of the design. *)
Lemma legacy_routes_agree_witness :
  moderate (one_product 10 None) /\
  BasicOptimization.post _optimizers (answer OPTIMAL 10 (fun _ => false))
    (one_product 10 None) =
  Ret (post _optimizers (answer OPTIMAL 10 (fun _ => false)) "basic"
         (one_product 10 None)).
Proof.
  assert (Hmod : moderate (one_product 10 None))
    by PipelineFacts.moderate_payload.
  split; [exact Hmod|].
  pose proof (legacy_routes_agree _optimizers
                (answer OPTIMAL 10 (fun _ => false)) (one_product 10 None)
                Hmod) as H.
  assert (Ev : validate_optimization_input (one_product 10 None)
               = Ret (true, [])) by reflexivity.
  rewrite Ev in H. exact (proj1 H).
Defined.

End EntryPointFacts.

(** ** The verifier *)

Module VerifierFacts.

Import Engine Validation Optimizers Factory Contracts Scenarios.

(** A loop that only appends to its list: when nothing was appended, every
    iteration passed. *)
Lemma for_each_appends {A W : Type} (ok : A -> Prop)
    (body : A -> list W -> res (list W)) (xs : list A) :
  (forall a w w', In a xs -> body a w = Ret w' ->
                  exists extra, w' = w ++ extra /\ (extra = [] -> ok a)) ->
  forall w w',
    for_each body xs w = Ret w' ->
    exists extra, w' = w ++ extra /\ (extra = [] -> Forall ok xs).
Proof.
  induction xs as [|a xs IH]; intros Hbody w w'; simpl.
  - intro H; inversion H; subst. exists []. split; [rewrite app_nil_r; reflexivity|].
    intros _. constructor.
  - destruct (body a w) as [w1|] eqn:E; simpl; [|discriminate].
    intro Hrest.
    destruct (Hbody _ _ _ (or_introl eq_refl) E) as (x1 & -> & H1).
    destruct (IH (fun a0 w0 w0' Hin => Hbody a0 w0 w0' (or_intror Hin)) _ _ Hrest)
      as (x2 & -> & H2).
    exists (x1 ++ x2). split; [rewrite app_assoc; reflexivity|].
    intro Hx. apply app_eq_nil in Hx. destruct Hx as [-> ->].
    constructor; auto.
Qed.

Ltac grown :=
  first
    [ exists (@nil warning); split; [rewrite app_nil_r; reflexivity|intros _]
    | eexists; split; [rewrite <- ?app_assoc; reflexivity|simpl; discriminate] ].

Lemma check_small_step (plan : dict Q) :
  forall ws,
    exists extra,
      check_small plan ws = ws ++ extra /\
      (extra = [] ->
       forall p q, In (p, q) plan -> ~ (0 < q /\ q < epsilon)%Q).
Proof.
  unfold check_small. induction plan as [|[p q] plan IH]; intro ws; simpl.
  - exists []. split; [rewrite app_nil_r; reflexivity|intros _ ? ? []].
  - destruct (Qltb 0 q && Qltb q epsilon) eqn:E.
    + destruct (IH (ws ++ [Small_quantity p q])) as (x & -> & _).
      eexists. split; [rewrite <- app_assoc; reflexivity|simpl; discriminate].
    + destruct (IH ws) as (x & -> & Hx).
      exists x. split; [reflexivity|].
      intros Hnil p' q' [Heq|Hin]; [|exact (Hx Hnil _ _ Hin)].
      inversion Heq; subst. intros [H1 H2].
      apply Qltb_lt in H1. apply Qltb_lt in H2. rewrite H1, H2 in E.
      discriminate.
Qed.

(** *** The usage the verifier computes *)

Lemma keys_set_present {V : Type} (k : string) (v : V) (d : dict V) :
  In k (keys d) -> keys (dict_set k v d) = keys d.
Proof.
  intro H. rewrite TotalFacts.dict_set_keys.
  apply TotalFacts.mem_In in H. rewrite H. reflexivity.
Qed.

Lemma value_at_set (rn k : string) (v : Q) (calc : dict Q) :
  value_at rn (dict_set k v calc) =
  if String.eqb k rn then v else value_at rn calc.
Proof.
  unfold value_at. destruct (String.eqb_spec k rn) as [->|Hne].
  - rewrite BuilderFacts.dict_get_set_same. reflexivity.
  - rewrite (BuilderFacts.dict_get_set_other _ _ _ _ Hne). reflexivity.
Qed.

Lemma row_loop (quantity : Q) (row : dict (option Q)) :
  forall calc calc' : dict Q,
    for_each
      (fun '(resource, usage) calculated_usage =>
         old <- get resource (dict_get resource calculated_usage) ;;
         inc <- mul usage quantity ;;
         Ret (dict_set resource (old + inc)%Q calculated_usage))
      row calc = Ret calc' ->
    keys calc' = keys calc /\
    forall rn, (value_at rn calc' == value_at rn calc + row_usage rn quantity row)%Q.
Proof.
  induction row as [|[r u] row IH]; intros calc calc'; simpl.
  - intro H; inversion H; subst. split; [reflexivity|]. intro rn. ring.
  - destruct (dict_get r calc) as [old|] eqn:Eold; cbn [get bind];
      [|discriminate].
    destruct u as [a|]; cbn [mul bind]; [|discriminate].
    destruct (float a) as [a'|] eqn:F; cbn [bind]; [|discriminate].
    apply float_Ret in F. destruct F as [-> _].
    intro H. destruct (IH _ _ H) as (Hk & Hv).
    split.
    + rewrite Hk. apply keys_set_present.
      apply PipelineFacts.dict_get_keys. eauto.
    + intro rn. rewrite Hv, value_at_set.
      destruct (String.eqb_spec r rn) as [->|Hne].
      * unfold value_at. rewrite Eold. ring.
      * ring.
Qed.

Lemma accumulate_usage_sum (tbl : dict (dict (option Q))) (plan : dict Q) :
  forall calc calc' : dict Q,
    accumulate_usage tbl plan calc = Ret calc' ->
    keys calc' = keys calc /\
    forall rn,
      (value_at rn calc' ==
       value_at rn calc +
       fold_right Qplus 0
         (map (fun '(p, q) =>
                 match dict_get p tbl with
                 | Some row => row_usage rn q row
                 | None => 0
                 end) plan))%Q.
Proof.
  unfold accumulate_usage.
  induction plan as [|[p q] plan IH]; intros calc calc'; simpl.
  - intro H; inversion H; subst. split; [reflexivity|]. intro rn. ring.
  - destruct (dict_get p tbl) as [row|] eqn:Erow.
    + match goal with |- context [bind ?m _] => destruct m as [c1|] eqn:E1 end;
        cbn [bind]; [|discriminate].
      intro H. destruct (IH _ _ H) as (Hk & Hv).
      destruct (row_loop q row _ _ E1) as (Hk1 & Hv1).
      split; [congruence|]. intro rn. rewrite Hv, Hv1. ring.
    + cbn [bind]. intro H. destruct (IH _ _ H) as (Hk & Hv).
      split; [exact Hk|]. intro rn. rewrite Hv. ring.
Qed.

Lemma row_usage_recorded (rn : string) (q : Q) (row : dict (option Q)) :
  NoDup (keys row) ->
  (row_usage rn q row ==
   match dict_get rn row with
   | Some (Some u) => u
   | _ => 0
   end * q)%Q.
Proof.
  induction row as [|[r u] row IH]; simpl; intro Hnd.
  - ring.
  - inversion Hnd as [|? ? Hnot Hnd']; subst.
    destruct (String.eqb_spec r rn) as [->|Hne].
    + rewrite (IH Hnd'), (TotalFacts.dict_get_None_keys _ _ Hnot).
      destruct u; ring.
    + rewrite (IH Hnd'). ring.
Qed.

Lemma usage_table_rows (rows : list usage_row) (tbl : dict (dict (option Q))) :
  usage_table rows = Ret tbl ->
  forall p row, In (p, row) tbl -> NoDup (keys row).
Proof.
  unfold usage_table.
  apply (BuilderFacts.for_each_invariant
           (fun tbl : dict (dict (option Q)) =>
              forall p row, In (p, row) tbl -> NoDup (keys row)));
    [|intros p row []].
  intros ru t t' _ Ht.
  destruct (ru_product_name ru) as [p|]; cbn [get bind]; [|discriminate].
  destruct (ru_resource_name ru) as [r|]; cbn [get bind]; [|discriminate].
  cbv zeta.
  destruct (subscript "usage_per_unit" (usage_per_unit ru)) as [u|];
    cbn [bind]; [|discriminate].
  match goal with |- context [dict_get p ?t] => set (t1 := t) end.
  assert (H1 : forall p row, In (p, row) t1 -> NoDup (keys row)).
  { unfold t1. match goal with |- context [negb ?b] => destruct b end;
      simpl; [exact Ht|].
    intros p' row' Hin. apply PipelineFacts.dict_set_entries in Hin.
    destruct Hin as [Hin|Hin]; [inversion Hin; subst; constructor|].
    exact (Ht _ _ Hin). }
  destruct (dict_get p t1) as [inner|] eqn:Ei; cbn [get bind]; [|discriminate].
  intro H; inversion H; subst. intros p' row' Hin.
  apply PipelineFacts.dict_set_entries in Hin. destruct Hin as [Hin|Hin].
  - inversion Hin; subst. apply TotalFacts.dict_set_NoDup.
    exact (H1 _ _ (PipelineFacts.dict_get_entry _ _ _ Ei)).
  - exact (H1 _ _ Hin).
Qed.

Lemma accumulated_usage_of (tbl : dict (dict (option Q))) (plan : dict Q)
    (rn : string) :
  (forall p row, In (p, row) tbl -> NoDup (keys row)) ->
  (fold_right Qplus 0
     (map (fun '(p, q) =>
             match dict_get p tbl with
             | Some row => row_usage rn q row
             | None => 0
             end) plan) == usage_of tbl plan rn)%Q.
Proof.
  intro Hrows. unfold usage_of.
  induction plan as [|[p q] plan IH]; simpl; [reflexivity|].
  rewrite IH. unfold recorded_usage.
  destruct (dict_get p tbl) as [row|] eqn:Erow; [|ring].
  rewrite (row_usage_recorded rn q row
             (Hrows _ _ (PipelineFacts.dict_get_entry _ _ _ Erow))).
  reflexivity.
Qed.

Lemma dict_get_of_entry {V : Type} (k : string) (v : V) (d : dict V) :
  NoDup (keys d) -> In (k, v) d -> dict_get k d = Some v.
Proof.
  induction d as [|[k' v'] d IH]; simpl; intros Hnd Hin; [destruct Hin|].
  inversion Hnd as [|? ? Hnot Hnd']; subst.
  destruct Hin as [Heq|Hin].
  - inversion Heq; subst. rewrite String.eqb_refl. reflexivity.
  - destruct (String.eqb_spec k' k) as [->|Hne]; [|exact (IH Hnd' Hin)].
    exfalso. apply Hnot. apply (in_map fst) in Hin. exact Hin.
Qed.

Lemma zeroed_value (rn : string) (rd : dict resource) :
  value_at rn (map (fun '(r_name, _) => (r_name, 0%Q)) rd) = 0%Q.
Proof.
  unfold value_at. induction rd as [|[n r] rd IH]; simpl; [reflexivity|].
  destruct (String.eqb n rn); [reflexivity|exact IH].
Qed.

(** *** The checks *)

Lemma check_resources_step (rd : dict resource) (u : dict utilization)
    (entry : string * Q) (ws ws' : list warning) :
  (let '(resource, usage) := entry in
   fun warnings =>
     reported <- get "resource_utilization" (Some u) ;;
     let warnings :=
       match dict_get resource reported with
       | Some u =>
           let reported_usage := used u in
           if Qltb epsilon (Qabs (usage - reported_usage))
           then warnings ++ [Usage_differs resource usage reported_usage]
           else warnings
       | None => warnings
       end in
     r <- get resource (dict_get resource rd) ;;
     capacity <- subscript "available_capacity" (available_capacity r) ;;
     limit <- add capacity epsilon ;;
     if Qltb limit usage
     then match capacity with
          | Some c => Ret (warnings ++ [Capacity_exceeded resource usage c])
          | None => Ret warnings
          end
     else Ret warnings) ws = Ret ws' ->
  exists extra,
    ws' = ws ++ extra /\
    (extra = [] ->
     (forall ut, dict_get (fst entry) u = Some ut ->
                 (Qabs (snd entry - used ut) <= epsilon)%Q) /\
     (forall r c, dict_get (fst entry) rd = Some r ->
                  available_capacity r = Num c ->
                  (snd entry <= c + epsilon)%Q)).
Proof.
  destruct entry as [resource usage]. cbn [get bind fst snd]. cbv zeta.
  destruct (dict_get resource rd) as [r|]; cbn [get bind]; [|discriminate].
  destruct (available_capacity r) as [| |c] eqn:Ec; cbn [subscript add bind];
    try discriminate.
  floated.
  destruct (dict_get resource u) as [ut|].
  - destruct (Qltb epsilon (Qabs (usage - used ut))) eqn:E1;
      destruct (Qltb (c + epsilon) usage) eqn:E2;
      intro H; inversion H; subst; grown.
    apply Qltb_ge in E1. apply Qltb_ge in E2.
    split.
    + intros ut' Hut. inversion Hut; subst. exact E1.
    + intros r' c' Hr Hc. inversion Hr; subst. rewrite Ec in Hc.
      inversion Hc; subst. exact E2.
  - destruct (Qltb (c + epsilon) usage) eqn:E2;
      intro H; inversion H; subst; grown.
    apply Qltb_ge in E2.
    split; [intros ut' Hut; discriminate|].
    intros r' c' Hr Hc. inversion Hr; subst. rewrite Ec in Hc.
    inversion Hc; subst. exact E2.
Qed.

Lemma check_plan_demand_step (dcs : dict demand_constraint)
    (entry : string * Q) (ws ws' : list warning) :
  check_plan_demand dcs entry ws = Ret ws' ->
  exists extra,
    ws' = ws ++ extra /\
    (extra = [] ->
     forall dc, dict_get (fst entry) dcs = Some dc ->
                (forall lo, min_demand dc = Num lo ->
                            (lo - epsilon <= snd entry)%Q) /\
                (forall hi, max_demand dc = Num hi ->
                            (snd entry <= hi + epsilon)%Q)).
Proof.
  unfold check_plan_demand. destruct entry as [product quantity].
  cbn [fst snd].
  destruct (dict_get product dcs) as [dc|].
  2:{ intro H; inversion H; subst. grown. intros dc Hdc. discriminate. }
  destruct (min_demand dc) as [| |lo] eqn:Elo; cbn [has subscript sub bind];
    try discriminate;
    destruct (max_demand dc) as [| |hi] eqn:Ehi; cbn [has subscript add bind];
    try discriminate;
    floated;
    try destruct (Qltb quantity (lo - epsilon)) eqn:E1;
    try destruct (Qltb (hi + epsilon) quantity) eqn:E2;
    intro H; inversion H; subst; grown;
    intros dc' Hdc; inversion Hdc; subst;
    (split; [intros lo' Hlo; rewrite Elo in Hlo
            |intros hi' Hhi; rewrite Ehi in Hhi]);
    try discriminate;
    repeat match goal with
           | H : Num _ = Num _ |- _ => inversion H; subst; clear H
           end;
    apply Qltb_ge; assumption.
Qed.

Lemma check_plan_total_step (tc : total_constraints_t) (plan : dict Q)
    (ws ws' : list warning) :
  check_plan_total tc plan ws = Ret ws' ->
  exists extra,
    ws' = ws ++ extra /\
    (extra = [] ->
     (forall lo, min_total tc = Num lo ->
                 (lo - epsilon <= sum (values plan))%Q) /\
     (forall hi, max_total tc = Num hi ->
                 (sum (values plan) <= hi + epsilon)%Q)).
Proof.
  unfold check_plan_total. cbv zeta.
  destruct (min_total tc) as [| |lo] eqn:Elo;
    destruct (max_total tc) as [| |hi] eqn:Ehi;
    cbn [add sub bind]; floated;
    try destruct (Qltb (sum (values plan)) (lo - epsilon)) eqn:E1;
    try destruct (Qltb (hi + epsilon) (sum (values plan))) eqn:E2;
    intro H; inversion H; subst;
    grown;
    (split; [intros lo' Hlo|intros hi' Hhi]);
    try discriminate;
    repeat match goal with
           | H : Num _ = Num _ |- _ => inversion H; subst; clear H
           end;
    apply Qltb_ge; assumption.
Qed.

(** *** The verifier as a whole *)

Lemma _extract_common_data_parts (d : data) (obj : string)
    (pd : dict product) (rd : dict resource) (tbl : dict (dict (option Q))) :
  _extract_common_data d = Ret (obj, pd, rd, tbl) ->
  exists rs rus,
    resources d = Some rs /\ index_by "name" r_name rs = Ret rd /\
    resource_usage d = Some rus /\ usage_table rus = Ret tbl.
Proof.
  unfold _extract_common_data.
  destruct (objective d); cbn [get bind]; [|discriminate].
  destruct (products d) as [ps|]; cbn [get bind]; [|discriminate].
  destruct (index_by "name" p_name ps); cbn [bind]; [|discriminate].
  destruct (resources d) as [rs|]; cbn [get bind]; [|discriminate].
  destruct (index_by "name" r_name rs) as [rd0|] eqn:Er; cbn [bind];
    [|discriminate].
  destruct (resource_usage d) as [rus|]; cbn [get bind]; [|discriminate].
  destruct (usage_table rus) as [tbl0|] eqn:Et; cbn [bind]; [|discriminate].
  intro H; inversion H; subst. exists rs, rus. auto.
Qed.

(** A verifier that reports nothing has checked the plan against the
    payload and against the reported utilisation. *)
Lemma verifier_sound (d : data) (r : result) (plan : dict Q)
    (u : dict utilization) (obj : string) (pd : dict product)
    (rd : dict resource) (tbl : dict (dict (option Q))) (ok : bool) :
  _extract_common_data d = Ret (obj, pd, rd, tbl) ->
  r_status r = "optimal" ->
  production_plan r = Some plan ->
  resource_utilization r = Some u ->
  validate_solution_feasibility r d = Ret (ok, []) ->
  within_tolerance d plan /\
  (forall rn ut, In rn (keys rd) -> dict_get rn u = Some ut ->
                 (Qabs (usage_of tbl plan rn - used ut) <= epsilon)%Q).
Proof.
  intros Hex Hst Hplan Hu.
  destruct (_extract_common_data_parts d obj pd rd tbl Hex)
    as (rs & rus & Ers & Erd & Erus & Etbl).
  pose proof (ModelFacts.index_by_NoDup "name" r_name rs rd Erd) as Hnd.
  pose proof (usage_table_rows rus tbl Etbl) as Hrows.
  unfold validate_solution_feasibility.
  rewrite Hst, Hplan, Ers, Erus, Hu.
  cbn [String.eqb Ascii.eqb Bool.eqb negb get bind].
  rewrite Erd. cbn [bind]. rewrite Etbl. cbn [bind].
  destruct (accumulate_usage tbl plan
              (map (fun '(r_name, _) => (r_name, 0%Q)) rd)) as [calc|] eqn:Ec;
    cbn [bind]; [|discriminate].
  destruct (accumulate_usage_sum tbl plan _ _ Ec) as (Hk & Hv).
  rewrite PipelineFacts.zeroed_keys in Hk.
  destruct (check_small_step plan []) as (x0 & E0 & H0). rewrite E0.
  destruct (check_resources rd (Some u) calc ([] ++ x0)) as [w1|] eqn:E1;
    cbn [bind]; [|discriminate].
  apply (for_each_appends
           (fun entry : string * Q =>
              (forall ut, dict_get (fst entry) u = Some ut ->
                          (Qabs (snd entry - used ut) <= epsilon)%Q) /\
              (forall r c, dict_get (fst entry) rd = Some r ->
                           available_capacity r = Num c ->
                           (snd entry <= c + epsilon)%Q))) in E1.
  2:{ intros entry w w' _ Hb. apply (check_resources_step rd u entry w w').
      destruct entry. exact Hb. }
  destruct E1 as (x1 & -> & H1).
  assert (Hdem : forall w2,
             match demand_constraints d with
             | Some rows =>
                 dcs <- index_by "product_name" dc_product_name rows ;;
                 for_each (check_plan_demand dcs) plan (([] ++ x0) ++ x1)
             | None => Ret (([] ++ x0) ++ x1)
             end = Ret w2 ->
             exists x2,
               w2 = (([] ++ x0) ++ x1) ++ x2 /\
               (x2 = [] ->
                forall rows dcs,
                  demand_constraints d = Some rows ->
                  index_by "product_name" dc_product_name rows = Ret dcs ->
                  forall p q dc,
                    In (p, q) plan -> dict_get p dcs = Some dc ->
                    (forall lo, min_demand dc = Num lo ->
                                (lo - epsilon <= q)%Q) /\
                    (forall hi, max_demand dc = Num hi ->
                                (q <= hi + epsilon)%Q))).
  { intro w2. destruct (demand_constraints d) as [rows|].
    - destruct (index_by "product_name" dc_product_name rows) as [dcs|] eqn:Ei;
        cbn [bind]; [|discriminate].
      intro E2.
      apply (for_each_appends
               (fun entry : string * Q =>
                  forall dc, dict_get (fst entry) dcs = Some dc ->
                             (forall lo, min_demand dc = Num lo ->
                                         (lo - epsilon <= snd entry)%Q) /\
                             (forall hi, max_demand dc = Num hi ->
                                         (snd entry <= hi + epsilon)%Q))) in E2.
      2:{ intros entry w w' _ Hb. exact (check_plan_demand_step dcs entry w w' Hb). }
      destruct E2 as (x2 & -> & H2). exists x2. split; [reflexivity|].
      intros Hnil rows' dcs' Hrows' Hdcs' p q dc Hin Hdc.
      inversion Hrows'; subst rows'. rewrite Ei in Hdcs'.
      inversion Hdcs'; subst dcs'.
      specialize (H2 Hnil). rewrite Forall_forall in H2.
      exact (H2 (p, q) Hin dc Hdc).
    - intro E2; inversion E2; subst. exists [].
      split; [rewrite app_nil_r; reflexivity|]. intros _ rows dcs Hr.
      discriminate. }
  match goal with |- context [bind ?m _] => destruct m as [w2|] eqn:E2 end;
    cbn [bind]; [|discriminate].
  destruct (Hdem w2 eq_refl) as (x2 & -> & H2). clear Hdem.
  assert (Htot : forall w3,
             match total_constraints d with
             | Some tc => if truthy tc
                          then check_plan_total tc plan
                                 ((([] ++ x0) ++ x1) ++ x2)
                          else Ret ((([] ++ x0) ++ x1) ++ x2)
             | None => Ret ((([] ++ x0) ++ x1) ++ x2)
             end = Ret w3 ->
             exists x3,
             w3 = ((([] ++ x0) ++ x1) ++ x2) ++ x3 /\
             (x3 = [] ->
              forall tc,
                total_constraints d = Some tc ->
                (forall lo, min_total tc = Num lo ->
                            (lo - epsilon <= sum (values plan))%Q) /\
                (forall hi, max_total tc = Num hi ->
                            (sum (values plan) <= hi + epsilon)%Q))).
  { intro w3. destruct (total_constraints d) as [tc|].
    - destruct (truthy tc) eqn:Et.
      + intro E3.
        destruct (check_plan_total_step tc plan _ _ E3) as (x3 & -> & H3).
        exists x3. split; [reflexivity|].
        intros Hnil tc' Htc. inversion Htc; subst tc'. exact (H3 Hnil).
      + intro E3; inversion E3; subst.
        exists []. split; [rewrite app_nil_r; reflexivity|].
        intros _ tc' Htc. inversion Htc; subst.
        unfold truthy in Et. apply orb_false_iff in Et. destruct Et as [El Eh].
        split; [intros lo Hlo; rewrite Hlo in El
               |intros hi Hhi; rewrite Hhi in Eh]; discriminate.
    - intro E3; inversion E3; subst.
      exists []. split; [rewrite app_nil_r; reflexivity|].
      intros _ tc Htc. discriminate. }
  match goal with |- context [bind ?m _] => destruct m as [w3|] eqn:E3 end;
    cbn [bind]; [|discriminate].
  destruct (Htot w3 eq_refl) as (x3 & -> & H3). clear Htot.
  intro H. injection H as Hok Hnil.
  apply app_eq_nil in Hnil. destruct Hnil as [Hnil ->].
  apply app_eq_nil in Hnil. destruct Hnil as [Hnil ->].
  apply app_eq_nil in Hnil. destruct Hnil as [Hnil ->].
  cbn [app] in Hnil. subst x0.
  specialize (H0 eq_refl). specialize (H1 eq_refl). specialize (H2 eq_refl).
  specialize (H3 eq_refl). rewrite Forall_forall in H1.
  assert (Hcalc : forall rn, In rn (keys rd) ->
                             exists usage, In (rn, usage) calc /\
                                           (usage == usage_of tbl plan rn)%Q).
  { intros rn Hrn. rewrite <- Hk in Hrn.
    apply PipelineFacts.dict_get_keys in Hrn. destruct Hrn as (usage & Hg).
    exists usage. split; [exact (PipelineFacts.dict_get_entry _ _ _ Hg)|].
    specialize (Hv rn). unfold value_at at 1 in Hv. rewrite Hg in Hv.
    rewrite Hv, zeroed_value, (accumulated_usage_of tbl plan rn Hrows). ring. }
  split.
  - split; [exact H0|]. split; [|split; [exact H2|exact H3]].
    intros obj' pd' rd' tbl' Hex' rn res c Hin Hc.
    rewrite Hex in Hex'. inversion Hex'; subst obj' pd' rd' tbl'.
    destruct (Hcalc rn) as (usage & Hu1 & Hu2);
      [apply (in_map fst) in Hin; exact Hin|].
    rewrite <- Hu2.
    exact (proj2 (H1 _ Hu1) res c (dict_get_of_entry _ _ _ Hnd Hin) Hc).
  - intros rn ut Hrn Hut. destruct (Hcalc rn Hrn) as (usage & Hu1 & Hu2).
    rewrite <- Hu2. exact (proj1 (H1 _ Hu1) ut Hut).
Qed.

(** An answer of [optimize] with status ["optimal"] carries no warnings, and
    its plan respects the payload up to the tolerance [1e-6] of the
    verifier: no quantity lies strictly between zero and the tolerance, the
    plan uses no more of any resource than its capacity, every product with
    a demand constraint is within its bounds, and the sum of the plan is
    within the total bounds. *)
Theorem optimal_answer_within_tolerance (reg : registry) (e : engine)
    (optimizer_type : string) (d : data) (r : result) :
  snd (optimize reg e optimizer_type d) = Ret r ->
  r_status r = "optimal" ->
  feasibility_warnings r = None /\
  exists plan, production_plan r = Some plan /\ within_tolerance d plan.
Proof.
  unfold optimize, optimize_body.
  destruct (validate_optimization_input d) as [[[|] errs]|ex] eqn:Ev;
    cbn [negb fst snd].
  - destruct (AcceptanceFacts.validator_sound d errs Ev) as (_ & Hacc).
    destruct (get_optimizer reg optimizer_type) as [c|ex]; cbn [fst snd].
    2:{ destruct ex; intros H Hst; inversion H; subst; discriminate. }
    pose proof (PipelineFacts.solve_shape c e d) as Hs.
    destruct (Factory.solve c e d) as [evs r0]. cbn [fst snd] in *.
    unfold check_feasibility.
    destruct (String.eqb_spec (r_status r0) "optimal") as [Hst0|Hst0].
    + destruct (validate_solution_feasibility r0 d) as [[ok ws]|ex] eqn:Ews;
        cbn [bind].
      2:{ destruct ex; intros H Hst; inversion H; subst; discriminate. }
      pose proof (FactoryFacts.validate_solution_feasibility_flag r0 d ok ws
                    Hst0 Ews) as Hok.
      subst ok.
      destruct ws as [|w ws]; cbn [is_empty negb].
      * intros H _. inversion H; subst r0.
        destruct Hs as (Hfw & _ & [(_ & Hsol & _)|[(Hs & _)|([Hs|Hs] & _)]]);
          try (rewrite Hst0 in Hs; discriminate).
        destruct Hsol as (_ & (plan & Hplan) & (u & Hu) & _).
        split; [exact Hfw|]. exists plan. split; [exact Hplan|].
        destruct (PipelineFacts._extract_common_data_returns d Hacc)
          as (obj & ps & rs & rus & pd & rd & tbl & _ & _ & _ & _ & _ & _ & _
              & Hex & _).
        exact (proj1 (verifier_sound d r plan u obj pd rd tbl _ Hex Hst0
                        Hplan Hu Ews)).
      * intros H Hst. inversion H; subst r. discriminate.
    + intros H Hst. inversion H; subst r0. contradiction.
  - intros H Hst. inversion H; subst. discriminate.
  - destruct ex; intros H Hst; inversion H; subst; discriminate.
Qed.

Lemma optimal_answer_within_tolerance_witness :
  exists plan,
    production_plan
      {| r_status := "optimal";
         solver_message := Text "Optimal solution found";
         objective_value := Some 10%Q;
         production_plan := Some [("A", 10%Q)];
         resource_utilization :=
           Some [("R", {| used := 1 * 10 + 0; available := 10;
                          utilization_pct := (1 * 10 + 0) / 10 * 100 |})];
         total_production := Some (0 + 10)%Q;
         feasibility_warnings := None;
         infeasible_constraints := None;
         validation_errors := None |} = Some plan /\
    within_tolerance (one_product 10 (Some [at_least 3])) plan.
Proof.
  apply (optimal_answer_within_tolerance _optimizers
           (answer OPTIMAL 10 (fun _ => false)) "demand-constrained"
           (one_product 10 (Some [at_least 3]))).
  - vm_compute. reflexivity.
  - reflexivity.
Defined.

End VerifierFacts.

(** ** What an optimal answer reports *)

Module ReportFacts.

Import Engine Validation Optimizers Contracts Invariants Scenarios.

Lemma dict_get_named {V : Type} (mk : string -> V) (names : list string)
    (p : string) :
  dict_get p (map (fun p => (p, mk p)) names) =
  if mem p names then Some (mk p) else None.
Proof.
  induction names as [|n names IH]; simpl; [reflexivity|].
  rewrite (String.eqb_sym p n).
  destruct (String.eqb_spec n p) as [->|Hne]; [reflexivity|exact IH].
Qed.

(** The variables either builder hands on: one per product name, under that
    name. *)
Lemma built_variables (c : Factory.optimizer_class) (d : data) (m : model)
    (pv : dict var) (rd : dict resource) (tbl : dict (dict (option Q))) :
  match c with
  | Factory.BasicProductionOptimizer => BasicProductionOptimizer.build d
  | Factory.DemandConstrainedOptimizer => DemandConstrainedOptimizer.build d
  end = Ret (m, pv, rd, tbl) ->
  exists obj pd (mk : string -> var),
    _extract_common_data d = Ret (obj, pd, rd, tbl) /\
    NoDup (keys pd) /\
    (forall p, VarName (mk p) = ("produce_" ++ p)%string) /\
    pv = map (fun p => (p, mk p)) (keys pd).
Proof.
  assert (Hmain : forall (mk : string -> var) step name obj pd rd0 tbl0,
             (forall m1 pv1 p,
                 getVars (fst (step (m1, pv1) p)) = getVars m1 ++ [mk p] /\
                 getConstrs (fst (step (m1, pv1) p)) = getConstrs m1 /\
                 getObjective (fst (step (m1, pv1) p)) = getObjective m1 /\
                 snd (step (m1, pv1) p) = dict_set p (mk p) pv1) ->
             NoDup (keys pd) ->
             (let '(m1, production_vars) :=
                fold_left step (keys pd) (_create_model name, []) in
              m1 <- _set_objective m1 obj pd production_vars ;;
              m1 <- _add_resource_constraints m1 rd0 pd production_vars tbl0 ;;
              m1 <- add_total_if_given m1 d pd production_vars ;;
              Ret (m1, production_vars, rd0, tbl0)) = Ret (m, pv, rd, tbl) ->
             rd0 = rd /\ tbl0 = tbl /\
             pv = map (fun p => (p, mk p)) (keys pd)).
  { intros mk step name obj pd rd0 tbl0 Hstep Hnd.
    pose proof (ModelFacts.variables_fold mk step Hstep (keys pd)
                  (_create_model name) [] Hnd) as Hf.
    match goal with |- context [fold_left step (keys pd) ?i] =>
      set (out := fold_left step (keys pd) i) in * end.
    try change (fold_left step (keys pd) (_create_model name, [])) with out in Hf.
    destruct out as [m0 pv0]. destruct Hf as (_ & _ & _ & Hs).
    simpl in Hs.
    repeat match goal with
           | |- context [bind ?f _] => destruct f; cbn [bind]; [|discriminate]
           end.
    intro H; inversion H; subst. auto. }
  destruct c.
  - unfold BasicProductionOptimizer.build,
           BasicProductionOptimizer._create_production_variables.
    destruct (_extract_common_data d) as [[[[obj pd] rd0] tbl0]|] eqn:Eex;
      cbn [bind]; [|discriminate].
    intro H.
    assert (Hnd : NoDup (keys pd)).
    { destruct (ModelFacts._extract_common_data_NoDup d obj pd rd0 tbl0 Eex)
        as (Hnd & _). exact Hnd. }
    destruct (Hmain (fun p => {| VarName := ("produce_" ++ p)%string;
                                 LB := 0; UB := Infinity |})
                    BasicProductionOptimizer.add_variable
                    BasicProductionOptimizer.model_name obj pd rd0 tbl0
                    (fun m1 pv1 p => conj eq_refl (conj eq_refl
                                       (conj eq_refl eq_refl)))
                    Hnd H)
      as (-> & -> & Hrest).
    eexists obj, pd, _. split; [reflexivity|]. split; [exact Hnd|].
    split; [|exact Hrest]. reflexivity.
  - unfold DemandConstrainedOptimizer.build,
           DemandConstrainedOptimizer._create_production_variables_with_demand.
    destruct (_extract_common_data d) as [[[[obj pd] rd0] tbl0]|] eqn:Eex;
      cbn [bind]; [|discriminate].
    match goal with |- context [bind ?f _] =>
      destruct f as [dcs|]; cbn [bind]; [|discriminate] end.
    intro H.
    assert (Hnd : NoDup (keys pd)).
    { destruct (ModelFacts._extract_common_data_NoDup d obj pd rd0 tbl0 Eex)
        as (Hnd & _). exact Hnd. }
    assert (Hstep : forall m1 pv1 p,
               getVars (fst (DemandConstrainedOptimizer.add_variable dcs
                               (m1, pv1) p)) = getVars m1 ++ [variable_of dcs p] /\
               getConstrs (fst (DemandConstrainedOptimizer.add_variable dcs
                                  (m1, pv1) p)) = getConstrs m1 /\
               getObjective (fst (DemandConstrainedOptimizer.add_variable dcs
                                    (m1, pv1) p)) = getObjective m1 /\
               snd (DemandConstrainedOptimizer.add_variable dcs (m1, pv1) p)
               = dict_set p (variable_of dcs p) pv1).
    { intros. rewrite BuilderFacts.add_variable_eq. simpl. auto. }
    destruct (Hmain (variable_of dcs)
                    (DemandConstrainedOptimizer.add_variable dcs)
                    DemandConstrainedOptimizer.model_name obj pd rd0 tbl0
                    Hstep Hnd H)
      as (-> & -> & Hrest).
    eexists obj, pd, _. split; [reflexivity|]. split; [exact Hnd|].
    split; [|exact Hrest]. reflexivity.
Qed.

(** *** The utilisation *)

Lemma used_loop (s : solved) (mk : string -> var) (names : list string)
    (rn : string) (tbl : dict (dict (option Q))) :
  (forall p, VarName (mk p) = ("produce_" ++ p)%string) ->
  forall acc used_r : Q,
    for_each
      (fun '(product_name, product_usage) used_r =>
         match dict_get rn product_usage,
               dict_get product_name (map (fun p => (p, mk p)) names) with
         | Some u, Some v =>
             inc <- mul u (x s (VarName v)) ;;
             Ret (used_r + inc)%Q
         | _, _ => Ret used_r
         end)
      tbl acc = Ret used_r ->
    (used_r == acc + engine_usage s names tbl rn)%Q.
Proof.
  intro Hmk. unfold engine_usage.
  induction tbl as [|[p row] tbl IH]; intros acc used_r; simpl.
  - intro H; inversion H; subst. ring.
  - rewrite dict_get_named.
    destruct (dict_get rn row) as [[a|]|]; destruct (mem p names);
      cbn [mul bind]; try discriminate; floated;
      intro H; rewrite (IH _ _ H); rewrite ?Hmk; simpl; ring.
Qed.

Lemma _get_resource_utilization_entries (s : solved) (mk : string -> var)
    (names : list string) (tbl : dict (dict (option Q))) :
  (forall p, VarName (mk p) = ("produce_" ++ p)%string) ->
  forall (rd : dict resource) (acc u : dict utilization),
    NoDup (keys acc ++ keys rd) ->
    for_each
      (fun '(resource_name, r) utilization =>
         available <- subscript "available_capacity" (available_capacity r) ;;
         used_r <-
           for_each
             (fun '(product_name, product_usage) used_r =>
                match dict_get resource_name product_usage,
                      dict_get product_name (map (fun p => (p, mk p)) names) with
                | Some u, Some v =>
                    inc <- mul u (x s (VarName v)) ;;
                    Ret (used_r + inc)%Q
                | _, _ => Ret used_r
                end)
             tbl 0%Q ;;
         positive <- gt available (Some 0%Q) ;;
         match available with
         | Some a =>
             pct <- (if positive
                     then a <- float a ;; Ret ((used_r / a) * 100)%Q
                     else Ret 0%Q) ;;
             Ret (dict_set resource_name
                    {| used := used_r; available := a;
                       utilization_pct := pct |} utilization)
         | None => Raise TypeError
         end)
      rd acc = Ret u ->
    exists tail,
      u = acc ++ tail /\ Forall2 (utilization_entry s names tbl) rd tail.
Proof.
  intro Hmk. induction rd as [|[rn r] rd IH]; intros acc u Hnd; simpl.
  - intro H; inversion H; subst. exists []. split; [rewrite app_nil_r|]; auto.
  - destruct (available_capacity r) as [| |a] eqn:Ea; cbn [subscript bind];
      try discriminate.
    + match goal with |- context [for_each ?f tbl 0%Q] =>
        destruct (for_each f tbl 0%Q) end;
        cbn [bind gt lt]; discriminate.
    + match goal with |- context [for_each ?f tbl 0%Q] =>
        destruct (for_each f tbl 0%Q) as [used_r|] eqn:Eu end;
        cbn [bind gt lt]; [|discriminate].
      assert (Hfresh : ~ In rn (keys acc)).
      { intro Hin. apply NoDup_remove_2 in Hnd. apply Hnd.
        apply in_or_app. left; exact Hin. }
      destruct (Qltb 0 a) eqn:Hsign; cbn [bind]; floated;
        rewrite (TotalFacts.dict_set_fresh _ _ _ Hfresh);
        intro H; apply IH in H;
        try (unfold keys in *; rewrite map_app; simpl; rewrite <- app_assoc;
             exact Hnd);
        destruct H as (tail & -> & Htail);
        (eexists; split; [rewrite <- app_assoc; reflexivity|]);
        (constructor; [|exact Htail]);
        unfold utilization_entry; cbn [fst snd used available utilization_pct];
        (split; [reflexivity|]); (split; [exact Ea|]);
        (split; [rewrite (used_loop s mk names rn tbl Hmk _ _ Eu); ring|]).
      * apply Qltb_lt in Hsign. split; intro Hpos; [reflexivity|].
        exfalso. exact (Qlt_not_le _ _ Hsign Hpos).
      * apply Qltb_ge in Hsign. split; intro Hpos; [|reflexivity].
        exfalso. exact (Qlt_not_le _ _ Hpos Hsign).
Qed.

(** An answer of [solve] with status ["optimal"] reports what the engine
    found for the model built from the payload: the objective value of the
    engine; a plan with one entry per declared product, in order, holding
    the value of its variable, or zero when that value is below [1e-8] in
    magnitude; and one utilisation entry per declared resource, in order,
    with its capacity, the usage of the values of the engine, and that usage
    as a percentage of the capacity, or zero when the capacity is zero. *)
Theorem optimal_report (c : Factory.optimizer_class) (e : engine) (d : data) :
  r_status (snd (Factory.solve c e d)) = "optimal" ->
  exists obj pd rd tbl m pv s u,
    _extract_common_data d = Ret (obj, pd, rd, tbl) /\
    match c with
    | Factory.BasicProductionOptimizer => BasicProductionOptimizer.build d
    | Factory.DemandConstrainedOptimizer => DemandConstrainedOptimizer.build d
    end = Ret (m, pv, rd, tbl) /\
    e m = Ret s /\ Engine.status s = OPTIMAL /\
    objective_value (snd (Factory.solve c e d)) = Some (objVal s) /\
    production_plan (snd (Factory.solve c e d)) =
      Some (map (fun p => (p, clamp (x s ("produce_" ++ p)%string))) (keys pd)) /\
    resource_utilization (snd (Factory.solve c e d)) = Some u /\
    Forall2 (utilization_entry s (keys pd) tbl) rd u.
Proof.
  rewrite TotalFacts.snd_solve.
  set (b := match c with
            | Factory.BasicProductionOptimizer => BasicProductionOptimizer.build d
            | Factory.DemandConstrainedOptimizer =>
                DemandConstrainedOptimizer.build d
            end).
  pose proof (built_variables c d) as Hb. fold b in Hb.
  destruct b as [[[[m pv] rd] tbl]|ex]; [|discriminate].
  destruct (Hb m pv rd tbl eq_refl) as (obj & pd & mk & Hex & Hnd & Hmk & Hpv).
  pose proof (ModelFacts._extract_common_data_NoDup d obj pd rd tbl Hex)
    as (_ & Hrd).
  unfold finish. cbn [snd bind].
  destruct (e m) as [s|ex] eqn:Ee; cbn [bind]; [|discriminate].
  unfold _prepare_result.
  destruct (Z.eqb_spec (Engine.status s) OPTIMAL) as [Hst|Hst].
  2:{ destruct (Z.eqb (Engine.status s) INFEASIBLE).
      - destruct (computeIIS s); cbn [bind]; discriminate.
      - destruct (Z.eqb (Engine.status s) UNBOUNDED); discriminate. }
  destruct (_get_resource_utilization s rd pv tbl) as [u|] eqn:Eu;
    cbn [bind]; [|discriminate].
  intros _. exists obj, pd, rd, tbl, m, pv, s, u.
  split; [exact Hex|]. split; [reflexivity|]. split; [exact Ee|].
  split; [exact Hst|]. cbn [objective_value production_plan resource_utilization].
  split; [reflexivity|]. split; [|split; [reflexivity|]].
  - unfold build_plan.
    rewrite (TotalFacts.build_plan_map s pv []).
    2:{ cbn [keys map app]. rewrite Hpv.
        rewrite (proj1 (ModelFacts.keys_named mk (keys pd))). exact Hnd. }
    rewrite Hpv, map_map. cbn [app]. f_equal. apply map_ext.
    intro p. rewrite Hmk. reflexivity.
  - unfold _get_resource_utilization in Eu. rewrite Hpv in Eu.
    destruct (_get_resource_utilization_entries s mk (keys pd) tbl Hmk rd [] u
                Hrd Eu) as (tail & -> & Htail).
    exact Htail.
Qed.

Lemma optimal_report_witness :
  exists pd s,
    production_plan
      (snd (Factory.solve Factory.BasicProductionOptimizer
              (answer OPTIMAL 10 (fun _ => false)) (one_product 10 None))) =
      Some (map (fun p => (p, clamp (x s ("produce_" ++ p)%string)))
                (@keys product pd)) /\
    objVal s = 10%Q.
Proof.
  destruct (optimal_report Factory.BasicProductionOptimizer
              (answer OPTIMAL 10 (fun _ => false)) (one_product 10 None)
              eq_refl)
    as (obj & pd & rd & tbl & m & pv & s & u & _ & _ & He & _ & _ & Hplan & _).
  exists pd, s. split; [exact Hplan|].
  unfold answer in He. inversion He. reflexivity.
Defined.

End ReportFacts.

(** ** The routes [VRPSolver.solve] returns *)

Module TourFacts.

Import VRP Invariants.

(** *** Sums *)

Lemma quicksum_two_members {A : Type} (f : A -> Q) (l : list A) (a b : A) :
  (forall i, In i l -> (0 <= f i)%Q) ->
  NoDup l -> In a l -> In b l -> a <> b ->
  (f a + f b <= quicksum (map f l))%Q.
Proof.
  intros Hf Hnd Ha Hb Hab.
  assert (Hall : Forall (fun q => 0 <= q)%Q (map f l)).
  { apply Forall_forall. intros q Hq. apply in_map_iff in Hq.
    destruct Hq as (i & <- & Hi). apply Hf. exact Hi. }
  clear Hf. induction l as [|c l IH]; [destruct Ha|].
  cbn [map quicksum fold_right]. change (fold_right Qplus 0%Q) with quicksum.
  inversion Hall as [|? ? Hc Hl]; subst.
  inversion Hnd as [|? ? Hnot Hnd']; subst.
  destruct Ha as [Ha|Ha]; destruct Hb as [Hb|Hb].
  - congruence.
  - subst c.
    pose proof (RouteFacts.quicksum_member _ (f b) Hl (in_map f _ _ Hb)). lra.
  - subst c.
    pose proof (RouteFacts.quicksum_member _ (f a) Hl (in_map f _ _ Ha)). lra.
  - specialize (IH Hnd' Ha Hb Hl). lra.
Qed.

Lemma quicksum_positive_member (l : list Q) :
  (0 < quicksum l)%Q -> exists q, In q l /\ (0 < q)%Q.
Proof.
  induction l as [|q l IH]; cbn [quicksum fold_right].
  - intro H. exfalso. revert H. apply Qlt_irrefl.
  - change (fold_right Qplus 0%Q) with quicksum. intro H.
    destruct (Qlt_le_dec 0 q) as [Hq|Hq].
    + exists q. split; [left; reflexivity|exact Hq].
    + destruct IH as (q' & Hin & Hq'); [lra|].
      exists q'. split; [right; exact Hin|exact Hq'].
Qed.

Lemma quicksum_blocks_le (g g' : nat -> list Q) (l : list nat) :
  (forall i, In i l -> (quicksum (g i) <= quicksum (g' i))%Q) ->
  (quicksum (flat_map g l) <= quicksum (flat_map g' l))%Q.
Proof.
  induction l as [|c l IH]; intro H; cbn [flat_map].
  - apply Qle_refl.
  - rewrite !RouteFacts.quicksum_app.
    pose proof (H c (or_introl eq_refl)).
    assert (quicksum (flat_map g l) <= quicksum (flat_map g' l))%Q
      by (apply IH; intros i Hi; apply H; right; exact Hi).
    lra.
Qed.

Lemma quicksum_rev (l : list Q) : (quicksum (rev l) == quicksum l)%Q.
Proof.
  induction l as [|q l IH]; [reflexivity|].
  cbn [rev]. rewrite RouteFacts.quicksum_app, IH. unfold quicksum. simpl.
  ring.
Qed.

(** *** Arcs along a list of stops *)

Lemma arcs_snoc (r : list nat) (a b : nat) :
  Spec.arcs ((r ++ [a]) ++ [b]) = Spec.arcs (r ++ [a]) ++ [(a, b)].
Proof.
  unfold Spec.arcs. induction r as [|c r IH]; [reflexivity|].
  cbn [app tl] in *.
  destruct (r ++ [a]) as [|d t] eqn:E; [destruct r; discriminate|].
  cbn [app combine tl] in *. rewrite IH. reflexivity.
Qed.

Section OneSolution.

Variables num_vehicles depot_idx num_locations : nat.
Variable x : nat -> nat -> nat -> Q.

Hypothesis depot_in_range : depot_idx < num_locations.
Hypothesis values_nonneg : nonnegative num_vehicles num_locations x.
Hypothesis customers_once : visited_once num_vehicles depot_idx num_locations x.

(** *** Chains *)

Lemma chain_shape (k : nat) (l : list nat) :
  chain depot_idx x k l ->
  exists cs, l = cs ++ [depot_idx] /\ Forall (fun c => c <> depot_idx) cs.
Proof.
  induction 1 as [|b a l Hc IH Hsel Hab Hb].
  - exists []. split; [reflexivity|constructor].
  - destruct IH as (cs & E & Hcs). exists (b :: cs).
    split; [rewrite E; reflexivity|constructor; assumption].
Qed.

Lemma chain_arcs (k : nat) (l : list nat) :
  chain depot_idx x k l ->
  Forall (fun '(a, b) => selected x a b k = true) (Spec.arcs (rev l)).
Proof.
  induction 1 as [|b a l Hc IH Hsel Hab Hb]; [constructor|].
  change (rev (b :: a :: l)) with ((rev l ++ [a]) ++ [b]).
  rewrite arcs_snoc. apply Forall_app. split; [exact IH|].
  constructor; [exact Hsel|constructor].
Qed.

(** A chain visits no stop twice. *)
Lemma chain_NoDup (k : nat) (l : list nat) :
  k < num_vehicles ->
  chain depot_idx x k l ->
  (forall a, In a l -> a < num_locations) ->
  NoDup l.
Proof.
  intro Hk. induction 1 as [|b a l Hc IH Hsel Hab Hb]; intro Hbound.
  - constructor; [intros []|constructor].
  - assert (Hnd : NoDup (a :: l))
      by (apply IH; intros c Hin; apply Hbound; right; exact Hin).
    constructor; [|exact Hnd].
    intros [Heq|Hin]; [congruence|].
    inversion Hc as [|a0 a1 l1 Hc1 Hs1 Hn1 Hd1]; subst; [destruct Hin|].
    destruct (RouteFacts.chain_entered _ _ _ _ Hc1 b Hin Hb)
      as (a' & Ha' & Hs' & Hne').
    assert (Heq : a = a').
    { apply (RouteFacts.unique_entry num_vehicles depot_idx num_locations x
               depot_in_range values_nonneg customers_once a a' b k); auto.
      - apply Hbound. right; left; reflexivity.
      - apply Hbound. right; right; exact Ha'.
      - apply Hbound. left; reflexivity. }
    subst a'. inversion Hnd; subst. contradiction.
Qed.

(** A reconstructed route is a chain, read from the depot on, and ends
    either where no arc leaves or with the arc back to the depot. *)
Lemma continues_chain (k i : nat) (rest : list nat) :
  Spec.continues num_locations depot_idx x k i rest ->
  forall rp,
    chain depot_idx x k (i :: rp) ->
    (forall a, In a (i :: rp) -> a < num_locations) ->
    exists l,
      chain depot_idx x k l /\
      (forall a, In a l -> a < num_locations) /\
      ((rev (i :: rp) ++ rest = rev l /\
        Spec.no_outgoing num_locations x k (hd depot_idx l)) \/
       (rev (i :: rp) ++ rest = rev l ++ [depot_idx] /\
        Spec.followed num_locations x k (hd depot_idx l) depot_idx)).
Proof.
  induction 1 as [i Hno|i Hfol|i j rest Hfol Hjd Hrest IH]; intros rp Hc Hb.
  - exists (i :: rp). split; [exact Hc|]. split; [exact Hb|].
    left. split; [apply app_nil_r|exact Hno].
  - exists (i :: rp). split; [exact Hc|]. split; [exact Hb|].
    right. split; [reflexivity|exact Hfol].
  - destruct Hfol as (Hj & Hji & Harc & Hmin).
    destruct (IH (i :: rp)) as (l & Hl & Hbl & Hend).
    + apply chain_next; auto. apply RouteFacts.selected_arc. exact Harc.
    + intros a [<-|Ha]; [exact Hj|apply Hb; exact Ha].
    + exists l. split; [exact Hl|]. split; [exact Hbl|].
      change (rev (j :: i :: rp)) with (rev (i :: rp) ++ [j]) in Hend.
      rewrite <- !app_assoc in Hend. exact Hend.
Qed.

Lemma route_chain (k : nat) (r : list nat) :
  Spec.route num_locations depot_idx x k r ->
  exists l,
    chain depot_idx x k l /\
    (forall a, In a l -> a < num_locations) /\
    ((r = rev l /\ Spec.no_outgoing num_locations x k (hd depot_idx l)) \/
     (r = rev l ++ [depot_idx] /\
      Spec.followed num_locations x k (hd depot_idx l) depot_idx)).
Proof.
  intros (rest & -> & Hrest).
  apply (continues_chain k depot_idx rest Hrest []).
  - constructor.
  - intros a [<-|[]]. exact depot_in_range.
Qed.

(** *** No customer twice *)

(** A customer is entered over one arc of one vehicle. *)
Lemma unique_entry_across (a a' j k k' : nat) :
  a < num_locations -> a' < num_locations -> j < num_locations ->
  k < num_vehicles -> k' < num_vehicles ->
  j <> depot_idx -> a <> j -> a' <> j ->
  selected x a j k = true -> selected x a' j k' = true ->
  a = a' /\ k = k'.
Proof.
  intros Ha Ha' Hj Hk Hk' Hjd Haj Ha'j Hs Hs'.
  set (g := fun i0 => if i0 =? j then []
                      else map (fun k0 => x i0 j k0) (seq 0 num_vehicles)).
  assert (Hg : forall i0, In i0 (seq 0 num_locations) ->
                          Forall (fun q => 0 <= q)%Q (g i0)).
  { intros i0 Hi0. unfold g. destruct (i0 =? j); [constructor|].
    apply Forall_forall. intros q Hq. apply in_map_iff in Hq.
    destruct Hq as (k0 & <- & Hk0). apply in_seq in Hk0. apply in_seq in Hi0.
    apply values_nonneg; lia. }
  assert (Hin : forall i0, i0 < num_locations -> In i0 (seq 0 num_locations))
    by (intros; apply in_seq; lia).
  assert (Hink : forall k0, k0 < num_vehicles -> In k0 (seq 0 num_vehicles))
    by (intros; apply in_seq; lia).
  pose proof (customers_once j Hj Hjd) as Hsum.
  change (quicksum (flat_map g (seq 0 num_locations)) == 1)%Q in Hsum.
  unfold selected in Hs, Hs'. apply Qltb_lt in Hs. apply Qltb_lt in Hs'.
  assert (Hterm : forall i0 k0, i0 < num_locations -> k0 < num_vehicles ->
                                i0 <> j -> (x i0 j k0 <= quicksum (g i0))%Q).
  { intros i0 k0 Hi0 Hk0 Hne0. apply RouteFacts.quicksum_member.
    - apply Hg. apply Hin. exact Hi0.
    - unfold g. destruct (Nat.eqb_spec i0 j); [contradiction|].
      apply in_map_iff. exists k0. split; [reflexivity|apply Hink; exact Hk0]. }
  destruct (Nat.eq_dec a a') as [<-|Hne].
  - split; [reflexivity|].
    destruct (Nat.eq_dec k k') as [|Hkk]; [assumption|exfalso].
    pose proof (quicksum_two_members (fun k0 => x a j k0) (seq 0 num_vehicles)
                  k k') as Htwo.
    pose proof (RouteFacts.quicksum_block g (seq 0 num_locations) a Hg
                  (Hin a Ha)) as Hblock.
    unfold g at 1 in Hblock.
    destruct (Nat.eqb_spec a j); [contradiction|].
    assert (x a j k + x a j k' <=
            quicksum (map (fun k0 => x a j k0) (seq 0 num_vehicles)))%Q.
    { apply Htwo; auto.
      - intros k0 Hk0. apply in_seq in Hk0. apply values_nonneg; lia.
      - apply seq_NoDup. }
    lra.
  - exfalso.
    pose proof (RouteFacts.quicksum_two_blocks g (seq 0 num_locations) a a' Hg
                  (Hin a Ha) (Hin a' Ha') Hne) as Htwo.
    pose proof (Hterm a k Ha Hk Haj). pose proof (Hterm a' k' Ha' Hk' Ha'j).
    lra.
Qed.

(** What a customer on the route of vehicle [k] tells about the arcs. *)
Lemma route_customer_entered (k j : nat) (r : list nat) :
  Spec.route num_locations depot_idx x k r ->
  In j (customers depot_idx r) ->
  j < num_locations /\ j <> depot_idx /\
  exists a, a < num_locations /\ a <> j /\ selected x a j k = true.
Proof.
  intros Hr Hj. unfold customers in Hj. apply filter_In in Hj.
  destruct Hj as (Hin & Hjd). apply negb_true_iff, Nat.eqb_neq in Hjd.
  destruct (route_chain k r Hr) as (l & Hl & Hb & Hend).
  assert (Hjl : In j l).
  { destruct Hend as [(-> & _)|(-> & _)].
    - apply in_rev. exact Hin.
    - apply in_app_or in Hin. destruct Hin as [Hin|[Heq|[]]].
      + apply in_rev. exact Hin.
      + congruence. }
  split; [exact (Hb j Hjl)|]. split; [exact Hjd|].
  destruct (RouteFacts.chain_entered _ _ _ _ Hl j Hjl Hjd) as (a & Ha & Hs & Hne).
  exists a. split; [exact (Hb a Ha)|]. split; assumption.
Qed.

Lemma customers_app (r r' : list nat) :
  customers depot_idx (r ++ r') = customers depot_idx r ++ customers depot_idx r'.
Proof. unfold customers. apply filter_app. Qed.

Lemma customers_rev (r : list nat) :
  customers depot_idx (rev r) = rev (customers depot_idx r).
Proof.
  unfold customers. induction r as [|a r IH]; [reflexivity|].
  cbn [rev filter]. rewrite filter_app, IH. cbn [filter].
  destruct (negb (a =? depot_idx)); [reflexivity|apply app_nil_r].
Qed.

Lemma customers_of_route (k : nat) (r : list nat) (l : list nat) :
  r = rev l \/ r = rev l ++ [depot_idx] ->
  customers depot_idx r = rev (customers depot_idx l).
Proof.
  intros [->| ->].
  - apply customers_rev.
  - rewrite customers_app, customers_rev. unfold customers at 2.
    cbn [filter]. rewrite Nat.eqb_refl. apply app_nil_r.
Qed.

Lemma route_customers_NoDup (k : nat) (r : list nat) :
  k < num_vehicles ->
  Spec.route num_locations depot_idx x k r ->
  NoDup (customers depot_idx r).
Proof.
  intros Hk Hr. destruct (route_chain k r Hr) as (l & Hl & Hb & Hend).
  rewrite (customers_of_route k r l).
  - apply NoDup_rev. unfold customers. apply NoDup_filter.
    exact (chain_NoDup k l Hk Hl Hb).
  - destruct Hend as [(E & _)|(E & _)]; auto.
Qed.

End OneSolution.

(** *** Lists of routes *)

Lemma Forall2_In_r {A B : Type} (R : A -> B -> Prop) (l : list A)
    (l' : list B) (b : B) :
  Forall2 R l l' -> In b l' -> exists a, In a l /\ R a b.
Proof.
  induction 1 as [|a b0 l l' Hab Hrest IH]; [intros []|].
  intros [<-|Hin].
  - exists a. split; [left; reflexivity|exact Hab].
  - destruct (IH Hin) as (a' & Ha' & HR). exists a'. split; [right|]; assumption.
Qed.

Lemma NoDup_flat_map_indexed {A B C : Type} (R : A -> B -> Prop)
    (f : B -> list C) (ks : list A) (rs : list B) :
  Forall2 R ks rs ->
  NoDup ks ->
  (forall k r, In k ks -> R k r -> NoDup (f r)) ->
  (forall k k' r r' j, In k ks -> In k' ks -> R k r -> R k' r' ->
                       In j (f r) -> In j (f r') -> k = k') ->
  NoDup (flat_map f rs).
Proof.
  induction 1 as [|k r ks rs Hkr Hrest IH]; intros Hnd Hone Hacross.
  - constructor.
  - cbn [flat_map]. inversion Hnd as [|? ? Hnot Hnd']; subst.
    assert (Htail : NoDup (flat_map f rs)).
    { apply IH; [exact Hnd'| |].
      - intros k0 r0 Hk0. apply Hone. right; exact Hk0.
      - intros k0 k0' r0 r0' j Hk0 Hk0'. apply Hacross; right; assumption. }
    assert (Hhead : NoDup (f r))
      by (apply (Hone k r); [left; reflexivity|exact Hkr]).
    apply NoDup_app; [exact Hhead|exact Htail|].
    intros j Hj Hin. apply in_flat_map in Hin. destruct Hin as (r' & Hr' & Hj').
    destruct (Forall2_In_r R ks rs r' Hrest Hr') as (k' & Hk' & HR').
    apply Hnot.
    assert (Heq : k = k'); [|subst k'; exact Hk'].
    apply (Hacross k k' r r' j); auto; [left; reflexivity|right; exact Hk'].
Qed.

(** The customers of the routes that are kept. *)
Lemma customers_kept (depot_idx : nat) (per_vehicle : list (list nat)) :
  customers depot_idx
    (List.concat (filter (fun r => 2 <? List.length r) per_vehicle)) =
  flat_map (fun r => if 2 <? List.length r then customers depot_idx r else [])
           per_vehicle.
Proof.
  induction per_vehicle as [|r rs IH]; [reflexivity|].
  cbn [filter flat_map]. destruct (2 <? List.length r).
  - cbn [List.concat]. rewrite customers_app, IH. reflexivity.
  - exact IH.
Qed.

(** No customer is visited twice: over all the routes [solve] returns, the
    stops other than the depot are pairwise distinct. Only two facts about
    the values of the arcs are used, that they are not negative and that the
    arcs into a customer sum to one. *)
Theorem solve_visits_no_customer_twice
    (num_vehicles depot_idx num_locations : nat)
    (dist_matrix : nat -> nat -> Q) (x : nat -> nat -> nat -> Q) (fuel : nat) :
  depot_idx < num_locations ->
  nonnegative num_vehicles num_locations x ->
  visited_once num_vehicles depot_idx num_locations x ->
  num_locations < fuel ->
  exists sol,
    solve num_vehicles depot_idx num_locations dist_matrix fuel
          (Solved OPTIMAL x) = Some sol /\
    NoDup (customers depot_idx (List.concat (routes sol))).
Proof.
  intros Hd Hn Hv Hfuel.
  destruct (RouteFacts.extract_routes num_vehicles depot_idx num_locations x
              Hd Hn Hv fuel Hfuel (seq 0 num_vehicles)) as (rs & Hex & Hall).
  { intros k Hk. apply in_seq in Hk. lia. }
  eexists. unfold solve. rewrite Z.eqb_refl, Hex, RouteFacts.non_empty_kept.
  split; [reflexivity|]. cbn [routes]. rewrite customers_kept.
  apply (NoDup_flat_map_indexed
           (fun k r => Spec.route num_locations depot_idx x k r) _
           (seq 0 num_vehicles) rs Hall (seq_NoDup _ _)).
  - intros k r Hk Hr. apply in_seq in Hk.
    destruct (2 <? List.length r); [|constructor].
    apply (route_customers_NoDup num_vehicles depot_idx num_locations x Hd Hn Hv
             k r); [lia|exact Hr].
  - intros k k' r r' j Hk Hk' Hr Hr' Hj Hj'.
    apply in_seq in Hk. apply in_seq in Hk'.
    destruct (2 <? List.length r); [|destruct Hj].
    destruct (2 <? List.length r'); [|destruct Hj'].
    destruct (route_customer_entered depot_idx num_locations x Hd
                k j r Hr Hj) as (Hjn & Hjd & a & Ha & Haj & Hs).
    destruct (route_customer_entered depot_idx num_locations x Hd
                k' j r' Hr' Hj') as (_ & _ & a' & Ha' & Ha'j & Hs').
    apply (unique_entry_across num_vehicles depot_idx num_locations x Hd Hn Hv
             a a' j k k'); auto; lia.
Qed.

Lemma solve_visits_no_customer_twice_witness :
  exists sol,
    solve 1 0 4 Scenarios.ten_apart 5 (Solved OPTIMAL Scenarios.square_tour)
      = Some sol /\
    NoDup (customers 0 (List.concat (routes sol))).
Proof.
  apply (solve_visits_no_customer_twice 1 0 4 Scenarios.ten_apart
           Scenarios.square_tour 5).
  - lia.
  - intros i j k _ _ _. unfold Scenarios.square_tour.
    match goal with |- context [if ?b then _ else _] => destruct b end;
      discriminate.
  - intros j Hj Hjd.
    destruct j as [|[|[|[|j]]]]; try lia; reflexivity.
  - lia.
Defined.

(** *** Closed tours *)

Lemma binary_nonnegative (num_vehicles num_locations : nat)
    (x : nat -> nat -> nat -> Q) :
  binary num_vehicles num_locations x ->
  nonnegative num_vehicles num_locations x.
Proof.
  intros Hb i j k Hi Hj Hk. destruct (Hb i j k Hi Hj Hk) as [H|H]; lra.
Qed.

Lemma flow_members (f : nat -> Q) (h : nat) (q : Q) (l : list nat) :
  In q (flat_map (fun i => if i =? h then [] else [f i]) l) <->
  exists i, In i l /\ i <> h /\ q = f i.
Proof.
  rewrite in_flat_map. split.
  - intros (i & Hi & Hq). destruct (Nat.eqb_spec i h); [destruct Hq|].
    destruct Hq as [<-|[]]. exists i. auto.
  - intros (i & Hi & Hne & ->). exists i. split; [exact Hi|].
    destruct (Nat.eqb_spec i h); [contradiction|left; reflexivity].
Qed.

Lemma flow_member_le (f : nat -> Q) (h i : nat) (l : list nat) :
  (forall i, In i l -> (0 <= f i)%Q) ->
  In i l -> i <> h ->
  (f i <= quicksum (flat_map (fun i => if i =? h then [] else [f i]) l))%Q.
Proof.
  intros Hf Hi Hne. apply RouteFacts.quicksum_member.
  - apply Forall_forall. intros q Hq. apply flow_members in Hq.
    destruct Hq as (i0 & Hi0 & _ & ->). apply Hf. exact Hi0.
  - apply flow_members. exists i. auto.
Qed.

Section Flows.

Variables num_vehicles depot_idx num_locations : nat.
Variable x : nat -> nat -> nat -> Q.

Hypothesis depot_in_range : depot_idx < num_locations.
Hypothesis values_binary : binary num_vehicles num_locations x.
Hypothesis customers_once : visited_once num_vehicles depot_idx num_locations x.
Hypothesis flows : flow_conservation num_vehicles num_locations x.

Lemma selected_is_one (a b k : nat) :
  a < num_locations -> b < num_locations -> k < num_vehicles ->
  selected x a b k = true <-> (x a b k == 1)%Q.
Proof.
  intros Ha Hb Hk. unfold selected. rewrite Qltb_lt.
  destruct (values_binary a b k Ha Hb Hk) as [H|H]; split; intro; lra.
Qed.

Lemma positive_is_selected (a b k : nat) :
  a < num_locations -> b < num_locations -> k < num_vehicles ->
  (0 < x a b k)%Q -> selected x a b k = true.
Proof.
  intros Ha Hb Hk Hpos. apply selected_is_one; auto.
  destruct (values_binary a b k Ha Hb Hk) as [H|H]; lra.
Qed.

Lemma inflow_ge (a h k : nat) :
  a < num_locations -> h < num_locations -> k < num_vehicles -> a <> h ->
  (x a h k <= inflow num_locations x h k)%Q.
Proof.
  intros Ha Hh Hk Hne. unfold inflow.
  apply (flow_member_le (fun i => x i h k)); [|apply in_seq; lia|exact Hne].
  intros i Hi. apply in_seq in Hi.
  apply (binary_nonnegative _ _ _ values_binary); lia.
Qed.

Lemma outflow_ge (h b k : nat) :
  h < num_locations -> b < num_locations -> k < num_vehicles -> b <> h ->
  (x h b k <= outflow num_locations x h k)%Q.
Proof.
  intros Hh Hb Hk Hne. unfold outflow.
  apply (flow_member_le (fun j => x h j k)); [|apply in_seq; lia|exact Hne].
  intros j Hj. apply in_seq in Hj.
  apply (binary_nonnegative _ _ _ values_binary); lia.
Qed.

(** A vehicle that enters a node over a selected arc leaves it over one. *)
Lemma exit_exists (a h k : nat) :
  a < num_locations -> h < num_locations -> k < num_vehicles -> a <> h ->
  selected x a h k = true ->
  exists j, j < num_locations /\ j <> h /\ selected x h j k = true.
Proof.
  intros Ha Hh Hk Hne Hs.
  pose proof (inflow_ge a h k Ha Hh Hk Hne) as Hin.
  apply selected_is_one in Hs; auto.
  pose proof (flows k h Hk Hh) as Hflow.
  destruct (quicksum_positive_member
              (flat_map (fun j => if j =? h then [] else [x h j k])
                        (seq 0 num_locations))) as (q & Hq & Hpos).
  { change (0 < outflow num_locations x h k)%Q. lra. }
  apply flow_members in Hq. destruct Hq as (j & Hj & Hjh & ->).
  apply in_seq in Hj. exists j. split; [lia|]. split; [exact Hjh|].
  apply positive_is_selected; auto; lia.
Qed.

(** A vehicle that leaves a node over a selected arc entered it over one. *)
Lemma entry_exists (h b k : nat) :
  h < num_locations -> b < num_locations -> k < num_vehicles -> b <> h ->
  selected x h b k = true ->
  exists a, a < num_locations /\ a <> h /\ selected x a h k = true.
Proof.
  intros Hh Hb Hk Hne Hs.
  pose proof (outflow_ge h b k Hh Hb Hk Hne) as Hout.
  apply selected_is_one in Hs; auto.
  pose proof (flows k h Hk Hh) as Hflow.
  destruct (quicksum_positive_member
              (flat_map (fun i => if i =? h then [] else [x i h k])
                        (seq 0 num_locations))) as (q & Hq & Hpos).
  { change (0 < inflow num_locations x h k)%Q. lra. }
  apply flow_members in Hq. destruct Hq as (a & Ha & Hah & ->).
  apply in_seq in Ha. exists a. split; [lia|]. split; [exact Hah|].
  apply positive_is_selected; auto; lia.
Qed.

(** The route of a vehicle that reaches a customer comes back to the
    depot. *)
Lemma route_closed (k : nat) (r : list nat) :
  k < num_vehicles ->
  Spec.route num_locations depot_idx x k r ->
  2 < List.length r ->
  closed_tour depot_idx num_locations r /\
  forall a b, In (a, b) (Spec.arcs r) -> (x a b k == 1)%Q.
Proof.
  intros Hk Hr Hlen.
  pose proof (binary_nonnegative _ _ _ values_binary) as Hnn.
  destruct (route_chain depot_idx num_locations x depot_in_range k r Hr)
    as (l & Hl & Hb & Hend).
  destruct (chain_shape depot_idx x k l Hl) as (cs & El & Hcs).
  pose proof (chain_NoDup num_vehicles depot_idx num_locations x
                depot_in_range Hnn customers_once k l Hk Hl Hb) as Hnd.
  pose proof (chain_arcs depot_idx x k l Hl) as Harcs.
  destruct cs as [|c cs].
  { exfalso. subst l. cbn [app hd rev] in Hend.
    destruct Hend as [(-> & _)|(-> & _)]; cbn [List.length app] in Hlen; lia. }
  assert (Hc : c < num_locations /\ c <> depot_idx).
  { split; [apply Hb; subst l; left; reflexivity|].
    inversion Hcs; assumption. }
  assert (Hentered : exists a, a < num_locations /\ a <> c /\
                               selected x a c k = true).
  { subst l. cbn [app] in Hl, Hb.
    destruct (cs ++ [depot_idx]) as [|a t] eqn:Et; [destruct cs; discriminate|].
    inversion Hl as [|b a' l' Hc' Hsel Hab Hbd]; subst.
    exists a. split; [apply Hb; right; left; reflexivity|auto]. }
  destruct Hentered as (a & Ha & Hac & Hsel).
  assert (Hhd : hd depot_idx l = c) by (subst l; reflexivity).
  rewrite Hhd in Hend.
  destruct Hend as [(_ & Hno)|(Er & Hfol)].
  { exfalso. destruct (exit_exists a c k) as (j & Hj & Hjc & Hsj); auto;
      [apply Hc|].
    apply (Hno j Hj Hjc). apply RouteFacts.selected_arc. exact Hsj. }
  assert (Erev : rev l = depot_idx :: rev (c :: cs)).
  { subst l. rewrite rev_app_distr. reflexivity. }
  split.
  - exists (rev (c :: cs)). split; [rewrite Er, Erev; reflexivity|].
    split; [cbn [rev]; intro H; apply app_eq_nil in H; destruct H; discriminate|].
    split.
    + apply NoDup_rev. subst l. apply NoDup_app_remove_r in Hnd. exact Hnd.
    + apply Forall_rev. apply Forall_forall. intros c0 Hc0. split.
      * apply Hb. subst l. apply in_or_app. left; exact Hc0.
      * rewrite Forall_forall in Hcs. apply Hcs. exact Hc0.
  - assert (Hall : Forall (fun '(a, b) => selected x a b k = true)
                          (Spec.arcs r)).
    { rewrite Er. subst l. rewrite rev_app_distr. cbn [rev app].
      change (depot_idx :: (rev cs ++ [c]) ++ [depot_idx])
        with (((depot_idx :: rev cs) ++ [c]) ++ [depot_idx]).
      rewrite arcs_snoc. apply Forall_app. split.
      - rewrite rev_app_distr in Harcs. exact Harcs.
      - constructor; [|constructor].
        destruct Hfol as (_ & _ & Harc & _).
        apply RouteFacts.selected_arc. exact Harc. }
    assert (Hstops : forall s, In s r -> s < num_locations).
    { intros s Hs. rewrite Er in Hs. apply in_app_or in Hs.
      destruct Hs as [Hs|[<-|[]]]; [|exact depot_in_range].
      apply Hb. apply in_rev. exact Hs. }
    intros a0 b0 Hin. rewrite Forall_forall in Hall.
    pose proof (Hall _ Hin) as Hs0. cbn beta iota in Hs0.
    unfold Spec.arcs in Hin.
    apply selected_is_one; auto.
    + apply Hstops. exact (in_combine_l _ _ _ _ Hin).
    + apply Hstops. apply in_combine_r in Hin.
      destruct r; [destruct Hin|right; exact Hin].
Qed.

End Flows.

(** With binary arcs, every customer entered once and flow conserved, each
    route [solve] returns is a closed tour: it starts at the depot, visits
    one or more customers, each of them once and none of them the depot, and
    ends at the depot; and each of its legs is an arc that the solution
    selects for one and the same vehicle. *)
Theorem solve_returns_closed_tours
    (num_vehicles depot_idx num_locations : nat)
    (dist_matrix : nat -> nat -> Q) (x : nat -> nat -> nat -> Q) (fuel : nat) :
  depot_idx < num_locations ->
  binary num_vehicles num_locations x ->
  visited_once num_vehicles depot_idx num_locations x ->
  flow_conservation num_vehicles num_locations x ->
  num_locations < fuel ->
  exists sol,
    solve num_vehicles depot_idx num_locations dist_matrix fuel
          (Solved OPTIMAL x) = Some sol /\
    Forall (fun r =>
              closed_tour depot_idx num_locations r /\
              exists k, k < num_vehicles /\
                        forall a b, In (a, b) (Spec.arcs r) ->
                                    (x a b k == 1)%Q)
           (routes sol).
Proof.
  intros Hd Hbin Hv Hflow Hfuel.
  pose proof (binary_nonnegative _ _ _ Hbin) as Hn.
  destruct (RouteFacts.extract_routes num_vehicles depot_idx num_locations x
              Hd Hn Hv fuel Hfuel (seq 0 num_vehicles)) as (rs & Hex & Hall).
  { intros k Hk. apply in_seq in Hk. lia. }
  eexists. unfold solve. rewrite Z.eqb_refl, Hex, RouteFacts.non_empty_kept.
  split; [reflexivity|]. cbn [routes].
  apply Forall_forall. intros r Hr. apply filter_In in Hr.
  destruct Hr as (Hr & Hlen). apply Nat.ltb_lt in Hlen.
  destruct (Forall2_In_r _ _ _ r Hall Hr) as (k & Hk & Hroute).
  apply in_seq in Hk.
  destruct (route_closed num_vehicles depot_idx num_locations x Hd Hbin Hv
              Hflow k r) as (Hclosed & Harcs); [lia|exact Hroute|exact Hlen|].
  split; [exact Hclosed|]. exists k. split; [lia|exact Harcs].
Qed.

Lemma solve_returns_closed_tours_witness :
  exists sol,
    solve 1 0 4 Scenarios.ten_apart 5 (Solved OPTIMAL Scenarios.square_tour)
      = Some sol /\
    Forall (fun r =>
              closed_tour 0 4 r /\
              exists k, k < 1 /\
                        forall a b, In (a, b) (Spec.arcs r) ->
                                    (Scenarios.square_tour a b k == 1)%Q)
           (routes sol).
Proof.
  apply (solve_returns_closed_tours 1 0 4 Scenarios.ten_apart
           Scenarios.square_tour 5).
  - lia.
  - intros i j k _ _ _. unfold Scenarios.square_tour.
    match goal with |- context [if ?b then _ else _] => destruct b end;
      [right|left]; reflexivity.
  - intros j Hj Hjd.
    destruct j as [|[|[|[|j]]]]; try lia; reflexivity.
  - intros k h Hk Hh. destruct k as [|k]; [|lia].
    destruct h as [|[|[|[|h]]]]; try lia; reflexivity.
  - lia.
Defined.

(** *** Capacity *)

Section Loads.

Variables num_vehicles depot_idx num_locations : nat.
Variable x : nat -> nat -> nat -> Q.
Variable demands : nat -> Q.
Variable capacity : Q.
Variable u : nat -> nat -> Q.

Hypothesis values_binary : binary num_vehicles num_locations x.
Hypothesis cumulative :
  mtz num_vehicles depot_idx num_locations demands capacity x u.

(** The cumulative demand at the newest stop of a chain covers what the
    chain delivers. *)
Lemma chain_load (k : nat) (l : list nat) :
  k < num_vehicles ->
  chain depot_idx x k l ->
  (forall a, In a l -> a < num_locations) ->
  (quicksum (map demands (customers depot_idx l)) <= u (hd depot_idx l) k)%Q.
Proof.
  intros Hk. destruct (cumulative k Hk) as (Hu0 & Hbounds & Hmtz).
  induction 1 as [|b a l Hc IH Hsel Hab Hb]; intro Hbound.
  - unfold customers. cbn [filter hd]. rewrite Nat.eqb_refl.
    cbn [negb map quicksum fold_right]. lra.
  - assert (Hbn : b < num_locations) by (apply Hbound; left; reflexivity).
    assert (Han : a < num_locations)
      by (apply Hbound; right; left; reflexivity).
    assert (IH' : (quicksum (map demands (customers depot_idx (a :: l)))
                   <= u a k)%Q)
      by (apply IH; intros c Hin; apply Hbound; right; exact Hin).
    unfold customers in *. cbn [filter hd] in *.
    destruct (Nat.eqb_spec b depot_idx) as [|_]; [contradiction|].
    cbn [negb map quicksum fold_right].
    change (fold_right Qplus 0%Q) with quicksum.
    revert IH'. destruct (Nat.eqb_spec a depot_idx) as [Ea|Ea]; intro IH'.
    + subst a. destruct (Hbounds b Hbn Hb) as (_ & Hlow).
      cbn [negb] in *. lra.
    + pose proof (Hmtz a b Han Hbn Ea Hb Hab) as Hstep.
      assert (Hone : (x a b k == 1)%Q).
      { unfold selected in Hsel. apply Qltb_lt in Hsel.
        destruct (values_binary a b k Han Hbn Hk) as [H|H]; lra. }
      rewrite Hone in Hstep. cbn [negb map quicksum fold_right] in *.
      change (fold_right Qplus 0%Q) with quicksum in *. lra.
Qed.

Lemma route_load (k : nat) (r : list nat) :
  depot_idx < num_locations ->
  k < num_vehicles ->
  Spec.route num_locations depot_idx x k r ->
  2 < List.length r ->
  (load demands depot_idx r <= capacity)%Q.
Proof.
  intros Hd Hk Hr Hlen.
  destruct (cumulative k Hk) as (_ & Hbounds & _).
  destruct (route_chain depot_idx num_locations x Hd k r Hr)
    as (l & Hl & Hb & Hend).
  unfold load. rewrite (customers_of_route depot_idx k r l).
  2:{ destruct Hend as [(E & _)|(E & _)]; auto. }
  rewrite map_rev, quicksum_rev.
  pose proof (chain_load k l Hk Hl Hb) as Hload.
  destruct (chain_shape depot_idx x k l Hl) as (cs & El & Hcs).
  destruct cs as [|c cs].
  { exfalso. subst l. cbn [app hd rev] in Hend.
    destruct Hend as [(-> & _)|(-> & _)]; cbn [List.length app] in Hlen; lia. }
  subst l. cbn [app hd] in *.
  destruct (Hbounds c) as (Hcap & _);
    [apply Hb; left; reflexivity|inversion Hcs; assumption|].
  lra.
Qed.

End Loads.

(** No route [solve] returns delivers more than a vehicle carries: when the
    arcs are binary and the cumulative demands [u] satisfy the constraints
    of lines 92-110, the demands of the customers of each route sum to at
    most the capacity. *)
Theorem solve_respects_capacity
    (num_vehicles depot_idx num_locations : nat)
    (dist_matrix : nat -> nat -> Q) (demands : nat -> Q) (capacity : Q)
    (x : nat -> nat -> nat -> Q) (u : nat -> nat -> Q) (fuel : nat) :
  depot_idx < num_locations ->
  binary num_vehicles num_locations x ->
  visited_once num_vehicles depot_idx num_locations x ->
  mtz num_vehicles depot_idx num_locations demands capacity x u ->
  num_locations < fuel ->
  exists sol,
    solve num_vehicles depot_idx num_locations dist_matrix fuel
          (Solved OPTIMAL x) = Some sol /\
    Forall (fun r => (load demands depot_idx r <= capacity)%Q) (routes sol).
Proof.
  intros Hd Hbin Hv Hmtz Hfuel.
  pose proof (binary_nonnegative _ _ _ Hbin) as Hn.
  destruct (RouteFacts.extract_routes num_vehicles depot_idx num_locations x
              Hd Hn Hv fuel Hfuel (seq 0 num_vehicles)) as (rs & Hex & Hall).
  { intros k Hk. apply in_seq in Hk. lia. }
  eexists. unfold solve. rewrite Z.eqb_refl, Hex, RouteFacts.non_empty_kept.
  split; [reflexivity|]. cbn [routes].
  apply Forall_forall. intros r Hr. apply filter_In in Hr.
  destruct Hr as (Hr & Hlen). apply Nat.ltb_lt in Hlen.
  destruct (Forall2_In_r _ _ _ r Hall Hr) as (k & Hk & Hroute).
  apply in_seq in Hk.
  apply (route_load num_vehicles depot_idx num_locations x demands capacity u
           Hbin Hmtz k r Hd); [lia|exact Hroute|exact Hlen].
Qed.

Lemma solve_respects_capacity_witness :
  exists sol,
    solve 1 0 4 Scenarios.ten_apart 5 (Solved OPTIMAL Scenarios.square_tour)
      = Some sol /\
    Forall (fun r => (load Scenarios.unit_demands 0 r <= 3)%Q) (routes sol).
Proof.
  apply (solve_respects_capacity 1 0 4 Scenarios.ten_apart
           Scenarios.unit_demands 3 Scenarios.square_tour
           Scenarios.square_loads 5).
  - lia.
  - intros i j k _ _ _. unfold Scenarios.square_tour.
    match goal with |- context [if ?b then _ else _] => destruct b end;
      [right|left]; reflexivity.
  - intros j Hj Hjd.
    destruct j as [|[|[|[|j]]]]; try lia; reflexivity.
  - intros k Hk. destruct k as [|k]; [|lia].
    split; [reflexivity|]. split.
    + intros i Hi Hid.
      destruct i as [|[|[|[|i]]]]; try lia; split; vm_compute; discriminate.
    + intros i j Hi Hj Hid Hjd Hij.
      destruct i as [|[|[|[|i]]]]; try lia;
        destruct j as [|[|[|[|j]]]]; try lia; vm_compute; discriminate.
  - lia.
Defined.

(** *** Every customer is served *)

Lemma Forall2_In_l {A B : Type} (R : A -> B -> Prop) (l : list A)
    (l' : list B) (a : A) :
  Forall2 R l l' -> In a l -> exists b, In b l' /\ R a b.
Proof.
  induction 1 as [|a0 b l l' Hab Hrest IH]; [intros []|].
  intros [<-|Hin].
  - exists b. split; [left; reflexivity|exact Hab].
  - destruct (IH Hin) as (b' & Hb' & HR). exists b'. split; [right|]; assumption.
Qed.

Section Coverage.

Variables num_vehicles depot_idx num_locations : nat.
Variable x : nat -> nat -> nat -> Q.
Variable demands : nat -> Q.
Variable capacity : Q.
Variable u : nat -> nat -> Q.

Hypothesis depot_in_range : depot_idx < num_locations.
Hypothesis values_binary : binary num_vehicles num_locations x.
Hypothesis customers_once : visited_once num_vehicles depot_idx num_locations x.
Hypothesis flows : flow_conservation num_vehicles num_locations x.
Hypothesis depot_arcs : depot_degree num_vehicles depot_idx num_locations x.
Hypothesis cumulative :
  mtz num_vehicles depot_idx num_locations demands capacity x u.
Hypothesis demands_positive :
  forall j, j < num_locations -> j <> depot_idx -> (0 < demands j)%Q.

Let values_nonneg : nonnegative num_vehicles num_locations x :=
  binary_nonnegative _ _ _ values_binary.

(** Some vehicle enters each customer. *)
Lemma entering_arc (j : nat) :
  j < num_locations -> j <> depot_idx ->
  exists a k, a < num_locations /\ a <> j /\ k < num_vehicles /\
              selected x a j k = true.
Proof.
  intros Hj Hjd. pose proof (customers_once j Hj Hjd) as Hsum.
  destruct (quicksum_positive_member _ ltac:(rewrite Hsum; reflexivity))
    as (q & Hq & Hpos).
  apply in_flat_map in Hq. destruct Hq as (a & Ha & Hq).
  destruct (Nat.eqb_spec a j) as [|Hne]; [destruct Hq|].
  apply in_map_iff in Hq. destruct Hq as (k & <- & Hk).
  apply in_seq in Ha. apply in_seq in Hk.
  exists a, k. split; [lia|]. split; [exact Hne|]. split; [lia|].
  apply (positive_is_selected num_vehicles num_locations x values_binary);
    auto; lia.
Qed.

(** What enters a customer with one vehicle is at most what enters it with
    all of them. *)
Lemma inflow_le_one (h k : nat) :
  h < num_locations -> h <> depot_idx -> k < num_vehicles ->
  (inflow num_locations x h k <= 1)%Q.
Proof.
  intros Hh Hhd Hk. rewrite <- (customers_once h Hh Hhd). unfold inflow.
  apply quicksum_blocks_le. intros i Hi. apply in_seq in Hi.
  destruct (i =? h); [apply Qle_refl|].
  cbn [quicksum fold_right]. rewrite Qplus_0_r.
  apply RouteFacts.quicksum_member.
  - apply Forall_forall. intros q Hq. apply in_map_iff in Hq.
    destruct Hq as (k0 & <- & Hk0). apply in_seq in Hk0.
    apply values_nonneg; lia.
  - apply in_map_iff. exists k. split; [reflexivity|apply in_seq; lia].
Qed.

(** A vehicle leaves a node over at most one arc. *)
Lemma unique_exit (a b b' k : nat) :
  a < num_locations -> b < num_locations -> b' < num_locations ->
  k < num_vehicles -> b <> a -> b' <> a ->
  selected x a b k = true -> selected x a b' k = true -> b = b'.
Proof.
  intros Ha Hb Hb' Hk Hba Hb'a Hs Hs'.
  destruct (Nat.eq_dec b b') as [|Hne]; [assumption|exfalso].
  apply (selected_is_one num_vehicles num_locations x values_binary) in Hs;
    auto.
  apply (selected_is_one num_vehicles num_locations x values_binary) in Hs';
    auto.
  set (g := fun j => if j =? a then [] else [x a j k]).
  assert (Hg : forall j, In j (seq 0 num_locations) ->
                         Forall (fun q => 0 <= q)%Q (g j)).
  { intros j Hj. apply in_seq in Hj. unfold g.
    destruct (j =? a); constructor; [|constructor].
    apply values_nonneg; lia. }
  pose proof (RouteFacts.quicksum_two_blocks g (seq 0 num_locations) b b' Hg
                ltac:(apply in_seq; lia) ltac:(apply in_seq; lia) Hne) as Htwo.
  unfold g at 1 2 in Htwo.
  destruct (Nat.eqb_spec b a); [contradiction|].
  destruct (Nat.eqb_spec b' a); [contradiction|].
  cbn [quicksum fold_right] in Htwo.
  change (quicksum (flat_map g (seq 0 num_locations)))
    with (outflow num_locations x a k) in Htwo.
  assert (Hout : (outflow num_locations x a k <= 1)%Q).
  { destruct (Nat.eq_dec a depot_idx) as [->|Had].
    - exact (proj1 (depot_arcs k Hk)).
    - rewrite <- (flows k a Hk Ha). apply inflow_le_one; assumption. }
  lra.
Qed.

(** From a customer that a vehicle enters, the arcs of that vehicle lead
    back to the depot: the cumulative demands decrease on the way. *)
Lemma backward_chain (k : nat) :
  k < num_vehicles ->
  forall fuel c seen,
    c < num_locations -> c <> depot_idx ->
    (exists a, a < num_locations /\ a <> c /\ selected x a c k = true) ->
    NoDup (c :: seen) ->
    (forall s, In s seen -> s < num_locations /\ (u c k < u s k)%Q) ->
    num_locations < fuel + List.length (c :: seen) ->
    exists l, chain depot_idx x k (c :: l) /\
              forall a, In a l -> a < num_locations.
Proof.
  intro Hk. destruct (cumulative k Hk) as (_ & _ & Hmtz).
  induction fuel as [|fuel IH]; intros c seen Hc Hcd (a & Ha & Hac & Hs) Hnd
                                        Hseen Hfuel.
  - exfalso.
    pose proof (RouteFacts.stops_bounded depot_idx num_locations
                  depot_in_range (c :: seen) Hnd) as Hlen.
    assert (List.length (c :: seen) <= num_locations); [|lia].
    apply Hlen. intros s [<-|Hin]; [exact Hc|apply Hseen; exact Hin].
  - destruct (Nat.eq_dec a depot_idx) as [->|Had].
    + exists [depot_idx]. split.
      * apply chain_next; [constructor|exact Hs|exact Hac|exact Hcd].
      * intros s [<-|[]]. exact depot_in_range.
    + assert (Hstep : (u a k < u c k)%Q).
      { pose proof (Hmtz a c Ha Hc Had Hcd Hac) as H.
        apply (selected_is_one num_vehicles num_locations x values_binary)
          in Hs; auto.
        rewrite Hs in H. pose proof (demands_positive c Hc Hcd). lra. }
      destruct (IH a (c :: seen)) as (l & Hl & Hb); auto.
      * destruct (entry_exists num_vehicles depot_idx num_locations x
                    depot_in_range values_binary flows
                    a c k Ha Hc Hk) as (a' & Ha' & Ha'a & Hs'); auto.
        exists a'. auto.
      * constructor; [|exact Hnd].
        intros [Heq|Hin]; [congruence|].
        destruct (Hseen a Hin) as (_ & Hlt). lra.
      * intros s [<-|Hin]; [split; assumption|].
        destruct (Hseen s Hin) as (Hsn & Hlt). split; [exact Hsn|lra].
      * cbn [List.length] in *. lia.
      * exists (a :: l). split.
        -- apply chain_next; auto.
        -- intros s [<-|Hin]; [exact Ha|apply Hb; exact Hin].
Qed.

Lemma chain_successor (k a : nat) (l : list nat) :
  chain depot_idx x k l ->
  In a l ->
  a = hd depot_idx l \/
  exists b, In b l /\ selected x a b k = true /\ b <> depot_idx /\ b <> a.
Proof.
  induction 1 as [|b a0 l Hc IH Hsel Hab Hb].
  - intros [<-|[]]. left; reflexivity.
  - intros [<-|Hin]; [left; reflexivity|]. right.
    destruct (IH Hin) as [->|(b' & Hb' & Hs' & Hd' & Hn')].
    + exists b. split; [left; reflexivity|]. cbn [hd]. auto.
    + exists b'. split; [right; exact Hb'|auto].
Qed.

(** The route of a vehicle holds every chain of that vehicle. *)
Lemma chain_within (k : nat) (lr : list nat) :
  k < num_vehicles ->
  chain depot_idx x k lr ->
  (forall a, In a lr -> a < num_locations) ->
  Spec.no_outgoing num_locations x k (hd depot_idx lr) \/
  Spec.followed num_locations x k (hd depot_idx lr) depot_idx ->
  forall l,
    chain depot_idx x k l ->
    (forall a, In a l -> a < num_locations) ->
    forall b, In b l -> In b lr.
Proof.
  intros Hk Hlr Hblr Hend.
  induction 1 as [|b a l Hc IH Hsel Hab Hb]; intros Hbl c Hin.
  - destruct Hin as [<-|[]].
    destruct (chain_shape depot_idx x k lr Hlr) as (cs & -> & _).
    apply in_or_app. right; left; reflexivity.
  - assert (IH' : forall c, In c (a :: l) -> In c lr)
      by (apply IH; intros s Hs; apply Hbl; right; exact Hs).
    destruct Hin as [<-|Hin]; [|exact (IH' c Hin)].
    assert (Ha : In a lr) by (apply IH'; left; reflexivity).
    assert (Han : a < num_locations) by (apply Hblr; exact Ha).
    assert (Hbn : b < num_locations) by (apply Hbl; left; reflexivity).
    destruct (chain_successor k a lr Hlr Ha) as [Ehd|(b' & Hb' & Hs' & _ & Hn')].
    + exfalso. rewrite <- Ehd in Hend. destruct Hend as [Hno|Hfol].
      * apply (Hno b Hbn); [congruence|].
        apply RouteFacts.selected_arc. exact Hsel.
      * destruct Hfol as (_ & Hda & Harc & _).
        apply RouteFacts.selected_arc in Harc.
        apply Hb.
        apply (unique_exit a b depot_idx k); auto.
    + assert (b = b'); [|subst b'; exact Hb'].
      apply (unique_exit a b b' k); auto.
Qed.

(** The route of the vehicle that enters a customer visits it, and is
    kept. *)
Lemma customer_on_route (k j : nat) (r : list nat) :
  k < num_vehicles -> j < num_locations -> j <> depot_idx ->
  (exists a, a < num_locations /\ a <> j /\ selected x a j k = true) ->
  Spec.route num_locations depot_idx x k r ->
  In j r /\ 2 < List.length r.
Proof.
  intros Hk Hj Hjd Hentered Hr.
  destruct (backward_chain k Hk num_locations j [] Hj Hjd Hentered)
    as (l & Hl & Hbl).
  { constructor; [intros []|constructor]. }
  { intros s []. }
  { cbn [List.length]. lia. }
  destruct (route_chain depot_idx num_locations x depot_in_range k r Hr)
    as (lr & Hlr & Hblr & Hend).
  assert (Hjlr : In j lr).
  { apply (chain_within k lr Hk Hlr Hblr) with (l := j :: l).
    - destruct Hend as [(_ & H)|(_ & H)]; auto.
    - exact Hl.
    - intros s [<-|Hs]; [exact Hj|apply Hbl; exact Hs].
    - left; reflexivity. }
  destruct (chain_shape depot_idx x k lr Hlr) as (cs & Elr & Hcs).
  assert (Hjcs : In j cs).
  { rewrite Elr in Hjlr. apply in_app_or in Hjlr.
    destruct Hjlr as [H|[H|[]]]; [exact H|congruence]. }
  destruct cs as [|c cs]; [destruct Hjcs|].
  assert (Hlong : 2 < List.length (rev lr ++ [depot_idx])).
  { rewrite length_app, length_rev, Elr, length_app. cbn [List.length]. lia. }
  destruct Hend as [(Er & Hno)|(Er & Hfol)].
  - exfalso. rewrite Elr in Hno. cbn [app hd] in Hno.
    assert (Hc : c < num_locations)
      by (apply Hblr; rewrite Elr; left; reflexivity).
    assert (Hentered_c : exists a, a < num_locations /\ a <> c /\
                                   selected x a c k = true).
    { rewrite Elr in Hlr, Hblr. cbn [app] in Hlr, Hblr.
      destruct (cs ++ [depot_idx]) as [|a t] eqn:Et;
        [destruct cs; discriminate|].
      inversion Hlr as [|b a' l' Hc' Hsel Hab Hbd]; subst.
      exists a. split; [apply Hblr; right; left; reflexivity|auto]. }
    destruct Hentered_c as (a & Ha & Hac & Hsel).
    destruct (exit_exists num_vehicles depot_idx num_locations x
                depot_in_range values_binary flows
                a c k Ha Hc Hk Hac Hsel) as (b & Hb & Hbc & Hsb).
    apply (Hno b Hb Hbc). apply RouteFacts.selected_arc. exact Hsb.
  - rewrite Er. split; [|exact Hlong].
    apply in_or_app. left. apply in_rev in Hjlr. exact Hjlr.
Qed.

End Coverage.

(** Every customer is served: with binary arcs, every customer entered
    once, flow conserved, at most one departure from the depot per vehicle,
    and cumulative demands as in lines 92-110 for demands that are strictly
    positive, each location other than the depot is on one of the routes
    [solve] returns. *)
Theorem solve_serves_every_customer
    (num_vehicles depot_idx num_locations : nat)
    (dist_matrix : nat -> nat -> Q) (demands : nat -> Q) (capacity : Q)
    (x : nat -> nat -> nat -> Q) (u : nat -> nat -> Q) (fuel : nat) :
  depot_idx < num_locations ->
  binary num_vehicles num_locations x ->
  visited_once num_vehicles depot_idx num_locations x ->
  flow_conservation num_vehicles num_locations x ->
  depot_degree num_vehicles depot_idx num_locations x ->
  mtz num_vehicles depot_idx num_locations demands capacity x u ->
  (forall j, j < num_locations -> j <> depot_idx -> (0 < demands j)%Q) ->
  num_locations < fuel ->
  exists sol,
    solve num_vehicles depot_idx num_locations dist_matrix fuel
          (Solved OPTIMAL x) = Some sol /\
    forall j, j < num_locations -> j <> depot_idx ->
              exists r, In r (routes sol) /\ In j r.
Proof.
  intros Hd Hbin Hv Hflow Hdep Hmtz Hpos Hfuel.
  pose proof (binary_nonnegative _ _ _ Hbin) as Hn.
  destruct (RouteFacts.extract_routes num_vehicles depot_idx num_locations x
              Hd Hn Hv fuel Hfuel (seq 0 num_vehicles)) as (rs & Hex & Hall).
  { intros k Hk. apply in_seq in Hk. lia. }
  eexists. unfold solve. rewrite Z.eqb_refl, Hex, RouteFacts.non_empty_kept.
  split; [reflexivity|]. cbn [routes]. intros j Hj Hjd.
  destruct (entering_arc num_vehicles depot_idx num_locations x Hd Hbin Hv
              j Hj Hjd) as (a & k & Ha & Haj & Hk & Hs).
  destruct (Forall2_In_l _ _ _ k Hall) as (r & Hr & Hroute);
    [apply in_seq; lia|].
  destruct (customer_on_route num_vehicles depot_idx num_locations x demands
              capacity u Hd Hbin Hv Hflow Hdep Hmtz Hpos k j r Hk Hj Hjd)
    as (Hin & Hlen); [exists a; auto|exact Hroute|].
  exists r. split; [|exact Hin].
  apply filter_In. split; [exact Hr|apply Nat.ltb_lt; exact Hlen].
Qed.

Lemma solve_serves_every_customer_witness :
  exists sol,
    solve 1 0 4 Scenarios.ten_apart 5 (Solved OPTIMAL Scenarios.square_tour)
      = Some sol /\
    forall j, j < 4 -> j <> 0 -> exists r, In r (routes sol) /\ In j r.
Proof.
  apply (solve_serves_every_customer 1 0 4 Scenarios.ten_apart
           Scenarios.unit_demands 3 Scenarios.square_tour
           Scenarios.square_loads 5).
  - lia.
  - intros i j k _ _ _. unfold Scenarios.square_tour.
    match goal with |- context [if ?b then _ else _] => destruct b end;
      [right|left]; reflexivity.
  - intros j Hj Hjd.
    destruct j as [|[|[|[|j]]]]; try lia; reflexivity.
  - intros k h Hk Hh. destruct k as [|k]; [|lia].
    destruct h as [|[|[|[|h]]]]; try lia; reflexivity.
  - intros k Hk. destruct k as [|k]; [|lia].
    split; vm_compute; discriminate.
  - intros k Hk. destruct k as [|k]; [|lia].
    split; [reflexivity|]. split.
    + intros i Hi Hid.
      destruct i as [|[|[|[|i]]]]; try lia; split; vm_compute; discriminate.
    + intros i j Hi Hj Hid Hjd Hij.
      destruct i as [|[|[|[|i]]]]; try lia;
        destruct j as [|[|[|[|j]]]]; try lia; vm_compute; discriminate.
  - intros j Hj Hjd. destruct j as [|[|[|[|j]]]]; try lia; reflexivity.
  - lia.
Defined.

End TourFacts.

(** ** The analysis of an answer *)

Module AnalysisFacts.

Import Engine Validation Optimizers Factory Contracts Scenarios Analysis.

(** *** The analyses return *)

Lemma add_financials_returns (pd : dict product) (entry : string * Q)
    (acc : Q * Q * Q) :
  (forall n p, In (n, p) pd ->
               product_ok p /\ in_float_range (profit_per_unit p) /\
               in_float_range (cost_per_unit p)) ->
  exists acc', add_financials pd entry acc = Ret acc'.
Proof.
  intros Hpd. destruct entry as [product quantity].
  destruct acc as [[tp tc] rev].
  unfold add_financials, dict_mem.
  destruct (dict_get product pd) as [p|] eqn:Ep; cbn [andb]; [|eauto].
  destruct (Qltb 0 quantity); [|eauto].
  destruct (Hpd _ _ (PipelineFacts.dict_get_entry _ _ _ Ep))
    as ((_ & (pu & Hpu & _) & (cu & Hcu & _)) & Rpu & Rcu).
  cbn [get bind]. rewrite Hpu, Hcu in *. cbn [get bind subscript mul].
  rewrite (float_in_range pu (Rpu pu eq_refl)),
          (float_in_range cu (Rcu cu eq_refl)).
  cbn [bind]. eauto.
Qed.

Lemma financials_of_returns (pd : dict product) (plan : dict Q) :
  (forall n p, In (n, p) pd ->
               product_ok p /\ in_float_range (profit_per_unit p) /\
               in_float_range (cost_per_unit p)) ->
  exists f, financials_of pd plan = Ret f.
Proof.
  intro Hpd. unfold financials_of.
  destruct (PipelineFacts.for_each_returns (fun _ : Q * Q * Q => True)
              (add_financials pd) plan) with (st := (0%Q, 0%Q, 0%Q))
    as ([[tp tc] rev] & E & _).
  - intros entry acc _ _.
    destruct (add_financials_returns pd entry acc Hpd) as (acc' & E).
    exists acc'. auto.
  - exact I.
  - rewrite E. cbn [bind]. eauto.
Qed.

Lemma resources_of_returns (u : dict utilization) :
  (forall n ut, In (n, ut) u -> (Qabs (available ut) < float_limit)%Q) ->
  exists ra, resources_of u = Ret ra.
Proof.
  intro Hu. unfold resources_of.
  destruct (PipelineFacts.for_each_returns
              (fun _ : list bottleneck * list underused => True)
              classify u) with (st := (@nil bottleneck, @nil underused))
    as ([b un] & E & _).
  - intros [n ut] [b un] Hin _. unfold classify.
    rewrite (float_in_range _ (Hu n ut Hin)). cbn [bind].
    destruct (Qle_bool _ _); [eauto|]. destruct (Qltb _ _); eauto.
  - exact I.
  - rewrite E. cbn [bind]. eauto.
Qed.

(** The capacities reported in the utilisation are those of the
    resources. *)
Lemma _get_resource_utilization_available (s : solved) (rd : dict resource)
    (pv : dict var) (tbl : dict (dict (option Q))) (u : dict utilization) :
  _get_resource_utilization s rd pv tbl = Ret u ->
  forall n ut, In (n, ut) u ->
               exists r, In (n, r) rd /\
                         available_capacity r = Num (available ut).
Proof.
  unfold _get_resource_utilization.
  apply (BuilderFacts.for_each_invariant
           (fun u0 : dict utilization =>
              forall n ut, In (n, ut) u0 ->
                           exists r, In (n, r) rd /\
                                     available_capacity r = Num (available ut)));
    [|intros n ut []].
  intros [rn r] u0 u1 Hin Hu0.
  destruct (available_capacity r) as [| |a] eqn:Ea; cbn [subscript bind];
    try discriminate.
  - match goal with |- context [for_each ?f tbl 0%Q] =>
      destruct (for_each f tbl 0%Q) end;
      cbn [bind gt lt]; discriminate.
  - match goal with |- context [for_each ?f tbl 0%Q] =>
      destruct (for_each f tbl 0%Q) as [used_r|] end;
      cbn [bind gt lt]; [|discriminate].
    destruct (Qltb 0 a); cbn [bind]; floated;
      intro H; inversion H; subst; clear H;
      intros n ut Hn;
      apply PipelineFacts.dict_set_entries in Hn;
      (destruct Hn as [Hn|Hn]; [|exact (Hu0 _ _ Hn)]);
      inversion Hn; subst; exists r; (split; [exact Hin|exact Ea]).
Qed.

(** *** The financial summary *)

Lemma add_financials_sums (pd : dict product) (plan : dict Q) :
  forall tp tc rev tp' tc' rev' : Q,
    for_each (add_financials pd) plan (tp, tc, rev) = Ret (tp', tc', rev') ->
    tp' = fold_left Qplus (map (profit_of pd) (priced pd plan)) tp /\
    tc' = fold_left Qplus (map (cost_of pd) (priced pd plan)) tc /\
    rev' = fold_left Qplus
             (map (fun entry => (profit_of pd entry + cost_of pd entry)%Q)
                  (priced pd plan)) rev.
Proof.
  induction plan as [|[product quantity] plan IH]; intros tp tc rev tp' tc' rev'.
  - simpl. intro H; inversion H; subst. auto.
  - cbn [for_each priced filter fst snd]. unfold add_financials at 1.
    unfold dict_mem, profit_of, cost_of.
    destruct (dict_get product pd) as [p|] eqn:Ep; cbn [andb];
      [|cbn [bind]; apply IH].
    destruct (Qltb 0 quantity); [|cbn [bind]; apply IH].
    cbn [get bind map fold_left fst snd]. rewrite Ep.
    destruct (profit_per_unit p) as [| |pu]; cbn [subscript bind mul];
      try discriminate.
    floated.
    destruct (cost_per_unit p) as [| |cu]; cbn [subscript bind mul];
      try discriminate.
    floated.
    intro H. exact (IH _ _ _ _ _ _ H).
Qed.

(** The financial summary of [analyze_results] is computed from the entries
    of the plan that name a declared product made in a positive quantity,
    in the order of the plan: [total_profit] is the sum of their profits
    (profit per unit times quantity), [total_cost] the sum of their costs,
    [revenue] the sum of profit plus cost entry by entry, and the margin is
    [total_profit / revenue * 100] when the revenue is positive and zero
    otherwise. *)
Theorem analyze_results_financials (d : data) (r r' : result)
    (a : analysis_t) (f : financials_t) :
  analyze_results r d = Ret (r', Some a) ->
  a_financials a = Some f ->
  exists ps pd plan,
    products d = Some ps /\ index_by "name" p_name ps = Ret pd /\
    production_plan r = Some plan /\
    total_profit f = sum (map (profit_of pd) (priced pd plan)) /\
    total_cost f = sum (map (cost_of pd) (priced pd plan)) /\
    revenue f =
      sum (map (fun entry => (profit_of pd entry + cost_of pd entry)%Q)
               (priced pd plan)) /\
    profit_margin_pct f =
      (if Qltb 0 (revenue f) then (total_profit f / revenue f * 100)%Q
       else 0%Q).
Proof.
  unfold analyze_results.
  destruct (negb _); [discriminate|].
  destruct (objective d); cbn [get bind]; [|discriminate].
  destruct (products d) as [ps|] eqn:Eps; cbn [get bind]; [|discriminate].
  destruct (index_by "name" p_name ps) as [pd|] eqn:Epd; cbn [bind];
    [|discriminate].
  destruct (production_plan r) as [plan|].
  - unfold financials_of.
    destruct (for_each (add_financials pd) plan (0%Q, 0%Q, 0%Q))
      as [[[tp tc] rev]|] eqn:E; cbn [bind]; [|discriminate].
    destruct (add_financials_sums pd plan _ _ _ _ _ _ E) as (Htp & Htc & Hrev).
    match goal with |- context [bind ?m _] => destruct m; cbn [bind] end;
      [|discriminate].
    intros H Hf. inversion H; subst a. cbn [a_financials] in Hf.
    inversion Hf; subst f. cbn [total_profit total_cost revenue
                                 profit_margin_pct].
    exists ps, pd, plan. unfold sum. rewrite <- Htp, <- Htc, <- Hrev.
    repeat (split; [first [reflexivity|assumption]|]). reflexivity.
  - cbn [bind].
    match goal with |- context [bind ?m _] => destruct m; cbn [bind] end;
      [|discriminate].
    intros H Hf. inversion H; subst a. discriminate.
Qed.

Lemma analyze_results_financials_witness :
  exists a f,
    analyze_results (produced 10) (one_product 10 None) =
      Ret (produced 10, Some a) /\
    a_financials a = Some f /\
    total_profit f = (0 + 1 * 10)%Q /\
    revenue f = (0 + (1 * 10 + 1 * 10))%Q.
Proof.
  do 2 eexists. split; [reflexivity|]. split; [reflexivity|].
  destruct (analyze_results_financials (one_product 10 None) (produced 10)
              _ _ _ eq_refl eq_refl)
    as (ps & pd & plan & Hps & Hpd & Hplan & Htp & _ & Hrev & _).
  inversion Hps; subst ps. vm_compute in Hpd. inversion Hpd; subst pd.
  inversion Hplan; subst plan.
  split; [exact Htp|exact Hrev].
Defined.

(** *** Analysing what [optimize] answers *)

Lemma answer_with_solution (reg : registry) (e : engine)
    (optimizer_type : string) (d : data) (r : result) :
  snd (optimize reg e optimizer_type d) = Ret r ->
  r_status r = "optimal" \/ r_status r = "solution_warning" ->
  accepted d /\ with_solution r.
Proof.
  unfold optimize, optimize_body.
  destruct (validate_optimization_input d) as [[[|] errs]|ex] eqn:Ev;
    cbn [negb fst snd].
  - destruct (AcceptanceFacts.validator_sound d errs Ev) as (_ & Hacc).
    destruct (get_optimizer reg optimizer_type) as [c|ex]; cbn [fst snd].
    2:{ destruct ex; intros H [Hst|Hst]; inversion H; subst; discriminate. }
    pose proof (PipelineFacts.solve_shape c e d) as Hs.
    destruct (Factory.solve c e d) as [evs r0]. cbn [fst snd] in *.
    destruct (check_feasibility r0 d) as [r1|ex] eqn:Ec.
    + intros H Hst. inversion H; subst r1. split; [exact Hacc|].
      pose proof (PipelineFacts.check_feasibility_envelope _ _ _ Hs Ec) as Henv.
      destruct Henv as [(Hv & _)|(_ & [(_ & Hsol & _)|[(_ & Hsol & _)|
                        [(Hi & _)|([Hu|Hu] & _)]]])];
        try exact Hsol;
        destruct Hst as [Hst|Hst]; congruence.
    + destruct ex; intros H [Hst|Hst]; inversion H; subst; discriminate.
  - intros H [Hst|Hst]; inversion H; subst; discriminate.
  - destruct ex; intros H [Hst|Hst]; inversion H; subst; discriminate.
Qed.

Lemma check_feasibility_utilization (r0 r : result) (d : data) :
  check_feasibility r0 d = Ret r ->
  resource_utilization r = resource_utilization r0.
Proof.
  unfold check_feasibility.
  destruct (String.eqb (r_status r0) "optimal");
    [|intro H; inversion H; reflexivity].
  destruct (validate_solution_feasibility r0 d) as [[ok ws]|]; cbn [bind];
    [|discriminate].
  destruct (negb ok); [intro H; inversion H; reflexivity|].
  destruct (negb (is_empty ws)); intro H; inversion H; reflexivity.
Qed.

(** The utilisation in an answer of [optimize] was computed from the
    resources of the payload. *)
Lemma answer_utilization (reg : registry) (e : engine)
    (optimizer_type : string) (d : data) (r : result) (u : dict utilization) :
  snd (optimize reg e optimizer_type d) = Ret r ->
  resource_utilization r = Some u ->
  exists c s m pv rd tbl,
    match c with
    | Factory.BasicProductionOptimizer => BasicProductionOptimizer.build d
    | Factory.DemandConstrainedOptimizer => DemandConstrainedOptimizer.build d
    end = Ret (m, pv, rd, tbl) /\
    _get_resource_utilization s rd pv tbl = Ret u.
Proof.
  unfold optimize, optimize_body.
  destruct (validate_optimization_input d) as [[[|] errs]|ex] eqn:Ev;
    cbn [negb fst snd].
  - destruct (get_optimizer reg optimizer_type) as [c|ex]; cbn [fst snd].
    2:{ destruct ex; intros H Hu; inversion H; subst; discriminate. }
    pose proof (TotalFacts.snd_solve c e d) as Hsnd.
    destruct (Factory.solve c e d) as [evs r0]. cbn [fst snd] in *.
    destruct (check_feasibility r0 d) as [r1|ex] eqn:Ec.
    2:{ destruct ex; intros H Hu; inversion H; subst; discriminate. }
    intros H Hu. inversion H; subst r1.
    rewrite (check_feasibility_utilization _ _ _ Ec) in Hu.
    subst r0. revert Hu. unfold finish. cbn [snd].
    match goal with |- context [bind ?b _] =>
      destruct b as [[[[m pv] rd] tbl]|ex] eqn:Eb end;
      cbn [bind]; [|discriminate].
    destruct (e m) as [s|ex]; cbn [bind]; [|discriminate].
    unfold _prepare_result.
    destruct (Z.eqb (Engine.status s) OPTIMAL).
    + destruct (_get_resource_utilization s rd pv tbl) as [u0|] eqn:Eu;
        cbn [bind]; [|discriminate].
      cbn [resource_utilization]. intro Hu. inversion Hu; subst u0.
      exists c, s, m, pv, rd, tbl. split; [exact Eb|exact Eu].
    + destruct (Z.eqb (Engine.status s) INFEASIBLE).
      * destruct (computeIIS s); cbn [bind]; discriminate.
      * destruct (Z.eqb (Engine.status s) UNBOUNDED); discriminate.
  - intros H Hu. inversion H; subst. discriminate.
  - destruct ex; intros H Hu; inversion H; subst; discriminate.
Qed.

(** For a moderate payload (every number converts to a float),
    [analyze_results] never raises on an answer of [optimize] that carries a
    solution: it returns the answer with all three analyses, and the
    products it lists as unused are the declared products whose planned
    quantity is at most [1e-6], counted by [unused_count], which is at most
    [total_products]. *)
Theorem analyze_results_of_answer (reg : registry) (e : engine)
    (optimizer_type : string) (d : data) (r : result) :
  moderate d ->
  snd (optimize reg e optimizer_type d) = Ret r ->
  r_status r = "optimal" \/ r_status r = "solution_warning" ->
  exists f ra pa ps plan,
    analyze_results r d =
      Ret (r, Some {| a_financials := Some f; a_resources := Some ra;
                      a_products := Some pa |}) /\
    products d = Some ps /\ production_plan r = Some plan /\
    (forall p, In p (unused_products pa) <->
               declares p_name ps p /\
               forall q, dict_get p plan = Some q -> (q <= 1 # 1000000)%Q) /\
    unused_count pa = List.length (unused_products pa) /\
    unused_count pa <= total_products pa.
Proof.
  intros Hmod Hopt Hst.
  destruct (answer_with_solution reg e optimizer_type d r Hopt Hst)
    as (Hacc & _ & (plan & Hplan) & (u & Hu) & _).
  destruct (PipelineFacts._extract_common_data_returns d Hacc)
    as (obj & ps & rs & rus & pd & rd & tbl & Eo & Ep & Er & Eu & Epd & Erd
        & Et & Eex & Hpd & _).
  destruct (PipelineFacts.index_by_returns "name" p_name ps)
    as (pd' & Epd' & Hkeys & Hrows).
  { destruct Hacc as (obj' & ps' & _ & _ & _ & Ep' & _ & _ & _ & Hps & _).
    rewrite Ep in Ep'. inversion Ep'; subst ps'.
    apply (PipelineFacts.declared_named _ product_ok);
      [intros row (H & _); exact H|exact Hps]. }
  rewrite Epd in Epd'. inversion Epd'; subst pd'. clear Epd'.
  destruct (financials_of_returns pd plan) as (f & Ef).
  { intros n p Hin. split; [exact (Hpd n p Hin)|].
    destruct Hmod as (_ & _ & _ & _ & Hprices).
    exact (Hprices ps p Ep (proj1 (Hrows n p Hin))). }
  destruct (resources_of_returns u) as (ra & Era).
  { intros n ut Hin.
    destruct (answer_utilization reg e optimizer_type d r u Hopt Hu)
      as (c & s & m & pv & rd' & tbl' & Hb & Hut).
    destruct (ModelFacts.build_parts c d m pv rd' tbl' Hb)
      as (obj' & pd' & Eex' & _).
    rewrite Eex in Eex'. inversion Eex'; subst obj' pd' rd' tbl'.
    destruct (PipelineFacts._extract_common_data_moderate d rs rus rd tbl
                Hmod Er Eu Erd Et) as (Hcap & _).
    destruct (_get_resource_utilization_available s rd pv tbl u Hut n ut Hin)
      as (res & Hres & Hcapacity).
    exact (Hcap n res Hres _ Hcapacity). }
  exists f, ra, (products_of pd plan), ps, plan.
  split.
  { unfold analyze_results.
    destruct Hst as [Hst|Hst]; rewrite Hst; cbn [String.eqb Ascii.eqb Bool.eqb
                                                  orb negb];
      rewrite Eo, Ep; cbn [get bind]; rewrite Epd; cbn [bind];
      rewrite Hplan, Hu, Ef; cbn [bind]; rewrite Era; reflexivity. }
  split; [exact Ep|]. split; [exact Hplan|].
  unfold products_of. cbn [unused_products unused_count total_products].
  split; [|split; [reflexivity|]].
  - intro p. rewrite filter_In, Hkeys.
    split; intros (Hdecl & Htest); (split; [exact Hdecl|]).
    + intros q Hq. rewrite Hq in Htest. apply Qle_bool_iff. exact Htest.
    + destruct (dict_get p plan) as [q|]; [|reflexivity].
      apply Qle_bool_iff. apply Htest. reflexivity.
  - etransitivity; [apply filter_length_le|].
    unfold keys. rewrite length_map. apply Nat.le_refl.
Qed.

Lemma analyze_results_of_answer_witness :
  moderate (one_product 10 None) /\
  exists f ra pa,
    analyze_results (produced 10) (one_product 10 None) =
      Ret (produced 10,
           Some {| a_financials := Some f; a_resources := Some ra;
                   a_products := Some pa |}) /\
    unused_count pa <= total_products pa.
Proof.
  assert (Hmod : moderate (one_product 10 None))
    by PipelineFacts.moderate_payload.
  split; [exact Hmod|].
  destruct (analyze_results_of_answer _optimizers
              (answer OPTIMAL 10 (fun _ => false)) "basic"
              (one_product 10 None)
              {| r_status := "optimal";
                 solver_message := Text "Optimal solution found";
                 objective_value := Some 10%Q;
                 production_plan := Some [("A", 10%Q)];
                 resource_utilization :=
                   Some [("R", {| used := 0 + 1 * 10; available := 10;
                                  utilization_pct := (0 + 1 * 10) / 10 * 100 |})];
                 total_production := Some (0 + 10)%Q;
                 feasibility_warnings := None;
                 infeasible_constraints := None;
                 validation_errors := None |} Hmod)
    as (f & ra & pa & ps & plan & Ha & _ & _ & _ & _ & Hle).
  - vm_compute. reflexivity.
  - left; reflexivity.
  - exists f, ra, pa. split; [|exact Hle].
    vm_compute in Ha. vm_compute. exact Ha.
Defined.

End AnalysisFacts.

(** ** Where an ["error"] answer comes from *)

Module ErrorFacts.

Import Engine Validation Optimizers Factory Contracts Scenarios.

(** For a moderate payload (every number converts to a float), an answer
    of [optimize] with status ["error"] has one of two origins, and the
    payload is neither: the identifier is not registered, and the message
    says so; or the engine failed on the model built from the payload, by
    raising from [optimize], by raising from the IIS computation of an
    infeasible model, or by ending with a status other than optimal,
    infeasible and unbounded. *)
Theorem error_answer_origin (reg : registry) (e : engine)
    (optimizer_type : string) (d : data) (r : result) :
  moderate d ->
  snd (optimize reg e optimizer_type d) = Ret r ->
  r_status r = "error" ->
  (dict_get optimizer_type reg = None /\
   r = plain_result "error"
         (str (ValueError ("Unknown optimizer type: " ++ optimizer_type)%string)))
  \/
  (exists c m pv rd tbl,
      dict_get optimizer_type reg = Some c /\
      match c with
      | Factory.BasicProductionOptimizer => BasicProductionOptimizer.build d
      | Factory.DemandConstrainedOptimizer => DemandConstrainedOptimizer.build d
      end = Ret (m, pv, rd, tbl) /\
      ((exists ex, e m = Raise ex /\ r = plain_result "error" (str ex)) \/
       (exists s ex,
           e m = Ret s /\ Engine.status s = INFEASIBLE /\
           computeIIS s = Raise ex /\ r = plain_result "error" (str ex)) \/
       (exists s,
           e m = Ret s /\ Engine.status s <> OPTIMAL /\
           Engine.status s <> INFEASIBLE /\ Engine.status s <> UNBOUNDED /\
           r = plain_result "error" (Optimization_status (Engine.status s))))).
Proof.
  intro Hmod. unfold optimize, optimize_body, get_optimizer.
  destruct (validate_optimization_input d) as [[[|] errs]|ex] eqn:Ev;
    cbn [negb fst snd].
  2:{ intros H Hst. inversion H; subst. discriminate. }
  2:{ pose proof (PipelineFacts.validator_raises d ex Ev) as Hex.
      destruct ex; try contradiction; discriminate. }
  destruct (AcceptanceFacts.validator_sound d errs Ev) as (_ & Hacc).
  destruct (dict_get optimizer_type reg) as [c|]; cbn [fst snd].
  2:{ intros H _. inversion H; subst. left. auto. }
  pose proof (EntryPointFacts.verifier_after_solve c e d Hacc Hmod) as Hver.
  pose proof (TotalFacts.snd_solve c e d) as Hsnd.
  destruct (Factory.solve c e d) as [evs r0]. cbn [fst snd] in *.
  assert (Hsame : forall out : res result,
             check_feasibility r0 d = out ->
             match out with
             | Raise (ValueError msg) =>
                 Ret (plain_result "error" (str (ValueError msg)))
             | _ => out
             end = Ret r ->
             r_status r = "error" -> r = r0).
  { intros out Hout. unfold check_feasibility in Hout.
    destruct (String.eqb_spec (r_status r0) "optimal") as [Hst0|Hst0].
    - destruct (Hver Hst0) as (ws & Ews). rewrite Ews in Hout.
      cbn [bind] in Hout. subst out.
      destruct ws; cbn [is_empty negb]; intros H Hst; inversion H; subst r;
        [congruence|discriminate].
    - subst out. intros H _. inversion H. reflexivity. }
  intros H Hst. pose proof (Hsame _ eq_refl H Hst) as ->. clear Hsame H.
  right.
  destruct (PipelineFacts._extract_common_data_returns d Hacc)
    as (obj & ps & rs & rus & pd & rd & tbl & _ & _ & Er & Eu & _ & Erd & Et
        & Eex & _ & Hrd & Htbl).
  destruct (PipelineFacts._extract_common_data_moderate d rs rus rd tbl Hmod
              Er Eu Erd Et) as (Hcap & Hin_range).
  destruct (PipelineFacts.builds_on_accepted d Hacc
              (proj1 (proj2 (proj2 (proj2 Hmod)))))
    as (obj' & pd' & rd' & tbl' & Eex' & (mb & pvb & Eb) & (md & pvd & Ed)).
  rewrite Eex in Eex'. inversion Eex'; subst obj' pd' rd' tbl'. clear Eex'.
  set (b := match c with
            | Factory.BasicProductionOptimizer => BasicProductionOptimizer.build d
            | Factory.DemandConstrainedOptimizer =>
                DemandConstrainedOptimizer.build d
            end) in *.
  assert (Hb : exists m pv, b = Ret (m, pv, rd, tbl))
    by (unfold b; destruct c; eauto).
  destruct Hb as (m & pv & Hb).
  exists c, m, pv, rd, tbl. split; [reflexivity|]. split; [exact Hb|].
  rewrite Hb in Hsnd. unfold finish in Hsnd. cbn [snd bind] in Hsnd.
  destruct (e m) as [s|ex] eqn:Ee; cbn [bind] in Hsnd.
  2:{ left. exists ex. auto. }
  right. unfold _prepare_result in Hsnd.
  destruct (PipelineFacts._get_resource_utilization_returns _ s rd pv tbl Hrd
              Hcap Htbl Hin_range) as (u & Eu').
  rewrite Eu' in Hsnd. cbn [bind] in Hsnd.
  destruct (Z.eqb_spec (Engine.status s) OPTIMAL) as [E1|E1].
  { subst r0. discriminate. }
  destruct (Z.eqb_spec (Engine.status s) INFEASIBLE) as [E2|E2].
  { left. destruct (computeIIS s) as [flags|ex] eqn:Ei; cbn [bind] in Hsnd.
    - subst r0. discriminate.
    - exists s, ex. auto. }
  destruct (Z.eqb_spec (Engine.status s) UNBOUNDED) as [E3|E3].
  { subst r0. discriminate. }
  right. exists s. auto.
Qed.

Lemma error_answer_origin_witness :
  moderate (one_product 10 None) /\
  dict_get "no-such-optimizer" _optimizers = None /\
  plain_result "error"
    (str (ValueError "Unknown optimizer type: no-such-optimizer")) =
  plain_result "error"
    (str (ValueError ("Unknown optimizer type: " ++ "no-such-optimizer")%string)).
Proof.
  assert (Hmod : moderate (one_product 10 None))
    by PipelineFacts.moderate_payload.
  split; [exact Hmod|].
  destruct (error_answer_origin _optimizers (answer OPTIMAL 10 (fun _ => false))
              "no-such-optimizer" (one_product 10 None)
              (plain_result "error"
                 (str (ValueError "Unknown optimizer type: no-such-optimizer")))
              Hmod eq_refl eq_refl)
    as [H|(c & m & pv & rd & tbl & Hc & _)]; [exact H|discriminate].
Defined.

End ErrorFacts.

(** ** The two optimisers on a payload without demand constraints *)

Module EquivalenceFacts.

Import Engine Validation Optimizers Contracts Scenarios.

Lemma add_variable_nil (st : model * dict var) (p : string) :
  DemandConstrainedOptimizer.add_variable [] st p =
  BasicProductionOptimizer.add_variable st p.
Proof. destruct st as [m pv]. reflexivity. Qed.

Lemma variables_nil (names : list string) :
  forall st,
    fold_left (DemandConstrainedOptimizer.add_variable []) names st =
    fold_left BasicProductionOptimizer.add_variable names st.
Proof.
  induction names as [|p names IH]; intro st; simpl; [reflexivity|].
  rewrite add_variable_nil. apply IH.
Qed.

Lemma variables_renamed (n : string) (names : list string) :
  forall m pv,
    fold_left BasicProductionOptimizer.add_variable names (renamed n m, pv) =
    (renamed n (fst (fold_left BasicProductionOptimizer.add_variable names
                       (m, pv))),
     snd (fold_left BasicProductionOptimizer.add_variable names (m, pv))).
Proof.
  induction names as [|p names IH]; intros m pv; [reflexivity|].
  cbn [fold_left]. unfold BasicProductionOptimizer.add_variable at 2 4 6.
  cbn [addVar]. cbv zeta.
  match goal with
  | |- fold_left _ _ (?m1, ?pv1) = _ =>
      change m1 with (renamed n (fst (addVar m ("produce_" ++ p)%string 0
                                             Infinity)))
  end.
  apply IH.
Qed.

Lemma _set_objective_renamed (n : string) (m : model) (obj : string)
    (pd : dict product) (pv : dict var) :
  _set_objective (renamed n m) obj pd pv =
  match _set_objective m obj pd pv with
  | Ret m' => Ret (renamed n m')
  | Raise ex => Raise ex
  end.
Proof.
  unfold _set_objective. destruct (String.eqb obj "maximize_profit");
    match goal with |- context [for_each ?f pd []] =>
      destruct (for_each f pd []) end; reflexivity.
Qed.

Lemma _add_resource_constraints_renamed (n : string) (pd : dict product)
    (pv : dict var) (tbl : dict (dict (option Q))) (rd : dict resource) :
  forall m,
    _add_resource_constraints (renamed n m) rd pd pv tbl =
    match _add_resource_constraints m rd pd pv tbl with
    | Ret m' => Ret (renamed n m')
    | Raise ex => Raise ex
    end.
Proof.
  unfold _add_resource_constraints.
  induction rd as [|[rn r] rd IH]; intro m; [reflexivity|].
  cbn [for_each].
  match goal with |- context [for_each ?f (keys pd) []] =>
    destruct (for_each f (keys pd) []) as [lhs|] end; cbn [bind];
    [|reflexivity].
  destruct (subscript "available_capacity" (available_capacity r)) as [[c|]|];
    cbn [bind]; try reflexivity.
  apply (IH (addConstr m lhs LESS_EQUAL c ("resource_" ++ rn)%string)).
Qed.

Lemma add_total_if_given_renamed (n : string) (m : model) (d : data)
    (pd : dict product) (pv : dict var) :
  add_total_if_given (renamed n m) d pd pv =
  match add_total_if_given m d pd pv with
  | Ret m' => Ret (renamed n m')
  | Raise ex => Raise ex
  end.
Proof.
  unfold add_total_if_given, _add_total_product_constraints.
  destruct (total_constraints d) as [tc|]; [|reflexivity].
  destruct (truthy tc); [|reflexivity]. cbn [negb].
  match goal with |- context [for_each ?f (keys pd) []] =>
    destruct (for_each f (keys pd) []) as [total|] end; cbn [bind];
    [|reflexivity].
  destruct (min_total tc) as [| |lo]; destruct (max_total tc) as [| |hi];
    cbn [bind];
    try (destruct (float lo) as [lo'|]; cbn [bind]; [|reflexivity]);
    try (destruct (float hi) as [hi'|]; cbn [bind]; [|reflexivity]);
    repeat match goal with |- context [Qltb ?a ?b] => destruct (Qltb a b) end;
    reflexivity.
Qed.

(** On a payload without demand constraints (the key missing, or an empty
    list) the demand-constrained optimiser builds the model of the basic
    optimiser under its own name, the same variables, objective and
    constraints, and fails where the basic optimiser fails. *)
Theorem demand_optimizer_without_constraints (d : data) :
  demand_constraints d = None \/ demand_constraints d = Some [] ->
  DemandConstrainedOptimizer.build d =
  match BasicProductionOptimizer.build d with
  | Ret (m, pv, rd, tbl) =>
      Ret (renamed DemandConstrainedOptimizer.model_name m, pv, rd, tbl)
  | Raise ex => Raise ex
  end.
Proof.
  intro Hdc.
  unfold DemandConstrainedOptimizer.build, BasicProductionOptimizer.build,
         DemandConstrainedOptimizer._create_production_variables_with_demand,
         BasicProductionOptimizer._create_production_variables.
  destruct (_extract_common_data d) as [[[[obj pd] rd] tbl]|]; cbn [bind];
    [|reflexivity].
  assert (Hidx : match demand_constraints d with
                 | Some rows => index_by "product_name" dc_product_name rows
                 | None => Ret []
                 end = Ret []) by (destruct Hdc as [-> | ->]; reflexivity).
  rewrite Hidx. cbn [bind]. rewrite variables_nil.
  change (_create_model DemandConstrainedOptimizer.model_name)
    with (renamed DemandConstrainedOptimizer.model_name
            (_create_model BasicProductionOptimizer.model_name)).
  rewrite variables_renamed.
  match goal with |- context [fst ?F] => set (out := F) end.
  try match goal with
      | |- context [match ?G with pair _ _ => _ end] => change G with out
      end.
  destruct out as [m0 pv0]. cbn [fst snd].
  rewrite _set_objective_renamed.
  destruct (_set_objective m0 obj pd pv0) as [m1|]; cbn [bind]; [|reflexivity].
  rewrite _add_resource_constraints_renamed.
  destruct (_add_resource_constraints m1 rd pd pv0 tbl) as [m2|]; cbn [bind];
    [|reflexivity].
  rewrite add_total_if_given_renamed.
  destruct (add_total_if_given m2 d pd pv0) as [m3|]; reflexivity.
Qed.

Lemma demand_optimizer_without_constraints_witness :
  DemandConstrainedOptimizer.build (one_product 10 (Some [])) =
  match BasicProductionOptimizer.build (one_product 10 (Some [])) with
  | Ret (m, pv, rd, tbl) =>
      Ret (renamed DemandConstrainedOptimizer.model_name m, pv, rd, tbl)
  | Raise ex => Raise ex
  end.
Proof.
  apply (demand_optimizer_without_constraints (one_product 10 (Some []))).
  right. reflexivity.
Defined.

End EquivalenceFacts.
